(* ===== verification/_CoqProject ===== *)
-Q . S2P
Prelude.v
Stdio.v
Creds.v
Owners.v
OwnersFile.v
Config.v
Path.v
PathFacts.v
PathSpec.v
Arch.v
Syscalls.v
Seccomp.v
World.v
Guest.v
ToyKernel.v
GuestFacts.v
Live.v
Tracee.v
PathArg.v
Dac.v
Identity.v
Mounts.v
Exec.v
Rewrite.v
Fake.v
Safety.v
Wp.v
RewriteFacts.v
IdentityFacts.v
FakeFacts.v
MountFacts.v
ExecFacts.v
CwdFacts.v
Ptrace.v
PtraceFacts.v
Run.v
RunFacts.v
Spawn.v
SpawnFacts.v
Probe.v
Cli.v
Jni.v
Findings.v
