(* ===== verification/Prelude.v ===== *)
(** * emuroot: a verification development

    emuroot runs a program as if it were root inside a directory, without any
    privilege: it traces the program's system calls, rewrites their path
    arguments on the way in and their results on the way out.  This library
    models the C sources under src/ as executable functions and proves what
    each part promises.  This file is the prelude: C strings and buffers as
    lists of bytes, machine integers as [Z] with their wrap-around written out,
    the tactics and the generic lemmas the other files share.

    ** The program and the files that model it

    A session is configured in a context (emuroot.c), a backend is chosen, and
    the tracer (ptrace.c) hands each system call stop to the entry handlers
    (rewrite.c and its helpers) or the exit handler (fake.c).  They work on the
    traced process's memory and registers (guest.c, regs.c), translate paths
    (path.c) and keep the fake identity (creds.c, ownership.c).

    - Stdio: the printf and scanf conversions used (%u, %llu, %d).
    - Creds: src/creds.c. One function per [creds_set*] call, on a record with
      the fields of [creds_t].
    - Owners, OwnersFile: src/ownership.c. The hash table is an array of entries
      probed as in the code, with [calloc] an oracle; the saved file is text.
    - Config: src/emuroot.c, src/internal.h. [emuroot_ctx] and its setters.
    - Path, PathFacts, PathSpec: src/path.c. [walk] is the loop of
      [emuroot_translate_path_ex], with what is left to walk, the guest path so
      far, the trailing slash and the number of symlinks followed as its state;
      PathSpec has what it computes as an inductive relation.
    - Arch: src/arch.h, src/regs.c. The eight register layouts as data, the
      EMU_* roles, register fetch and store in both ptrace modes.
    - Syscalls: src/syscalls.c, [traced_syscalls] of src/ptrace.c. The tables by
      call name; the numbers come from an [ABI] (x86_64, aarch64 instances).
    - Seccomp: src/seccomp.c. The BPF program and a machine that runs it.
    - World: the interfaces of the engine ([HostFS], [GuestMem] and its laws
      [GuestLaws]) and the state monad of the handlers.
    - Guest, GuestFacts, Live: src/guest.c over the kernel calls it makes
      ([RawMem]); it implements [GuestMem] and discharges [GuestLaws].
    - ToyKernel: a concrete kernel on which the witnesses run.
    - Tracee: src/tracee.h, the state per process, and the engine state
      (context, tracee, registers, loader cache, world).
    - PathArg, Rewrite, Dac, Identity, Mounts, Exec: system call entry
      (src/rewrite.c, dac.c, identity.c, mounts.c, exec.c).
    - Fake: system call exit (src/fake.c).
    - Ptrace: src/ptrace.c. The table of tracees, [handle_stop], the event loop
      over the results of [waitpid], the whole of [emuroot_run_ptrace].
    - Run: the backend choice and [emuroot_run] (src/emuroot.c), and the
      environment-only backend (src/envonly.c).
    - Spawn: src/spawn.c, the supervisor process.
    - Probe: src/probe.c, the diagnosis.
    - Cli: src/main.c, the command line, with [getopt].
    - Jni: src/android/emuroot/src/main/cpp/emuroot_jni.c, the Java binding.
    - Safety, Wp, RewriteFacts, IdentityFacts, FakeFacts, MountFacts, ExecFacts,
      CwdFacts, PtraceFacts, RunFacts, SpawnFacts: the proofs about these. Wp is
      a small program logic for the handlers' monad.
    - Findings: executions where the code differs from its documentation.

    ** What is proved

    - Paths (PathFacts, PathSpec): the walk refines path resolution inside the
      root; it ends; its result fits the buffer, stays below
      the root when no binding applies, and leaves no symlink for the kernel.
    - Identity (Creds, Owners, OwnersFile): the [set*id] calls decide as
      documented, lost privileges do not come back, the hash table is a finite
      map under any allocation failures, and saving then loading keeps it.
    - Guest access (GuestFacts, Live): whichever method a sandbox refuses, a
      transfer is exact, complete for mapped memory, and strings are C strings.
    - The handlers (Safety and the *Facts files): every handler ends without
      undefined behaviour from any well-formed state; a path argument is
      replaced by its host path or the call fails; a credential call never
      reaches the kernel; stat, chown, chroot, mount and getcwd do what the fake
      root expects, and exec runs what it would run inside the root (ExecFacts
      has this as an inductive relation over the host's files).
    - The loop (PtraceFacts): any sequence of stops keeps the table sound, both
      orders of a fork's two stops agree, and no process is left running.
    - The outside (RunFacts, SpawnFacts, Probe, Cli, Jni): one guest per run, its
      status reaches the caller, options mean the calls they stand for, and a
      start from Java leaves no descriptor behind.

    ** Undefined behaviour, fuel and bounds

    A definition that could read or write out of bounds, or not return, gives an
    [option], [None] being the undefined case; the safety theorems say that it
    does not arise.  Loops without a structural measure take fuel: [walk] gets
    [walk_fuel], which bounds the components of the path and of the 41 symlinks
    it can follow; hash table probes get the capacity; [peek_loop] and
    [poke_loop] get the number of bytes, since each step moves at least one;
    [read_chunks] gets the buffer size; [close_rounds] one more than the open
    descriptors; [options] one more than the characters of the command line.
    In each case a theorem says that the fuel suffices.  The event loop is a
    recursion on the results of [waitpid] and needs none.

    ** What is not modelled

    Messages on stderr and their verbosity; the signal handler that sets
    [stop_signal] (its value is part of each [waitpid] result); what the forked
    child does before exec, beyond whether it reports its filter; freeing of
    memory; the search of [execvp] along PATH.  The kernel and the host's file
    system are interfaces with their documented behaviour as laws: in
    particular the file system does not change while one handler runs.  The
    Java classes, tests and packaging are left out, and of the Java virtual
    machine only what its conversions answer is there. *)

From Stdlib Require Import ZArith Lia Ascii String.
From stdpp Require Import base list gmap strings numbers.

#[global] Set Default Goal Selector "!".
Declare Scope emu_scope.
Delimit Scope emu_scope with emu.
Local Open Scope Z_scope.

(** ** C strings and buffers *)

(** The contents of a C string, without its terminating NUL. *)
Abbreviation cstr := (list ascii).

Definition NUL : ascii := "000"%char.
Definition SLASH : ascii := "/"%char.

Definition lit (s : string) : cstr := list_ascii_of_string s.
Arguments lit _%_string_scope.

(** [strlen] as the [size_t] (or [int]) the code stores. *)
Definition strlen {A} (s : list A) : Z := Z.of_nat (length s).

(** The first / all but the first [n] bytes. *)
Definition ztake {A} (n : Z) (s : list A) : list A := take (Z.to_nat n) s.
Definition zdrop {A} (n : Z) (s : list A) : list A := drop (Z.to_nat n) s.

(** [s[i]], NUL at (and past) the end. *)
Definition chr_at (s : cstr) (i : Z) : ascii := nth (Z.to_nat i) s NUL.

(** What [snprintf(buf, sz, "%s", s)] leaves in [buf]. *)
Definition snprintf (sz : Z) (s : cstr) : cstr := ztake (sz - 1) s.

(** A string stored, with its NUL, in a buffer of [sz] bytes: [None] if it runs
    past the end. *)
Definition into (sz : Z) (s : cstr) : option cstr := if strlen s <? sz then Some s else None.

(** [strncmp(s, t, n) == 0]. *)
Definition strncmp_eq (s t : cstr) (n : Z) : bool := bool_decide (ztake n s = ztake n t).

(** [strcmp(s, t) == 0]. *)
Definition strcmp_eq (s t : cstr) : bool := bool_decide (s = t).

Fixpoint drop_while {A} (f : A -> bool) (s : list A) : list A :=
  match s with
  | [] => []
  | c :: s' => if f c then drop_while f s' else s
  end.

Fixpoint take_while {A} (f : A -> bool) (s : list A) : list A :=
  match s with
  | [] => []
  | c :: s' => if f c then c :: take_while f s' else []
  end.

Definition is_slash (c : ascii) : bool := bool_decide (c = SLASH).
Definition not_slash (c : ascii) : bool := negb (is_slash c).
Definition no_slash (s : cstr) : Prop := SLASH ∉ s.

Definition ends_with_slash (s : cstr) : bool :=
  match list.last s with Some c => is_slash c | None => false end.

(** ** Machine integers *)

(** The LP64 data model: [unsigned long], [size_t] and [uint64_t] are 64 bits
    wide, [unsigned] and [uint32_t] 32 bits. *)
Definition w64 (z : Z) : Z := z mod 2 ^ 64.
Definition w32 (z : Z) : Z := z mod 2 ^ 32.
(** The value of an unsigned word read as [long] / [int]. *)
Definition s64 (z : Z) : Z := if w64 z <? 2 ^ 63 then w64 z else w64 z - 2 ^ 64.
Definition s32 (z : Z) : Z := if w32 z <? 2 ^ 31 then w32 z else w32 z - 2 ^ 32.

Definition is_u32 (z : Z) : Prop := 0 <= z < 2 ^ 32.

Lemma w32_u32 z : is_u32 (w32 z).
Proof. apply Z.mod_pos_bound; lia. Qed.
Definition is_u64 (z : Z) : Prop := 0 <= z < 2 ^ 64.

(** ** Results *)

(** How a computation of the program ends: with a value, in [abort()], or in
    undefined behaviour (which includes a loop that does not end). *)
Inductive result (A : Type) : Type := Done (x : A) | Aborted | Undefined.
Arguments Done {A} _.
Arguments Aborted {A}.
Arguments Undefined {A}.

#[export] Instance result_ret : MRet result := @Done.
#[export] Instance result_bind : MBind result := fun A B f m =>
  match m with Done x => f x | Aborted => Aborted | Undefined => Undefined end.
#[export] Instance result_fmap : FMap result := fun A B f m =>
  match m with Done x => Done (f x) | Aborted => Aborted | Undefined => Undefined end.

(** [None] is undefined behaviour. *)
Definition defined_result {A} (o : option A) : result A := match o with Some x => Done x | None => Undefined end.

(** ** errno values the sources test or return *)

Definition EPERM : Z := 1.
Definition EINTR : Z := 4.
Definition ENOENT : Z := 2.
Definition ESRCH : Z := 3.
Definition EIO : Z := 5.
Definition EFAULT : Z := 14.
Definition EINVAL : Z := 22.
Definition ENOSYS : Z := 38.

(** ** Generic tactics *)

(** Splits boolean hypotheses and case distinctions down to literals. *)
Ltac bool_cases :=
  repeat match goal with
         | H : (_ && _)%bool = true |- _ => apply andb_true_iff in H as [? ?]
         | H : (_ || _)%bool = false |- _ => apply orb_false_iff in H as [? ?]
         | H : negb _ = true |- _ => apply negb_true_iff in H
         | H : negb _ = false |- _ => apply negb_false_iff in H
         | H : (_ =? _) = true |- _ => apply Z.eqb_eq in H
         | H : (_ =? _) = false |- _ => apply Z.eqb_neq in H
         | H : (_ <? _) = true |- _ => apply Z.ltb_lt in H
         | H : (_ <? _) = false |- _ => apply Z.ltb_ge in H
         | H : (_ <=? _) = true |- _ => apply Z.leb_le in H
         | H : (_ <=? _) = false |- _ => apply Z.leb_gt in H
         | H : bool_decide _ = true |- _ => apply bool_decide_eq_true_1 in H
         | H : bool_decide _ = false |- _ => apply bool_decide_eq_false_1 in H
         end.

(** Case analysis on the conditions of the goal. *)
Ltac case_ifs :=
  repeat match goal with
         | |- context [if ?b then _ else _] => destruct b eqn:?
         end; bool_cases.

(** ** Lists *)

Section list_lemmas.
Context {A : Type}.
Implicit Types (s t l : list A) (f : A -> bool).

Lemma strlen_nonneg s : 0 <= strlen s.
Proof. unfold strlen; lia. Qed.

Lemma strlen_nil : strlen (@nil A) = 0.
Proof. reflexivity. Qed.

Lemma strlen_cons c s : strlen (c :: s) = 1 + strlen s.
Proof. unfold strlen; simpl; lia. Qed.

Lemma strlen_app s t : strlen (s ++ t) = strlen s + strlen t.
Proof. unfold strlen; rewrite length_app; lia. Qed.

Lemma strlen_0 s : strlen s = 0 -> s = [].
Proof. destruct s; [done|unfold strlen; simpl; lia]. Qed.

Lemma ztake_ge n s : strlen s <= n -> ztake n s = s.
Proof. intros H; unfold ztake, strlen in *; apply take_ge; lia. Qed.

Lemma ztake_le_0 n s : n <= 0 -> ztake n s = [].
Proof. intros H; unfold ztake; by replace (Z.to_nat n) with 0%nat by lia. Qed.

Lemma ztake_app_strlen s t : ztake (strlen s) (s ++ t) = s.
Proof. unfold ztake, strlen; rewrite Nat2Z.id; apply take_app_length. Qed.

Lemma zdrop_app_strlen s t : zdrop (strlen s) (s ++ t) = t.
Proof. unfold zdrop, strlen; rewrite Nat2Z.id; apply drop_app_length. Qed.

Lemma ztake_zdrop n s : ztake n s ++ zdrop n s = s.
Proof. apply take_drop. Qed.

Lemma strlen_ztake n s : 0 <= n -> strlen (ztake n s) = Z.min n (strlen s).
Proof. intros; unfold strlen, ztake; rewrite length_take; lia. Qed.

Lemma strlen_ztake_le n s : 0 <= n -> strlen (ztake n s) <= n.
Proof. intros; rewrite strlen_ztake by done; lia. Qed.

Lemma strlen_ztake_le_all n s : strlen (ztake n s) <= strlen s.
Proof. unfold strlen, ztake; rewrite length_take; lia. Qed.

Lemma strlen_zdrop n s : 0 <= n <= strlen s -> strlen (zdrop n s) = strlen s - n.
Proof. intros; unfold strlen, zdrop in *; rewrite length_drop; lia. Qed.

Lemma drop_while_le f s : strlen (drop_while f s) <= strlen s.
Proof.
  induction s as [|c s IH]; simpl; [lia|].
  destruct (f c); rewrite !strlen_cons; lia.
Qed.

Lemma take_drop_while f s : take_while f s ++ drop_while f s = s.
Proof. induction s as [|c s IH]; simpl; [done|]. destruct (f c); simpl; congruence. Qed.

Lemma drop_while_head f s c s' : drop_while f s = c :: s' -> f c = false.
Proof.
  induction s as [|d s IH]; simpl; [done|].
  destruct (f d) eqn:E; [auto|intros [= <- _]; done].
Qed.

Lemma take_while_Forall f s : Forall (fun c => f c = true) (take_while f s).
Proof. induction s as [|c s IH]; simpl; [constructor|]. destruct (f c) eqn:?; by repeat constructor. Qed.

Lemma drop_while_Forall f s : Forall (fun c => f c = true) s -> drop_while f s = [].
Proof. induction 1 as [|c s Hc _ IH]; simpl; [done|by rewrite Hc]. Qed.

Lemma drop_while_app f s t :
  Forall (fun c => f c = true) s -> drop_while f (s ++ t) = drop_while f t.
Proof. induction 1 as [|c s Hc _ IH]; simpl; [done|by rewrite Hc]. Qed.

Lemma take_while_all_app f s c t :
  Forall (fun c => f c = true) s -> f c = false -> take_while f (s ++ c :: t) = s.
Proof. intros Hs Hc; induction Hs as [|d s Hd _ IH]; simpl; [by rewrite Hc|by rewrite Hd, IH]. Qed.

Lemma drop_while_all_app f s c t :
  Forall (fun c => f c = true) s -> f c = false -> drop_while f (s ++ c :: t) = c :: t.
Proof. intros Hs Hc; rewrite drop_while_app by done; simpl; by rewrite Hc. Qed.

Lemma take_while_all f s : Forall (fun c => f c = true) s -> take_while f s = s.
Proof. induction 1 as [|c s Hc _ IH]; simpl; [done|by rewrite Hc, IH]. Qed.

Lemma last_cons_app c s t : list.last (c :: s ++ t) = match list.last t with Some x => Some x | None => list.last (c :: s) end.
Proof. apply (last_app (c :: s) t). Qed.
End list_lemmas.

Lemma snprintf_fits sz s : strlen s < sz -> snprintf sz s = s.
Proof. intros; unfold snprintf; apply ztake_ge; lia. Qed.

Lemma strlen_snprintf sz s : 0 < sz -> strlen (snprintf sz s) < sz.
Proof. intros; unfold snprintf; pose proof (strlen_ztake_le (sz - 1) s); lia. Qed.

Lemma into_fits sz s : strlen s < sz -> into sz s = Some s.
Proof. intros; unfold into; by rewrite (proj2 (Z.ltb_lt _ _)). Qed.

Lemma into_snprintf sz s : 0 < sz -> into sz (snprintf sz s) = Some (snprintf sz s).
Proof. intros; by apply into_fits, strlen_snprintf. Qed.

Lemma strcmp_eq_spec s t : strcmp_eq s t = true <-> s = t.
Proof. apply bool_decide_eq_true. Qed.

(** ** The library's hint database *)

Create HintDb emu.
Create Rewrite HintDb emu.
#[export] Hint Resolve strlen_nonneg strlen_ztake_le drop_while_le take_while_Forall : emu.
#[export] Hint Rewrite @strlen_nil @strlen_cons @strlen_app : emu.

(** Normalises the [strlen]s of goal and context, then linear arithmetic. *)
Ltac len_lia :=
  autorewrite with emu in *;
  repeat match goal with
         | |- context [strlen ?s] => lazymatch goal with H : 0 <= strlen s |- _ => fail | _ => pose proof (strlen_nonneg s) end
         | _ : context [strlen ?s] |- _ => lazymatch goal with H : 0 <= strlen s |- _ => fail | _ => pose proof (strlen_nonneg s) end
         end; lia.

(** ** Record update *)

(** [Eta R] rebuilds a record from its projections; [r <| f := v |>] replaces
    one field.  The setter of a projection is found by abstracting the
    projection in the rebuilt record. *)
Class Eta (R : Type) := eta : R -> R.
Class Field {R T : Type} (proj : R -> T) := update : (T -> T) -> R -> R.

Ltac solve_field :=
  lazymatch goal with
  | |- @Field ?R ?T ?proj =>
      let inst := constr:(_ : Eta R) in
      let inst := eval hnf in inst in
      lazymatch eval pattern proj in inst with
      | ?rebuild _ => exact (fun f => rebuild (fun r => f (proj r)))
      end
  end.
#[export] Hint Extern 1 (Field _) => solve_field : typeclass_instances.

Notation "r <| proj := v |>" := (update (proj := proj) (fun _ => v) r)
  (at level 10, left associativity, format "r  <| proj  :=  v |>") : emu_scope.
