(* ===== verification/Stdio.v ===== *)
(** C's number formatting and scanning: the conversions %u, %llu and %d of
    [printf] and [scanf] as the sources use them. *)

From Stdlib Require Import ZArith Lia Ascii String.
From stdpp Require Import base list numbers.
From S2P Require Import Prelude.
Local Open Scope Z_scope.

(** ** Printing *)

Definition digit (d : Z) : ascii := ascii_of_nat (48 + Z.to_nat d).

Fixpoint dec_digits (fuel : nat) (n : Z) (acc : cstr) : cstr :=
  match fuel with
  | O => acc
  | S f =>
      let acc := digit (n mod 10) :: acc in
      if n <? 10 then acc else dec_digits f (n / 10) acc
  end.

(** Twenty digits are enough for every 64-bit value. *)
Definition print_u (n : Z) : cstr := dec_digits 20 n [].

(** %d of an [int]. *)
Definition print_d (n : Z) : cstr := if n <? 0 then "-"%char :: print_u (- n) else print_u n.

(** ** Scanning *)

Definition is_space (c : ascii) : bool :=
  let n := nat_of_ascii c in
  bool_decide (n = 32%nat) || (bool_decide (9 <= n <= 13)%nat).

Definition digit_value (c : ascii) : option Z :=
  let n := Z.of_nat (nat_of_ascii c) in
  if (48 <=? n) && (n <=? 57) then Some (n - 48) else None.

(** The longest prefix of digits: its value and what follows. *)
Fixpoint scan_digits (acc : Z) (s : cstr) : Z * cstr :=
  match s with
  | c :: s' => match digit_value c with Some d => scan_digits (acc * 10 + d) s' | None => (acc, s) end
  | [] => (acc, [])
  end.

Definition scan_sign (s : cstr) : bool * cstr :=
  match s with
  | c :: s' => if Ascii.eqb c "+" then (false, s') else if Ascii.eqb c "-" then (true, s') else (false, s)
  | [] => (false, s)
  end.

(** White space, an optional sign, digits: is there a minus sign, the digits'
    value, what follows.  [None] is a matching or input failure. *)
Definition scan_integer (s : cstr) : option (bool * Z * cstr) :=
  let s := drop_while is_space s in
  let '(neg, s) := scan_sign s in
  match s with
  | c :: _ =>
      match digit_value c with
      | Some _ => let '(v, rest) := scan_digits 0 s in Some (neg, v, rest)
      | None => None
      end
  | [] => None
  end.

(** %llu: [strtoull], which saturates at [ULLONG_MAX]. *)
Definition scan_ull (s : cstr) : option (Z * cstr) :=
  '(neg, v, rest) ← scan_integer s;
  Some (if 2 ^ 64 <=? v then 2 ^ 64 - 1 else if neg : bool then w64 (- v) else v, rest).

(** %u stores the converted value in an [unsigned]. *)
Definition scan_u (s : cstr) : option (Z * cstr) :=
  '(v, rest) ← scan_ull s; Some (w32 v, rest).

(** %d: [strtol] saturates at the limits of [long], and the value is stored in
    an [int]. *)
Definition scan_d (s : cstr) : option (Z * cstr) :=
  '(neg, v, rest) ← scan_integer s;
  Some (s32 (if neg : bool then Z.max (- v) (- 2 ^ 63) else Z.min v (2 ^ 63 - 1)), rest).

(** ** Lemmas *)

Lemma digit_value_digit d : 0 <= d < 10 -> digit_value (digit d) = Some d.
Proof.
  intros Hd; unfold digit_value, digit.
  rewrite nat_ascii_embedding by lia.
  destruct (48 <=? Z.of_nat (48 + Z.to_nat d)) eqn:?, (Z.of_nat (48 + Z.to_nat d) <=? 57) eqn:?;
    bool_cases; simpl; try lia; f_equal; lia.
Qed.

Definition ends_number (s : cstr) : Prop :=
  match s with [] => True | c :: _ => digit_value c = None end.

Lemma scan_digits_end acc s : ends_number s -> scan_digits acc s = (acc, s).
Proof. destruct s as [|c s]; simpl; [done|by intros ->]. Qed.

(** Reading back printed digits: [dec_digits] prepends the digits of [n]. *)
Lemma scan_dec_digits fuel : forall n acc,
  0 <= n < 10 ^ Z.of_nat fuel -> (0 < fuel)%nat ->
  exists k, 0 <= k /\ forall a, scan_digits a (dec_digits fuel n acc) = scan_digits (a * 10 ^ k + n) acc.
Proof.
  induction fuel as [|fuel IH]; intros n acc Hn Hf; [lia|].
  pose proof (Z.mod_pos_bound n 10 ltac:(lia)) as Hm. pose proof (Z.div_mod n 10 ltac:(lia)) as Hdm.
  cbn [dec_digits]; destruct (n <? 10) eqn:Hlt; bool_cases.
  - destruct Hn as [Hn _]. exists 1; split; [lia|intros a; cbn [scan_digits]].
    rewrite digit_value_digit, Z.mod_small, Z.pow_1_r by lia; done.
  - rewrite Nat2Z.inj_succ, Z.pow_succ_r in Hn by lia.
    destruct fuel as [|fuel]; [change (10 ^ Z.of_nat 0) with 1 in Hn; lia|].
    destruct (IH (n / 10) (digit (n mod 10) :: acc)) as (k & Hk & Hs); [|lia|].
    { split; [apply Z.div_pos; lia|apply Z.div_lt_upper_bound; lia]. }
    clear Hn. exists (k + 1); split; [lia|intros a; rewrite Hs; cbn [scan_digits]].
    rewrite digit_value_digit by lia. f_equal. rewrite Z.pow_add_r, Z.pow_1_r by lia.
    generalize dependent (10 ^ k); intros; lia.
Qed.

Lemma dec_digits_head fuel : forall n acc, (0 < fuel)%nat ->
  exists d s, dec_digits fuel n acc = digit d :: s /\ 0 <= d < 10.
Proof.
  induction fuel as [|fuel IH]; intros n acc Hf; [lia|]; cbn [dec_digits].
  pose proof (Z.mod_pos_bound n 10 ltac:(lia)).
  destruct (n <? 10); [by eexists _, _|]. destruct fuel; [by eexists _, _|]. apply IH; lia.
Qed.

Lemma dec_digits_app fuel : forall n acc rest,
  dec_digits fuel n acc ++ rest = dec_digits fuel n (acc ++ rest).
Proof.
  induction fuel as [|fuel IH]; intros n acc rest; [done|]; cbn [dec_digits].
  destruct (n <? 10); [done|apply IH].
Qed.

Lemma digit_classes d :
  0 <= d < 10 -> is_space (digit d) = false /\ forall s, scan_sign (digit d :: s) = (false, digit d :: s).
Proof.
  intros Hd; assert (d = 0 \/ d = 1 \/ d = 2 \/ d = 3 \/ d = 4 \/ d = 5 \/ d = 6 \/ d = 7 \/ d = 8 \/ d = 9) by lia.
  destruct_or!; subst; done.
Qed.

(** Leading blanks, then a printed number: the number comes back. *)
Lemma scan_integer_print blanks n rest :
  Forall (fun c => is_space c = true) blanks -> is_u64 n -> ends_number rest ->
  scan_integer (blanks ++ print_u n ++ rest) = Some (false, n, rest).
Proof.
  intros Hb Hn Hr; unfold scan_integer, print_u; rewrite drop_while_app by done.
  rewrite dec_digits_app; cbn [app].
  destruct (scan_dec_digits 20 n rest) as (k & Hk & Hs); [unfold is_u64 in Hn; lia|lia|].
  destruct (dec_digits_head 20 n rest) as (d & s & Hds & Hd); [lia|].
  specialize (Hs 0); rewrite (scan_digits_end _ rest), Z.mul_0_l, Z.add_0_l in Hs by done.
  rewrite Hds in *; clear Hds. destruct (digit_classes d Hd) as (Hsp & Hsign).
  cbn [drop_while]; rewrite Hsp, Hsign, digit_value_digit by done.
  by rewrite Hs.
Qed.

Lemma scan_print_u blanks n rest :
  Forall (fun c => is_space c = true) blanks -> is_u64 n -> ends_number rest ->
  scan_ull (blanks ++ print_u n ++ rest) = Some (n, rest).
Proof.
  intros Hb Hn Hr; unfold scan_ull; rewrite scan_integer_print by done; cbn [mbind option_bind].
  destruct (2 ^ 64 <=? n) eqn:Hbig; bool_cases; [unfold is_u64 in Hn; lia|done].
Qed.

(** A printed non-negative [int] is scanned back by %d. *)
Lemma scan_d_print n rest : 0 <= n < 2 ^ 31 -> ends_number rest -> scan_d (print_u n ++ rest) = Some (n, rest).
Proof.
  intros Hn Hr; unfold scan_d; pose proof (scan_integer_print [] n rest) as H; cbn [app] in H.
  rewrite H by (done || (unfold is_u64; lia)); cbn [mbind option_bind]; rewrite Z.min_l by lia; unfold s32, w32; rewrite Z.mod_small by lia.
  case_ifs; [done|lia].
Qed.

Lemma scan_print_u_sp c n rest :
  is_space c = true -> is_u64 n -> ends_number rest -> scan_ull (c :: print_u n ++ rest) = Some (n, rest).
Proof. intros Hc; apply (scan_print_u [c]); by repeat constructor. Qed.

Lemma print_u_nonempty n : print_u n <> [].
Proof. destruct (dec_digits_head 20 n []) as (d & s & Hd & _); [lia|]. unfold print_u; by rewrite Hd. Qed.

(** How many characters a number below a power of ten takes. *)
Lemma dec_digits_length k fuel : forall n acc,
  0 <= n < 10 ^ Z.of_nat k -> (0 < k)%nat -> strlen (dec_digits fuel n acc) <= Z.of_nat k + strlen acc.
Proof.
  revert fuel; induction k as [|k IH]; intros [|fuel] n acc Hn Hk; cbn [dec_digits]; try lia.
  destruct (n <? 10) eqn:Hlt; [rewrite strlen_cons; lia|]; bool_cases.
  destruct k as [|k]; [change (10 ^ Z.of_nat 1) with 10 in Hn; lia|].
  rewrite Nat2Z.inj_succ, Z.pow_succ_r in Hn by lia.
  assert (0 <= n / 10 < 10 ^ Z.of_nat (S k)) by (split; [apply Z.div_pos; lia|apply Z.div_lt_upper_bound; lia]).
  clear Hn; pose proof (IH fuel (n / 10) (digit (n mod 10) :: acc) ltac:(done) ltac:(lia)) as Hl.
  rewrite strlen_cons in Hl; lia.
Qed.

Lemma print_u_length k n : 0 <= n < 10 ^ Z.of_nat k -> (0 < k)%nat -> strlen (print_u n) <= Z.of_nat k.
Proof. intros Hn Hk; pose proof (dec_digits_length k 20 n [] Hn Hk) as H; change (strlen (@nil ascii)) with 0 in H; unfold print_u; lia. Qed.

(** A successful scan consumes at least one byte. *)
Lemma scan_digits_rest acc s : strlen (scan_digits acc s).2 <= strlen s.
Proof.
  revert acc; induction s as [|c s IH]; intros acc; cbn [scan_digits snd]; [lia|].
  destruct (digit_value c); cbn [snd]; [|lia]; pose proof (IH (acc * 10 + z)); rewrite strlen_cons; lia.
Qed.

Lemma scan_integer_rest s neg x rest : scan_integer s = Some (neg, x, rest) -> strlen rest < strlen s.
Proof.
  unfold scan_integer; pose proof (drop_while_le is_space s); set (s1 := drop_while is_space s) in *.
  assert (strlen (scan_sign s1).2 <= strlen s1).
  { unfold scan_sign; destruct s1 as [|c s1]; simpl; [lia|]; case_ifs; simpl; rewrite ?strlen_cons; lia. }
  destruct (scan_sign s1) as [sg [|c s2]]; [done|]; cbn [snd] in *; destruct (digit_value c) eqn:Hc; [|done].
  cbn [scan_digits]; rewrite Hc; pose proof (scan_digits_rest (0 * 10 + z) s2).
  destruct (scan_digits _ s2) as [y r]; cbn [snd] in *; intros [= _ _ <-]; rewrite strlen_cons in *; lia.
Qed.

Lemma scan_ull_rest s x rest : scan_ull s = Some (x, rest) -> strlen rest < strlen s.
Proof.
  unfold scan_ull; destruct (scan_integer s) as [[[neg y] r]|] eqn:E; [|done]; cbn [mbind option_bind].
  intros [= _ <-]; by eapply scan_integer_rest.
Qed.

Lemma scan_u_rest s x rest : scan_u s = Some (x, rest) -> strlen rest < strlen s.
Proof.
  unfold scan_u; destruct (scan_ull s) as [[y r]|] eqn:E; [|done]; cbn [mbind option_bind].
  intros [= _ <-]; by eapply scan_ull_rest.
Qed.
