(* ===== verification/Creds.v ===== *)
(** Per-process fake credentials ([src/creds.c], [creds_t] of [src/internal.h]):
    the three user and group ids, the filesystem ids, the supplementary groups
    and the [set*id] calls that change them. *)

From Stdlib Require Import ZArith Lia.
From stdpp Require Import base list numbers.
From S2P Require Import Prelude.
Local Open Scope Z_scope.

(** ** State *)

(** [uint32_t uid[3]]: {real, effective, saved}. *)
Record ids3 := Ids3 { real : Z; effective : Z; saved : Z }.

Definition CREDS_MAX_GROUPS : Z := 32.
Definition NOID : Z := 2 ^ 32 - 1.

Record creds_t := Creds {
  uid : ids3;
  gid : ids3;
  fsuid : Z;
  fsgid : Z;
  groups : list Z;            (* uint32_t groups[CREDS_MAX_GROUPS] *)
  ngroups : Z
}.

#[export] Instance ids3_eq_dec : EqDecision ids3.
Proof. solve_decision. Defined.
#[export] Instance creds_eq_dec : EqDecision creds_t.
Proof. solve_decision. Defined.

(** ** Operations *)

Definition creds_init (u g : Z) : creds_t :=
  Creds (Ids3 u u u) (Ids3 g g g) u g
        (<[0%nat := g]> (replicate (Z.to_nat CREDS_MAX_GROUPS) 0)) 1.

Definition in3 (ids : ids3) (v : Z) : bool :=
  (v =? real ids) || (v =? effective ids) || (v =? saved ids).

Definition privileged (c : creds_t) : bool := effective (uid c) =? 0.

(** [if (v != NOID) slot = v]. *)
Definition set_unless_noid (v old : Z) : Z := if v =? NOID then old else v.

Definition apply_uid (c : creds_t) (r e s : Z) : creds_t :=
  let u := Ids3 (set_unless_noid r (real (uid c)))
                (set_unless_noid e (effective (uid c)))
                (set_unless_noid s (saved (uid c))) in
  Creds u (gid c) (effective u) (fsgid c) (groups c) (ngroups c).

Definition apply_gid (c : creds_t) (r e s : Z) : creds_t :=
  let g := Ids3 (set_unless_noid r (real (gid c)))
                (set_unless_noid e (effective (gid c)))
                (set_unless_noid s (saved (gid c))) in
  Creds (uid c) g (fsuid c) (effective g) (groups c) (ngroups c).

Definition creds_setuid (c : creds_t) (u : Z) : creds_t * Z :=
  if privileged c then (apply_uid c u u u, 0)
  else if (u =? real (uid c)) || (u =? saved (uid c)) then (apply_uid c NOID u NOID, 0)
  else (c, - EPERM).

Definition creds_setgid (c : creds_t) (g : Z) : creds_t * Z :=
  if privileged c then (apply_gid c g g g, 0)
  else if (g =? real (gid c)) || (g =? saved (gid c)) then (apply_gid c NOID g NOID, 0)
  else (c, - EPERM).

Definition creds_setresuid (c : creds_t) (r e s : Z) : creds_t * Z :=
  if negb (privileged c) &&
     ((negb (r =? NOID) && negb (in3 (uid c) r)) ||
      (negb (e =? NOID) && negb (in3 (uid c) e)) ||
      (negb (s =? NOID) && negb (in3 (uid c) s)))
  then (c, - EPERM)
  else (apply_uid c r e s, 0).

Definition creds_setresgid (c : creds_t) (r e s : Z) : creds_t * Z :=
  if negb (privileged c) &&
     ((negb (r =? NOID) && negb (in3 (gid c) r)) ||
      (negb (e =? NOID) && negb (in3 (gid c) e)) ||
      (negb (s =? NOID) && negb (in3 (gid c) s)))
  then (c, - EPERM)
  else (apply_gid c r e s, 0).

Definition creds_setreuid (c : creds_t) (r e : Z) : creds_t * Z :=
  if negb (privileged c) &&
     ((negb (r =? NOID) && negb (r =? real (uid c)) && negb (r =? effective (uid c))) ||
      (negb (e =? NOID) && negb (in3 (uid c) e)))
  then (c, - EPERM)
  else
    let old_real := real (uid c) in
    let new_e := if e =? NOID then effective (uid c) else e in
    let save := negb (r =? NOID) || (negb (e =? NOID) && negb (e =? old_real)) in
    (apply_uid c r e (if save then new_e else NOID), 0).

Definition creds_setregid (c : creds_t) (r e : Z) : creds_t * Z :=
  if negb (privileged c) &&
     ((negb (r =? NOID) && negb (r =? real (gid c)) && negb (r =? effective (gid c))) ||
      (negb (e =? NOID) && negb (in3 (gid c) e)))
  then (c, - EPERM)
  else
    let old_real := real (gid c) in
    let new_e := if e =? NOID then effective (gid c) else e in
    let save := negb (r =? NOID) || (negb (e =? NOID) && negb (e =? old_real)) in
    (apply_gid c r e (if save then new_e else NOID), 0).

(** [list] points to at least [n] ids; [memcpy] overwrites the first [n]
    array elements and leaves the others. *)
Definition creds_setgroups (c : creds_t) (list : list Z) (n : Z) : creds_t * Z :=
  if negb (privileged c) then (c, - EPERM)
  else if (n <? 0) || (CREDS_MAX_GROUPS <? n) then (c, - EINVAL)
  else (Creds (uid c) (gid c) (fsuid c) (fsgid c) (ztake n list ++ zdrop n (groups c)) n, 0).

Definition creds_setfsuid (c : creds_t) (u : Z) : creds_t * Z :=
  (if negb (u =? NOID) && (privileged c || (u =? fsuid c) || in3 (uid c) u)
   then Creds (uid c) (gid c) u (fsgid c) (groups c) (ngroups c) else c,
   fsuid c).

Definition creds_setfsgid (c : creds_t) (g : Z) : creds_t * Z :=
  (if negb (g =? NOID) && (privileged c || (g =? fsgid c) || in3 (gid c) g)
   then Creds (uid c) (gid c) (fsuid c) g (groups c) (ngroups c) else c,
   fsgid c).

(** The groups [getgroups] reports. *)
Definition group_list (c : creds_t) : list Z := ztake (ngroups c) (groups c).

(** The calls a process can make, and a whole sequence of them. *)
Inductive cred_call :=
| SETUID (u : Z) | SETGID (g : Z)
| SETREUID (r e : Z) | SETREGID (r e : Z)
| SETRESUID (r e s : Z) | SETRESGID (r e s : Z)
| SETGROUPS (list : list Z) (n : Z)
| SETFSUID (u : Z) | SETFSGID (g : Z).

Definition cred_step (c : creds_t) (k : cred_call) : creds_t * Z :=
  match k with
  | SETUID u => creds_setuid c u
  | SETGID g => creds_setgid c g
  | SETREUID r e => creds_setreuid c r e
  | SETREGID r e => creds_setregid c r e
  | SETRESUID r e s => creds_setresuid c r e s
  | SETRESGID r e s => creds_setresgid c r e s
  | SETGROUPS l n => creds_setgroups c l n
  | SETFSUID u => creds_setfsuid c u
  | SETFSGID g => creds_setfsgid c g
  end.

Definition cred_run (c : creds_t) (ks : list cred_call) : creds_t :=
  foldl (fun c k => (cred_step c k).1) c ks.

(** ** Well-formedness *)

Definition ids3_wf (i : ids3) : Prop := is_u32 (real i) /\ is_u32 (effective i) /\ is_u32 (saved i).

Definition creds_wf (c : creds_t) : Prop :=
  ids3_wf (uid c) /\ ids3_wf (gid c) /\ is_u32 (fsuid c) /\ is_u32 (fsgid c) /\
  strlen (groups c) = CREDS_MAX_GROUPS /\ Forall is_u32 (groups c) /\
  0 <= ngroups c <= CREDS_MAX_GROUPS.

(** The arguments of a call as the 32-bit ids [fake.c] passes; [setgroups] is
    given a buffer that holds the ids it is told to copy. *)
Definition call_wf (k : cred_call) : Prop :=
  match k with
  | SETUID u | SETGID u | SETFSUID u | SETFSGID u => is_u32 u
  | SETREUID r e | SETREGID r e => is_u32 r /\ is_u32 e
  | SETRESUID r e s | SETRESGID r e s => is_u32 r /\ is_u32 e /\ is_u32 s
  | SETGROUPS l n => (0 <= n <= CREDS_MAX_GROUPS -> n <= strlen l) /\ Forall is_u32 l
  end.

(** A process without any root id left. *)
Definition no_root_id (c : creds_t) : Prop :=
  real (uid c) <> 0 /\ effective (uid c) <> 0 /\ saved (uid c) <> 0 /\ fsuid c <> 0.

(** The ids the real calls let an unprivileged process ask for. *)
Definition id_allowed (c : creds_t) (v : Z) : Prop :=
  v = NOID \/ v = real (uid c) \/ v = effective (uid c) \/ v = saved (uid c).

(** ** Lemmas *)

(** Unfolds every operation down to its conditions. *)
Ltac unfold_creds :=
  cbn [cred_step] in *;
  unfold creds_setuid, creds_setgid, creds_setresuid, creds_setresgid, creds_setreuid,
    creds_setregid, creds_setgroups, creds_setfsuid, creds_setfsgid, apply_uid, apply_gid,
    privileged, in3, set_unless_noid in *.

Lemma is_u32_noid : is_u32 NOID.
Proof. unfold is_u32, NOID; lia. Qed.

Lemma set_unless_noid_u32 v old : is_u32 v -> is_u32 old -> is_u32 (set_unless_noid v old).
Proof. intros; unfold set_unless_noid; by destruct (v =? NOID). Qed.

#[export] Hint Resolve is_u32_noid set_unless_noid_u32 : emu.

Ltac wf_solve :=
  unfold creds_wf, ids3_wf in *; destruct_and?; simpl; split_and?; eauto with emu.

Lemma apply_uid_wf c r e s :
  creds_wf c -> is_u32 r -> is_u32 e -> is_u32 s -> creds_wf (apply_uid c r e s).
Proof. intros; wf_solve. Qed.

Lemma apply_gid_wf c r e s :
  creds_wf c -> is_u32 r -> is_u32 e -> is_u32 s -> creds_wf (apply_gid c r e s).
Proof. intros; wf_solve. Qed.

#[export] Hint Resolve apply_uid_wf apply_gid_wf : emu.

Lemma groups_overwrite_wf (l g : list Z) n :
  0 <= n <= CREDS_MAX_GROUPS -> n <= strlen l -> strlen g = CREDS_MAX_GROUPS ->
  Forall is_u32 l -> Forall is_u32 g ->
  strlen (ztake n l ++ zdrop n g) = CREDS_MAX_GROUPS /\ Forall is_u32 (ztake n l ++ zdrop n g).
Proof.
  intros Hn Hl Hg Fl Fg; split.
  - rewrite strlen_app, strlen_ztake, strlen_zdrop by lia; lia.
  - apply Forall_app; split; [by apply Forall_take|by apply Forall_drop].
Qed.

Lemma creds_init_wf u g : is_u32 u -> is_u32 g -> creds_wf (creds_init u g).
Proof.
  intros; unfold creds_init; wf_solve; try (unfold CREDS_MAX_GROUPS; lia).
  repeat (apply Forall_cons_2; [unfold is_u32 in *; lia|]); by apply Forall_nil_2.
Qed.

(** Running a sequence preserves what every single call preserves. *)
Lemma cred_run_inv (P : creds_t -> Prop) (Q : cred_call -> Prop) ks :
  (forall c k, P c -> Q k -> P (cred_step c k).1) ->
  forall c, P c -> Forall Q ks -> P (cred_run c ks).
Proof.
  intros Hstep; induction ks as [|k ks IH]; intros c Hc Hq; [done|].
  inversion Hq; subst; apply IH; auto.
Qed.

Lemma id_allowed_spec c v : negb (v =? NOID) && negb (in3 (uid c) v) = false <-> id_allowed c v.
Proof.
  unfold id_allowed, in3; rewrite andb_false_iff, !negb_false_iff, !orb_true_iff, !Z.eqb_eq; tauto.
Qed.

Lemma cred_step_wf c k : creds_wf c -> call_wf k -> creds_wf (cred_step c k).1.
Proof.
  intros Hc Hk; pose proof Hc as (?&?&?&?&?&?&?); unfold ids3_wf in *.
  destruct k; cbn [cred_step call_wf] in *; destruct_and?;
    unfold creds_setuid, creds_setgid, creds_setresuid, creds_setresgid, creds_setreuid,
      creds_setregid, creds_setgroups, creds_setfsuid, creds_setfsgid; cbv zeta;
    case_ifs; cbn [fst]; eauto with emu; try (wf_solve; done).
  destruct (groups_overwrite_wf list (groups c) n); auto; wf_solve.
Qed.

Lemma cred_step_no_root c k : no_root_id c -> no_root_id (cred_step c k).1.
Proof.
  intros (Hr & He & Hs & Hf); destruct k; unfold_creds; unfold no_root_id, NOID in *;
    case_ifs; simpl; split_and?; case_ifs; try done; lia.
Qed.

(** ** Properties *)

(** C15: no regained privilege. A process whose real, effective, saved and
    filesystem user ids are all different from 0 still has no id 0 after any
    sequence of credential calls, whatever their arguments. *)
Theorem no_root_regained (c : creds_t) (ks : list cred_call) :
  no_root_id c -> no_root_id (cred_run c ks).
Proof.
  intros Hc; apply (cred_run_inv no_root_id (fun _ => True)); auto using cred_step_no_root.
  by apply Forall_true.
Qed.

Lemma no_root_regained_witness :
  no_root_id (cred_run (creds_init 1000 1000) [SETRESUID 0 0 0; SETREUID 1000 0; SETFSUID 0]).
Proof. apply no_root_regained; vm_compute; repeat split; discriminate. Defined.

(** C16: dropping root with [setuid] is final. When a fake root calls
    [setuid(u)] with a real user's id, the call succeeds and from then on no
    sequence of calls gives the process an id 0 again. *)
Theorem setuid_drop_permanent (c : creds_t) (u : Z) (ks : list cred_call) :
  privileged c = true -> u <> 0 -> u <> NOID ->
  (creds_setuid c u).2 = 0 /\ no_root_id (cred_run (creds_setuid c u).1 ks).
Proof.
  intros Hp Hu Hn; unfold creds_setuid; rewrite Hp; split; [done|].
  apply (cred_run_inv no_root_id (fun _ => True)); auto using cred_step_no_root.
  - unfold no_root_id, apply_uid, set_unless_noid; simpl.
    apply Z.eqb_neq in Hn; rewrite Hn; done.
  - by apply Forall_true.
Qed.

Lemma setuid_drop_permanent_witness :
  (creds_setuid (creds_init 0 0) 42).2 = 0 /\
  no_root_id (cred_run (creds_setuid (creds_init 0 0) 42).1 [SETUID 0; SETRESUID 0 0 0]).
Proof. apply setuid_drop_permanent; [reflexivity|discriminate|vm_compute; discriminate]. Defined.

(** C28: every credential call keeps the record well formed (ids are 32-bit
    words, at most [CREDS_MAX_GROUPS] groups inside a full group array), so any
    sequence of calls from a fresh process does. *)
Theorem cred_run_wf (c : creds_t) (ks : list cred_call) :
  creds_wf c -> Forall call_wf ks -> creds_wf (cred_run c ks).
Proof. apply cred_run_inv; clear; intros c k; apply cred_step_wf. Qed.

Lemma cred_run_wf_witness :
  creds_wf (cred_run (creds_init 0 0) [SETGROUPS [4; 27; 1000] 3; SETRESGID NOID 7 NOID; SETUID 33]).
Proof.
  apply cred_run_wf; [apply creds_init_wf; unfold is_u32; lia|].
  repeat constructor; unfold is_u32, NOID, strlen; simpl; lia.
Defined.

(** C26: [setresuid] grants exactly what the real call grants: it succeeds iff
    the process is privileged or every requested id is one of its three
    current ids; on success each id is replaced unless -1 was passed, the
    filesystem id follows the new effective id and nothing else changes; on
    failure it returns [-EPERM] and changes nothing. *)
Theorem setresuid_spec (c : creds_t) (r e s : Z) :
  let '(c', ret) := creds_setresuid c r e s in
  (privileged c = true \/ (id_allowed c r /\ id_allowed c e /\ id_allowed c s) ->
     ret = 0 /\
     uid c' = Ids3 (set_unless_noid r (real (uid c))) (set_unless_noid e (effective (uid c)))
                   (set_unless_noid s (saved (uid c))) /\
     fsuid c' = effective (uid c') /\
     gid c' = gid c /\ fsgid c' = fsgid c /\ group_list c' = group_list c) /\
  (~ (privileged c = true \/ (id_allowed c r /\ id_allowed c e /\ id_allowed c s)) -> c' = c /\ ret = - EPERM).
Proof.
  unfold creds_setresuid; destruct (privileged c); cbn [negb andb].
  { split; [intros _; done|intros H; exfalso; tauto]. }
  pose proof (id_allowed_spec c r) as Hr; pose proof (id_allowed_spec c e) as He;
    pose proof (id_allowed_spec c s) as Hs.
  destruct (negb (r =? NOID) && negb (in3 (uid c) r)), (negb (e =? NOID) && negb (in3 (uid c) e)),
    (negb (s =? NOID) && negb (in3 (uid c) s)); cbn [orb]; split; intros H; try done;
    exfalso; intuition discriminate.
Qed.

(** C27: a refused credential call changes nothing and says so: the state after
    a negative result is the state before, and the result is [-EPERM], or
    [-EINVAL] for a [setgroups] list that is too long. *)
Theorem cred_step_error (c : creds_t) (k : cred_call) :
  creds_wf c -> (cred_step c k).2 < 0 ->
  (cred_step c k).1 = c /\
  ((cred_step c k).2 = - EPERM \/
   exists l n, k = SETGROUPS l n /\ (n < 0 \/ CREDS_MAX_GROUPS < n) /\ (cred_step c k).2 = - EINVAL).
Proof.
  intros Hc; pose proof Hc as (?&?&Hf&Hg&?&?&?); unfold is_u32 in Hf, Hg.
  destruct k; cbn [cred_step];
    unfold creds_setuid, creds_setgid, creds_setresuid, creds_setresgid, creds_setreuid,
      creds_setregid, creds_setgroups, creds_setfsuid, creds_setfsgid; cbv zeta;
    case_ifs; cbn [fst snd]; intros Hneg; try lia; try (by auto).
  split; [done|right]; exists list, n; split_and?; try done.
  destruct (n <? 0) eqn:?, (CREDS_MAX_GROUPS <? n) eqn:?; bool_cases; simpl in *; try done; lia.
Qed.

Lemma cred_step_error_witness :
  (cred_step (creds_init 1000 1000) (SETUID 0)).1 = creds_init 1000 1000 /\
  ((cred_step (creds_init 1000 1000) (SETUID 0)).2 = - EPERM \/
   exists l n, SETUID 0 = SETGROUPS l n /\ (n < 0 \/ CREDS_MAX_GROUPS < n) /\
     (cred_step (creds_init 1000 1000) (SETUID 0)).2 = - EINVAL).
Proof. apply cred_step_error; [apply creds_init_wf; unfold is_u32; lia|reflexivity]. Defined.

(** A temporary drop is undone. A privileged process whose saved id is 0
    that gives up its effective id with [setresuid(-1, u, -1)] gets its
    original credentials back from [setresuid(-1, 0, -1)]. *)
Theorem temporary_drop_roundtrip (c : creds_t) (u : Z) :
  privileged c = true -> saved (uid c) = 0 -> fsuid c = 0 ->
  cred_run c [SETRESUID NOID u NOID; SETRESUID NOID 0 NOID] = c.
Proof.
  destruct c as [[r e s] g fu fg gr n]; unfold privileged; simpl; intros He -> ->.
  apply Z.eqb_eq in He as ->; simpl.
  unfold cred_run; simpl; unfold creds_setresuid, privileged, apply_uid, in3; simpl.
  unfold set_unless_noid; rewrite !Z.eqb_refl; simpl.
  by rewrite orb_true_r, andb_false_r.
Qed.

Lemma temporary_drop_roundtrip_witness :
  cred_run (creds_init 0 0) [SETRESUID NOID 100 NOID; SETRESUID NOID 0 NOID] = creds_init 0 0.
Proof. apply temporary_drop_roundtrip; reflexivity. Defined.

(** A successful [setgroups] is what [getgroups] then reports, and nothing
    but the groups changes. *)
Theorem setgroups_getgroups (c : creds_t) (l : list Z) (n : Z) :
  privileged c = true -> 0 <= n <= CREDS_MAX_GROUPS -> n <= strlen l ->
  let '(c', ret) := creds_setgroups c l n in
  ret = 0 /\ group_list c' = ztake n l /\ ngroups c' = n /\
  uid c' = uid c /\ gid c' = gid c /\ fsuid c' = fsuid c /\ fsgid c' = fsgid c.
Proof.
  intros Hp Hn Hl; unfold creds_setgroups; rewrite Hp; simpl.
  destruct (n <? 0) eqn:?, (CREDS_MAX_GROUPS <? n) eqn:?; bool_cases; simpl; try lia.
  split_and?; try done; unfold group_list; simpl.
  replace n with (strlen (ztake n l)) at 1 by (rewrite strlen_ztake; lia).
  apply ztake_app_strlen.
Qed.

Lemma setgroups_getgroups_witness :
  let '(c', ret) := creds_setgroups (creds_init 0 0) [4; 27] 2 in
  ret = 0 /\ group_list c' = ztake 2 [4; 27] /\ ngroups c' = 2 /\
  uid c' = uid (creds_init 0 0) /\ gid c' = gid (creds_init 0 0) /\
  fsuid c' = fsuid (creds_init 0 0) /\ fsgid c' = fsgid (creds_init 0 0).
Proof. apply setgroups_getgroups; [reflexivity|vm_compute; split; discriminate|vm_compute; discriminate]. Defined.

(** [setuid((uid_t)-1)]: the real call refuses the invalid id with [EINVAL];
    for a fake root this one succeeds and changes at most the filesystem id. *)
Lemma setuid_invalid_id_accepted (c : creds_t) :
  privileged c = true ->
  (creds_setuid c NOID).2 = 0 /\ uid (creds_setuid c NOID).1 = uid c.
Proof.
  intros Hp; unfold creds_setuid; rewrite Hp; split; [done|].
  unfold apply_uid, set_unless_noid; simpl; by destruct (uid c).
Qed.
