(* ===== verification/Owners.v ===== *)
(** The fake file-ownership table ([src/ownership.c]): a hash table with open
    addressing and linear probing, keyed by (device, inode).  The table refines
    a finite map from keys to (uid, gid) pairs. *)

From Stdlib Require Import ZArith Lia.
From stdpp Require Import base list gmap numbers.
From S2P Require Import Prelude.
Local Open Scope Z_scope.

(** ** Data *)

Record owner_entry := OwnerEntry {
  e_dev : Z; e_ino : Z;        (* uint64_t *)
  e_uid : Z; e_gid : Z;        (* uint32_t *)
  e_used : bool
}.

Record owner_db := OwnerDb {
  slots : list owner_entry;    (* [cap] entries, [] for NULL *)
  cap : Z;
  count : Z
}.

#[export] Instance owner_entry_eq_dec : EqDecision owner_entry.
Proof. solve_decision. Defined.

(** A zeroed entry, as [calloc] leaves it. *)
Definition zero_entry : owner_entry := OwnerEntry 0 0 0 0 false.

Definition hash_of (dev ino : Z) : Z :=
  let h := Z.lxor (w64 (dev * 0x9E3779B97F4A7C15)) (w64 (ino * 0xC2B2AE3D27D4EB4F)) in
  Z.lxor h (Z.shiftr h 29).

(** [!e->used || (e->dev == dev && e->ino == ino)] *)
Definition slot_stops (e : owner_entry) (dev ino : Z) : bool :=
  negb (e_used e) || ((e_dev e =? dev) && (e_ino e =? ino)).

(** The probing loop from index [i]; [None] when the fuel (the number of slots)
    runs out, where the C loop would never end, or on an index outside the array. *)
Fixpoint find_from (fuel : nat) (sl : list owner_entry) (mask dev ino i : Z) : option Z :=
  match fuel with
  | O => None
  | S f =>
      match sl !! Z.to_nat i with
      | None => None
      | Some e =>
          if slot_stops e dev ino then Some i
          else find_from f sl mask dev ino (Z.land (i + 1) mask)
      end
  end.

Definition find_slot (sl : list owner_entry) (cap dev ino : Z) : option Z :=
  let mask := cap - 1 in
  find_from (Z.to_nat cap) sl mask dev ino (Z.land (hash_of dev ino) mask).

(** ** Operations on [ctx->owners] ([None] = NULL) *)

(** [Some r]: the lookup returns, with [r = Some (uid, gid)] for a hit. *)
Definition owner_lookup (owners : option owner_db) (dev ino : Z) : option (option (Z * Z)) :=
  match owners with
  | None => Some None
  | Some db =>
      if count db =? 0 then Some None
      else
        i ← find_slot (slots db) (cap db) dev ino;
        e ← slots db !! Z.to_nat i;
        Some (if e_used e then Some (e_uid e, e_gid e) else None)
  end.

(** The copying loop of a resize: every used old entry into the new array. *)
Fixpoint rehash (old : list owner_entry) (cap : Z) (new : list owner_entry) : option (list owner_entry) :=
  match old with
  | [] => Some new
  | e :: old' =>
      if e_used e then
        i ← find_slot new cap (e_dev e) (e_ino e);
        rehash old' cap (<[Z.to_nat i := e]> new)
      else rehash old' cap new
  end.

Definition sizeof_owner_db : Z := 24.
Definition sizeof_owner_entry : Z := 32.

Section alloc.
(** [calloc n size] says whether the allocation succeeds. *)
Variable calloc : Z -> Z -> bool.

(** The growing step: [None] if a loop does not end; the boolean is false when
    the table is full and the new array could not be allocated. *)
Definition owner_grow (db : owner_db) : option (owner_db * bool) :=
  if cap db <? w64 ((count db + 1) * 2) then
    let new_cap := if cap db =? 0 then 1024 else w64 (cap db * 2) in
    if calloc new_cap sizeof_owner_entry then
      new ← rehash (slots db) new_cap (replicate (Z.to_nat new_cap) zero_entry);
      Some (OwnerDb new new_cap (count db), true)
    else Some (db, false)
  else Some (db, true).

Definition owner_put (db : owner_db) (dev ino uid gid : Z) : option owner_db :=
  i ← find_slot (slots db) (cap db) dev ino;
  e ← slots db !! Z.to_nat i;
  Some (OwnerDb (<[Z.to_nat i := OwnerEntry dev ino uid gid true]> (slots db)) (cap db)
                (if e_used e then count db else count db + 1)).

Definition owner_set (owners : option owner_db) (dev ino uid gid : Z) : option (option owner_db) :=
  match (match owners with
         | Some db => Some db
         | None => if calloc 1 sizeof_owner_db then Some (OwnerDb [] 0 0) else None
         end) with
  | None => Some None
  | Some db =>
      '(db, grown) ← owner_grow db;
      if grown : bool then db ← owner_put db dev ino uid gid; Some (Some db)
      else Some (Some db)
  end.

(** Whether the allocations [owner_set] asks for are granted. *)
Definition owner_alloc_ok (owners : option owner_db) : bool :=
  match owners with
  | None => calloc 1 sizeof_owner_db && calloc 1024 sizeof_owner_entry
  | Some db =>
      if cap db <? w64 ((count db + 1) * 2)
      then calloc (if cap db =? 0 then 1024 else w64 (cap db * 2)) sizeof_owner_entry
      else true
  end.
End alloc.

(** [emuroot_owners_free] *)
Definition owners_free (owners : option owner_db) : option owner_db := None.

(** ** The abstract table *)

Definition key_of (e : owner_entry) : Z * Z := (e_dev e, e_ino e).
Definition val_of (e : owner_entry) : Z * Z := (e_uid e, e_gid e).

Fixpoint owner_map (sl : list owner_entry) : gmap (Z * Z) (Z * Z) :=
  match sl with
  | [] => ∅
  | e :: sl' => if e_used e then <[key_of e := val_of e]> (owner_map sl') else owner_map sl'
  end.

(** What the table means: the owner recorded for each key. *)
Definition owners_map (owners : option owner_db) : gmap (Z * Z) (Z * Z) :=
  match owners with None => ∅ | Some db => owner_map (slots db) end.

Definition used_count (sl : list owner_entry) : Z := strlen (filter (fun e => e_used e = true) sl).

(** ** Invariant *)

(** The slot probed at step [k] for a key whose hash index is [home]. *)
Definition home (cap : Z) (key : Z * Z) : Z := hash_of key.1 key.2 mod cap.
Definition probe (cap : Z) (key : Z * Z) (k : Z) : Z := (home cap key + k) mod cap.

Definition occupied (sl : list owner_entry) (key : Z * Z) (j : Z) : Prop :=
  exists e, sl !! Z.to_nat j = Some e /\ e_used e = true /\ key_of e <> key.

(** Slot [j] is on [key]'s probe path and every earlier slot of the path is
    taken by another key. *)
Definition reaches (cap : Z) (sl : list owner_entry) (key : Z * Z) (j : Z) : Prop :=
  exists k, 0 <= k < cap /\ j = probe cap key k /\
            forall k', 0 <= k' < k -> occupied sl key (probe cap key k').

Definition table_ok (cap : Z) (sl : list owner_entry) : Prop :=
  strlen sl = cap /\
  forall (j : nat) e, sl !! j = Some e -> e_used e = true -> reaches cap sl (key_of e) (Z.of_nat j).

Definition power_of_two (cap : Z) : Prop := exists k, 0 <= k <= 59 /\ cap = 2 ^ k.

Definition db_wf (db : owner_db) : Prop :=
  count db = used_count (slots db) /\
  ((cap db = 0 /\ slots db = []) \/
   (power_of_two (cap db) /\ table_ok (cap db) (slots db) /\ 2 * count db <= cap db)).

Definition owners_wf (owners : option owner_db) : Prop :=
  match owners with None => True | Some db => db_wf db end.

(** ** Probing *)

Lemma land_mask cap i : power_of_two cap -> Z.land i (cap - 1) = i mod cap.
Proof.
  intros (k & Hk & ->). rewrite <- Z.land_ones by lia. by rewrite Z.ones_equiv, <- Z.sub_1_r.
Qed.

Lemma power_of_two_pos cap : power_of_two cap -> 0 < cap.
Proof. intros (k & Hk & ->); apply Z.pow_pos_nonneg; lia. Qed.

Lemma probe_range cap key k : 0 < cap -> 0 <= probe cap key k < cap.
Proof. intros; apply Z.mod_pos_bound; lia. Qed.

Lemma probe_succ cap key k : 0 < cap -> (probe cap key k + 1) mod cap = probe cap key (k + 1).
Proof.
  intros; unfold probe; rewrite Zplus_mod_idemp_l; by rewrite <- Z.add_assoc.
Qed.

(** The probe path visits every slot. *)
Lemma probe_onto cap key j : 0 <= j < cap -> exists k, 0 <= k < cap /\ probe cap key k = j.
Proof.
  intros Hj; exists ((j - home cap key) mod cap); split; [apply Z.mod_pos_bound; lia|].
  unfold probe; rewrite Zplus_mod_idemp_r.
  replace (home cap key + (j - home cap key)) with j by lia. by apply Z.mod_small.
Qed.

#[export] Hint Resolve power_of_two_pos probe_range : emu.

Definition stops_at (sl : list owner_entry) (key : Z * Z) (j : Z) : Prop :=
  exists e, sl !! Z.to_nat j = Some e /\ slot_stops e key.1 key.2 = true.

Lemma slot_stops_spec e key :
  slot_stops e key.1 key.2 = true <-> e_used e = false \/ key_of e = key.
Proof.
  unfold slot_stops, key_of; destruct key as [d i]; simpl.
  rewrite orb_true_iff, negb_true_iff, andb_true_iff, !Z.eqb_eq.
  split; (intros [?|?]; [auto|right]); [destruct_and?; congruence|].
  naive_solver.
Qed.

Lemma occupied_or_stops cap sl key j :
  strlen sl = cap -> 0 <= j < cap -> occupied sl key j \/ stops_at sl key j.
Proof.
  intros Hl Hj; unfold strlen in Hl.
  destruct (lookup_lt_is_Some_2 sl (Z.to_nat j)) as [e He]; [lia|].
  destruct (slot_stops e key.1 key.2) eqn:Hs; [right; by exists e|left; exists e].
  split_and?; [done| |].
  - destruct (e_used e) eqn:Hu; [done|]. unfold slot_stops in Hs; by rewrite Hu in Hs.
  - intros Hk. assert (slot_stops e key.1 key.2 = true) by (apply slot_stops_spec; auto). congruence.
Qed.

Lemma find_from_probe cap sl key fuel : forall k,
  power_of_two cap -> strlen sl = cap -> 0 <= k ->
  (exists k', k <= k' < k + Z.of_nat fuel /\ stops_at sl key (probe cap key k')) ->
  exists k', k <= k' < k + Z.of_nat fuel /\
    find_from fuel sl (cap - 1) key.1 key.2 (probe cap key k) = Some (probe cap key k') /\
    stops_at sl key (probe cap key k') /\
    forall k'', k <= k'' < k' -> occupied sl key (probe cap key k'').
Proof.
  induction fuel as [|fuel IH]; intros k Hp Hl Hk (k1 & Hk1 & Hs1); [lia|].
  assert (Hc := power_of_two_pos _ Hp).
  simpl. destruct (lookup_lt_is_Some_2 sl (Z.to_nat (probe cap key k))) as [e He].
  { pose proof (probe_range cap key k Hc); unfold strlen in Hl; lia. }
  rewrite He. destruct (slot_stops e key.1 key.2) eqn:Hs.
  { exists k; split_and?; [lia|lia|done|by exists e|intros; lia]. }
  destruct (occupied_or_stops cap sl key (probe cap key k)) as [Ho|(e' & He' & Hs')];
    [done|by apply probe_range| |congruence].
  rewrite land_mask, probe_succ by done.
  destruct (IH (k + 1)) as (k2 & Hk2 & Hf & Hst & Hocc); [done|done|lia| |].
  { exists k1; split; [|done]. destruct (Z.eq_dec k k1) as [->|]; [|lia].
    destruct Hs1 as (e1 & ? & ?); congruence. }
  exists k2; split_and?; [lia|lia|done|done|].
  intros k3 Hk3; destruct (Z.eq_dec k k3) as [<-|]; [done|apply Hocc; lia].
Qed.

(** With a free slot the probing loop ends, at a slot the key reaches. *)
Lemma find_slot_spec cap sl key :
  power_of_two cap -> strlen sl = cap -> (exists j, 0 <= j < cap /\ stops_at sl key j) ->
  exists j, find_slot sl cap key.1 key.2 = Some j /\ 0 <= j < cap /\
            stops_at sl key j /\ reaches cap sl key j.
Proof.
  intros Hp Hl (j0 & Hj0 & Hs0); assert (Hc := power_of_two_pos _ Hp).
  unfold find_slot; rewrite land_mask by done.
  assert (hash_of key.1 key.2 mod cap = probe cap key 0) as ->.
  { unfold probe, home; rewrite Z.add_0_r; symmetry; apply Z.mod_small, Z.mod_pos_bound; lia. }
  destruct (find_from_probe cap sl key (Z.to_nat cap) 0) as (k & Hk & Hf & Hst & Hocc); [done|done|lia| |].
  { destruct (probe_onto cap key j0 Hj0) as (k & Hk & <-); exists k; split; [lia|done]. }
  pose proof (probe_range cap key k Hc).
  exists (probe cap key k); split_and?; [done|lia|lia|done|].
  exists k; split_and?; [lia|lia|done|intros; apply Hocc; lia].
Qed.

(** ** The abstract map of an array *)

(** No two used entries share a key. *)
Definition keys_unique (sl : list owner_entry) : Prop :=
  forall (i j : nat) e e', sl !! i = Some e -> sl !! j = Some e' ->
    e_used e = true -> e_used e' = true -> key_of e = key_of e' -> i = j.

Definition holds (sl : list owner_entry) (key v : Z * Z) : Prop :=
  exists (j : nat) e, sl !! j = Some e /\ e_used e = true /\ key_of e = key /\ val_of e = v.

Lemma keys_unique_cons e sl : keys_unique (e :: sl) -> keys_unique sl.
Proof.
  intros H i j e1 e2 H1 H2 ???; enough (S i = S j) by lia. by eapply (H (S i) (S j) e1 e2).
Qed.

Lemma owner_map_lookup sl key v :
  keys_unique sl -> owner_map sl !! key = Some v <-> holds sl key v.
Proof.
  induction sl as [|e sl IH]; intros Hu; simpl.
  { rewrite lookup_empty; split; [done|intros (j & e & He & _); by destruct j]. }
  specialize (IH (keys_unique_cons _ _ Hu)).
  assert (Hc : holds (e :: sl) key v <-> (e_used e = true /\ key_of e = key /\ val_of e = v) \/ holds sl key v).
  { split.
    - intros ([|j] & e' & He & Hr); simpl in He.
      + left; injection He as ->; done.
      + right; by exists j, e'.
    - intros [?|(j & e' & ?)]; [by exists 0%nat, e|by exists (S j), e']. }
  rewrite Hc; destruct (e_used e) eqn:He; [|rewrite IH; split; [auto|intros [[? _]|?]; done]].
  rewrite lookup_insert; case_decide as Hk.
  - split; [intros [= ->]; auto|]. intros [(_ & _ & ->)|(j & e' & Hj & Hu' & Hk' & _)]; [done|].
    exfalso; assert (0%nat = S j); [|lia]. apply (Hu 0%nat (S j) e e'); try done; congruence.
  - rewrite IH; split; [auto|intros [(_ & ? & _)|?]; done].
Qed.

Lemma table_ok_unique cap sl : 0 < cap -> table_ok cap sl -> keys_unique sl.
Proof.
  intros Hc [Hl Hok] i j e e' He He' Hu Hu' Hk.
  destruct (Hok i e He Hu) as (k & Hki & Hik & Ho); destruct (Hok j e' He' Hu') as (k' & Hkj & Hjk & Ho').
  rewrite <- Hk in *.
  destruct (Z.lt_trichotomy k k') as [Hlt|[->|Hlt]]; [|lia|].
  - destruct (Ho' k) as (e1 & H1 & _ & H2); [lia|]. rewrite <- Hik, Nat2Z.id in H1; congruence.
  - destruct (Ho k') as (e1 & H1 & _ & H2); [lia|]. rewrite <- Hjk, Nat2Z.id in H1; congruence.
Qed.

(** The value found at the slot where probing stops is the abstract value. *)
Lemma stops_reaches_lookup cap sl key j e :
  power_of_two cap -> table_ok cap sl -> reaches cap sl key j ->
  sl !! Z.to_nat j = Some e -> slot_stops e key.1 key.2 = true ->
  owner_map sl !! key = if e_used e then Some (val_of e) else None.
Proof.
  intros Hp Hok (k & Hk & Hj & Ho) He Hs; assert (Hc := power_of_two_pos _ Hp).
  assert (Hu := table_ok_unique _ _ Hc Hok). apply slot_stops_spec in Hs.
  destruct (e_used e) eqn:Hue.
  { apply owner_map_lookup; [done|]. exists (Z.to_nat j), e; destruct Hs; [congruence|done]. }
  destruct (owner_map sl !! key) as [v|] eqn:Hv; [exfalso|done].
  apply owner_map_lookup in Hv as (j' & e' & He' & Hu' & Hk' & _); [|done].
  destruct Hok as [Hl Hok]. destruct (Hok j' e' He' Hu') as (k' & Hkk & Hj' & Ho'). rewrite Hk' in *.
  destruct (Z.lt_trichotomy k k') as [Hlt|[->|Hlt]].
  - destruct (Ho' k) as (e1 & H1 & ? & _); [lia|]. rewrite <- Hj in H1; congruence.
  - rewrite <- Hj' in Hj; subst j; rewrite Nat2Z.id in He; congruence.
  - destruct (Ho k') as (e1 & H1 & _ & H2); [lia|]. rewrite <- Hj', Nat2Z.id in H1; congruence.
Qed.

(** ** Writing a slot *)

Lemma table_ok_put cap sl key j e0 e :
  0 < cap -> table_ok cap sl -> 0 <= j < cap -> reaches cap sl key j ->
  sl !! Z.to_nat j = Some e0 -> slot_stops e0 key.1 key.2 = true ->
  e_used e = true -> key_of e = key -> table_ok cap (<[Z.to_nat j := e]> sl).
Proof.
  intros Hc [Hl Hok] Hj Hr He0 Hs Hu Hk.
  apply slot_stops_spec in Hs.
  assert (Hlen : (Z.to_nat j < length sl)%nat) by (unfold strlen in Hl; lia).
  split; [unfold strlen in *; by rewrite length_insert|].
  intros i e' He' Hu'.
  destruct (decide (Z.to_nat j = i)) as [<-|Hne].
  - rewrite list_lookup_insert_eq in He' by lia; injection He' as <-.
    rewrite Z2Nat.id by lia. destruct Hr as (k & Hk' & Hjk & Ho); exists k; split; [done|split; [congruence|]].
    rewrite Hk; intros k' Hk''; destruct (Ho k' Hk'') as (e1 & H1 & H2 & H3); exists e1; split_and?; try done.
    rewrite list_lookup_insert_ne; [done|]; intros Heq; rewrite <- Heq in H1.
    assert (e1 = e0) by congruence; subst e1; destruct Hs; congruence.
  - rewrite list_lookup_insert_ne in He' by done.
    destruct (Hok i e' He' Hu') as (k & Hk' & Hik & Ho); exists k; split; [done|split; [done|]].
    intros k' Hk''; destruct (Ho k' Hk'') as (e1 & H1 & H2 & H3).
    destruct (decide (Z.to_nat j = Z.to_nat (probe cap (key_of e') k'))) as [Heq|Hne'].
    + exists e; rewrite Heq, list_lookup_insert_eq by lia; split_and?; try done.
      rewrite <- Heq in H1; assert (e1 = e0) by congruence; subst e1.
      destruct Hs; congruence.
    + exists e1; rewrite list_lookup_insert_ne by done; done.
Qed.

Lemma owner_map_put cap sl j e0 e :
  0 < cap -> table_ok cap sl -> table_ok cap (<[j := e]> sl) ->
  sl !! j = Some e0 -> e_used e = true -> slot_stops e0 (key_of e).1 (key_of e).2 = true ->
  owner_map (<[j := e]> sl) = <[key_of e := val_of e]> (owner_map sl).
Proof.
  intros Hc Ht Ht' He0 Hu Hs. apply slot_stops_spec in Hs.
  assert (Hlt := lookup_lt_Some _ _ _ He0).
  pose proof (table_ok_unique _ _ Hc Ht) as Hun; pose proof (table_ok_unique _ _ Hc Ht') as Hun'.
  apply map_eq; intros key; apply option_eq; intros v.
  rewrite owner_map_lookup, lookup_insert_Some, owner_map_lookup by done; split.
  - intros (i & e' & He' & Hu' & Hk & Hv). destruct (decide (j = i)) as [<-|Hne].
    + rewrite list_lookup_insert_eq in He' by done; injection He' as <-; auto.
    + right; split.
      * intros Heq; apply Hne, (Hun' j i e e'); try done; [by rewrite list_lookup_insert_eq|congruence].
      * rewrite list_lookup_insert_ne in He' by done; by exists i, e'.
  - intros [[<- <-]|[Hne (i & e' & He' & Hu' & Hk & Hv)]].
    + exists j, e; by rewrite list_lookup_insert_eq.
    + exists i, e'; rewrite list_lookup_insert_ne; [done|].
      intros ->; assert (e' = e0) by congruence; subst; destruct Hs; congruence.
Qed.

Lemma used_count_cons e sl : used_count (e :: sl) = (if e_used e then 1 else 0) + used_count sl.
Proof.
  unfold used_count; rewrite filter_cons; case_decide as H; [rewrite H, strlen_cons; lia|].
  destruct (e_used e); [done|lia].
Qed.

Lemma used_count_put sl : forall j e0 e, sl !! j = Some e0 -> e_used e = true ->
  used_count (<[j := e]> sl) = used_count sl + (if e_used e0 then 0 else 1).
Proof.
  induction sl as [|e1 sl IH]; intros [|j] e0 e He0 Hu; simpl in *; try done; rewrite !used_count_cons.
  - injection He0 as ->; rewrite Hu; destruct (e_used e0); lia.
  - rewrite (IH j e0 e) by done; lia.
Qed.

Lemma used_count_range sl : 0 <= used_count sl <= strlen sl.
Proof.
  induction sl as [|e sl IH]; [done|]. rewrite used_count_cons, strlen_cons; destruct (e_used e); lia.
Qed.

Lemma free_slot sl : used_count sl < strlen sl -> exists j e, sl !! j = Some e /\ e_used e = false.
Proof.
  induction sl as [|e sl IH]; [done|]; rewrite used_count_cons, strlen_cons; intros H.
  destruct (e_used e) eqn:He; [|by exists 0%nat, e].
  destruct IH as (j & e' & ?); [lia|by exists (S j), e'].
Qed.

Lemma used_count_zeroes n : used_count (replicate n zero_entry) = 0.
Proof. induction n as [|n IH]; [done|]; simpl; by rewrite used_count_cons, IH. Qed.

Lemma owner_map_zeroes n : owner_map (replicate n zero_entry) = ∅.
Proof. induction n as [|n IH]; [done|]; simpl; done. Qed.

Lemma table_ok_zeroes cap : 0 <= cap -> table_ok cap (replicate (Z.to_nat cap) zero_entry).
Proof.
  intros Hc; split; [unfold strlen; rewrite length_replicate; lia|].
  intros j e He Hu; apply lookup_replicate_1 in He as [-> _]; done.
Qed.

Lemma owner_map_unused sl key : used_count sl = 0 -> owner_map sl !! key = None.
Proof.
  induction sl as [|e sl IH]; [done|]; rewrite used_count_cons; pose proof (used_count_range sl).
  simpl; destruct (e_used e); [lia|auto].
Qed.

(** In a table that is not full, a search ends at a slot where the key can be
    read or written. *)
Lemma find_slot_table cap sl key :
  power_of_two cap -> table_ok cap sl -> used_count sl < cap ->
  exists j e, find_slot sl cap key.1 key.2 = Some j /\ 0 <= j < cap /\ sl !! Z.to_nat j = Some e /\
    slot_stops e key.1 key.2 = true /\ reaches cap sl key j.
Proof.
  intros Hp Ht Hf; pose proof Ht as [Hl _].
  destruct (free_slot sl) as (j & e & He & Hu); [lia|].
  destruct (find_slot_spec cap sl key) as (j' & Hj' & Hr & (e' & He' & Hs) & Hre); [done|done| |].
  { apply lookup_lt_Some in He as Hlt. exists (Z.of_nat j); split; [unfold strlen in Hl; lia|].
    exists e; rewrite Nat2Z.id; split; [done|]. apply slot_stops_spec; auto. }
  by exists j', e'.
Qed.

(** One insertion into a table with room. *)
Lemma table_insert cap sl e :
  power_of_two cap -> table_ok cap sl -> used_count sl < cap -> e_used e = true ->
  exists j e0, find_slot sl cap (e_dev e) (e_ino e) = Some j /\ sl !! Z.to_nat j = Some e0 /\
    table_ok cap (<[Z.to_nat j := e]> sl) /\
    owner_map (<[Z.to_nat j := e]> sl) = <[key_of e := val_of e]> (owner_map sl) /\
    used_count (<[Z.to_nat j := e]> sl) = used_count sl + (if e_used e0 then 0 else 1) /\
    (e_used e0 = true <-> is_Some (owner_map sl !! key_of e)).
Proof.
  intros Hp Ht Hf Hu; assert (Hc := power_of_two_pos _ Hp).
  destruct (find_slot_table cap sl (key_of e)) as (j & e0 & Hj & Hr & He0 & Hs & Hre); try done.
  assert (Ht' : table_ok cap (<[Z.to_nat j := e]> sl)) by eauto using table_ok_put.
  exists j, e0; split_and?; try done.
  - by eapply owner_map_put.
  - by apply used_count_put.
  - rewrite (stops_reaches_lookup cap sl (key_of e) j e0) by done.
    destruct (e_used e0); split; intros H; [by eexists|done|done|by destruct H].
Qed.

Lemma keys_unique_head e sl :
  keys_unique (e :: sl) -> e_used e = true -> owner_map sl !! key_of e = None.
Proof.
  intros Hu He. destruct (owner_map sl !! key_of e) as [v|] eqn:Hv; [exfalso|done].
  apply owner_map_lookup in Hv as (j & e' & Hj & Hu' & Hk & _); [|by eapply keys_unique_cons].
  assert (0%nat = S j); [|lia]. by apply (Hu 0%nat (S j) e e').
Qed.

(** A resize keeps every entry. *)
Lemma rehash_spec cap old : forall new,
  power_of_two cap -> table_ok cap new -> keys_unique old ->
  (forall key, is_Some (owner_map old !! key) -> owner_map new !! key = None) ->
  used_count old + used_count new < cap ->
  exists new', rehash old cap new = Some new' /\ table_ok cap new' /\
    owner_map new' = owner_map old ∪ owner_map new /\
    used_count new' = used_count old + used_count new.
Proof.
  induction old as [|e old IH]; intros new Hp Ht Hu Hd Hc; simpl.
  { exists new; split_and?; try done. by rewrite map_empty_union. }
  pose proof (keys_unique_cons _ _ Hu) as Hu'.
  rewrite used_count_cons in *; simpl in Hd; pose proof (used_count_range old).
  destruct (e_used e) eqn:He.
  - pose proof (keys_unique_head _ _ Hu He) as Hnone.
    destruct (table_insert cap new e) as (j & e0 & Hj & He0 & Ht' & Hm & Hcnt & Hused); [done|done|lia|done|].
    assert (He0u : e_used e0 = false).
    { destruct (e_used e0); [exfalso|done]. destruct Hused as [Hx _].
      rewrite Hd in Hx; [by destruct Hx|]. rewrite lookup_insert_eq; by eexists. }
    rewrite He0u in Hcnt. rewrite Hj; simpl.
    destruct (IH (<[Z.to_nat j := e]> new)) as (new' & -> & Hn1 & Hn2 & Hn3); try done; [|lia|].
    + intros key Hk. rewrite Hm, lookup_insert_ne; [|intros <-; rewrite Hnone in Hk; by destruct Hk].
      apply Hd; rewrite lookup_insert_ne; [done|intros <-; rewrite Hnone in Hk; by destruct Hk].
    + exists new'; split_and?; try done; [|lia].
      rewrite Hn2, Hm. by rewrite <- insert_union_r, insert_union_l by done.
  - destruct (IH new) as (new' & -> & Hn1 & Hn2 & Hn3); try done; try lia.
    exists new'; split_and?; try done; lia.
Qed.

Lemma w64_small z : 0 <= z < 2 ^ 64 -> w64 z = z.
Proof. apply Z.mod_small. Qed.

Lemma power_of_two_double cap : power_of_two cap -> cap * 2 < 2 ^ 60 -> power_of_two (cap * 2).
Proof.
  intros (k & Hk & ->) Hlt; exists (k + 1); rewrite Z.pow_add_r, Z.pow_1_r by lia.
  split; [|done]. destruct (Z.eq_dec k 59) as [->|]; [lia|lia].
Qed.

Lemma db_wf_count db : db_wf db -> 0 <= count db /\ 2 * count db <= cap db <= 2 ^ 59.
Proof.
  intros (Hc & H); rewrite Hc in *; pose proof (used_count_range (slots db)).
  destruct H as [[-> ->]|((k & Hk & ->) & _ & ?)]; [done|].
  split; [lia|split; [lia|]]. apply Z.pow_le_mono_r; lia.
Qed.

Section specs.
Context (calloc : Z -> Z -> bool).
(** [calloc] refuses a size that does not fit in [size_t]. *)
Hypothesis calloc_bounded : forall n sz, calloc n sz = true -> n * sz < 2 ^ 64.

Lemma owner_grow_spec db :
  db_wf db -> exists db' ok, owner_grow calloc db = Some (db', ok) /\ db_wf db' /\
    owner_map (slots db') = owner_map (slots db) /\ count db' = count db /\
    (ok = true -> 2 * (count db' + 1) <= cap db' /\ power_of_two (cap db') /\ table_ok (cap db') (slots db')).
Proof.
  intros Hwf; pose proof (db_wf_count _ Hwf) as [Hc0 Hc]; pose proof Hwf as [Hcnt Hcase].
  unfold owner_grow; rewrite w64_small by lia.
  destruct (cap db <? (count db + 1) * 2) eqn:Hg; bool_cases.
  2:{ exists db, true; split_and?; try done. intros _; destruct Hcase as [[Hz _]|(?&?&?)]; [lia|].
      split_and?; auto; lia. }
  set (ncap := if cap db =? 0 then 1024 else w64 (cap db * 2)).
  destruct (calloc ncap sizeof_owner_entry) eqn:Hal.
  2:{ exists db, false; split_and?; try done. }
  apply calloc_bounded in Hal; unfold sizeof_owner_entry in Hal.
  assert (Hn : power_of_two ncap /\ 2 * (count db + 1) <= ncap).
  { unfold ncap in *; destruct (cap db =? 0) eqn:Hz; bool_cases.
    - split; [by exists 10|]. lia.
    - destruct Hcase as [[? _]|(Hp & _ & ?)]; [done|]. rewrite w64_small in * by lia.
      pose proof (power_of_two_pos _ Hp). split; [apply power_of_two_double; [done|lia]|lia]. }
  destruct Hn as [Hp Hn]; pose proof (power_of_two_pos _ Hp).
  destruct (rehash_spec ncap (slots db) (replicate (Z.to_nat ncap) zero_entry)) as (new & -> & Ht & Hm & Hu).
  - done.
  - apply table_ok_zeroes; lia.
  - destruct Hcase as [[_ ->]|(Hp' & Ht' & _)]; [intros ? ? ? ? H1; by rewrite lookup_nil in H1|].
    eapply table_ok_unique; [|done]. by apply power_of_two_pos.
  - intros; by rewrite owner_map_zeroes, lookup_empty.
  - rewrite used_count_zeroes; lia.
  - rewrite owner_map_zeroes, map_union_empty in Hm; rewrite used_count_zeroes, Z.add_0_r in Hu.
    exists (OwnerDb new ncap (count db)), true; cbn [slots cap count]; split; [done|].
    split; [|split_and?; auto; lia].
    split; cbn [slots cap count]; [lia|right; split_and?; auto; lia].
Qed.

Lemma owner_grow_ok db db' ok :
  db_wf db -> owner_grow calloc db = Some (db', ok) -> ok = owner_alloc_ok calloc (Some db).
Proof.
  intros _; unfold owner_grow, owner_alloc_ok; case_ifs; intros H; try (by injection H).
  all: destruct (rehash _ _ _); simpl in H; [by injection H|done].
Qed.

Lemma owner_put_spec db dev ino uid gid :
  db_wf db -> 2 * (count db + 1) <= cap db -> power_of_two (cap db) -> table_ok (cap db) (slots db) ->
  exists db', owner_put db dev ino uid gid = Some db' /\ db_wf db' /\
    owner_map (slots db') = <[(dev, ino) := (uid, gid)]> (owner_map (slots db)).
Proof.
  intros Hwf Hroom Hp Ht; pose proof (db_wf_count _ Hwf) as [Hc0 _]; destruct Hwf as [Hcnt _].
  destruct (table_insert (cap db) (slots db) (OwnerEntry dev ino uid gid true))
    as (j & e0 & Hj & He0 & Ht' & Hm & Hu & _); [done|done|lia|done|].
  unfold owner_put; simpl in Hj; rewrite Hj; simpl; rewrite He0; simpl.
  eexists; split; [done|]; split; [|done].
  split; simpl; [destruct (e_used e0); lia|right; split_and?; try done; destruct (e_used e0); lia].
Qed.

(** Recording an owner ends, keeps the table well formed and updates one key of
    the abstract map, or nothing when an allocation is refused. *)
Lemma owner_set_spec owners dev ino uid gid :
  owners_wf owners ->
  exists owners', owner_set calloc owners dev ino uid gid = Some owners' /\ owners_wf owners' /\
    owners_map owners' = if owner_alloc_ok calloc owners
                         then <[(dev, ino) := (uid, gid)]> (owners_map owners)
                         else owners_map owners.
Proof.
  intros Hwf; unfold owner_set.
  assert (Hdb : forall db, db_wf db -> exists owners',
    ('(db, grown) ← owner_grow calloc db;
     if grown : bool then db ← owner_put db dev ino uid gid; Some (Some db) else Some (Some db)) = Some owners' /\
    owners_wf owners' /\
    owners_map owners' = if owner_alloc_ok calloc (Some db)
                         then <[(dev, ino) := (uid, gid)]> (owner_map (slots db)) else owner_map (slots db)).
  { intros db Hdb; destruct (owner_grow_spec db Hdb) as (db' & ok & Hg & Hwf' & Hm & Hcnt & Hok).
    rewrite <- (owner_grow_ok db db' ok Hdb Hg), Hg; simpl; destruct ok.
    - destruct Hok as (? & ? & ?); [done|].
      destruct (owner_put_spec db' dev ino uid gid) as (db2 & -> & Hwf2 & Hm2); try done.
      exists (Some db2); split_and?; [done|done|]; simpl; by rewrite Hm2, Hm.
    - by exists (Some db'). }
  destruct owners as [db|]; [by apply Hdb|].
  unfold owner_alloc_ok; destruct (calloc 1 sizeof_owner_db) eqn:Ha; [|by exists None].
  destruct (Hdb (OwnerDb [] 0 0)) as (o & Ho & Hw & Hm); [by split; [|left]|].
  exists o; split_and?; [done|done|]. rewrite Hm; done.
Qed.

End specs.

(** The number of entries is the size of the map. *)
Lemma used_count_size sl : keys_unique sl -> used_count sl = Z.of_nat (size (owner_map sl)).
Proof.
  induction sl as [|e sl IH]; intros Hu; [done|]; simpl; rewrite used_count_cons.
  rewrite IH by (by eapply keys_unique_cons); destruct (e_used e) eqn:He; [|done].
  rewrite map_size_insert_None by (by apply keys_unique_head); lia.
Qed.

Definition owner_count (owners : option owner_db) : Z :=
  match owners with None => 0 | Some db => count db end.

Lemma owner_count_size owners :
  owners_wf owners -> owner_count owners = Z.of_nat (size (owners_map owners)).
Proof.
  destruct owners as [db|]; [|done]; intros [Hc Hcase]; simpl; rewrite Hc.
  apply used_count_size. destruct Hcase as [[_ ->]|(Hp & Ht & _)]; [by intros ???? H|].
  eapply table_ok_unique; [by apply power_of_two_pos|done].
Qed.

Lemma owner_lookup_spec owners dev ino :
  owners_wf owners -> owner_lookup owners dev ino = Some (owners_map owners !! (dev, ino)).
Proof.
  destruct owners as [db|]; [|done]; intros [Hcnt Hcase]; unfold owner_lookup; simpl.
  destruct (count db =? 0) eqn:Hz; bool_cases.
  - f_equal; symmetry; apply owner_map_unused; lia.
  - destruct Hcase as [[Hc Hs]|(Hp & Ht & Hload)]; [rewrite Hs in Hcnt; done|].
    pose proof (power_of_two_pos _ Hp); pose proof (used_count_range (slots db)).
    destruct (find_slot_table (cap db) (slots db) (dev, ino)) as (j & e & Hj & Hr & He & Hs & Hre);
      [done|done|lia|].
    simpl in Hj; rewrite Hj; simpl; rewrite He; simpl.
    by rewrite (stops_reaches_lookup (cap db) (slots db) (dev, ino) j e).
Qed.

(** Memory is only ever refused for sizes that do not fit in [size_t]. *)
Definition memory_available (calloc : Z -> Z -> bool) : Prop :=
  forall n sz, calloc n sz = true <-> n * sz < 2 ^ 64.

Lemma owner_alloc_ok_available calloc owners :
  memory_available calloc -> owners_wf owners -> owner_count owners < 2 ^ 57 - 1 ->
  owner_alloc_ok calloc owners = true.
Proof.
  intros Hm Hwf Hc; unfold memory_available, owner_alloc_ok, sizeof_owner_db, sizeof_owner_entry in *.
  destruct owners as [db|]; [|apply andb_true_iff; rewrite !Hm; lia].
  pose proof (db_wf_count _ Hwf) as [? ?]; simpl in Hc; rewrite w64_small by lia.
  case_ifs; [apply Hm; lia| |done]. rewrite w64_small by lia; apply Hm; lia.
Qed.

(** A whole sequence of recorded owners, as a run of the tracer makes them. *)
Fixpoint owner_sets (calloc : Z -> Z -> bool) (owners : option owner_db)
    (l : list ((Z * Z) * (Z * Z))) : option (option owner_db) :=
  match l with
  | [] => Some owners
  | (k, v) :: l' => owners ← owner_set calloc owners k.1 k.2 v.1 v.2; owner_sets calloc owners l'
  end.

Lemma owner_sets_spec calloc l : forall owners,
  memory_available calloc -> owners_wf owners -> owner_count owners + strlen l < 2 ^ 57 - 1 ->
  exists owners', owner_sets calloc owners l = Some owners' /\ owners_wf owners' /\
    owners_map owners' = foldl (fun m kv => <[kv.1 := kv.2]> m) (owners_map owners) l.
Proof.
  induction l as [|[[d i] [u g]] l IH]; intros owners Hm Hwf Hc; simpl; [by exists owners|].
  rewrite strlen_cons in Hc; pose proof (strlen_nonneg l).
  destruct (owner_set_spec calloc (fun n sz => proj1 (Hm n sz)) owners d i u g Hwf)
    as (o1 & -> & Hwf1 & Hmap); simpl.
  rewrite owner_alloc_ok_available in Hmap by (done || lia).
  rewrite <- Hmap; apply IH; [done|done|].
  rewrite owner_count_size, Hmap by done. rewrite owner_count_size in Hc by done.
  rewrite map_size_insert; case_match; simpl; lia.
Qed.

Definition calloc_64 (n sz : Z) : bool := n * sz <? 2 ^ 64.

Lemma calloc_64_available : memory_available calloc_64.
Proof. intros n sz; apply Z.ltb_lt. Qed.

(** ** Properties *)

(** C14: the hash table is a finite map. Any sequence of recorded owners (fewer
    than 2^57 - 1 of them) from an empty table ends, through every resize, and
    afterwards a lookup of any key ends and answers what a finite map updated
    by the same sequence holds. *)
Theorem owner_table_refines_map calloc (l : list ((Z * Z) * (Z * Z))) :
  memory_available calloc -> strlen l < 2 ^ 57 - 1 ->
  exists owners, owner_sets calloc None l = Some owners /\ owners_wf owners /\
    forall dev ino, owner_lookup owners dev ino =
      Some (foldl (fun (m : gmap (Z * Z) (Z * Z)) kv => <[kv.1 := kv.2]> m) ∅ l !! (dev, ino)).
Proof.
  intros Hm Hl; destruct (owner_sets_spec calloc l None Hm I) as (o & Ho & Hwf & Hmap); [simpl; lia|].
  exists o; split_and?; [done|done|intros]. by rewrite owner_lookup_spec, Hmap.
Qed.

Lemma owner_table_refines_map_witness :
  let l := [((7, 42), (1000, 100)); ((7, 43), (0, 0)); ((7, 42), (5, 6))] in
  exists owners, owner_sets calloc_64 None l = Some owners /\ owners_wf owners /\
    forall dev ino, owner_lookup owners dev ino =
      Some (foldl (fun (m : gmap (Z * Z) (Z * Z)) kv => <[kv.1 := kv.2]> m) ∅ l !! (dev, ino)).
Proof. cbv zeta; apply owner_table_refines_map; [apply calloc_64_available|reflexivity]. Defined.

(** C18: one [emuroot_owner_set], allocation failures included: it ends, keeps
    the table well formed (load factor at most 1/2, every entry reachable on its
    probe path), changes what a lookup answers for exactly the given key, and
    changes nothing when an allocation it needs is refused. *)
Theorem owner_set_lookup calloc owners dev ino uid gid :
  (forall n sz, calloc n sz = true -> n * sz < 2 ^ 64) -> owners_wf owners ->
  exists owners', owner_set calloc owners dev ino uid gid = Some owners' /\ owners_wf owners' /\
    forall d i, owner_lookup owners' d i =
      if owner_alloc_ok calloc owners && bool_decide ((d, i) = (dev, ino))
      then Some (Some (uid, gid)) else owner_lookup owners d i.
Proof.
  intros Hc Hwf; destruct (owner_set_spec calloc Hc owners dev ino uid gid Hwf) as (o & -> & Hwf' & Hm).
  exists o; split_and?; [done|done|]; intros d i; rewrite !owner_lookup_spec, Hm by done.
  destruct (owner_alloc_ok calloc owners); simpl; [|done].
  rewrite lookup_insert; case_decide as Hk.
  - by rewrite bool_decide_eq_true_2 by congruence.
  - by rewrite bool_decide_eq_false_2 by congruence.
Qed.

(** A table of two slots whose single entry sits at its home slot. *)
Definition example_db : owner_db := OwnerDb [OwnerEntry 7 42 1000 100 true; zero_entry] 2 1.

Lemma example_db_wf : db_wf example_db.
Proof.
  split; [done|right]; split_and?; [by exists 1| |done]; split; [done|].
  intros [|[|j]] e He Hu; simpl in He; [|by simplify_eq|by rewrite lookup_nil in He].
  injection He as <-; exists 0; split_and?; [done|done|by vm_compute|intros; lia].
Qed.

Lemma owner_set_lookup_witness :
  exists owners', owner_set (fun _ _ => false) (Some example_db) 7 99 5 6 = Some owners' /\ owners_wf owners' /\
    forall d i, owner_lookup owners' d i =
      if owner_alloc_ok (fun _ _ => false) (Some example_db) && bool_decide ((d, i) = (7, 99))
      then Some (Some (5, 6)) else owner_lookup (Some example_db) d i.
Proof. apply owner_set_lookup; [done|apply example_db_wf]. Defined.
