(* ===== verification/OwnersFile.v ===== *)
(** The persistent form of the ownership table ([emuroot_owners_save] and
    [emuroot_owners_load] of [src/ownership.c]): one "dev ino uid gid" line per
    entry, written with [fprintf] and read back with [fscanf]. *)

From Stdlib Require Import ZArith Lia Ascii String.
From stdpp Require Import base list gmap numbers.
From S2P Require Import Prelude Stdio Owners.
Local Open Scope Z_scope.

(** One [fscanf(f, "%llu %llu %u %u", ...) == 4]. *)
Definition scan_line (s : cstr) : option (Z * Z * Z * Z * cstr) :=
  '(dev, s) ← scan_ull s;
  '(ino, s) ← scan_ull s;
  '(uid, s) ← scan_u s;
  '(gid, s) ← scan_u s;
  Some (dev, ino, uid, gid, s).

(** ** Save *)

Definition entry_line (e : owner_entry) : cstr :=
  print_u (e_dev e) ++ [" "%char] ++ print_u (e_ino e) ++ [" "%char] ++
  print_u (e_uid e) ++ [" "%char] ++ print_u (e_gid e) ++ ["010"%char].

(** What a successful save leaves in the file: [None] when there is no table
    and the file is not touched. *)
Definition owners_save (owners : option owner_db) : option cstr :=
  match owners with
  | None => None
  | Some db => Some (concat (map (fun e => if e_used e then entry_line e else []) (slots db)))
  end.

(** ** Load *)

Section load.
Variable calloc : Z -> Z -> bool.

(** The reading loop; every line consumes a byte, so the length of the text is
    enough fuel.  [None] when a step does not end. *)
Fixpoint load_lines (fuel : nat) (text : cstr) (owners : option owner_db) : option (option owner_db) :=
  match fuel with
  | O => None
  | S f =>
      match scan_line text with
      | None => Some owners
      | Some (dev, ino, uid, gid, rest) =>
          owners ← owner_set calloc owners dev ino uid gid;
          load_lines f rest owners
      end
  end.

(** [file] is the content of the opened file, [None] if it cannot be opened. *)
Definition owners_load (file : option cstr) (owners : option owner_db) : option (option owner_db) :=
  match file with
  | None => Some owners
  | Some text => load_lines (S (length text)) text owners
  end.
End load.

(** ** Lemmas *)

Definition value_ok (key val : Z * Z) : Prop :=
  is_u64 key.1 /\ is_u64 key.2 /\ is_u32 val.1 /\ is_u32 val.2.

(** One line reads back as it was written (after the newline of the last). *)
Lemma scan_entry_line blanks e rest :
  Forall (fun c => is_space c = true) blanks -> value_ok (key_of e) (val_of e) ->
  scan_line (blanks ++ entry_line e ++ rest) =
    Some (e_dev e, e_ino e, e_uid e, e_gid e, "010"%char :: rest).
Proof.
  intros Hb (Hd & Hi & Hu & Hg); unfold entry_line, scan_line, scan_u; simpl in *.
  assert (Hu' : is_u64 (e_uid e) /\ is_u64 (e_gid e)) by (unfold is_u32, is_u64 in *; lia).
  repeat (progress (rewrite <- ?app_assoc; cbn [app])).
  rewrite scan_print_u by done; cbn [mbind option_bind].
  do 3 (rewrite scan_print_u_sp by (try done; tauto); cbn [mbind option_bind]).
  unfold w32; rewrite !Z.mod_small by (unfold is_u32 in *; lia); done.
Qed.

Definition save_text (sl : list owner_entry) : cstr :=
  concat (map (fun e => if e_used e then entry_line e else []) sl).

(** The used entries in slot order, as the loader records them. *)
Fixpoint entries (sl : list owner_entry) : list ((Z * Z) * (Z * Z)) :=
  match sl with
  | [] => []
  | e :: sl' => if e_used e then (key_of e, val_of e) :: entries sl' else entries sl'
  end.

Definition entries_ok (sl : list owner_entry) : Prop :=
  Forall (fun e => e_used e = true -> value_ok (key_of e) (val_of e)) sl.

Lemma strlen_entries sl : strlen (entries sl) = used_count sl.
Proof.
  induction sl as [|e sl IH]; [done|]; rewrite used_count_cons; simpl.
  destruct (e_used e); rewrite ?strlen_cons; lia.
Qed.

Lemma fold_entries sl : forall m,
  keys_unique sl ->
  foldl (fun (m : gmap (Z * Z) (Z * Z)) kv => <[kv.1 := kv.2]> m) m (entries sl) = owner_map sl ∪ m.
Proof.
  induction sl as [|e sl IH]; intros m Hu; simpl; [by rewrite map_empty_union|].
  pose proof (keys_unique_cons _ _ Hu) as Hu'.
  destruct (e_used e) eqn:He; [|by apply IH]. simpl; rewrite IH by done.
  rewrite <- insert_union_r by (by apply keys_unique_head). by rewrite insert_union_l.
Qed.

Lemma scan_blanks blanks : Forall (fun c => is_space c = true) blanks -> scan_line blanks = None.
Proof. intros Hb; unfold scan_line, scan_ull, scan_integer; by rewrite drop_while_Forall. Qed.

(** Loading a saved text records its entries one by one. *)
Lemma load_lines_save calloc sl : forall blanks fuel owners,
  Forall (fun c => is_space c = true) blanks -> entries_ok sl ->
  (length (blanks ++ save_text sl) < fuel)%nat ->
  load_lines calloc fuel (blanks ++ save_text sl) owners = owner_sets calloc owners (entries sl).
Proof.
  induction sl as [|e sl IH]; intros blanks fuel owners Hb Hok Hf; destruct fuel as [|fuel]; try lia.
  - unfold save_text; simpl. by rewrite app_nil_r, scan_blanks.
  - inversion Hok as [|? ? Hv Hok']; subst; unfold save_text in *; cbn [map concat entries] in *.
    destruct (e_used e) eqn:He; [|cbn [app] in *; by apply IH].
    cbn [load_lines]; rewrite scan_entry_line by auto; cbn [owner_sets fst snd key_of val_of].
    destruct (owner_set calloc owners _ _ _ _) as [o|]; [|done]; cbn [mbind option_bind].
    apply (IH ["010"%char]); [by repeat constructor|done|].
    assert (2 <= length (entry_line e))%nat by (unfold entry_line; rewrite !length_app; cbn [length]; lia).
    repeat rewrite length_app in Hf; rewrite length_app; cbn [length]; lia.
Qed.

(** Loading ends on every text, whatever is in it. *)
Lemma scan_line_rest s d i u g rest : scan_line s = Some (d, i, u, g, rest) -> strlen rest < strlen s.
Proof.
  unfold scan_line.
  destruct (scan_ull s) as [[d' s1]|] eqn:E1; [|done]; cbn [mbind option_bind].
  destruct (scan_ull s1) as [[i' s2]|] eqn:E2; [|done]; cbn [mbind option_bind].
  destruct (scan_u s2) as [[u' s3]|] eqn:E3; [|done]; cbn [mbind option_bind].
  destruct (scan_u s3) as [[g' s4]|] eqn:E4; [|done]; cbn [mbind option_bind]; intros [= _ _ _ _ <-].
  apply scan_ull_rest in E1, E2; apply scan_u_rest in E3, E4; lia.
Qed.

Lemma load_lines_total calloc fuel : forall text owners,
  (forall n sz, calloc n sz = true -> n * sz < 2 ^ 64) -> owners_wf owners -> strlen text < Z.of_nat fuel ->
  exists owners', load_lines calloc fuel text owners = Some owners' /\ owners_wf owners'.
Proof.
  induction fuel as [|fuel IH]; intros text owners Hc Hwf Hl; [pose proof (strlen_nonneg text); lia|].
  cbn [load_lines]; destruct (scan_line text) as [[[[[d i] u] g] rest]|] eqn:Hs; [|by exists owners].
  apply scan_line_rest in Hs; destruct (owner_set_spec calloc Hc owners d i u g Hwf) as (o & -> & Ho & _).
  cbn [mbind option_bind]; apply IH; [done|done|lia].
Qed.

Lemma owners_load_total calloc file owners :
  (forall n sz, calloc n sz = true -> n * sz < 2 ^ 64) -> owners_wf owners ->
  exists owners', owners_load calloc file owners = Some owners' /\ owners_wf owners'.
Proof.
  intros Hc Hwf; destruct file as [text|]; [|by exists owners].
  apply load_lines_total; [done|done|unfold strlen; lia].
Qed.

(** ** Properties *)

(** C17: what [-s FILE] saves is what a later run loads. Loading the saved text
    of a well-formed table (with ids and inodes in the ranges of their C types)
    ends, whatever was recorded before, and every lookup then answers the saved
    owner, or the earlier one for a key the file does not mention. *)
Theorem save_load_roundtrip calloc (db : owner_db) (owners : option owner_db) (text : cstr) :
  memory_available calloc -> db_wf db -> owners_wf owners -> entries_ok (slots db) ->
  owner_count owners + count db < 2 ^ 57 - 1 ->
  owners_save (Some db) = Some text ->
  exists owners', owners_load calloc (Some text) owners = Some owners' /\ owners_wf owners' /\
    forall dev ino, owner_lookup owners' dev ino =
      match owners_map (Some db) !! (dev, ino) with
      | Some v => Some (Some v)
      | None => owner_lookup owners dev ino
      end.
Proof.
  intros Hm Hdb Hwf Hok Hc [= <-]; unfold owners_load.
  change (concat _) with ([] ++ save_text (slots db)).
  rewrite load_lines_save; [|constructor|done|lia].
  destruct Hdb as [Hcnt Hcase].
  destruct (owner_sets_spec calloc (entries (slots db)) owners Hm Hwf) as (o & -> & Hwf' & Hmap).
  { rewrite strlen_entries; lia. }
  exists o; split_and?; [done|done|]; intros dev ino.
  rewrite !owner_lookup_spec, Hmap by done.
  rewrite fold_entries, lookup_union; simpl.
  - destruct (owner_map (slots db) !! (dev, ino)), (owners_map owners !! (dev, ino)); done.
  - destruct Hcase as [[_ ->]|(Hp & Ht & _)]; [by intros ???? H|].
    eapply table_ok_unique; [by apply power_of_two_pos|done].
Qed.

Lemma save_load_roundtrip_witness :
  exists owners', owners_load calloc_64 (Some (lit "7 42 1000 100" ++ ["010"%char])) None = Some owners' /\
    owners_wf owners' /\
    forall dev ino, owner_lookup owners' dev ino =
      match owners_map (Some example_db) !! (dev, ino) with
      | Some v => Some (Some v)
      | None => owner_lookup None dev ino
      end.
Proof.
  apply save_load_roundtrip;
    [apply calloc_64_available|apply example_db_wf|exact I| |reflexivity|reflexivity].
  repeat constructor; unfold is_u64, is_u32; simpl; lia.
Defined.
