(* ===== verification/Config.v ===== *)
(** The session context ([struct emuroot_ctx] of [src/internal.h]) and the
    public functions that configure it ([src/emuroot.c]): root, bindings, fake
    identity, fake uname, ownership file. *)

From Stdlib Require Import ZArith Lia Ascii String.
From stdpp Require Import base list numbers.
From S2P Require Import Prelude Owners.
Local Open Scope Z_scope.

(** ** Data *)

Definition MAX_BINDINGS : Z := 128.
Definition PATH_LEN : Z := 4096.
Definition UNAME_LEN : Z := 65.

(** [emuroot_status_t] *)
Definition EMUROOT_OK : Z := 0.
Definition EMUROOT_ERR_NOMEM : Z := -1.
Definition EMUROOT_ERR_INVAL : Z := -2.
Definition EMUROOT_ERR_UNSUPPORTED : Z := -3.
Definition EMUROOT_ERR_SYSTEM : Z := -4.
Definition EMUROOT_ERR_NOT_FOUND : Z := -5.

Record binding_t := Binding {
  host : cstr;
  guest : cstr;
  guest_len : Z;
  mount : cstr;
  mount_len : Z
}.

Record emuroot_ctx := Ctx {
  root : cstr;                     (* "" = no root redirect *)
  bindings : list binding_t;       (* binding_t bindings[MAX_BINDINGS] *)
  nbindings : Z;
  has_fake_ids : bool;
  fake_uid : Z; fake_gid : Z;
  has_fake_uname : bool;
  uname_sysname : cstr; uname_release : cstr; uname_machine : cstr;
  ids_file : cstr;
  owners : option owner_db;
  verbose : bool
}.

#[export] Instance binding_eq_dec : EqDecision binding_t.
Proof. solve_decision. Defined.

Definition zero_binding : binding_t := Binding [] [] 0 [] 0.

(** The bindings in use: the first [nbindings] elements of the array. *)
Definition active (ctx : emuroot_ctx) : list binding_t := ztake (nbindings ctx) (bindings ctx).

(** ** Field updates *)

Definition with_root (ctx : emuroot_ctx) (r : cstr) : emuroot_ctx :=
  Ctx r (bindings ctx) (nbindings ctx) (has_fake_ids ctx) (fake_uid ctx) (fake_gid ctx)
      (has_fake_uname ctx) (uname_sysname ctx) (uname_release ctx) (uname_machine ctx)
      (ids_file ctx) (owners ctx) (verbose ctx).

Definition with_bindings (ctx : emuroot_ctx) (bs : list binding_t) (n : Z) : emuroot_ctx :=
  Ctx (root ctx) bs n (has_fake_ids ctx) (fake_uid ctx) (fake_gid ctx)
      (has_fake_uname ctx) (uname_sysname ctx) (uname_release ctx) (uname_machine ctx)
      (ids_file ctx) (owners ctx) (verbose ctx).

Definition with_owners (ctx : emuroot_ctx) (o : option owner_db) : emuroot_ctx :=
  Ctx (root ctx) (bindings ctx) (nbindings ctx) (has_fake_ids ctx) (fake_uid ctx) (fake_gid ctx)
      (has_fake_uname ctx) (uname_sysname ctx) (uname_release ctx) (uname_machine ctx)
      (ids_file ctx) o (verbose ctx).

(** ** Operations *)

(** [calloc(1, sizeof(struct emuroot_ctx))] *)
Definition emuroot_create (allocated : bool) : option emuroot_ctx :=
  if allocated
  then Some (Ctx [] (replicate (Z.to_nat MAX_BINDINGS) zero_binding) 0 false 0 0
                 false [] [] [] [] None false)
  else None.

(** The [!ctx] test every public function starts with. *)
Definition on_ctx (ctx : option emuroot_ctx) (f : emuroot_ctx -> emuroot_ctx * Z) : option emuroot_ctx * Z :=
  match ctx with
  | None => (None, EMUROOT_ERR_INVAL)
  | Some c => let '(c', rc) := f c in (Some c', rc)
  end.

(** [copy_path]: [None] for a path that does not fit. *)
Definition copy_path (src : cstr) : option cstr :=
  if PATH_LEN <=? strlen src then None else Some src.

(** String pointers may be NULL ([None]). *)
Definition emuroot_set_root (ctx : emuroot_ctx) (new_root : option cstr) : emuroot_ctx * Z :=
  match new_root with
  | None => (ctx, EMUROOT_ERR_INVAL)
  | Some r =>
      match copy_path r with
      | None => (ctx, EMUROOT_ERR_INVAL)
      | Some r =>
          let len := strlen r in
          if (1 <? len) && is_slash (chr_at r (len - 1))
          then (with_root ctx (ztake (len - 1) r), EMUROOT_OK)
          else (with_root ctx r, EMUROOT_OK)
      end
  end.

(** Writes one element of the binding array. *)
Definition set_binding (ctx : emuroot_ctx) (i : Z) (b : binding_t) : emuroot_ctx :=
  with_bindings ctx (<[Z.to_nat i := b]> (bindings ctx)) (nbindings ctx).

Definition get_binding (ctx : emuroot_ctx) (i : Z) : binding_t :=
  nth (Z.to_nat i) (bindings ctx) zero_binding.

(** The fields are written one after the other, so a guest path that does not
    fit leaves the (unused) element with the new host path. *)
Definition emuroot_bind (ctx : emuroot_ctx) (host guest : option cstr) : emuroot_ctx * Z :=
  match host, guest with
  | Some h, Some g =>
      if MAX_BINDINGS <=? nbindings ctx then (ctx, EMUROOT_ERR_NOMEM)
      else
        let i := nbindings ctx in
        let b := get_binding ctx i in
        match copy_path h with
        | None => (ctx, EMUROOT_ERR_INVAL)
        | Some h =>
            let b := Binding h (Config.guest b) (guest_len b) (mount b) (mount_len b) in
            match copy_path g with
            | None => (set_binding ctx i b, EMUROOT_ERR_INVAL)
            | Some g =>
                let b := Binding h g (strlen g) (mount b) (mount_len b) in
                let ctx := set_binding ctx i b in
                (with_bindings ctx (bindings ctx) (nbindings ctx + 1), EMUROOT_OK)
            end
        end
  | _, _ => (ctx, EMUROOT_ERR_INVAL)
  end.

(** The downward search loop: the largest index below [i] bound to [guest]. *)
Fixpoint find_bound (bs : list binding_t) (i : nat) (g : cstr) : option nat :=
  match i with
  | O => None
  | S i =>
      match bs !! i with
      | Some b => if strcmp_eq (guest b) g then Some i else find_bound bs i g
      | None => find_bound bs i g
      end
  end.

(** [memmove] shifts the elements after [i] down; the last one stays behind,
    outside the active part. *)
Definition emuroot_unbind (ctx : emuroot_ctx) (guest : cstr) : emuroot_ctx * Z :=
  let n := Z.to_nat (nbindings ctx) in
  let bs := bindings ctx in
  match find_bound bs n guest with
  | None => (ctx, 0)
  | Some i =>
      (with_bindings ctx (take i bs ++ take (n - i - 1) (drop (S i) bs) ++ drop (n - 1) bs)
                     (nbindings ctx - 1), 1)
  end.

(** The parameters are [unsigned int]. *)
Definition emuroot_set_fake_ids (ctx : emuroot_ctx) (uid gid : Z) : emuroot_ctx * Z :=
  (Ctx (root ctx) (bindings ctx) (nbindings ctx) true (w32 uid) (w32 gid)
       (has_fake_uname ctx) (uname_sysname ctx) (uname_release ctx) (uname_machine ctx)
       (ids_file ctx) (owners ctx) (verbose ctx), EMUROOT_OK).

Definition emuroot_set_fake_uname (ctx : emuroot_ctx) (sysname release machine : option cstr) : emuroot_ctx * Z :=
  (Ctx (root ctx) (bindings ctx) (nbindings ctx) (has_fake_ids ctx) (fake_uid ctx) (fake_gid ctx)
       true (snprintf UNAME_LEN (default [] sysname)) (snprintf UNAME_LEN (default [] release))
       (snprintf UNAME_LEN (default [] machine)) (ids_file ctx) (owners ctx) (verbose ctx), EMUROOT_OK).

Definition emuroot_set_ids_file (ctx : emuroot_ctx) (path : option cstr) : emuroot_ctx * Z :=
  match path with
  | None => (ctx, EMUROOT_ERR_INVAL)
  | Some p =>
      match copy_path p with
      | None => (ctx, EMUROOT_ERR_INVAL)
      | Some p =>
          (Ctx (root ctx) (bindings ctx) (nbindings ctx) (has_fake_ids ctx) (fake_uid ctx) (fake_gid ctx)
               (has_fake_uname ctx) (uname_sysname ctx) (uname_release ctx) (uname_machine ctx)
               p (owners ctx) (verbose ctx), EMUROOT_OK)
      end
  end.

Definition emuroot_set_verbose (ctx : emuroot_ctx) (enable : Z) : emuroot_ctx * Z :=
  (Ctx (root ctx) (bindings ctx) (nbindings ctx) (has_fake_ids ctx) (fake_uid ctx) (fake_gid ctx)
       (has_fake_uname ctx) (uname_sysname ctx) (uname_release ctx) (uname_machine ctx)
       (ids_file ctx) (owners ctx) (negb (enable =? 0)), EMUROOT_OK).

Inductive emuroot_backend_t := EMUROOT_BACKEND_NONE | EMUROOT_BACKEND_PTRACE | EMUROOT_BACKEND_ENVONLY.

Definition emuroot_backend_name (b : emuroot_backend_t) : cstr :=
  match b with
  | EMUROOT_BACKEND_PTRACE => lit "ptrace"
  | EMUROOT_BACKEND_ENVONLY => lit "envonly"
  | EMUROOT_BACKEND_NONE => lit "none"
  end.

Definition emuroot_strerror (status : Z) : cstr :=
  if status =? EMUROOT_OK then lit "success"
  else if status =? EMUROOT_ERR_NOMEM then lit "out of memory / binding table full"
  else if status =? EMUROOT_ERR_INVAL then lit "invalid argument"
  else if status =? EMUROOT_ERR_UNSUPPORTED then lit "unsupported on this platform"
  else if status =? EMUROOT_ERR_SYSTEM then lit "system call failed (see errno)"
  else if status =? EMUROOT_ERR_NOT_FOUND then lit "not found"
  else lit "unknown error".

(** ** Well-formedness *)

Definition binding_wf (b : binding_t) : Prop :=
  strlen (host b) < PATH_LEN /\ strlen (guest b) < PATH_LEN /\ guest_len b = strlen (guest b) /\
  strlen (mount b) < PATH_LEN /\ mount_len b = strlen (mount b).

Definition ctx_wf (ctx : emuroot_ctx) : Prop :=
  strlen (root ctx) < PATH_LEN /\ strlen (bindings ctx) = MAX_BINDINGS /\
  0 <= nbindings ctx <= MAX_BINDINGS /\ Forall binding_wf (bindings ctx) /\
  strlen (uname_sysname ctx) < UNAME_LEN /\ strlen (uname_release ctx) < UNAME_LEN /\
  strlen (uname_machine ctx) < UNAME_LEN /\ strlen (ids_file ctx) < PATH_LEN /\
  owners_wf (owners ctx) /\ is_u32 (fake_uid ctx) /\ is_u32 (fake_gid ctx).

(** One configuration call, as a front end makes them. *)
Inductive config_call :=
| SET_ROOT (r : option cstr)
| BIND (host guest : option cstr)
| UNBIND (guest : cstr)
| SET_FAKE_IDS (u g : Z)
| SET_FAKE_UNAME (s r m : option cstr)
| SET_IDS_FILE (f : option cstr)
| SET_VERBOSE (on : Z).

Definition config_step (ctx : emuroot_ctx) (k : config_call) : emuroot_ctx * Z :=
  match k with
  | SET_ROOT r => emuroot_set_root ctx r
  | BIND h g => emuroot_bind ctx h g
  | UNBIND g => emuroot_unbind ctx g
  | SET_FAKE_IDS u g => emuroot_set_fake_ids ctx u g
  | SET_FAKE_UNAME s r m => emuroot_set_fake_uname ctx s r m
  | SET_IDS_FILE f => emuroot_set_ids_file ctx f
  | SET_VERBOSE v => emuroot_set_verbose ctx v
  end.

Definition config_run (ctx : emuroot_ctx) (ks : list config_call) : emuroot_ctx :=
  foldl (fun c k => (config_step c k).1) ctx ks.

(** ** Lemmas *)

Lemma copy_path_Some s r : copy_path s = Some r -> r = s /\ strlen s < PATH_LEN.
Proof. unfold copy_path; case_ifs; intros [= <-]; split; [done|lia]. Qed.

Lemma strlen_insert {A} (l : list A) i x : strlen (<[i := x]> l) = strlen l.
Proof. unfold strlen; by rewrite length_insert. Qed.

Lemma zero_binding_wf : binding_wf zero_binding.
Proof. done. Qed.

Lemma get_binding_wf ctx i : Forall binding_wf (bindings ctx) -> binding_wf (get_binding ctx i).
Proof.
  intros H; unfold get_binding.
  destruct (nth_in_or_default (Z.to_nat i) (bindings ctx) zero_binding) as [Hin| ->]; [|done].
  rewrite List.Forall_forall in H; auto.
Qed.

Lemma find_bound_Some bs i g k :
  find_bound bs i g = Some k ->
  (k < i)%nat /\ (exists b, bs !! k = Some b /\ guest b = g) /\
  forall j b, (k < j < i)%nat -> bs !! j = Some b -> guest b <> g.
Proof.
  induction i as [|i IH]; simpl; [done|]. destruct (bs !! i) as [b|] eqn:Hb.
  - destruct (strcmp_eq (guest b) g) eqn:Hg.
    + intros [= <-]; apply strcmp_eq_spec in Hg; split_and?; [lia|by exists b|intros; lia].
    + intros H; destruct (IH H) as (? & ? & Hj); split_and?; [lia|done|].
      intros j b' Hr Hb'; destruct (decide (j = i)) as [->|]; [|eapply (Hj j); [lia|done]].
      rewrite Hb in Hb'; injection Hb' as ->; intros Heq; apply strcmp_eq_spec in Heq; congruence.
  - intros H; destruct (IH H) as (? & ? & Hj); split_and?; [lia|done|].
    intros j b' Hr Hb'; destruct (decide (j = i)) as [->|]; [congruence|eapply (Hj j); [lia|done]].
Qed.

Lemma find_bound_None bs i g :
  find_bound bs i g = None -> forall j b, (j < i)%nat -> bs !! j = Some b -> guest b <> g.
Proof.
  induction i as [|i IH]; simpl; [lia|]; intros H j b Hj Hb.
  destruct (decide (j = i)) as [->|].
  - rewrite Hb in H; destruct (strcmp_eq (guest b) g) eqn:Hg; [done|].
    intros Heq; apply strcmp_eq_spec in Heq; congruence.
  - destruct (bs !! i); [destruct (strcmp_eq _ g); [done|]|]; eapply IH; eauto; lia.
Qed.

(** Binding appends to the active part. *)
Lemma bind_active ctx h g ctx' :
  ctx_wf ctx -> emuroot_bind ctx (Some h) (Some g) = (ctx', EMUROOT_OK) ->
  exists b, active ctx' = active ctx ++ [b] /\ host b = h /\ guest b = g /\ guest_len b = strlen g /\
    nbindings ctx' = nbindings ctx + 1 /\
    strlen h < PATH_LEN /\ strlen g < PATH_LEN.
Proof.
  intros (_ & Hb & Hn & _); unfold emuroot_bind, EMUROOT_OK, EMUROOT_ERR_NOMEM, EMUROOT_ERR_INVAL.
  destruct (MAX_BINDINGS <=? nbindings ctx) eqn:Hfull; bool_cases; [done|].
  destruct (copy_path h) as [h'|] eqn:Hh; [|done]; destruct (copy_path g) as [g'|] eqn:Hg; [|done].
  apply copy_path_Some in Hh as [-> Hh]; apply copy_path_Some in Hg as [-> Hg].
  intros [= <-].
  exists (Binding h g (strlen g) (mount (get_binding ctx (nbindings ctx))) (mount_len (get_binding ctx (nbindings ctx)))).
  unfold active; simpl; split_and?; try done.
  replace (ztake (nbindings ctx + 1)) with (@take binding_t (S (Z.to_nat (nbindings ctx))))
    by (unfold ztake; f_equal; lia).
  assert (Hlt : (Z.to_nat (nbindings ctx) < length (bindings ctx))%nat) by (unfold strlen in Hb; lia).
  erewrite take_S_r by (by rewrite list_lookup_insert_eq).
  by rewrite take_insert_ge by lia.
Qed.

(** The memmove of an unbind. *)
Lemma unbind_active ctx l1 b l2 g :
  0 <= nbindings ctx <= strlen (bindings ctx) ->
  active ctx = l1 ++ b :: l2 -> guest b = g -> Forall (fun b' => guest b' <> g) l2 ->
  exists ctx', emuroot_unbind ctx g = (ctx', 1) /\ active ctx' = l1 ++ l2.
Proof.
  intros Hn Ha Hg Hl2; unfold active, ztake, emuroot_unbind in *.
  set (n := Z.to_nat (nbindings ctx)) in *; set (bs := bindings ctx) in *.
  assert (Hlen : (n <= length bs)%nat) by (unfold strlen in Hn; lia).
  assert (Hn' : n = (length l1 + S (length l2))%nat).
  { apply (f_equal length) in Ha; rewrite length_take, length_app in Ha; simpl in Ha; lia. }
  assert (Hbs : bs = (l1 ++ b :: l2) ++ drop n bs) by (by rewrite <- Ha, take_drop).
  assert (Hlook : forall j, (j < n)%nat -> bs !! j = (l1 ++ b :: l2) !! j).
  { intros j Hj; rewrite <- Ha, lookup_take_lt by done; done. }
  destruct (find_bound bs n g) as [i|] eqn:Hf.
  - apply find_bound_Some in Hf as (Hi & (b' & Hb' & Hgb') & Hlast).
    assert (i = length l1) as ->.
    { destruct (Nat.lt_trichotomy i (length l1)) as [Hlt|[?|Hgt]]; [|done|].
      - exfalso; apply (Hlast (length l1) b); [lia| |done]. rewrite Hlook by lia.
        rewrite lookup_app_r, Nat.sub_diag by lia; done.
      - exfalso. rewrite Hlook, lookup_app_r, lookup_cons_ne_0 in Hb' by lia.
        by apply (Forall_lookup_1 _ _ _ _ Hl2 Hb'). }
    eexists; split; [done|]; cbn [active bindings nbindings with_bindings].
    replace (Z.to_nat (nbindings ctx - 1)) with (length (l1 ++ l2)) by (rewrite length_app; lia).
    rewrite app_assoc.
    assert (Hpre : forall R, take (length l1) ((l1 ++ b :: l2) ++ R) ++
        take (n - length l1 - 1) (drop (S (length l1)) ((l1 ++ b :: l2) ++ R)) = l1 ++ l2).
    { intros R; rewrite <- app_assoc, take_app_length; f_equal.
      replace (l1 ++ (b :: l2) ++ R) with ((l1 ++ [b]) ++ l2 ++ R) by (by rewrite <- !app_assoc).
      rewrite drop_app_length' by (rewrite length_app; simpl; lia).
      apply take_app_length'; lia. }
    specialize (Hpre (drop n bs)); rewrite <- Hbs in Hpre.
    rewrite Hpre; apply take_app_length.
  - exfalso; apply (find_bound_None _ _ _ Hf (length l1) b); [lia| |done].
    rewrite Hlook by lia. by rewrite lookup_app_r, Nat.sub_diag by lia.
Qed.

Lemma config_step_wf ctx k : ctx_wf ctx -> ctx_wf (config_step ctx k).1.
Proof.
  intros Hwf; pose proof Hwf as (Hr & Hb & Hn & Hbs & Hs & Hre & Hm & Hf & Ho & Hu32 & Hg32).
  destruct k as [r|h g|g|u g|s r m|f|v]; cbn [config_step].
  - unfold emuroot_set_root; destruct r as [r|]; [|done].
    destruct (copy_path r) as [r'|] eqn:Hc; [|done]; apply copy_path_Some in Hc as [-> Hlen].
    pose proof (strlen_ztake_le_all (strlen r - 1) r); case_ifs; simpl; unfold ctx_wf; simpl;
      split_and?; try done; lia.
  - unfold emuroot_bind; destruct h as [h|]; [|done]; destruct g as [g|]; [|done].
    case_ifs; [done|].
    destruct (copy_path h) as [h'|] eqn:Hh; [|done]; apply copy_path_Some in Hh as [-> Hh].
    destruct (get_binding_wf ctx (nbindings ctx) Hbs) as (?&?&?&?&?).
    destruct (copy_path g) as [g'|] eqn:Hg; [apply copy_path_Some in Hg as [-> Hg]|];
      unfold ctx_wf; simpl; rewrite strlen_insert; split_and?; try done; try lia;
      (apply Forall_insert; [done|]; by unfold binding_wf).
  - unfold emuroot_unbind; destruct (find_bound _ _ g) as [i|] eqn:Hf'; [|done].
    apply find_bound_Some in Hf' as (Hi & _ & _).
    unfold ctx_wf; simpl; split_and?; try done; try lia.
    + unfold strlen in *; rewrite !length_app, !length_take, !length_drop; lia.
    + repeat apply Forall_app_2; auto using Forall_take, Forall_drop.
  - unfold emuroot_set_fake_ids, ctx_wf; simpl; split_and?; try done; try lia; apply w32_u32.
  - unfold emuroot_set_fake_uname, ctx_wf; simpl; split_and?; try done; try lia; by apply strlen_snprintf.
  - unfold emuroot_set_ids_file; destruct f as [f|]; [|done].
    destruct (copy_path f) as [f'|] eqn:Hc; [|done]; apply copy_path_Some in Hc as [-> Hlen].
    unfold ctx_wf; simpl; split_and?; try done; lia.
  - done.
Qed.

Lemma config_run_inv ks : forall ctx, ctx_wf ctx -> ctx_wf (config_run ctx ks).
Proof.
  induction ks as [|k ks IH]; intros ctx Hwf; [done|]. apply IH, config_step_wf, Hwf.
Qed.

(** A cleared context, [n] of its bindings in use. *)
Lemma cleared_wf n :
  0 <= n <= MAX_BINDINGS ->
  ctx_wf (Ctx [] (replicate 128 zero_binding) n false 0 0 false [] [] [] [] None false).
Proof.
  intros Hn; unfold ctx_wf; cbn [root bindings nbindings uname_sysname uname_release uname_machine ids_file owners].
  assert (strlen (@nil ascii) = 0) as -> by done.
  unfold strlen; rewrite length_replicate; split_and?; try done; try lia.
  by apply Forall_replicate, zero_binding_wf.
Qed.

(** ** Properties *)

(** C23: configuring is memory safe and keeps the context well formed. After any
    sequence of configuration calls on a fresh context the binding array has
    its 128 elements with at most 128 in use, every stored string fits its
    buffer with its NUL, and the cached lengths are the strings' lengths. *)
Theorem config_run_wf (ks : list config_call) (ctx : emuroot_ctx) :
  emuroot_create true = Some ctx -> ctx_wf (config_run ctx ks).
Proof.
  intros [= <-]; apply config_run_inv.
  by apply cleared_wf.
Qed.

Lemma config_run_wf_witness :
  match emuroot_create true with
  | Some ctx => ctx_wf (config_run ctx [SET_ROOT (Some (lit "/r/")); BIND (Some (lit "/proc")) (Some (lit "/proc"));
                                        UNBIND (lit "/proc"); BIND None (Some (lit "/x"))])
  | None => False
  end.
Proof. apply config_run_wf; reflexivity. Defined.

(** A refused configuration call returns a negative status and leaves the
    root, the active bindings, the fake identity and uname and the files as
    they were; a binding call is refused exactly for a NULL or over-long path
    or a full table. *)
Theorem bind_errors ctx (h g : option cstr) :
  ctx_wf ctx ->
  let '(ctx', rc) := emuroot_bind ctx h g in
  (rc = EMUROOT_OK <-> exists h' g', h = Some h' /\ g = Some g' /\
     strlen h' < PATH_LEN /\ strlen g' < PATH_LEN /\ nbindings ctx < MAX_BINDINGS) /\
  (rc <> EMUROOT_OK -> rc < 0 /\ active ctx' = active ctx /\ nbindings ctx' = nbindings ctx /\
     root ctx' = root ctx /\ has_fake_ids ctx' = has_fake_ids ctx /\ owners ctx' = owners ctx).
Proof.
  intros (_ & Hb & Hn & _); unfold emuroot_bind, EMUROOT_OK, EMUROOT_ERR_INVAL, EMUROOT_ERR_NOMEM.
  destruct h as [h|]; [|split; [split; [done|intros (?&?&?&_); done]|done]].
  destruct g as [g|]; [|split; [split; [done|intros (?&?&_&?&_); done]|done]].
  destruct (MAX_BINDINGS <=? nbindings ctx) eqn:Hfull; bool_cases.
  { split; [split; [done|intros (?&?&_&_&_&_&?); lia]|done]. }
  destruct (copy_path h) as [h'|] eqn:Hh; unfold copy_path in Hh.
  2:{ case_ifs; destruct (PATH_LEN <=? strlen h) eqn:?; bool_cases; try done.
      split; [split; [done|intros (?&?&[= <-]&_&?&_); lia]|done]. }
  destruct (PATH_LEN <=? strlen h) eqn:?; bool_cases; [done|].
  destruct (copy_path g) as [g'|] eqn:Hg; unfold copy_path in Hg;
    destruct (PATH_LEN <=? strlen g) eqn:?; bool_cases; try done.
  - split; [split; [intros _; by exists h, g|done]|done].
  - split; [split; [done|intros (?&?&_&[= <-]&_&?&_); lia]|intros _].
    split_and?; try done; unfold active; simpl; by apply take_insert_ge.
Qed.

Lemma bind_errors_witness :
  let ctx := Ctx [] (replicate 128 zero_binding) 128 false 0 0 false [] [] [] [] None false in
  let '(ctx', rc) := emuroot_bind ctx (Some (lit "/a")) (Some (lit "/b")) in
  (rc = EMUROOT_OK <-> exists h' g', Some (lit "/a") = Some h' /\ Some (lit "/b") = Some g' /\
     strlen h' < PATH_LEN /\ strlen g' < PATH_LEN /\ nbindings ctx < MAX_BINDINGS) /\
  (rc <> EMUROOT_OK -> rc < 0 /\ active ctx' = active ctx /\ nbindings ctx' = nbindings ctx /\
     root ctx' = root ctx /\ has_fake_ids ctx' = has_fake_ids ctx /\ owners ctx' = owners ctx).
Proof.
  apply (bind_errors _ (Some (lit "/a")) (Some (lit "/b"))).
  by apply cleared_wf.
Defined.

(** C24: an umount undoes the mount. After a successful binding of a guest path,
    unbinding that path restores the list of active bindings, in order, even
    when the same guest path had been bound before. *)
Theorem bind_unbind_roundtrip ctx h g ctx1 :
  ctx_wf ctx -> emuroot_bind ctx (Some h) (Some g) = (ctx1, EMUROOT_OK) ->
  exists ctx2, emuroot_unbind ctx1 g = (ctx2, 1) /\ active ctx2 = active ctx.
Proof.
  intros Hwf Hb; destruct (bind_active _ _ _ _ Hwf Hb) as (b & Ha & _ & Hg & _ & Hn & _).
  assert (Hwf1 : ctx_wf ctx1).
  { pose proof (config_step_wf ctx (BIND (Some h) (Some g)) Hwf) as H; cbn [config_step] in H; by rewrite Hb in H. }
  destruct (unbind_active ctx1 (active ctx) b [] g) as (ctx2 & Hu & Ha2); [|done|done|done|].
  - destruct Hwf1 as (_ & -> & ? & _); done.
  - exists ctx2; split; [done|]; by rewrite Ha2, app_nil_r.
Qed.

Lemma bind_unbind_roundtrip_witness :
  let ctx := (emuroot_bind (Ctx [] (replicate 128 zero_binding) 0 false 0 0 false [] [] [] [] None false)
                           (Some (lit "/old")) (Some (lit "/mnt"))).1 in
  exists ctx2, emuroot_unbind (emuroot_bind ctx (Some (lit "/new")) (Some (lit "/mnt"))).1 (lit "/mnt") = (ctx2, 1) /\
    active ctx2 = active ctx.
Proof.
  cbv zeta; eapply (bind_unbind_roundtrip _ (lit "/new")); [|reflexivity].
  by apply (config_step_wf _ (BIND (Some (lit "/old")) (Some (lit "/mnt")))), cleared_wf.
Defined.

(** The comment on [emuroot_set_root] says that root + "/x" never doubles the
    slash; only one trailing slash is removed, so a root given with two does. *)
Lemma set_root_keeps_slash ctx :
  root (emuroot_set_root ctx (Some (lit "/srv//"))).1 = lit "/srv/".
Proof. reflexivity. Qed.
