(* ===== verification/Path.v ===== *)
(** Guest path <-> host path translation ([src/path.c]): bindings, the root, the
    component-by-component walk that resolves symlinks in the guest's
    namespace, and the inverse mapping. *)

From Stdlib Require Import ZArith Lia Ascii String.
From stdpp Require Import base list numbers.
From S2P Require Import Prelude Config.
Local Open Scope Z_scope.

Definition MAX_SYMLINK_HOPS : Z := 40.
Definition NAME_BUF : Z := 256.        (* char comp[256] *)

(** ** Helpers *)

Definition has_prefix (s prefix : cstr) (len : Z) : bool :=
  strncmp_eq s prefix len && (is_slash (chr_at s len) || bool_decide (chr_at s len = NUL)).

(** Index of the last slash ([strrchr]). *)
Fixpoint strrchr_slash (s : cstr) : option Z :=
  match s with
  | [] => None
  | c :: s' =>
      match strrchr_slash s' with
      | Some i => Some (i + 1)
      | None => if is_slash c then Some 0 else None
      end
  end.

(** [None]: [strrchr] returned NULL and the C code would write through it. *)
Definition pop_component (path : cstr) : option cstr :=
  match strrchr_slash path with
  | None => None
  | Some i => Some (ztake (if i =? 0 then 1 else i) path)
  end.

(** The scans over the binding table keep the first candidate met whose length
    is strictly greater than the best so far. *)
Definition pick_longest (matches : binding_t -> bool) (len : binding_t -> Z)
    (bs : list binding_t) : option binding_t :=
  foldl (fun best b =>
           if matches b && (match best with None => true | Some b' => len b' <? len b end)
           then Some b else best) None bs.

(** [strcmp(s, "/") == 0 ? "" : s] *)
Definition unless_slash (s : cstr) : cstr := if strcmp_eq s [SLASH] then [] else s.

(** [if (!out[0]) snprintf(out, outsz, "/")] *)
Definition slash_if_empty (outsz : Z) (out : cstr) : cstr :=
  if bool_decide (out = []) then snprintf outsz [SLASH] else out.

(** ** Guest to host *)

(** The binding that names [guest]; the scan runs from the latest binding down. *)
Definition best_binding (ctx : emuroot_ctx) (guest : cstr) : option binding_t :=
  pick_longest (fun b => strcmp_eq (Config.guest b) [SLASH] || has_prefix guest (Config.guest b) (guest_len b))
               guest_len (rev (active ctx)).

(** The binding mounted on a host directory above [out]. *)
Definition best_mount (ctx : emuroot_ctx) (out : cstr) : option binding_t :=
  pick_longest (fun b => (1 <? mount_len b) && has_prefix out (mount b) (mount_len b))
               mount_len (rev (active ctx)).

Definition map_to_host (ctx : emuroot_ctx) (root guest : cstr) (outsz : Z) : cstr :=
  match best_binding ctx guest with
  | Some best =>
      let rest := zdrop (if strcmp_eq (Config.guest best) [SLASH] then 0 else guest_len best) guest in
      slash_if_empty outsz (snprintf outsz (unless_slash (host best) ++ rest))
  | None =>
      let out := snprintf outsz (root ++ guest) in
      match best_mount ctx out with
      | Some mounted =>
          let moved := snprintf (2 * PATH_LEN) (unless_slash (host mounted) ++ zdrop (mount_len mounted) out) in
          slash_if_empty outsz (snprintf outsz (ztake (outsz - 1) moved))
      | None => out
      end
  end.

(** Which [break] (or the end of the path) the walk stopped at. *)
Inductive walk_stop :=
| STOP_END       (* no component left *)
| STOP_LAST      (* the last component, not to be followed *)
| STOP_LONG      (* the next component does not fit *)
| STOP_PROC      (* reached a path under /proc/ *)
| STOP_LOOP.     (* too many symlinks *)

#[export] Instance walk_stop_eq_dec : EqDecision walk_stop.
Proof. solve_decision. Defined.

Definition DOT : cstr := ["."%char].
Definition DOTDOT : cstr := ["."%char; "."%char].
Definition PROC_PREFIX : cstr := lit "/proc/".

Section translate.
(** [readlink(2)] on the host: the target, or [None] for -1. *)
Variable readlink : cstr -> option cstr.

(** The body of the [for (;;)] loop.  [p] is what is left of [rest], [cur] the
    guest path resolved so far.  The result is [cur], [p] and [trailing_slash]
    where the loop is left; [None] stands for undefined behaviour (an index
    before the start of an empty buffer, a copy past the end of one) or exhausted
    fuel. *)
Fixpoint walk (fuel : nat) (ctx : emuroot_ctx) (root : cstr) (follow_last : bool)
    (p cur : cstr) (trailing_slash : bool) (hops : Z)
    : option (cstr * cstr * bool * walk_stop) :=
  match fuel with
  | O => None
  | S f =>
      let p := drop_while is_slash p in
      match p with
      | [] => Some (cur, [], trailing_slash, STOP_END)
      | _ :: _ =>
          let name := take_while not_slash p in
          let next := drop_while not_slash p in
          let len := if NAME_BUF <=? strlen name then NAME_BUF - 1 else strlen name in
          comp ← into NAME_BUF (ztake len name);
          let is_last := bool_decide (next = []) ||
                         (bool_decide (drop_while is_slash next = []) && negb trailing_slash) in
          if strcmp_eq comp DOT then walk f ctx root follow_last next cur trailing_slash hops
          else if strcmp_eq comp DOTDOT then
            cur ← pop_component cur;
            walk f ctx root follow_last next cur trailing_slash hops
          else
            let curlen := strlen cur in
            if PATH_LEN <=? curlen + 1 + len then Some (cur, next, trailing_slash, STOP_LONG)
            else
              let cur := cur ++ snprintf (PATH_LEN - curlen) ((if 1 <? curlen then [SLASH] else []) ++ comp) in
              if is_last && negb follow_last then Some (cur, next, trailing_slash, STOP_LAST)
              else
                let host := map_to_host ctx root cur PATH_LEN in
                if strncmp_eq host PROC_PREFIX 6 then Some (cur, next, trailing_slash, STOP_PROC)
                else
                  match ztake (PATH_LEN - 1) <$> readlink host with
                  | None => walk f ctx root follow_last next cur trailing_slash hops
                  | Some target =>
                      if MAX_SYMLINK_HOPS <? hops + 1 then Some (cur, next, trailing_slash, STOP_LOOP)
                      else
                        target ← into PATH_LEN target;
                        cur ← (if is_slash (chr_at target 0) then Some [SLASH] else pop_component cur);
                        tail ← into (2 * PATH_LEN) (snprintf (2 * PATH_LEN) (target ++ next));
                        last_char ← list.last tail;
                        walk f ctx root follow_last tail cur (is_slash last_char) (hops + 1)
                  end
      end
  end.

(** Every step consumes a byte of [p], and [p] is refilled (with fewer than
    2 * PATH_LEN bytes) at most MAX_SYMLINK_HOPS times. *)
Definition walk_fuel : nat := Z.to_nat ((MAX_SYMLINK_HOPS + 1) * (2 * PATH_LEN) + 1).

(** The loop from its initialisation: [rest] is the whole path, [cur] is "/". *)
Definition guest_walk (ctx : emuroot_ctx) (root guest_path : cstr) (follow_last : bool) :=
  walk walk_fuel ctx root follow_last (snprintf (2 * PATH_LEN) guest_path) [SLASH]
       (is_slash (chr_at guest_path (strlen guest_path - 1))) 0.

(** After the loop: the host path of [cur], the unwalked rest, the trailing slash. *)
Definition finish (ctx : emuroot_ctx) (root cur p : cstr) (trailing_slash : bool) : option cstr :=
  let host := map_to_host ctx root cur PATH_LEN in
  host ← match p with
         | [] => Some host
         | _ =>
             let hl := strlen host in
             last_char ← list.last host;
             Some (host ++ snprintf (PATH_LEN - hl)
                             ((if is_slash last_char then [] else [SLASH]) ++ drop_while is_slash p))
         end;
  if trailing_slash then
    last_char ← list.last host;
    if negb (is_slash last_char) && (strlen host + 1 <? PATH_LEN) then into PATH_LEN (host ++ [SLASH]) else Some host
  else Some host.

Record translation := Translation {
  tr_host : cstr;        (* out *)
  tr_guest : cstr;       (* guest_out *)
  tr_changed : bool      (* the return value *)
}.

Definition emuroot_translate_path_ex (ctx : emuroot_ctx) (root guest_path : cstr)
    (follow_last : bool) (outsz guest_outsz : Z) : option translation :=
  if negb (is_slash (chr_at guest_path 0)) || (bool_decide (root = []) && (nbindings ctx =? 0))
  then Some (Translation (snprintf outsz guest_path) (snprintf guest_outsz guest_path) false)
  else
    '(cur, p, trailing_slash, _) ← guest_walk ctx root guest_path follow_last;
    host ← finish ctx root cur p trailing_slash;
    Some (Translation (snprintf outsz host) (snprintf guest_outsz cur) (negb (strcmp_eq host guest_path))).

Definition emuroot_translate_path (ctx : emuroot_ctx) (root guest_path : cstr)
    (follow_last : bool) (outsz : Z) : option (cstr * bool) :=
  t ← emuroot_translate_path_ex ctx root guest_path follow_last outsz 1;
  Some (tr_host t, tr_changed t).
End translate.

(** ** Host to guest *)

(** [None]: the path lies under neither the root nor a binding (result 0). *)
Definition emuroot_host_to_guest (ctx : emuroot_ctx) (root host : cstr) (outsz : Z) : option cstr :=
  match pick_longest (fun b => (1 <? strlen (Config.host b)) && has_prefix host (Config.host b) (strlen (Config.host b)))
                     (fun b => strlen (Config.host b)) (active ctx) with
  | Some best =>
      Some (slash_if_empty outsz
              (snprintf outsz (unless_slash (guest best) ++ zdrop (strlen (Config.host best)) host)))
  | None =>
      if negb (bool_decide (root = [])) && has_prefix host root (strlen root)
      then Some (slash_if_empty outsz (snprintf outsz (zdrop (strlen root) host)))
      else None
  end.
