(* ===== verification/PathFacts.v ===== *)
(** Path translation: the loop invariant of the walk, its termination, and the
    confinement properties of [emuroot_translate_path]. *)

From Stdlib Require Import ZArith Lia Ascii String.
From stdpp Require Import base list numbers.
From S2P Require Import Prelude Config Path.
Local Open Scope Z_scope.

(** ** Paths as lists of components *)

(** A component the walk appends: non-empty, without slashes, neither "." nor
    "..", and short enough for the component buffer. *)
Definition good_comp (c : cstr) : Prop :=
  c <> [] /\ no_slash c /\ c <> DOT /\ c <> DOTDOT /\ strlen c < NAME_BUF.

(** The absolute path of a list of components. *)
Definition path_of (cs : list cstr) : cstr :=
  match cs with [] => [SLASH] | _ => concat (map (cons SLASH) cs) end.

Lemma is_slash_spec c : is_slash c = true <-> c = SLASH.
Proof. apply bool_decide_eq_true. Qed.

Lemma not_slash_spec c : not_slash c = true <-> c <> SLASH.
Proof. unfold not_slash, is_slash; rewrite negb_true_iff; apply bool_decide_eq_false. Qed.

Lemma no_slash_Forall s : no_slash s <-> Forall (fun c => not_slash c = true) s.
Proof.
  unfold no_slash; rewrite Forall_forall; split.
  - intros H c Hc; apply not_slash_spec; intros ->; apply H; by apply list_elem_of_In.
  - intros H Hin; apply list_elem_of_In in Hin; specialize (H _ Hin); by apply not_slash_spec in H.
Qed.

Lemma path_of_snoc cs c :
  path_of (cs ++ [c]) = (match cs with [] => [] | _ => path_of cs end) ++ SLASH :: c.
Proof.
  destruct cs as [|d cs]; simpl; [by rewrite app_nil_r|].
  rewrite map_app, concat_app; simpl; by rewrite app_nil_r, <- app_assoc.
Qed.

Lemma path_of_nonempty cs : path_of cs <> [].
Proof. by destruct cs. Qed.

Lemma path_of_head cs : exists s, path_of cs = SLASH :: s.
Proof. destruct cs; simpl; by eexists. Qed.

Lemma strlen_path_of_snoc cs c :
  strlen (path_of (cs ++ [c])) <= strlen (path_of cs) + 1 + strlen c.
Proof. rewrite path_of_snoc; destruct cs; len_lia. Qed.

Lemma strrchr_slash_app s t : no_slash t -> strrchr_slash (s ++ SLASH :: t) = Some (strlen s).
Proof.
  intros Ht; induction s as [|c s IH]; simpl.
  - enough (strrchr_slash t = None) as -> by done.
    unfold no_slash in Ht; induction t as [|c t IHt]; simpl; [done|].
    rewrite not_elem_of_cons in Ht; destruct Ht as [Hc Ht]; rewrite IHt by done.
    destruct (is_slash c) eqn:Hs; [apply is_slash_spec in Hs; congruence|done].
  - rewrite IH, strlen_cons; f_equal; lia.
Qed.

Lemma pop_path_of cs c :
  no_slash c -> pop_component (path_of (cs ++ [c])) = Some (path_of cs).
Proof.
  intros Hc; rewrite path_of_snoc; unfold pop_component; rewrite strrchr_slash_app by done.
  destruct cs as [|d cs]; [done|].
  destruct (strlen (path_of (d :: cs)) =? 0) eqn:H0; bool_cases; [simpl in H0; len_lia|].
  by rewrite ztake_app_strlen.
Qed.

Lemma pop_path_of_root : pop_component (path_of []) = Some (path_of []).
Proof. done. Qed.

(** Popping never leaves the root. *)
Lemma pop_path_of_any cs :
  Forall good_comp cs -> exists cs', pop_component (path_of cs) = Some (path_of cs') /\ Forall good_comp cs' /\
    cs' = removelast cs.
Proof.
  intros H; destruct cs as [|c cs] using rev_ind; [by exists []|].
  apply Forall_app in H as [H Hc]; inversion Hc as [|? ? (_ & ? & _) _]; subst.
  exists cs; rewrite pop_path_of by done; split_and?; [done|done|by rewrite removelast_last].
Qed.

(** The [snprintf] that appends a component. *)
Lemma extend_path_of cs c :
  Forall good_comp cs ->
  path_of cs ++ (if 1 <? strlen (path_of cs) then [SLASH] else []) ++ c = path_of (cs ++ [c]).
Proof.
  intros H; rewrite path_of_snoc; destruct cs as [|d cs]; [done|].
  destruct (1 <? strlen (path_of (d :: cs))) eqn:Hlen; bool_cases; [done|].
  inversion H as [|? ? (Hd & _) _]; subst; destruct d; [done|]; simpl in Hlen; len_lia.
Qed.

(** ** Reading the next component *)

(** The next component of [p] and what follows it; [None] at the end. *)
Definition next_name (p : cstr) : option (cstr * cstr) :=
  match drop_while is_slash p with
  | [] => None
  | q => Some (take_while not_slash q, drop_while not_slash q)
  end.

Lemma next_name_Some p c rest :
  next_name p = Some (c, rest) ->
  exists sl, p = sl ++ c ++ rest /\ Forall (fun x => is_slash x = true) sl /\ c <> [] /\ no_slash c /\
    (rest = [] \/ exists r, rest = SLASH :: r).
Proof.
  unfold next_name; pose proof (take_drop_while is_slash p) as Hp.
  pose proof (take_while_Forall is_slash p) as Hsl.
  destruct (drop_while is_slash p) as [|x q] eqn:Hq; [done|]; intros H.
  assert (c = take_while not_slash (x :: q) /\ rest = drop_while not_slash (x :: q)) as [-> ->]
    by (by inversion H).
  pose proof (drop_while_head _ _ _ _ Hq) as Hx.
  exists (take_while is_slash p).
  split; [etrans; [symmetry; exact Hp|]; f_equal; symmetry; apply take_drop_while|].
  split; [done|]; split; [cbn [take_while]; unfold not_slash at 1; by rewrite Hx|].
  split; [apply no_slash_Forall, take_while_Forall|].
  destruct (drop_while not_slash (x :: q)) as [|y r] eqn:Hr; [by left|right; exists r].
  apply drop_while_head in Hr; unfold not_slash in Hr; apply negb_false_iff, is_slash_spec in Hr; by subst.
Qed.

Lemma next_name_shorter p c rest : next_name p = Some (c, rest) -> strlen rest < strlen p.
Proof.
  intros H; apply next_name_Some in H as (sl & -> & _ & Hc & _).
  destruct c; [done|]; len_lia.
Qed.

Lemma ends_with_slash_app s t : t <> [] -> ends_with_slash (s ++ t) = ends_with_slash t.
Proof.
  intros Ht; unfold ends_with_slash; rewrite last_app.
  destruct (list.last t) eqn:H; [done|]. by apply last_None in H.
Qed.

Lemma ends_with_slash_no_slash s : no_slash s -> ends_with_slash s = false.
Proof.
  intros H; unfold ends_with_slash; destruct (list.last s) as [x|] eqn:Hl; [|done].
  apply last_Some in Hl as (s' & ->). unfold no_slash in H.
  destruct (is_slash x) eqn:Hx; [|done]. apply is_slash_spec in Hx; subst; exfalso.
  apply H, elem_of_app; right; by apply list_elem_of_singleton.
Qed.

Lemma next_name_trailing p c rest :
  next_name p = Some (c, rest) -> ends_with_slash rest = ends_with_slash p.
Proof.
  intros H; apply next_name_Some in H as (sl & -> & Hsl & Hc & Hn & Hr).
  rewrite ends_with_slash_app by (by destruct c).
  destruct Hr as [->|(r & ->)]; [rewrite app_nil_r; symmetry; by apply ends_with_slash_no_slash|].
  symmetry; by apply ends_with_slash_app.
Qed.

Lemma drop_slashes_trailing s : s <> [] -> drop_while is_slash s = [] -> ends_with_slash s = true.
Proof.
  intros Hs Hd. unfold ends_with_slash.
  assert (Hall : Forall (fun x => is_slash x = true) s).
  { pose proof (take_drop_while is_slash s) as H; rewrite Hd, app_nil_r in H; rewrite <- H; apply take_while_Forall. }
  destruct s as [|x s] using rev_ind; [done|]. rewrite last_snoc.
  apply Forall_app in Hall as [_ Hall]; by inversion Hall.
Qed.

(** The [is_last] test of the loop holds exactly when nothing follows. *)
Lemma is_last_spec p c rest :
  next_name p = Some (c, rest) ->
  bool_decide (rest = []) || (bool_decide (drop_while is_slash rest = []) && negb (ends_with_slash p))
    = bool_decide (rest = []).
Proof.
  intros Hn; destruct (decide (rest = [])) as [->|Hr]; [done|].
  rewrite (bool_decide_eq_false_2 (rest = [])) by done; simpl.
  destruct (decide (drop_while is_slash rest = [])) as [Hd|Hd];
    [|by rewrite bool_decide_eq_false_2 by done].
  rewrite <- (next_name_trailing _ _ _ Hn), (drop_slashes_trailing rest) by done.
  by rewrite andb_false_r.
Qed.

(** The component as the loop stores it, cut to the size of its buffer. *)
Definition cut_name (name : cstr) : cstr :=
  ztake (if NAME_BUF <=? strlen name then NAME_BUF - 1 else strlen name) name.

Lemma cut_name_len name :
  strlen (cut_name name) = (if NAME_BUF <=? strlen name then NAME_BUF - 1 else strlen name).
Proof.
  unfold cut_name, NAME_BUF; destruct (256 <=? strlen name) eqn:?; bool_cases;
    rewrite strlen_ztake; len_lia.
Qed.

Lemma cut_name_short name : strlen name < NAME_BUF -> cut_name name = name.
Proof. intros; unfold cut_name; case_ifs; [lia|]. by apply ztake_ge. Qed.

Lemma cut_name_good name :
  name <> [] -> no_slash name -> cut_name name <> DOT -> cut_name name <> DOTDOT -> good_comp (cut_name name).
Proof.
  intros Hn Hs H1 H2; unfold good_comp; split_and?; try done.
  - intros H0; pose proof (cut_name_len name) as Hl; rewrite H0 in Hl.
    destruct name as [|x name]; [done|].
    unfold NAME_BUF in Hl; destruct (256 <=? strlen (x :: name)); len_lia.
  - unfold no_slash, cut_name, ztake in *; intros H; apply Hs.
    rewrite <- (take_drop (Z.to_nat (if NAME_BUF <=? strlen name then NAME_BUF - 1 else strlen name)) name).
    apply elem_of_app; by left.
  - rewrite cut_name_len; unfold NAME_BUF; case_ifs; lia.
Qed.

(** ** The walk, one component at a time *)

Section walk.
Context (readlink : cstr -> option cstr) (ctx : emuroot_ctx) (root : cstr) (follow_last : bool).
Notation walk := (walk readlink).

(** The loop body in terms of [next_name]. *)
Lemma walk_unfold f p cur tr hops :
  tr = ends_with_slash p ->
  walk (S f) ctx root follow_last p cur tr hops =
  match next_name p with
  | None => Some (cur, [], tr, STOP_END)
  | Some (name, next) =>
      let comp := cut_name name in
      if strcmp_eq comp DOT then walk f ctx root follow_last next cur tr hops
      else if strcmp_eq comp DOTDOT then
        cur ← pop_component cur; walk f ctx root follow_last next cur tr hops
      else if PATH_LEN <=? strlen cur + 1 + strlen comp then Some (cur, next, tr, STOP_LONG)
      else
        let cur := cur ++ (if 1 <? strlen cur then [SLASH] else []) ++ comp in
        if bool_decide (next = []) && negb follow_last then Some (cur, next, tr, STOP_LAST)
        else
          let host := map_to_host ctx root cur PATH_LEN in
          if strncmp_eq host PROC_PREFIX 6 then Some (cur, next, tr, STOP_PROC)
          else
            match ztake (PATH_LEN - 1) <$> readlink host with
            | None => walk f ctx root follow_last next cur tr hops
            | Some target =>
                if MAX_SYMLINK_HOPS <? hops + 1 then Some (cur, next, tr, STOP_LOOP)
                else
                  cur ← (if is_slash (chr_at target 0) then Some [SLASH] else pop_component cur);
                  last_char ← list.last (snprintf (2 * PATH_LEN) (target ++ next));
                  walk f ctx root follow_last (snprintf (2 * PATH_LEN) (target ++ next)) cur
                       (is_slash last_char) (hops + 1)
            end
  end.
Proof.
  intros ->; destruct (next_name p) as [[name next]|] eqn:Hn.
  - pose proof (is_last_spec p name next Hn) as Hlast.
    unfold next_name in Hn; cbn [Path.walk].
    destruct (drop_while is_slash p) as [|x q] eqn:Hq; [done|].
    assert (name = take_while not_slash (x :: q) /\ next = drop_while not_slash (x :: q)) as [Hname Hnext]
      by (by inversion Hn).
    rewrite <- Hname, <- Hnext; cbv zeta; rewrite Hlast; fold (cut_name name).
    rewrite into_fits by (rewrite cut_name_len; unfold NAME_BUF; case_ifs; lia); cbn [mbind option_bind].
    rewrite cut_name_len.
    destruct (strcmp_eq (cut_name name) DOT); [done|].
    destruct (strcmp_eq (cut_name name) DOTDOT); [done|].
    destruct (PATH_LEN <=? strlen cur + 1 + _) eqn:Hlen; [done|]; bool_cases.
    rewrite (snprintf_fits (PATH_LEN - _)).
    2: { pose proof (cut_name_len name) as Hc; rewrite <- Hc in Hlen; case_ifs; len_lia. }
    destruct (bool_decide (next = []) && negb follow_last); [done|]; destruct (strncmp_eq _ _ _); [done|]; destruct (readlink _) as [target|]; [|done].
    cbn [fmap option_fmap option_map]; destruct (_ <? _); [done|].
    rewrite (into_fits PATH_LEN) by (pose proof (strlen_ztake_le (PATH_LEN - 1) target); unfold PATH_LEN in *; lia).
    cbn [mbind option_bind]; destruct (if is_slash _ then _ else _); [|done]; cbn [mbind option_bind].
    by rewrite into_snprintf.
  - unfold next_name in Hn; cbn [Path.walk]. destruct (drop_while is_slash p); done.
Qed.

(** Every directory named by a non-empty prefix of [cs] is known not to be a
    symlink and not to lie under /proc/. *)
Definition resolved (cs : list cstr) : Prop :=
  forall pre suf, cs = pre ++ suf -> pre <> [] ->
    readlink (map_to_host ctx root (path_of pre) PATH_LEN) = None /\
    strncmp_eq (map_to_host ctx root (path_of pre) PATH_LEN) PROC_PREFIX 6 = false.

Lemma resolved_nil : resolved [].
Proof. by intros [|] suf H. Qed.

Lemma resolved_prefix cs suf : resolved (cs ++ suf) -> resolved cs.
Proof. intros H pre suf' ->; apply (H pre (suf' ++ suf)); by rewrite app_assoc. Qed.

Lemma resolved_snoc cs c :
  resolved cs ->
  readlink (map_to_host ctx root (path_of (cs ++ [c])) PATH_LEN) = None ->
  strncmp_eq (map_to_host ctx root (path_of (cs ++ [c])) PATH_LEN) PROC_PREFIX 6 = false ->
  resolved (cs ++ [c]).
Proof.
  intros H Hr Hp pre suf Heq Hne.
  destruct suf as [|x suf] using rev_ind; [by rewrite app_nil_r in Heq; subst|].
  rewrite app_assoc in Heq; apply app_inj_tail in Heq as [-> _]; by eapply H.
Qed.

Lemma resolved_removelast cs : resolved cs -> resolved (removelast cs).
Proof.
  destruct cs as [|c cs] using rev_ind; [done|]; rewrite removelast_last; apply resolved_prefix.
Qed.

(** What the loop maintains in [cur], as the list [cs] of its components. *)
Definition cur_ok (cs : list cstr) : Prop :=
  Forall good_comp cs /\ strlen (path_of cs) < PATH_LEN /\ resolved cs.

Lemma cur_ok_nil : cur_ok [].
Proof. unfold cur_ok; split_and?; [done|done|apply resolved_nil]. Qed.

Lemma cur_ok_pop cs : cur_ok cs -> exists cs', pop_component (path_of cs) = Some (path_of cs') /\ cur_ok cs' /\ cs' = removelast cs.
Proof.
  intros (Hg & Hl & Hr); destruct (pop_path_of_any cs Hg) as (cs' & Hp & Hg' & ->).
  exists (removelast cs); unfold cur_ok; split_and?; try done; [|by apply resolved_removelast].
  destruct cs as [|c cs] using rev_ind; [done|]; rewrite removelast_last in *.
  rewrite path_of_snoc in Hl; destruct cs; [done|]; len_lia.
Qed.

(** Where the walk can stop, and what is known there. *)
Definition walk_post (cs : list cstr) (p : cstr) (tr : bool) (stop : walk_stop) : Prop :=
  Forall good_comp cs /\ strlen (path_of cs) < PATH_LEN /\
  (stop = STOP_END -> p = [] /\ resolved cs) /\
  (stop = STOP_LAST -> p = [] /\ tr = false /\ follow_last = false /\
     exists cs0 c, cs = cs0 ++ [c] /\ resolved cs0).

Lemma walk_inv f : forall p cs hops cur' p' tr' stop,
  cur_ok cs ->
  walk f ctx root follow_last p (path_of cs) (ends_with_slash p) hops = Some (cur', p', tr', stop) ->
  exists cs', cur' = path_of cs' /\ walk_post cs' p' tr' stop.
Proof.
  induction f as [|f IH]; intros p cs hops cur' p' tr' stop Hcs; [done|].
  pose proof Hcs as (Hg & Hl & Hr).
  rewrite walk_unfold by done; destruct (next_name p) as [[name next]|] eqn:Hn.
  2:{ intros [= <- <- <- <-]; exists cs; split; [done|]. by (unfold walk_post; split_and?). }
  pose proof (next_name_trailing _ _ _ Hn) as Htr; rewrite <- Htr.
  apply next_name_Some in Hn as (sl & _ & _ & Hne & Hns & _); cbv zeta.
  destruct (strcmp_eq (cut_name name) DOT) eqn:Hdot; [by apply IH|].
  destruct (strcmp_eq (cut_name name) DOTDOT) eqn:Hdd.
  { destruct (cur_ok_pop cs Hcs) as (cs1 & -> & Hcs1 & _); cbn [mbind option_bind]; by apply IH. }
  apply bool_decide_eq_false_1 in Hdot; apply bool_decide_eq_false_1 in Hdd.
  pose proof (cut_name_good name Hne Hns Hdot Hdd) as Hgc.
  assert (Hg' : Forall good_comp (cs ++ [cut_name name])) by (apply Forall_app; split; [done|by constructor]).
  destruct (PATH_LEN <=? _) eqn:Hlong; bool_cases.
  { intros [= <- <- <- <-]; exists cs; split; [done|]; by (unfold walk_post; split_and?). }
  rewrite extend_path_of by done. pose proof (strlen_path_of_snoc cs (cut_name name)) as Hsn.
  assert (Hpost : forall q tr st, st <> STOP_END -> st <> STOP_LAST ->
                    walk_post (cs ++ [cut_name name]) q tr st).
  { intros; unfold walk_post; split_and?; [done|lia|done|done]. }
  destruct (bool_decide (next = []) && negb follow_last) eqn:Hlast.
  { bool_cases; intros [= <- <- <- <-]; exists (cs ++ [cut_name name]); split; [done|].
    unfold walk_post; split_and?; [done|lia|done|intros _]. subst next; split_and?; try done. by exists cs, (cut_name name). }
  destruct (strncmp_eq _ PROC_PREFIX 6) eqn:Hproc.
  { intros [= <- <- <- <-]; eexists; split; [done|by apply Hpost]. }
  destruct (readlink _) as [target|] eqn:Hrl; cbn [fmap option_fmap option_map].
  2:{ apply IH; unfold cur_ok; split_and?; [done|lia|by apply resolved_snoc]. }
  destruct (MAX_SYMLINK_HOPS <? hops + 1).
  { intros [= <- <- <- <-]; eexists; split; [done|by apply Hpost]. }
  assert (Hbase : exists cs1, cur_ok cs1 /\
    (if is_slash (chr_at (ztake (PATH_LEN - 1) target) 0) then Some [SLASH]
     else pop_component (path_of (cs ++ [cut_name name]))) = Some (path_of cs1)).
  { destruct (is_slash _); [exists []; split; [apply cur_ok_nil|done]|].
    exists cs; split; [done|]; by apply pop_path_of, Hgc. }
  destruct Hbase as (cs1 & Hcs1 & ->); cbn [mbind option_bind].
  destruct (list.last _) as [lc|] eqn:Hlc; cbn [mbind option_bind]; [|done].
  assert (is_slash lc = ends_with_slash (snprintf (2 * PATH_LEN) (ztake (PATH_LEN - 1) target ++ next))) as ->
    by (unfold ends_with_slash; by rewrite Hlc).
  by apply IH.
Qed.

(** The fuel is enough, and no empty buffer is indexed, when the host never
    reports an empty symlink target. *)
Lemma walk_total f : forall p cs hops,
  (forall h, readlink h <> Some []) -> Forall good_comp cs ->
  0 <= hops <= MAX_SYMLINK_HOPS -> strlen p < 2 * PATH_LEN ->
  (MAX_SYMLINK_HOPS - hops) * (2 * PATH_LEN) + strlen p < Z.of_nat f ->
  is_Some (walk f ctx root follow_last p (path_of cs) (ends_with_slash p) hops).
Proof.
  induction f as [|f IH]; intros p cs hops Hrl Hg Hh Hp Hf; unfold MAX_SYMLINK_HOPS, PATH_LEN in Hh, Hp, Hf;
    [pose proof (strlen_nonneg p); lia|].
  rewrite walk_unfold by done; destruct (next_name p) as [[name next]|] eqn:Hn; [|by eexists].
  pose proof (next_name_trailing _ _ _ Hn) as Htr; rewrite <- Htr; pose proof (next_name_shorter _ _ _ Hn) as Hsh.
  apply next_name_Some in Hn as (sl & _ & _ & Hne & Hns & _); cbv zeta.
  assert (Hrec : forall cs', Forall good_comp cs' ->
    is_Some (walk f ctx root follow_last next (path_of cs') (ends_with_slash next) hops)).
  { intros cs' Hcs'; apply IH; try done; unfold MAX_SYMLINK_HOPS, PATH_LEN; lia. }
  destruct (strcmp_eq (cut_name name) DOT) eqn:Hdot; [by apply Hrec|].
  destruct (strcmp_eq (cut_name name) DOTDOT) eqn:Hdd.
  { destruct (pop_path_of_any cs Hg) as (cs1 & -> & Hcs1 & _); cbn [mbind option_bind]; by apply Hrec. }
  apply bool_decide_eq_false_1 in Hdot; apply bool_decide_eq_false_1 in Hdd.
  pose proof (cut_name_good name Hne Hns Hdot Hdd) as Hgc.
  assert (Hg' : Forall good_comp (cs ++ [cut_name name])) by (apply Forall_app; split; [done|by constructor]).
  rewrite extend_path_of by done.
  destruct (PATH_LEN <=? _); [by eexists|]. destruct (_ && _); [by eexists|].
  destruct (strncmp_eq _ _ _); [by eexists|].
  destruct (readlink _) as [target|] eqn:Ht; cbn [fmap option_fmap option_map]; [|by apply Hrec].
  destruct (MAX_SYMLINK_HOPS <? hops + 1) eqn:Hmax; [by eexists|]; bool_cases; unfold MAX_SYMLINK_HOPS in Hmax.
  assert (Hbase : exists cs1, Forall good_comp cs1 /\
    (if is_slash (chr_at (ztake (PATH_LEN - 1) target) 0) then Some [SLASH]
     else pop_component (path_of (cs ++ [cut_name name]))) = Some (path_of cs1)).
  { destruct (is_slash _); [by exists []|]. exists cs; split; [done|]; by apply pop_path_of, Hgc. }
  destruct Hbase as (cs1 & Hcs1 & ->); cbn [mbind option_bind].
  set (tail := snprintf (2 * PATH_LEN) (ztake (PATH_LEN - 1) target ++ next)).
  assert (Htail : tail <> []).
  { unfold tail, snprintf, PATH_LEN; destruct target as [|x target]; [by apply Hrl in Ht|].
    unfold ztake; destruct (Z.to_nat (4096 - 1)) as [|k] eqn:?; [lia|].
    by destruct (Z.to_nat (2 * 4096 - 1)) as [|k'] eqn:?; [lia|]. }
  destruct (list.last tail) as [lc|] eqn:Hlc; [|by apply last_None in Hlc]; cbn [mbind option_bind].
  assert (is_slash lc = ends_with_slash tail) as -> by (unfold ends_with_slash; by rewrite Hlc).
  assert (strlen tail < 2 * PATH_LEN) by (apply strlen_snprintf; unfold PATH_LEN; lia).
  pose proof (strlen_nonneg next); apply IH; try done; unfold MAX_SYMLINK_HOPS, PATH_LEN in *; lia.
Qed.
End walk.

(** ** The translation *)

Lemma chr_at_last g : g <> [] -> is_slash (chr_at g (strlen g - 1)) = ends_with_slash g.
Proof.
  intros Hg; destruct g as [|x g] using rev_ind; [done|].
  unfold ends_with_slash, chr_at; rewrite last_snoc, strlen_app, strlen_cons, strlen_nil.
  replace (Z.to_nat (strlen g + (1 + 0) - 1)) with (length g) by (unfold strlen; lia).
  by rewrite nth_middle.
Qed.

Lemma absolute_nonempty g : is_slash (chr_at g 0) = true -> g <> [].
Proof. by destruct g. Qed.

Lemma guest_walk_start readlink ctx root g fl :
  g <> [] -> strlen g < 2 * PATH_LEN ->
  guest_walk readlink ctx root g fl =
    walk readlink walk_fuel ctx root fl g (path_of []) (ends_with_slash g) 0.
Proof. intros Hg Hl; unfold guest_walk; by rewrite snprintf_fits, chr_at_last. Qed.

Lemma slash_if_empty_nonempty sz s : 1 < sz -> slash_if_empty sz s <> [].
Proof.
  intros Hsz; unfold slash_if_empty; case_ifs; [|done].
  rewrite snprintf_fits; [done|]. len_lia.
Qed.

Lemma snprintf_nonempty sz s : 1 < sz -> s <> [] -> snprintf sz s <> [].
Proof.
  intros Hsz Hs H; apply (f_equal strlen) in H; unfold snprintf in H.
  rewrite strlen_ztake in H by lia; destruct s; [done|]; len_lia.
Qed.

Lemma map_to_host_nonempty ctx root g sz : 1 < sz -> g <> [] -> map_to_host ctx root g sz <> [].
Proof.
  intros Hsz Hg; unfold map_to_host; destruct (best_binding ctx g); [by apply slash_if_empty_nonempty|].
  destruct (best_mount _ _); [by apply slash_if_empty_nonempty|].
  apply snprintf_nonempty; [done|]. by intros [_ ?]%app_eq_nil.
Qed.

Lemma finish_total ctx root cur p tr : cur <> [] -> is_Some (finish ctx root cur p tr).
Proof.
  intros Hcur; unfold finish.
  assert (Hne : map_to_host ctx root cur PATH_LEN <> []) by (apply map_to_host_nonempty; [unfold PATH_LEN; lia|done]).
  set (h := map_to_host ctx root cur PATH_LEN) in *; cbv zeta.
  assert (Hlast : forall s : cstr, s <> [] -> exists x, list.last s = Some x).
  { intros s Hs; destruct (list.last s) eqn:H; [by eexists|]. by apply last_None in H. }
  destruct (Hlast h Hne) as (x & Hx).
  assert (Hend : forall (s : cstr) c, is_Some (if negb (is_slash c) && (strlen s + 1 <? PATH_LEN)
                                        then into PATH_LEN (s ++ [SLASH]) else Some s)).
  { intros s c; destruct (_ && _) eqn:E; [|by eexists]; bool_cases.
    rewrite into_fits; [by eexists|]; rewrite strlen_app; change (strlen [SLASH]) with 1; lia. }
  destruct p as [|c p]; cbn [mbind option_bind]; [rewrite Hx|rewrite Hx; cbn [mbind option_bind]].
  - destruct tr; [apply Hend|by eexists].
  - destruct tr; [|by eexists].
    match goal with |- context [list.last ?l] => destruct (Hlast l) as (y & ->) end; [|apply Hend].
    by intros [? _]%app_eq_nil.
Qed.

(** What is stored in the callers' buffers fits them. *)
Lemma translate_fits readlink ctx root guest_path follow_last outsz guest_outsz t :
  0 < outsz -> 0 < guest_outsz ->
  emuroot_translate_path_ex readlink ctx root guest_path follow_last outsz guest_outsz = Some t ->
  strlen (tr_host t) < outsz /\ strlen (tr_guest t) < guest_outsz.
Proof.
  intros Ho Hg; unfold emuroot_translate_path_ex; case_ifs; [intros [= <-]; split; by apply strlen_snprintf|].
  destruct (guest_walk _ _ _ _ _) as [[[[cur p] tr] stop]|]; cbn [mbind option_bind]; [|done].
  destruct (finish _ _ _ _ _); cbn [mbind option_bind]; [|done].
  intros [= <-]; split; by apply strlen_snprintf.
Qed.

(** The walk and what follows it always produce a result. *)
Lemma translate_defined readlink ctx root guest_path follow_last outsz guest_outsz :
  (forall h, readlink h <> Some []) -> strlen guest_path < 2 * PATH_LEN ->
  exists t, emuroot_translate_path_ex readlink ctx root guest_path follow_last outsz guest_outsz = Some t.
Proof.
  intros Hrl Hl; unfold emuroot_translate_path_ex.
  destruct (is_slash (chr_at guest_path 0)) eqn:Habs; cbn [negb orb]; [|by eexists].
  destruct (_ && _); [by eexists|].
  pose proof (absolute_nonempty _ Habs) as Hg; rewrite guest_walk_start by done.
  destruct (walk_total readlink ctx root follow_last walk_fuel guest_path [] 0) as [[[[cur p] tr] stop] Hw];
    [done|done|by vm_compute|done| |].
  { unfold walk_fuel; rewrite Z2Nat.id by (unfold MAX_SYMLINK_HOPS, PATH_LEN; lia).
    unfold MAX_SYMLINK_HOPS, PATH_LEN in *; lia. }
  rewrite Hw; cbn [mbind option_bind].
  destruct (walk_inv readlink ctx root follow_last walk_fuel guest_path [] 0 cur p tr stop) as (cs & -> & _);
    [apply cur_ok_nil|done|].
  destruct (finish_total ctx root (path_of cs) p tr (path_of_nonempty cs)) as [h ->].
  by eexists.
Qed.

(** C13: path translation always returns. For any context, root, path that fits
    the callers' buffers and file system whose symlinks are not empty, the walk
    ends within its fuel (symlink loops included), no buffer is indexed before
    its start, and a result is produced. *)
Theorem translate_total readlink ctx root guest_path follow_last outsz guest_outsz :
  (forall h, readlink h <> Some []) -> strlen guest_path < 2 * PATH_LEN -> 0 < outsz -> 0 < guest_outsz ->
  exists t, emuroot_translate_path_ex readlink ctx root guest_path follow_last outsz guest_outsz = Some t /\
    strlen (tr_host t) < outsz /\ strlen (tr_guest t) < guest_outsz.
Proof.
  intros Hrl Hl Ho Hg; destruct (translate_defined readlink ctx root guest_path follow_last outsz guest_outsz Hrl Hl) as [t Ht].
  exists t; split; [done|]; by eapply translate_fits.
Qed.

(** A file system where /r/loop is a symlink to itself. *)
Definition loop_fs (p : cstr) : option cstr :=
  if strcmp_eq p (lit "/r/loop") then Some (lit "loop") else None.

Definition empty_ctx : emuroot_ctx :=
  Ctx [] (replicate 128 zero_binding) 0 false 0 0 false [] [] [] [] None false.

Lemma translate_total_witness :
  exists t, emuroot_translate_path_ex loop_fs empty_ctx (lit "/r") (lit "/loop/x") true 4096 4096 = Some t /\
    strlen (tr_host t) < 4096 /\ strlen (tr_guest t) < 4096.
Proof.
  apply translate_total; [|reflexivity|reflexivity|reflexivity].
  intros h; unfold loop_fs; destruct (strcmp_eq h (lit "/r/loop")); discriminate.
Defined.

Lemma active_none ctx : nbindings ctx = 0 -> active ctx = [].
Proof. intros H; unfold active; by rewrite H. Qed.

Lemma map_to_host_no_bindings ctx root g sz :
  active ctx = [] -> map_to_host ctx root g sz = snprintf sz (root ++ g).
Proof. intros Ha; unfold map_to_host, best_binding, best_mount; by rewrite Ha. Qed.

Lemma last_path_of cs : Forall good_comp cs -> cs <> [] -> ends_with_slash (path_of cs) = false.
Proof.
  intros Hg Hne; destruct cs as [|c cs] using rev_ind; [done|].
  apply Forall_app in Hg as [_ Hg]; inversion Hg as [|? ? (Hc & Hs & _) _]; subst.
  rewrite path_of_snoc, ends_with_slash_app by done.
  change (SLASH :: c) with ([SLASH] ++ c); rewrite ends_with_slash_app by done.
  by apply ends_with_slash_no_slash.
Qed.

(** [finish] when nothing is left to walk: the host path, with the trailing
    slash of the request if it is not there yet and fits. *)
Lemma finish_no_rest ctx root cur tr h :
  finish ctx root cur [] tr = Some h ->
  h = map_to_host ctx root cur PATH_LEN \/ (tr = true /\ h = map_to_host ctx root cur PATH_LEN ++ [SLASH]).
Proof.
  unfold finish; cbn [mbind option_bind]; destruct tr; [|intros [= <-]; by left].
  destruct (list.last _); cbn [mbind option_bind]; [|done].
  unfold into; case_ifs; try done; intros [= <-]; [by right|by left].
Qed.

Lemma translate_walk_inv readlink ctx root guest_path follow_last outsz guest_outsz t :
  is_slash (chr_at guest_path 0) = true -> strlen guest_path < 2 * PATH_LEN ->
  ~ (root = [] /\ nbindings ctx = 0) ->
  emuroot_translate_path_ex readlink ctx root guest_path follow_last outsz guest_outsz = Some t ->
  exists cs p tr stop h,
    guest_walk readlink ctx root guest_path follow_last = Some (path_of cs, p, tr, stop) /\
    walk_post readlink ctx root follow_last cs p tr stop /\
    finish ctx root (path_of cs) p tr = Some h /\
    t = Translation (snprintf outsz h) (snprintf guest_outsz (path_of cs)) (negb (strcmp_eq h guest_path)).
Proof.
  intros Habs Hl Hroot; unfold emuroot_translate_path_ex; rewrite Habs; cbn [negb orb].
  destruct (bool_decide (root = []) && (nbindings ctx =? 0)) eqn:Hno.
  { bool_cases; by exfalso; apply Hroot. }
  pose proof (absolute_nonempty _ Habs) as Hg; rewrite guest_walk_start by done.
  destruct (walk _ _ _ _ _ _ _ _ _) as [[[[cur p] tr] stop]|] eqn:Hw; [|done]; cbn [mbind option_bind].
  destruct (walk_inv readlink ctx root follow_last walk_fuel guest_path [] 0 cur p tr stop) as (cs & -> & Hpost);
    [apply cur_ok_nil|done|].
  destruct (finish _ _ _ _ _) as [h|] eqn:Hf; [|done]; intros [= <-].
  by exists cs, p, tr, stop, h.
Qed.

(** C2: confinement. Without bindings, an absolute guest path that the walk
    resolves to its end (no symlink loop, nothing under /proc/, no over-long
    name) becomes the root followed by components none of which is empty, ".",
    ".." or contains a slash - whatever "..", "." and symlinks it contained -
    with at most one trailing slash. *)
Theorem translate_confined readlink ctx root guest_path follow_last t cur p tr stop :
  is_slash (chr_at guest_path 0) = true -> strlen guest_path < 2 * PATH_LEN ->
  nbindings ctx = 0 -> root <> [] ->
  guest_walk readlink ctx root guest_path follow_last = Some (cur, p, tr, stop) ->
  stop = STOP_END \/ stop = STOP_LAST ->
  strlen root + strlen cur + 1 < PATH_LEN ->
  emuroot_translate_path_ex readlink ctx root guest_path follow_last PATH_LEN PATH_LEN = Some t ->
  exists cs, Forall good_comp cs /\ tr_guest t = path_of cs /\
    (tr_host t = root ++ path_of cs \/ tr_host t = root ++ path_of cs ++ [SLASH]).
Proof.
  intros Habs Hl Hn Hroot Hw Hstop Hlen Ht.
  apply translate_walk_inv in Ht as (cs & p' & tr' & stop' & h & Hw' & Hpost & Hf & ->); [|done|done|naive_solver].
  rewrite Hw in Hw'; injection Hw' as -> -> -> ->.
  destruct Hpost as (Hg & Hcl & Hend & Hlast); exists cs; simpl.
  assert (p' = []) as -> by (destruct Hstop as [->| ->]; [by apply Hend|by apply Hlast]).
  split; [done|]; split; [by apply snprintf_fits|].
  apply finish_no_rest in Hf; rewrite map_to_host_no_bindings, snprintf_fits in Hf
    by (by apply active_none || len_lia).
  destruct Hf as [->|[_ ->]]; [left|right]; rewrite snprintf_fits, ?app_assoc by len_lia; done.
Qed.

(** A root with an absolute symlink out of it and a relative one climbing up. *)
Definition link_fs (p : cstr) : option cstr :=
  if strcmp_eq p (lit "/r/abs") then Some (lit "/etc")
  else if strcmp_eq p (lit "/r/up") then Some (lit "../../..") else None.

Lemma translate_confined_witness :
  exists cs, Forall good_comp cs /\ lit "/etc/passwd" = path_of cs /\
    (lit "/r/etc/passwd" = lit "/r" ++ path_of cs \/ lit "/r/etc/passwd" = lit "/r" ++ path_of cs ++ [SLASH]).
Proof.
  apply (translate_confined link_fs empty_ctx (lit "/r") (lit "/up/../abs/./passwd") true
           (Translation (lit "/r/etc/passwd") (lit "/etc/passwd") true) (lit "/etc/passwd") [] false STOP_END);
    try reflexivity; [discriminate|by left].
Defined.

(** C12: no symlink is left for the kernel to follow outside the root. When the
    walk reaches the end of the path, the host path of every non-empty prefix of
    the resolved guest path (the whole path included) is known not to be a
    symlink, and none lies under /proc/; when it stops at a last component that
    is not to be followed, this holds for every prefix but the whole path. *)
Theorem translate_leaves_no_symlink readlink ctx root guest_path follow_last cur p tr stop :
  is_slash (chr_at guest_path 0) = true -> strlen guest_path < 2 * PATH_LEN ->
  guest_walk readlink ctx root guest_path follow_last = Some (cur, p, tr, stop) ->
  stop = STOP_END \/ stop = STOP_LAST ->
  p = [] /\
  exists cs, cur = path_of cs /\ Forall good_comp cs /\
    forall pre suf, cs = pre ++ suf -> pre <> [] -> suf <> [] \/ stop = STOP_END ->
      readlink (map_to_host ctx root (path_of pre) PATH_LEN) = None /\
      strncmp_eq (map_to_host ctx root (path_of pre) PATH_LEN) PROC_PREFIX 6 = false.
Proof.
  intros Habs Hl Hw Hstop; pose proof (absolute_nonempty _ Habs) as Hg.
  rewrite guest_walk_start in Hw by done.
  apply walk_inv in Hw as (cs & -> & Hgc & _ & Hend & Hlast); [|apply cur_ok_nil].
  destruct Hstop as [->| ->].
  - destruct Hend as [-> Hres]; [done|]; split; [done|]. exists cs; split_and?; [done|done|].
    intros pre suf Heq Hpre _; by eapply Hres.
  - destruct Hlast as (-> & _ & _ & cs0 & c & -> & Hres); [done|]; split; [done|].
    exists (cs0 ++ [c]); split_and?; [done|done|]. intros pre suf Heq Hpre [Hsuf|]; [|done].
    destruct suf as [|x suf] using rev_ind; [done|].
    rewrite app_assoc in Heq; apply app_inj_tail in Heq as [-> _]; by eapply Hres.
Qed.

Lemma translate_leaves_no_symlink_witness :
  [] = @nil ascii /\
  exists cs, lit "/x/abs" = path_of cs /\ Forall good_comp cs /\
    forall pre suf, cs = pre ++ suf -> pre <> [] -> suf <> [] \/ STOP_LAST = STOP_END ->
      link_fs (map_to_host empty_ctx (lit "/r") (path_of pre) PATH_LEN) = None /\
      strncmp_eq (map_to_host empty_ctx (lit "/r") (path_of pre) PATH_LEN) PROC_PREFIX 6 = false.
Proof.
  apply (translate_leaves_no_symlink link_fs empty_ctx (lit "/r") (lit "/up/x/abs") false
           (lit "/x/abs") [] false STOP_LAST); [reflexivity|reflexivity|by vm_compute|by right].
Defined.
