(* ===== verification/PathSpec.v ===== *)
(** What path resolution means inside the guest's root, without buffers: an
    abstract resolution of components over the guest's symlinks, and the
    refinement theorem that the walk of [src/path.c] computes it. *)

From Stdlib Require Import ZArith Lia Ascii String.
From stdpp Require Import base list numbers.
From S2P Require Import Prelude Config Path PathFacts.
Local Open Scope Z_scope.

(** ** The specification *)

(** The names in a path. *)
Fixpoint components (s : cstr) : list cstr :=
  match s with
  | [] => []
  | c :: s =>
      if is_slash c then components s
      else match s with
           | [] => [[c]]
           | d :: _ =>
               if is_slash d then [c] :: components s
               else match components s with [] => [[c]] | x :: xs => (c :: x) :: xs end
           end
  end.

Section resolves.
(** The symlinks of the guest's file system, by absolute path. *)
Variable link : list cstr -> option cstr.
(** Is a symlink in the last place followed? *)
Variable follow : bool.

Definition normal (c : cstr) : Prop := c <> DOT /\ c <> DOTDOT.

(** Must a symlink be followed when [todo] is left, and does the path end with
    a slash? *)
Definition must_follow (todo : list cstr) (slash : bool) : Prop := follow = true \/ todo <> [] \/ slash = true.

(** [resolves dir todo slash n r]: from directory [dir], the names [todo] lead
    to [r] through [n] symlinks; [slash]: the path ends with a slash. *)
Inductive resolves : list cstr -> list cstr -> bool -> Z -> list cstr -> Prop :=
| resolves_here dir slash : resolves dir [] slash 0 dir
| resolves_dot dir todo slash n r : resolves dir todo slash n r -> resolves dir (DOT :: todo) slash n r
| resolves_up dir todo slash n r : resolves (removelast dir) todo slash n r -> resolves dir (DOTDOT :: todo) slash n r
| resolves_last dir c : normal c -> ~ must_follow [] false -> resolves dir [c] false 0 (dir ++ [c])
| resolves_name dir c todo slash n r :
    normal c -> must_follow todo slash -> link (dir ++ [c]) = None ->
    resolves (dir ++ [c]) todo slash n r -> resolves dir (c :: todo) slash n r
| resolves_link dir c todo slash target n r :
    normal c -> must_follow todo slash -> link (dir ++ [c]) = Some target ->
    resolves (if is_slash (chr_at target 0) then [] else dir) (components target ++ todo)
      (match todo with [] => slash || ends_with_slash target | _ => slash end) n r ->
    resolves dir (c :: todo) slash (1 + n) r.

(** A path leads to one place. *)
Lemma resolves_unique dir todo slash n r :
  resolves dir todo slash n r -> forall n' r', resolves dir todo slash n' r' -> n = n' /\ r = r'.
Proof.
  induction 1 as [| | | |dir c todo slash n r Hc Hm Hl Hr IH|dir c todo slash tgt n r Hc Hm Hl Hr IH];
    intros n' r' Hr'; inversion Hr'; subst; unfold normal in *; try tauto; try congruence; auto.
  simplify_eq; by destruct (IH _ _ ltac:(eassumption)) as [-> ->].
Qed.

Lemma resolves_links dir todo slash n r : resolves dir todo slash n r -> 0 <= n.
Proof. induction 1; lia. Qed.
End resolves.

(** ** Components and the walk's reading of a path *)

Lemma components_slashes sl s : Forall (fun c => is_slash c = true) sl -> components (sl ++ s) = components s.
Proof. induction 1 as [|c sl Hc Hsl IH]; [done|]; cbn [app components]; by rewrite Hc. Qed.

Lemma components_name c rest :
  c <> [] -> no_slash c -> rest = [] \/ (exists r, rest = SLASH :: r) -> components (c ++ rest) = c :: components rest.
Proof.
  intros Hne Hns Hr; induction c as [|x c IH]; [done|]; clear Hne; apply not_elem_of_cons in Hns as [Hx Hns].
  cbn [app components]; replace (is_slash x) with false by (symmetry; apply bool_decide_eq_false; congruence).
  destruct c as [|y c].
  - cbn [app]; destruct Hr as [->|[r ->]]; [done|]; done.
  - pose proof Hns as [Hy _]%not_elem_of_cons; cbn [app].
    replace (is_slash y) with false by (symmetry; apply bool_decide_eq_false; congruence).
    change (y :: c ++ rest) with ((y :: c) ++ rest); by rewrite IH.
Qed.

Lemma components_next p :
  components p = match next_name p with Some (c, rest) => c :: components rest | None => [] end.
Proof.
  destruct (next_name p) as [[c rest]|] eqn:E.
  - apply next_name_Some in E as (sl & -> & Hsl & Hc & Hns & Hr).
    rewrite components_slashes by done; by apply components_name.
  - unfold next_name in E; pose proof (take_drop_while is_slash p) as Hp; pose proof (take_while_Forall is_slash p) as Hsl.
    destruct (drop_while is_slash p); [|done]; rewrite <- Hp, app_nil_r, <- (app_nil_r (take_while is_slash p)).
    by rewrite components_slashes.
Qed.

Lemma components_app s rest :
  rest = [] \/ (exists r, rest = SLASH :: r) -> components (s ++ rest) = components s ++ components rest.
Proof.
  intros Hr; remember (length s) as n eqn:Hn; revert s Hn; induction n as [n IH] using lt_wf_ind; intros s ->.
  rewrite (components_next s); destruct (next_name s) as [[c t]|] eqn:E.
  - pose proof (next_name_shorter _ _ _ E) as Hsh; apply next_name_Some in E as (sl & -> & Hsl & Hc & Hns & Ht).
    rewrite <- !app_assoc, components_slashes, components_name; [|done|done| |done].
    + cbn [app]; f_equal; unfold strlen in Hsh; eapply IH; [|done]; lia.
    + destruct Ht as [->|[r ->]]; [exact Hr|by constructor 2; eexists].
  - unfold next_name in E; pose proof (take_drop_while is_slash s) as Hs; pose proof (take_while_Forall is_slash s) as Hsl.
    destruct (drop_while is_slash s); [|done]; rewrite <- Hs, app_nil_r; by rewrite components_slashes.
Qed.

(** Every name fits the walk's buffer. *)
Definition names_ok (s : cstr) : Prop := Forall (fun c => strlen c < NAME_BUF) (components s).

(** One more for the slash that is put before a relative first name. *)
Definition extra (p : cstr) : Z := match p with c :: _ => if is_slash c then 0 else 1 | [] => 0 end.

Lemma extra_range p : 0 <= extra p <= 1.
Proof. unfold extra; destruct p; [lia|]; case_ifs; lia. Qed.

Lemma next_name_extra p c rest :
  next_name p = Some (c, rest) -> 1 + strlen c + strlen rest + extra rest <= strlen p + extra p.
Proof.
  intros (sl & -> & Hsl & Hc & Hns & Hr)%next_name_Some.
  assert (extra rest = 0) as -> by (by destruct Hr as [->|[r ->]]).
  rewrite !strlen_app; destruct sl as [|x sl]; [|rewrite strlen_cons; pose proof (strlen_nonneg sl); pose proof (extra_range ((x :: sl) ++ c ++ rest)); lia].
  destruct c as [|x c]; [done|]; cbn [app extra]; apply not_elem_of_cons in Hns as [Hx _].
  replace (is_slash x) with false by (symmetry; apply bool_decide_eq_false; congruence); change (strlen (@nil ascii)) with 0; lia.
Qed.

(** ** The walk refines it *)

Section refinement.
Context (readlink : cstr -> option cstr) (ctx : emuroot_ctx) (root : cstr) (follow : bool).
Notation walk := (walk readlink).

(** The guest's symlinks, as the walk sees them through the root. *)
Definition guest_link (cs : list cstr) : option cstr := readlink (map_to_host ctx root (path_of cs) PATH_LEN).
Notation resolves := (resolves guest_link follow).

(** Targets are short, their names fit, and nothing lies under the host's /proc. *)
Definition links_ok (K : Z) : Prop :=
  K < PATH_LEN /\ forall h t, readlink h = Some t -> t <> [] /\ strlen t <= K /\ names_ok t.
Definition no_proc : Prop := forall cs, strncmp_eq (map_to_host ctx root (path_of cs) PATH_LEN) PROC_PREFIX 6 = false.

(** What is left of the buffers: a path, and a target for each link to come. *)
Definition budget (K : Z) (cs : list cstr) (p : cstr) (hops : Z) : Prop :=
  strlen (path_of cs) + strlen p + extra p + (MAX_SYMLINK_HOPS - hops) * (K + 1) < PATH_LEN.

(** What the end of the walk says about the specification. *)
Definition walk_meets (cs : list cstr) (p : cstr) (hops : Z) (cur : cstr) (stop : walk_stop) : Prop :=
  match stop with
  | STOP_END | STOP_LAST => exists n r, cur = path_of r /\ hops + n <= MAX_SYMLINK_HOPS /\
      resolves cs (components p) (ends_with_slash p) n r
  | STOP_LOOP => forall n r, resolves cs (components p) (ends_with_slash p) n r -> MAX_SYMLINK_HOPS < hops + n
  | _ => False
  end.

(** Steps that read a name without following a link carry [walk_meets] over. *)
Lemma walk_meets_step cs cs1 p c next hops cur stop :
  next_name p = Some (c, next) ->
  (forall n r, resolves cs1 (components next) (ends_with_slash next) n r <->
               resolves cs (c :: components next) (ends_with_slash next) n r) ->
  walk_meets cs1 next hops cur stop -> walk_meets cs p hops cur stop.
Proof.
  intros Hn Hstep; unfold walk_meets; rewrite (components_next p), Hn, <- (next_name_trailing _ _ _ Hn); destruct stop; try done.
  - intros (n & r & ? & ? & ?); exists n, r; split_and?; try done; by apply Hstep.
  - intros (n & r & ? & ? & ?); exists n, r; split_and?; try done; by apply Hstep.
  - intros H n r Hr; by apply (H n r), Hstep.
Qed.

(** Is the name that [next] follows the last one? *)
Lemma must_follow_spec next :
  next = [] \/ (exists r, next = SLASH :: r) ->
  bool_decide (next = []) && negb follow = false <-> must_follow follow (components next) (ends_with_slash next).
Proof.
  intros Hr; unfold must_follow; destruct Hr as [->|[r ->]].
  - rewrite bool_decide_eq_true_2 by done; cbn; destruct follow; naive_solver.
  - rewrite bool_decide_eq_false_2 by done; cbn [andb]; split; [intros _|done]; constructor 2.
    destruct (components (SLASH :: r)) eqn:E; [constructor 2|by constructor 1].
    apply drop_slashes_trailing; [done|]; rewrite components_next in E; unfold next_name in E.
    destruct (drop_while is_slash (SLASH :: r)); [done|by destruct (drop_while _ _)].
Qed.

Lemma pop_resolves cs c next n r :
  c = DOTDOT -> resolves (removelast cs) (components next) (ends_with_slash next) n r <->
  resolves cs (c :: components next) (ends_with_slash next) n r.
Proof.
  intros ->; split; [by constructor|]; intros Hr; inversion Hr; subst; unfold normal in *; try tauto.
Qed.

Lemma dot_resolves cs c next n r :
  c = DOT -> resolves cs (components next) (ends_with_slash next) n r <->
  resolves cs (c :: components next) (ends_with_slash next) n r.
Proof.
  intros ->; split; [by constructor|]; intros Hr; inversion Hr; subst; unfold normal in *; try tauto.
Qed.

Lemma name_resolves cs c next n r :
  normal c -> must_follow follow (components next) (ends_with_slash next) -> guest_link (cs ++ [c]) = None ->
  resolves (cs ++ [c]) (components next) (ends_with_slash next) n r <->
  resolves cs (c :: components next) (ends_with_slash next) n r.
Proof.
  intros Hc Hm Hl; split; [by eapply resolves_name|]; intros Hr; inversion Hr; subst; unfold normal in *; try tauto; try congruence.
Qed.

(** Following a link reads the target before what was left. *)
Lemma link_resolves cs c next t n r :
  next = [] \/ (exists r, next = SLASH :: r) -> t <> [] ->
  normal c -> must_follow follow (components next) (ends_with_slash next) -> guest_link (cs ++ [c]) = Some t ->
  resolves (if is_slash (chr_at t 0) then [] else cs) (components (t ++ next)) (ends_with_slash (t ++ next)) n r <->
  resolves cs (c :: components next) (ends_with_slash next) (1 + n) r.
Proof.
  intros Hnext Ht Hc Hm Hl; rewrite components_app by done.
  assert (ends_with_slash (t ++ next) =
    match components next with [] => ends_with_slash next || ends_with_slash t | _ => ends_with_slash next end) as ->.
  { destruct Hnext as [->|[q ->]]; [by rewrite app_nil_r|]; rewrite ends_with_slash_app by done.
    destruct (components (SLASH :: q)) eqn:E; [|done]; rewrite drop_slashes_trailing; [done|done|].
    rewrite components_next in E; unfold next_name in E; destruct (drop_while is_slash (SLASH :: q)); [done|by destruct (drop_while _ _)]. }
  split; [by eapply resolves_link|]; intros Hr; inversion Hr; subst; unfold normal in *; try tauto; try congruence.
  simplify_eq; match goal with H : 1 + ?a = 1 + n |- _ => assert (a = n) as <- by lia end; done.
Qed.

Lemma path_of_length (cs : list cstr) : 1 <= strlen (path_of cs).
Proof. destruct (path_of_head cs) as [s ->]; rewrite strlen_cons; pose proof (strlen_nonneg s); lia. Qed.

Lemma budget_next K cs p c next hops :
  Forall good_comp cs -> next_name p = Some (c, next) -> budget K cs p hops ->
  strlen (path_of cs) + 1 + strlen c + strlen next + (MAX_SYMLINK_HOPS - hops) * (K + 1) < PATH_LEN /\
  budget K cs next hops /\ budget K (cs ++ [c]) next hops /\ budget K (removelast cs) next hops.
Proof.
  unfold budget; intros Hg Hn Hb; pose proof (next_name_extra p c next Hn) as He; pose proof (strlen_path_of_snoc cs c).
  pose proof (extra_range next); pose proof (strlen_nonneg c).
  assert (strlen (path_of (removelast cs)) <= strlen (path_of cs)).
  { destruct cs as [|d cs] using rev_ind; [done|]; rewrite removelast_last, path_of_snoc, strlen_app, strlen_cons; pose proof (strlen_nonneg d).
    destruct cs; [change (strlen (path_of [])) with 1; change (strlen (@nil ascii)) with 0|]; lia. }
  split_and?; lia.
Qed.

Lemma budget_link K cs (c next : cstr) hops (t : cstr) :
  links_ok K -> strlen (path_of cs) + 1 + strlen c + strlen next + (MAX_SYMLINK_HOPS - hops) * (K + 1) < PATH_LEN ->
  c <> [] -> strlen t <= K -> budget K (if is_slash (chr_at t 0) then [] else cs) (t ++ next) (hops + 1).
Proof.
  unfold budget; intros _ Hb Hc Ht; pose proof (extra_range (t ++ next)); destruct c as [|x c]; [done|]; rewrite strlen_cons in Hb.
  rewrite strlen_app; pose proof (strlen_nonneg c); pose proof (path_of_length cs).
  destruct (is_slash _); [change (strlen (path_of [])) with 1|]; lia.
Qed.

Lemma names_next p c next : next_name p = Some (c, next) -> names_ok p -> strlen c < NAME_BUF /\ names_ok next.
Proof. unfold names_ok; rewrite (components_next p); intros ->; by intros [? ?]%list.Forall_cons. Qed.

Lemma names_app t next :
  next = [] \/ (exists r, next = SLASH :: r) -> names_ok t -> names_ok next -> names_ok (t ++ next).
Proof. unfold names_ok; intros Hn ??; rewrite components_app by done; by apply Forall_app. Qed.

(** Following a link carries it over too. *)
Lemma walk_meets_link cs p c next t hops cur stop :
  next_name p = Some (c, next) -> t <> [] -> normal c -> must_follow follow (components next) (ends_with_slash next) ->
  guest_link (cs ++ [c]) = Some t ->
  walk_meets (if is_slash (chr_at t 0) then [] else cs) (t ++ next) (hops + 1) cur stop -> walk_meets cs p hops cur stop.
Proof.
  intros Hn Hte Hnorm Hlast Hlink; pose proof (next_name_trailing _ _ _ Hn) as Htr.
  pose proof Hn as (sl & _ & _ & _ & _ & Hnext)%next_name_Some.
  pose proof (fun n r => link_resolves cs c next t n r Hnext Hte Hnorm Hlast Hlink) as Hlr.
  unfold walk_meets; rewrite (components_next p), Hn, <- Htr; destruct stop; try done.
  - intros (n & r & ? & ? & ?); exists (1 + n), r; split_and?; [done|lia|by apply Hlr].
  - intros (n & r & ? & ? & ?); exists (1 + n), r; split_and?; [done|lia|by apply Hlr].
  - intros HL n r Hr; specialize (HL (n - 1) r); replace n with (1 + (n - 1)) in Hr by lia; apply Hlr, HL in Hr; lia.
Qed.

Lemma walk_refines K f : forall p cs hops cur p' tr stop,
  links_ok K -> no_proc -> Forall good_comp cs -> 0 <= K -> 0 <= hops <= MAX_SYMLINK_HOPS ->
  names_ok p -> budget K cs p hops ->
  walk f ctx root follow p (path_of cs) (ends_with_slash p) hops = Some (cur, p', tr, stop) ->
  walk_meets cs p hops cur stop.
Proof.
  induction f as [|f IH]; intros p cs hops cur p' tr stop Hl Hproc Hg HK Hh Hnm Hb; [done|].
  rewrite walk_unfold by done; destruct (next_name p) as [[c next]|] eqn:Hn.
  2: { intros [= <- _ _ <-]; exists 0, cs; split_and?; [done|lia|]; rewrite components_next, Hn; constructor. }
  pose proof (budget_next K cs p c next hops Hg Hn Hb) as (Hfit & Hb0 & Hb1 & Hbp).
  pose proof (names_next p c next Hn Hnm) as [Hc Hnn]; pose proof (next_name_trailing _ _ _ Hn) as Htr.
  pose proof Hn as (sl & _ & _ & Hne & Hns & Hnext)%next_name_Some; rewrite cut_name_short, <- Htr by done; cbv zeta.
  pose proof (fun cs1 => walk_meets_step cs cs1 p c next hops cur stop Hn) as Hstep.
  destruct (strcmp_eq c DOT) eqn:Hdot.
  { apply bool_decide_eq_true in Hdot; intros Hw; eapply Hstep; [intros; by apply dot_resolves|by eapply IH]. }
  destruct (strcmp_eq c DOTDOT) eqn:Hdd.
  { apply bool_decide_eq_true in Hdd; destruct (pop_path_of_any cs Hg) as (cs1 & -> & Hg1 & ->); cbn [mbind option_bind].
    intros Hw; eapply Hstep; [intros; by apply pop_resolves|by eapply IH]. }
  apply bool_decide_eq_false in Hdot; apply bool_decide_eq_false in Hdd; assert (normal c) as Hnorm by done.
  assert (good_comp c) as Hgc by done; assert (Forall good_comp (cs ++ [c])) as Hg1 by (apply Forall_app; split; [done|by constructor]).
  pose proof (strlen_nonneg next).
  rewrite extend_path_of, (proj2 (Z.leb_gt _ _)) by (done || (unfold MAX_SYMLINK_HOPS in *; nia)).
  destruct (bool_decide (next = []) && negb follow) eqn:Hlast.
  { intros [= <- _ _ <-]; apply andb_true_iff in Hlast as [->%bool_decide_eq_true Hf%negb_true_iff].
    exists 0, (cs ++ [c]); split_and?; [done|lia|]; rewrite (components_next p), Hn, <- Htr; apply resolves_last; [done|].
    unfold must_follow; rewrite Hf; intros [?|[?|?]]; done. }
  apply must_follow_spec in Hlast; [|done]; rewrite Hproc; fold (guest_link (cs ++ [c])).
  destruct (guest_link (cs ++ [c])) as [t|] eqn:Hlink; cbn [fmap option_fmap option_map].
  2: { intros Hw; eapply Hstep; [intros; by apply name_resolves|by eapply IH]. }
  pose proof Hl as [HKl Ht]; destruct (Ht _ _ Hlink) as (Hte & Htl & Htn); rewrite (ztake_ge _ t) by lia.
  pose proof (fun stop0 => walk_meets_link cs p c next t hops cur stop0 Hn Hte Hnorm Hlast Hlink) as Hmeet.
  destruct (Z.ltb_spec MAX_SYMLINK_HOPS (hops + 1)) as [Hmax|Hmax].
  { intros [= <- _ _ <-]; apply Hmeet; intros n r Hr; apply resolves_links in Hr; lia. }
  pose proof (budget_link K cs c next hops t Hl Hfit Hne Htl) as Hbl.
  assert (strlen (t ++ next) < 2 * PATH_LEN - 1) as Htail.
  { rewrite strlen_app; pose proof (path_of_length cs); pose proof (strlen_nonneg c).
    unfold PATH_LEN, MAX_SYMLINK_HOPS in *; nia. }
  rewrite snprintf_fits by lia; destruct (list.last (t ++ next)) as [x|] eqn:Hx; cbn [mbind option_bind].
  2: { apply last_None in Hx; by destruct t. }
  assert (is_slash x = ends_with_slash (t ++ next)) as -> by (unfold ends_with_slash; by rewrite Hx).
  assert ((if is_slash (chr_at t 0) then Some [SLASH] else pop_component (path_of (cs ++ [c]))) =
          Some (path_of (if is_slash (chr_at t 0) then [] else cs))) as ->.
  { destruct (is_slash _); [done|]; by apply pop_path_of. }
  cbn [mbind option_bind]; intros Hw; apply Hmeet; eapply IH; [done|done| |done|lia|by apply names_app|exact Hbl|exact Hw].
  by destruct (is_slash _).
Qed.
End refinement.

(** ** Results fit *)

Lemma map_to_host_fits ctx root g : strlen (map_to_host ctx root g PATH_LEN) < PATH_LEN.
Proof.
  unfold map_to_host, slash_if_empty; destruct (best_binding _ _).
  - case_ifs; apply strlen_snprintf; reflexivity.
  - destruct (best_mount _ _); cbv zeta; case_ifs; apply strlen_snprintf; reflexivity.
Qed.

Lemma finish_fits ctx root cur tr h : finish ctx root cur [] tr = Some h -> strlen h < PATH_LEN.
Proof.
  unfold finish; pose proof (map_to_host_fits ctx root cur); cbn [mbind option_bind]; destruct tr; [|by intros [= <-]].
  destruct (list.last _); cbn [mbind option_bind]; [|done]; unfold into.
  case_ifs; try done; intros [= <-]; [lia|done].
Qed.

(** ** Properties *)

(** C1: the translation is path resolution in the guest. Take an absolute guest
    path with names of at most 255 characters, a file system whose symlinks have
    targets of at most [K] characters with such names, with room for the path and
    40 targets in a buffer of PATH_LEN, and a root and bindings that do not lead
    into the host's /proc. If the path, resolved name by name through the guest's
    symlinks with "..", ".", trailing slashes and an unfollowed last name as a
    chroot would, leads somewhere through at most 40 links, the guest path
    returned is that place and the host path is where the root and the bindings
    put it, with at most one trailing slash; otherwise no resolution through at
    most 40 links exists. *)
Theorem translate_refines_resolution (readlink : cstr -> option cstr) (ctx : emuroot_ctx) (root g : cstr) (follow : bool)
    (K : Z) (t : translation) :
  is_slash (chr_at g 0) = true -> ~ (root = [] /\ nbindings ctx = 0) -> 0 <= K -> links_ok readlink K -> no_proc ctx root ->
  names_ok g -> strlen g + MAX_SYMLINK_HOPS * (K + 1) + 1 < PATH_LEN ->
  emuroot_translate_path_ex readlink ctx root g follow PATH_LEN PATH_LEN = Some t ->
  let leads_to := resolves (guest_link readlink ctx root) follow [] (components g) (ends_with_slash g) in
  (exists n r, n <= MAX_SYMLINK_HOPS /\ leads_to n r /\ tr_guest t = path_of r /\
     let h := map_to_host ctx root (path_of r) PATH_LEN in tr_host t = h \/ tr_host t = h ++ [SLASH]) \/
  (forall n r, leads_to n r -> MAX_SYMLINK_HOPS < n).
Proof.
  intros Habs Hroot HK Hl Hproc Hnm Hlen Ht leads_to; pose proof (absolute_nonempty _ Habs) as Hne.
  assert (strlen g < 2 * PATH_LEN) as Hg by (unfold MAX_SYMLINK_HOPS, PATH_LEN in *; nia).
  apply translate_walk_inv in Ht as (cs & p & tr & stop & h & Hw & Hpost & Hf & ->); [|done|done|done].
  rewrite guest_walk_start in Hw by done.
  assert (walk_meets readlink ctx root follow [] g 0 (path_of cs) stop) as Hm.
  { eapply (walk_refines readlink ctx root follow K); try done.
    unfold budget; change (strlen (path_of [])) with 1; destruct g as [|c g]; [done|].
    unfold extra; change (chr_at (c :: g) 0) with c in Habs; rewrite Habs; lia. }
  destruct Hpost as (_ & Hfit & Hend & Hlast); unfold walk_meets in Hm; destruct stop; try done; [left|left|by right].
  all: assert (p = []) as -> by (first [by apply Hend|by apply Hlast]).
  all: destruct Hm as (n & r & Hr & Hn & Hres); exists n, r; cbn [tr_guest tr_host]; rewrite Hr in Hf, Hfit |- *.
  all: split; [lia|split; [done|split; [by apply snprintf_fits|]]].
  all: rewrite snprintf_fits by (by eapply finish_fits); cbv zeta; apply finish_no_rest in Hf as [?|[_ ?]]; [by left|by right].
Qed.

(** The symlinks of [link_fs]: "/abs" to "/etc", and "/up", which climbs. *)
Lemma link_fs_ok : links_ok link_fs 10.
Proof.
  split; [reflexivity|]; intros h t; unfold link_fs.
  destruct (strcmp_eq h (lit "/r/abs")); [intros [= <-]; split; [discriminate|split; [discriminate|repeat constructor]]|].
  destruct (strcmp_eq h (lit "/r/up")); [intros [= <-]; split; [discriminate|split; [discriminate|repeat constructor]]|done].
Defined.

Lemma no_proc_r : no_proc empty_ctx (lit "/r").
Proof.
  intros cs; rewrite map_to_host_no_bindings by reflexivity; unfold strncmp_eq; apply bool_decide_eq_false.
  unfold snprintf, ztake; cbn [lit list_ascii_of_string app]; set (n := Z.to_nat (PATH_LEN - 1)).
  replace n with (S (S (n - 2))) by (unfold n, PATH_LEN; lia); cbn [take]; intros Hx.
  change (Z.to_nat 6) with 6%nat in Hx; cbn [take] in Hx; discriminate Hx.
Defined.

Lemma translate_refines_resolution_witness :
  let t := Translation (lit "/r/etc/passwd") (lit "/etc/passwd") true in
  let g := lit "/up/../abs/./passwd" in
  emuroot_translate_path_ex link_fs empty_ctx (lit "/r") g true PATH_LEN PATH_LEN = Some t /\
  let leads_to := resolves (guest_link link_fs empty_ctx (lit "/r")) true [] (components g) (ends_with_slash g) in
  (exists n r, n <= MAX_SYMLINK_HOPS /\ leads_to n r /\ tr_guest t = path_of r /\
     let h := map_to_host empty_ctx (lit "/r") (path_of r) PATH_LEN in tr_host t = h \/ tr_host t = h ++ [SLASH]) \/
  (forall n r, leads_to n r -> MAX_SYMLINK_HOPS < n).
Proof.
  cbv zeta; split; [vm_compute; reflexivity|].
  apply (translate_refines_resolution link_fs empty_ctx (lit "/r") (lit "/up/../abs/./passwd") true 10
           (Translation (lit "/r/etc/passwd") (lit "/etc/passwd") true)).
  - reflexivity.
  - intros [Hx _]; discriminate Hx.
  - discriminate.
  - exact link_fs_ok.
  - exact no_proc_r.
  - vm_compute; repeat constructor.
  - reflexivity.
  - vm_compute; reflexivity.
Defined.

(** In which it does lead somewhere: two links, to /etc/passwd. *)
Example up_abs_resolves :
  resolves (guest_link link_fs empty_ctx (lit "/r")) true [] (components (lit "/up/../abs/./passwd")) false 2 [lit "etc"; lit "passwd"].
Proof.
  change (components _) with [lit "up"; DOTDOT; lit "abs"; DOT; lit "passwd"].
  eapply (resolves_link _ _ [] (lit "up") _ _ _ 1); [by split|by left|vm_compute; reflexivity|].
  change (components _ ++ _) with [DOTDOT; DOTDOT; DOTDOT; DOTDOT; lit "abs"; DOT; lit "passwd"]; do 4 constructor 3; cbn [removelast].
  eapply (resolves_link _ _ [] (lit "abs") _ _ _ 0); [by split|by left|vm_compute; reflexivity|].
  change (components _ ++ _) with [lit "etc"; DOT; lit "passwd"].
  constructor 5; [by split|by left|vm_compute; reflexivity|constructor 2].
  constructor 5; [by split|by left|vm_compute; reflexivity|constructor 1].
Qed.
