(* ===== verification/Arch.v ===== *)
(** Register access ([src/arch.h], [src/regs.c]): the layout of the register
    struct of each supported architecture, the roles the engine reads and
    writes (SYSNO, RET, ARG1-6, SP), and how a stopped process's registers are
    fetched and stored. *)

From Stdlib Require Import ZArith Lia Ascii String.
From stdpp Require Import base list numbers strings.
From S2P Require Import Prelude.
Local Open Scope Z_scope.

(** ** The architectures and their register structs *)

Inductive arch := X86_64 | X86 | AARCH64 | ARM | RISCV64 | LOONGARCH64 | PPC64LE | S390X.

#[export] Instance arch_eq_dec : EqDecision arch.
Proof. solve_decision. Defined.

Definition all_archs : list arch := [X86_64; X86; AARCH64; ARM; RISCV64; LOONGARCH64; PPC64LE; S390X].

Definition EMU_ARCH_NAME (a : arch) : cstr :=
  match a with
  | X86_64 => lit "x86_64" | X86 => lit "x86" | AARCH64 => lit "aarch64" | ARM => lit "arm"
  | RISCV64 => lit "riscv64" | LOONGARCH64 => lit "loongarch64" | PPC64LE => lit "ppc64le" | S390X => lit "s390x"
  end.

(** The AUDIT_ARCH_* values of <linux/audit.h> (an ELF machine number with the
    64-bit and little-endian flags), those of RISC-V and LoongArch as [arch.h]
    spells them. *)
Definition AUDIT_64BIT : Z := 0x80000000.
Definition AUDIT_LE : Z := 0x40000000.

Definition EMU_AUDIT_ARCH (a : arch) : Z :=
  match a with
  | X86_64 => Z.lor 62 (Z.lor AUDIT_64BIT AUDIT_LE)
  | X86 => Z.lor 3 AUDIT_LE
  | AARCH64 => Z.lor 183 (Z.lor AUDIT_64BIT AUDIT_LE)
  | ARM => Z.lor 40 AUDIT_LE
  | RISCV64 => Z.lor 243 (Z.lor AUDIT_64BIT AUDIT_LE)
  | LOONGARCH64 => Z.lor 258 (Z.lor AUDIT_64BIT AUDIT_LE)
  | PPC64LE => Z.lor 21 (Z.lor AUDIT_64BIT AUDIT_LE)
  | S390X => Z.lor 22 AUDIT_64BIT
  end.

(** Width of a register, of [unsigned long] and of a pointer. *)
Definition word_bits (a : arch) : Z := match a with X86 | ARM => 32 | _ => 64 end.
Definition word_size (a : arch) : Z := word_bits a / 8.
Definition lp64 (a : arch) : bool := word_bits a =? 64.
Definition big_endian (a : arch) : bool := match a with S390X => true | _ => false end.

(** A field of the struct: a member, or an element of an array member. *)
Inductive field := Fld (name : string) | Elt (array : string) (i : nat).
Arguments Fld _%_string_scope.
Arguments Elt _%_string_scope _%_nat_scope.

#[export] Instance field_eq_dec : EqDecision field.
Proof. solve_decision. Defined.

Definition array (name : string) (n : nat) : list field := Elt name <$> seq 0 n.
Arguments array _%_string_scope _%_nat_scope.

(** The members of [emuroot_regs_t], in order. *)
Definition emuroot_regs_t (a : arch) : list field :=
  match a with
  | X86_64 => map Fld ["r15"; "r14"; "r13"; "r12"; "rbp"; "rbx"; "r11"; "r10"; "r9"; "r8";
                       "rax"; "rcx"; "rdx"; "rsi"; "rdi"; "orig_rax"; "rip"; "cs"; "eflags"; "rsp"]%string
  | X86 => map Fld ["ebx"; "ecx"; "edx"; "esi"; "edi"; "ebp"; "eax";
                    "xds"; "xes"; "xfs"; "xgs"; "orig_eax"; "eip"; "xcs"; "eflags"; "esp"; "xss"]%string
  | AARCH64 => array "regs" 31 ++ map Fld ["sp"; "pc"; "pstate"]%string
  | ARM => array "uregs" 18
  | RISCV64 => map Fld ["pc"; "ra"; "sp"; "gp"; "tp"; "t0"; "t1"; "t2"; "s0"; "s1";
                        "a0"; "a1"; "a2"; "a3"; "a4"; "a5"; "a6"; "a7"]%string
  | LOONGARCH64 => array "regs" 32 ++ map Fld ["orig_a0"]%string
  | PPC64LE => array "gpr" 16
  | S390X => map Fld ["psw_mask"; "psw_addr"]%string ++ array "gprs" 16
  end.

(** ** Roles *)

Inductive role := SYSNO | RET | SP | ARG (n : Z).

(** The default case of [reg_arg]'s switch is argument 6. *)
Definition arg_field (a : arch) (n : Z) : field :=
  let pick (f1 f2 f3 f4 f5 f6 : field) :=
    if n =? 1 then f1 else if n =? 2 then f2 else if n =? 3 then f3
    else if n =? 4 then f4 else if n =? 5 then f5 else f6 in
  match a with
  | X86_64 => pick (Fld "rdi") (Fld "rsi") (Fld "rdx") (Fld "r10") (Fld "r8") (Fld "r9")
  | X86 => pick (Fld "ebx") (Fld "ecx") (Fld "edx") (Fld "esi") (Fld "edi") (Fld "ebp")
  | AARCH64 => pick (Elt "regs" 0) (Elt "regs" 1) (Elt "regs" 2) (Elt "regs" 3) (Elt "regs" 4) (Elt "regs" 5)
  | ARM => pick (Elt "uregs" 0) (Elt "uregs" 1) (Elt "uregs" 2) (Elt "uregs" 3) (Elt "uregs" 4) (Elt "uregs" 5)
  | RISCV64 => pick (Fld "a0") (Fld "a1") (Fld "a2") (Fld "a3") (Fld "a4") (Fld "a5")
  | LOONGARCH64 => pick (Elt "regs" 4) (Elt "regs" 5) (Elt "regs" 6) (Elt "regs" 7) (Elt "regs" 8) (Elt "regs" 9)
  | PPC64LE => pick (Elt "gpr" 3) (Elt "gpr" 4) (Elt "gpr" 5) (Elt "gpr" 6) (Elt "gpr" 7) (Elt "gpr" 8)
  | S390X => pick (Elt "gprs" 2) (Elt "gprs" 3) (Elt "gprs" 4) (Elt "gprs" 5) (Elt "gprs" 6) (Elt "gprs" 7)
  end.

Definition sysno_field (a : arch) : field :=
  match a with
  | X86_64 => Fld "orig_rax" | X86 => Fld "orig_eax" | AARCH64 => Elt "regs" 8 | ARM => Elt "uregs" 7
  | RISCV64 => Fld "a7" | LOONGARCH64 => Elt "regs" 11 | PPC64LE => Elt "gpr" 0 | S390X => Elt "gprs" 1
  end.

Definition ret_field (a : arch) : field :=
  match a with
  | X86_64 => Fld "rax" | X86 => Fld "eax" | AARCH64 => Elt "regs" 0 | ARM => Elt "uregs" 0
  | RISCV64 => Fld "a0" | LOONGARCH64 => Elt "regs" 4 | PPC64LE => Elt "gpr" 3 | S390X => Elt "gprs" 2
  end.

Definition sp_field (a : arch) : field :=
  match a with
  | X86_64 => Fld "rsp" | X86 => Fld "esp" | AARCH64 => Fld "sp" | ARM => Elt "uregs" 13
  | RISCV64 => Fld "sp" | LOONGARCH64 => Elt "regs" 3 | PPC64LE => Elt "gpr" 1 | S390X => Elt "gprs" 15
  end.

Definition role_field (a : arch) (r : role) : field :=
  match r with SYSNO => sysno_field a | RET => ret_field a | SP => sp_field a | ARG n => arg_field a n end.

(** Position of a field in the struct. *)
Definition field_index (a : arch) (f : field) : nat :=
  default 0%nat (fst <$> list_find (fun g => g = f) (emuroot_regs_t a)).

Definition role_index (a : arch) (r : role) : nat := field_index a (role_field a r).

(** A register set: one word per field of the struct. *)
Definition uword (a : arch) (z : Z) : Z := z mod 2 ^ word_bits a.
Definition slong (a : arch) (z : Z) : Z :=
  if uword a z <? 2 ^ (word_bits a - 1) then uword a z else uword a z - 2 ^ word_bits a.

Definition get (a : arch) (r : role) (regs : list Z) : Z := nth (role_index a r) regs 0.
Definition put (a : arch) (r : role) (v : Z) (regs : list Z) : list Z := <[role_index a r := uword a v]> regs.
(** [*reg_arg(regs, n)] *)
Definition reg_arg (a : arch) (n : Z) (regs : list Z) : Z := get a (ARG n) regs.

Definition regs_wf (a : arch) (regs : list Z) : Prop :=
  length regs = length (emuroot_regs_t a) /\ Forall (fun v => 0 <= v < 2 ^ word_bits a) regs.

(** ** Fetching and storing them *)

Inductive regs_mode := UNDECIDED | REGSET | GETREGS.
Definition KERNEL_REGS_MAX : Z := 1024.

Section regs_access.
(** The kernel: the registers [ptrace] shows for a stopped process, with the
    iovec length bounding a PTRACE_GETREGSET / SETREGSET copy, and the whole
    struct for PTRACE_GETREGS / SETREGS.  [inl] is an errno. *)
Context {K : Type}.
Variable getregset : K -> Z -> Z -> Z + list Z.
Variable setregset : K -> Z -> list Z -> K * bool.
Variable getregs : K -> Z -> option (list Z).
Variable setregs : K -> Z -> list Z -> K * bool.
(** [getenv("EMUROOT_REGS")] *)
Variable forced : option cstr.
Variable a : arch.

Definition nwords : Z := strlen (emuroot_regs_t a).

Definition mode_now (mode : regs_mode) : regs_mode :=
  match mode with
  | UNDECIDED => if (match forced with Some f => strcmp_eq f (lit "getregs") | None => false end)
                 then GETREGS else REGSET
  | _ => mode
  end.

Definition get_whole (k : K) (pid : Z) : option (list Z) := ztake nwords <$> getregs k pid.

Definition regs_get (mode : regs_mode) (k : K) (pid : Z) : regs_mode * option (list Z) :=
  let mode := mode_now mode in
  match mode with
  | REGSET =>
      match getregset k pid nwords with
      | inr regs => (mode, Some regs)
      | inl e => if negb (e =? EIO) && negb (e =? EINVAL) && negb (e =? ENOSYS) then (mode, None)
                 else (GETREGS, get_whole k pid)
      end
  | _ => (mode, get_whole k pid)
  end.

Definition regs_set (mode : regs_mode) (k : K) (pid : Z) (regs : list Z) : regs_mode * K * bool :=
  let mode := mode_now mode in
  match mode with
  | REGSET => let '(k', ok) := setregset k pid regs in (mode, k', ok)
  | _ => match getregs k pid with
         | None => (mode, k, false)
         | Some full => let '(k', ok) := setregs k pid (regs ++ zdrop (strlen regs) full) in (mode, k', ok)
         end
  end.
End regs_access.

(** ** Lemmas *)

(** Every role names a field of the struct. *)
Lemma role_index_lt a r : (role_index a r < length (emuroot_regs_t a))%nat.
Proof.
  destruct r as [| | |n]; unfold role_index, role_field, arg_field; destruct a; case_ifs; vm_compute; lia.
Qed.

Definition arg_ok (n : Z) : Prop := 1 <= n <= 6.

(** Arguments are told apart, and from the number and the stack pointer. *)
Lemma role_index_arg_inj a n m :
  arg_ok n -> arg_ok m -> role_index a (ARG n) = role_index a (ARG m) -> n = m.
Proof.
  unfold arg_ok; intros Hn Hm; assert (n = 1 \/ n = 2 \/ n = 3 \/ n = 4 \/ n = 5 \/ n = 6) as Hn' by lia;
  assert (m = 1 \/ m = 2 \/ m = 3 \/ m = 4 \/ m = 5 \/ m = 6) as Hm' by lia; clear Hn Hm.
  destruct a; destruct_or! Hn'; destruct_or! Hm'; subst; vm_compute; congruence.
Qed.

Lemma role_index_sysno_sp a r : r <> SYSNO -> role_index a SYSNO <> role_index a r.
Proof.
  intros Hr; destruct r as [| | |n]; [done| | |]; unfold role_index, role_field, arg_field; destruct a; case_ifs; done.
Qed.

Lemma role_index_sp a r : r <> SP -> role_index a SP <> role_index a r.
Proof.
  intros Hr; destruct r as [| | |n]; [| |done|]; unfold role_index, role_field, arg_field; destruct a; case_ifs; done.
Qed.

Lemma role_index_arg_lt a n : (role_index a (ARG n) < length (emuroot_regs_t a))%nat.
Proof. apply role_index_lt. Qed.

Lemma word_bits_ge a : 32 <= word_bits a.
Proof. destruct a; vm_compute; discriminate. Qed.

Lemma uword_range a z : 0 <= uword a z < 2 ^ word_bits a.
Proof. unfold uword; apply Z.mod_pos_bound; destruct a; vm_compute; done. Qed.

Lemma uword_small a z : 0 <= z < 2 ^ word_bits a -> uword a z = z.
Proof. apply Z.mod_small. Qed.

Lemma uword_idem a z : uword a (uword a z) = uword a z.
Proof. apply uword_small, uword_range. Qed.

Lemma put_wf a r v regs : regs_wf a regs -> regs_wf a (put a r v regs).
Proof.
  intros [Hl Hf]; split; unfold put; [by rewrite length_insert|].
  apply Forall_insert; [done|apply uword_range].
Qed.

Lemma nth_insert_eq (l : list Z) i v d : (i < length l)%nat -> nth i (<[i:=v]> l) d = v.
Proof. intros Hi; rewrite nth_lookup, list_lookup_insert_eq by done; done. Qed.

Lemma nth_insert_ne (l : list Z) i j v d : i <> j -> nth j (<[i:=v]> l) d = nth j l d.
Proof. intros Hij; rewrite !nth_lookup, list_lookup_insert_ne by done; done. Qed.

Lemma get_put_eq a r v regs : regs_wf a regs -> get a r (put a r v regs) = uword a v.
Proof. intros [Hl _]; apply nth_insert_eq; rewrite Hl; apply role_index_lt. Qed.

Lemma get_put_ne a r r' v regs :
  role_index a r' <> role_index a r -> get a r (put a r' v regs) = get a r regs.
Proof. apply nth_insert_ne. Qed.

Lemma get_range a r regs : regs_wf a regs -> 0 <= get a r regs < 2 ^ word_bits a.
Proof.
  intros [Hl Hf]; unfold get; pose proof (role_index_lt a r) as Hi; rewrite <- Hl in Hi.
  destruct (lookup_lt_is_Some_2 _ _ Hi) as [x Hx]; rewrite nth_lookup, Hx; simpl.
  apply (Forall_lookup_1 _ _ _ _ Hf Hx).
Qed.

(** RET is the register of argument 1 except on the x86 architectures. *)
Definition ret_is_arg1 (a : arch) : bool := match a with X86_64 | X86 => false | _ => true end.

Lemma ret_is_arg1_spec a : ret_is_arg1 a = true <-> role_index a RET = role_index a (ARG 1).
Proof. destruct a; vm_compute; split; congruence. Qed.

Lemma role_index_ret_arg a n : arg_ok n -> n <> 1 -> role_index a RET <> role_index a (ARG n).
Proof.
  unfold arg_ok; intros Hn H1; assert (n = 2 \/ n = 3 \/ n = 4 \/ n = 5 \/ n = 6) as Hn' by lia.
  destruct a; destruct_or! Hn'; subst; vm_compute; congruence.
Qed.

(** ** Properties *)

(** The register roles do not interfere. On every architecture, storing
    into argument n gives back the stored word (at the register's width) as
    argument n and leaves the other five arguments, the syscall number and the
    stack pointer alone; the return register changes only where the ABI makes
    it argument 1, which is every architecture but the two x86 ones. *)
Theorem put_arg_spec (a : arch) (n v : Z) (regs : list Z) :
  regs_wf a regs -> arg_ok n ->
  let regs' := put a (ARG n) v regs in
  regs_wf a regs' /\ reg_arg a n regs' = uword a v /\
  (forall m, arg_ok m -> m <> n -> reg_arg a m regs' = reg_arg a m regs) /\
  get a SYSNO regs' = get a SYSNO regs /\ get a SP regs' = get a SP regs /\
  (get a RET regs' = if ret_is_arg1 a && (n =? 1) then uword a v else get a RET regs).
Proof.
  intros Hwf Hn regs'; subst regs'; split_and?.
  - by apply put_wf.
  - by apply get_put_eq.
  - intros m Hm Hne; apply get_put_ne; intros E; apply Hne; symmetry; eapply role_index_arg_inj; eauto.
  - apply get_put_ne, not_eq_sym, role_index_sysno_sp; done.
  - apply get_put_ne, not_eq_sym, role_index_sp; done.
  - destruct (Z.eqb_spec n 1) as [->|H1]; [destruct (ret_is_arg1 a) eqn:Ha; simpl|rewrite andb_false_r].
    + apply ret_is_arg1_spec in Ha; unfold get; rewrite Ha; by apply get_put_eq.
    + apply get_put_ne; intros E; symmetry in E; apply ret_is_arg1_spec in E; congruence.
    + apply get_put_ne, not_eq_sym; by apply role_index_ret_arg.
Qed.

Definition zero_regs (a : arch) : list Z := replicate (length (emuroot_regs_t a)) 0.

Lemma zero_regs_wf a : regs_wf a (zero_regs a).
Proof. split; [apply length_replicate|apply Forall_replicate; destruct a; vm_compute; done]. Qed.

Lemma put_arg_spec_witness :
  let regs' := put AARCH64 (ARG 1) (-14) (zero_regs AARCH64) in
  regs_wf AARCH64 regs' /\ reg_arg AARCH64 1 regs' = uword AARCH64 (-14) /\
  (forall m, arg_ok m -> m <> 1 -> reg_arg AARCH64 m regs' = reg_arg AARCH64 m (zero_regs AARCH64)) /\
  get AARCH64 SYSNO regs' = get AARCH64 SYSNO (zero_regs AARCH64) /\
  get AARCH64 SP regs' = get AARCH64 SP (zero_regs AARCH64) /\
  (get AARCH64 RET regs' = if ret_is_arg1 AARCH64 && (1 =? 1) then uword AARCH64 (-14) else get AARCH64 RET (zero_regs AARCH64)).
Proof. apply put_arg_spec; [apply zero_regs_wf|split; done]. Defined.

(** What ptrace's register requests do to the kernel's full register struct of
    a stopped process ([full]); [modern] says whether the kernel has regsets. *)
Record ptrace_regs {K} (full : K -> Z -> option (list Z)) (modern : bool)
    (getregset : K -> Z -> Z -> Z + list Z) (setregset : K -> Z -> list Z -> K * bool)
    (getregs : K -> Z -> option (list Z)) (setregs : K -> Z -> list Z -> K * bool) : Prop := {
  getregset_full : forall k pid n f, modern = true -> full k pid = Some f -> getregset k pid n = inr (ztake n f);
  getregset_gone : forall k pid n, modern = true -> full k pid = None -> getregset k pid n = inl ESRCH;
  getregset_old : forall k pid n, modern = false -> getregset k pid n = inl EIO;
  setregset_ok : forall k pid regs k', setregset k pid regs = (k', true) ->
    exists f, full k pid = Some f /\ full k' pid = Some (regs ++ zdrop (strlen regs) f);
  getregs_full : forall k pid, getregs k pid = full k pid;
  setregs_ok : forall k pid regs k', setregs k pid regs = (k', true) -> full k' pid = Some regs
}.

(** What [regs_set] stores is what [regs_get] fetches next, in whichever of
    the two ways each call works, and the part of the kernel's register struct
    beyond emuroot's prefix is left as it was. *)
Theorem regs_set_get {K} full modern getregset setregset getregs setregs
    (H : ptrace_regs (K := K) full modern getregset setregset getregs setregs)
    forced a mode k pid f regs m' k' :
  full k pid = Some f -> length regs = length (emuroot_regs_t a) ->
  regs_set setregset getregs setregs forced mode k pid regs = (m', k', true) ->
  full k' pid = Some (regs ++ zdrop (nwords a) f) /\
  exists m'', regs_get getregset getregs forced a m' k' pid = (m'', Some regs).
Proof.
  intros Hf Hl Hset; unfold regs_set in Hset.
  assert (Hn : strlen regs = nwords a) by (unfold nwords, strlen; by rewrite Hl).
  assert (Hfull : full k' pid = Some (regs ++ zdrop (nwords a) f)).
  { destruct (mode_now forced mode); rewrite ?(getregs_full _ _ _ _ _ _ H), ?Hf in Hset.
    2: destruct (setregset k pid regs) as [k1 ok] eqn:E; injection Hset as <- <- ->;
       apply (setregset_ok _ _ _ _ _ _ H) in E as (f' & Hf' & ->); congruence.
    all: destruct (setregs k pid _) as [k1 ok] eqn:E; injection Hset as <- <- ->;
         apply (setregs_ok _ _ _ _ _ _ H) in E; by rewrite E, Hn. }
  split; [done|].
  assert (Ht : ztake (nwords a) (regs ++ zdrop (nwords a) f) = regs) by (rewrite <- Hn; apply ztake_app_strlen).
  assert (Hw : get_whole getregs a k' pid = Some regs)
    by (unfold get_whole; rewrite (getregs_full _ _ _ _ _ _ H), Hfull; simpl; by rewrite Ht).
  unfold regs_get; destruct (mode_now forced m'); try (rewrite Hw; eauto; fail).
  destruct modern eqn:Hm.
  - rewrite (getregset_full _ _ _ _ _ _ H _ _ _ _ eq_refl Hfull), Ht; eauto.
  - rewrite (getregset_old _ _ _ _ _ _ H) by done; simpl; rewrite Hw; eauto.
Qed.

(** A kernel without regsets whose one traced process has 27 register words. *)
Definition old_kernel_set (k : list Z) (regs : list Z) : list Z * bool := (regs ++ zdrop (strlen regs) k, true).

Lemma old_kernel_ptrace_regs :
  ptrace_regs (K := list Z) (fun k _ => Some k) false (fun _ _ _ => inl EIO) (fun k _ r => old_kernel_set k r)
    (fun k _ => Some k) (fun _ _ r => (r, true)).
Proof. by split; try done; intros k pid regs k'; [intros [= <-]; eauto|intros [= <-]]. Qed.

Lemma regs_set_get_witness :
  exists k', k' = zero_regs X86_64 ++ zdrop (nwords X86_64) (replicate 27 7) /\
  exists m'', regs_get (fun _ _ _ => inl EIO) (fun k _ => Some k) None X86_64 GETREGS k' 1 = (m'', Some (zero_regs X86_64)).
Proof.
  exists (zero_regs X86_64 ++ zdrop (nwords X86_64) (replicate 27 7)); split; [done|].
  refine (proj2 (regs_set_get _ _ _ _ _ _ old_kernel_ptrace_regs None X86_64 GETREGS (replicate 27 7) 1
                   (replicate 27 7) (zero_regs X86_64) GETREGS _ _ _ _)); reflexivity.
Defined.
