(* ===== verification/Syscalls.v ===== *)
(** The system call tables ([src/syscalls.h], [src/syscalls.c]): which argument
    slots of which calls hold paths, which calls are emulated, and the list the
    seccomp filter is built from ([traced_syscalls] of [src/ptrace.c]).

    The numbers come from the kernel headers of the target, which are not part
    of the repository: an [ABI] gives the architecture and, for each [__NR_]
    name the sources test with #ifdef, its number if the ABI has that call. *)

From Stdlib Require Import ZArith Lia Ascii String.
From stdpp Require Import base list numbers.
From S2P Require Import Prelude Arch.
Local Open Scope Z_scope.

(** ** Names, modes and actions *)

(** The [__NR_] names the sources mention. *)
Inductive sysname :=
| NR_chroot | NR_open | NR_creat | NR_stat | NR_stat64 | NR_lstat | NR_lstat64 | NR_access
| NR_readlink | NR_chdir | NR_rmdir | NR_unlink | NR_mkdir | NR_chmod | NR_chown | NR_chown32
| NR_lchown | NR_lchown32 | NR_truncate | NR_truncate64 | NR_utime | NR_utimes | NR_mknod
| NR_statfs | NR_statfs64 | NR_getxattr | NR_lgetxattr | NR_setxattr | NR_lsetxattr | NR_listxattr
| NR_llistxattr | NR_removexattr | NR_lremovexattr | NR_rename | NR_link | NR_symlink | NR_openat
| NR_openat2 | NR_mkdirat | NR_unlinkat | NR_newfstatat | NR_fstatat64 | NR_statx | NR_readlinkat
| NR_fchmodat | NR_fchmodat2 | NR_fchownat | NR_utimensat | NR_futimesat | NR_faccessat
| NR_faccessat2 | NR_mknodat | NR_renameat | NR_renameat2 | NR_linkat | NR_symlinkat
| NR_inotify_add_watch | NR_getuid | NR_getuid32 | NR_geteuid | NR_geteuid32 | NR_getgid
| NR_getgid32 | NR_getegid | NR_getegid32 | NR_getresuid | NR_getresuid32 | NR_getresgid
| NR_getresgid32 | NR_getgroups | NR_getgroups32 | NR_setuid | NR_setuid32 | NR_setgid
| NR_setgid32 | NR_setreuid | NR_setreuid32 | NR_setregid | NR_setregid32 | NR_setresuid
| NR_setresuid32 | NR_setresgid | NR_setresgid32 | NR_setgroups | NR_setgroups32 | NR_setfsuid
| NR_setfsuid32 | NR_setfsgid | NR_setfsgid32 | NR_fchown | NR_fchown32 | NR_fstat | NR_fstat64
| NR_mount | NR_umount | NR_umount2 | NR_execve | NR_getcwd | NR_uname | NR_bind | NR_connect
| NR_sendto | NR_execveat.

#[export] Instance sysname_eq_dec : EqDecision sysname.
Proof. solve_decision. Defined.

Inductive follow_mode := M_FOLLOW | M_NOFOLLOW | M_OPEN | M_OPENAT2 | M_AT | M_LINKAT.

Inductive action :=
| A_GETUID | A_GETEUID | A_GETGID | A_GETEGID | A_GETRESUID | A_GETRESGID | A_GETGROUPS
| A_SETUID | A_SETGID | A_SETREUID | A_SETREGID | A_SETRESUID | A_SETRESGID | A_SETGROUPS
| A_SETFSUID | A_SETFSGID
| A_CHOWN | A_STAT_2 | A_STAT_3 | A_STATX | A_GETCWD | A_CHROOT | A_MOUNT | A_UMOUNT
| A_READLINK | A_EXECVE | A_UNAME.

#[export] Instance follow_mode_eq_dec : EqDecision follow_mode.
Proof. solve_decision. Defined.
#[export] Instance action_eq_dec : EqDecision action.
Proof. solve_decision. Defined.

(** The target's kernel ABI. *)
Class ABI := {
  abi_arch : arch;
  nr : sysname -> option Z
}.

(** What the kernel headers guarantee: different calls of one ABI have different
    numbers, and numbers are small and not negative. *)
Class ABIOk (abi : ABI) : Prop := {
  nr_inj : forall n m z, nr n = Some z -> nr m = Some z -> n = m;
  nr_range : forall n z, nr n = Some z -> 0 <= z < 2 ^ 31
}.

(** ** The tables *)

Record path_syscall_t := PathSyscall {
  ps_sysno : Z;
  slot1 : Z;
  slot2 : Z;
  mode : follow_mode;
  flag_slot : Z
}.

(** The entries of [path_syscalls[]], each under its #ifdef: slot1, slot2, mode
    and flag_slot. *)
Definition path_table : list (sysname * (Z * Z * follow_mode * Z)) := [
  (NR_chroot, (1, 0, M_FOLLOW, 0)); (NR_open, (1, 0, M_OPEN, 2)); (NR_creat, (1, 0, M_FOLLOW, 0));
  (NR_stat, (1, 0, M_FOLLOW, 0)); (NR_stat64, (1, 0, M_FOLLOW, 0));
  (NR_lstat, (1, 0, M_NOFOLLOW, 0)); (NR_lstat64, (1, 0, M_NOFOLLOW, 0));
  (NR_access, (1, 0, M_FOLLOW, 0)); (NR_readlink, (1, 0, M_NOFOLLOW, 0));
  (NR_chdir, (1, 0, M_FOLLOW, 0)); (NR_rmdir, (1, 0, M_NOFOLLOW, 0));
  (NR_unlink, (1, 0, M_NOFOLLOW, 0)); (NR_mkdir, (1, 0, M_NOFOLLOW, 0));
  (NR_chmod, (1, 0, M_FOLLOW, 0)); (NR_chown, (1, 0, M_FOLLOW, 0));
  (NR_chown32, (1, 0, M_FOLLOW, 0)); (NR_lchown, (1, 0, M_NOFOLLOW, 0));
  (NR_lchown32, (1, 0, M_NOFOLLOW, 0)); (NR_truncate, (1, 0, M_FOLLOW, 0));
  (NR_truncate64, (1, 0, M_FOLLOW, 0)); (NR_utime, (1, 0, M_FOLLOW, 0));
  (NR_utimes, (1, 0, M_FOLLOW, 0)); (NR_mknod, (1, 0, M_NOFOLLOW, 0));
  (NR_statfs, (1, 0, M_FOLLOW, 0)); (NR_statfs64, (1, 0, M_FOLLOW, 0));
  (NR_getxattr, (1, 0, M_FOLLOW, 0)); (NR_lgetxattr, (1, 0, M_NOFOLLOW, 0));
  (NR_setxattr, (1, 0, M_FOLLOW, 0)); (NR_lsetxattr, (1, 0, M_NOFOLLOW, 0));
  (NR_listxattr, (1, 0, M_FOLLOW, 0)); (NR_llistxattr, (1, 0, M_NOFOLLOW, 0));
  (NR_removexattr, (1, 0, M_FOLLOW, 0)); (NR_lremovexattr, (1, 0, M_NOFOLLOW, 0));
  (NR_rename, (1, 2, M_NOFOLLOW, 0)); (NR_link, (1, 2, M_NOFOLLOW, 0));
  (NR_symlink, (2, 0, M_NOFOLLOW, 0)); (NR_openat, (2, 0, M_OPEN, 3));
  (NR_openat2, (2, 0, M_OPENAT2, 3)); (NR_mkdirat, (2, 0, M_NOFOLLOW, 0));
  (NR_unlinkat, (2, 0, M_NOFOLLOW, 0)); (NR_newfstatat, (2, 0, M_AT, 4));
  (NR_fstatat64, (2, 0, M_AT, 4)); (NR_statx, (2, 0, M_AT, 3));
  (NR_readlinkat, (2, 0, M_NOFOLLOW, 0)); (NR_fchmodat, (2, 0, M_FOLLOW, 0));
  (NR_fchmodat2, (2, 0, M_AT, 4)); (NR_fchownat, (2, 0, M_AT, 5)); (NR_utimensat, (2, 0, M_AT, 4));
  (NR_futimesat, (2, 0, M_FOLLOW, 0)); (NR_faccessat, (2, 0, M_FOLLOW, 0));
  (NR_faccessat2, (2, 0, M_AT, 4)); (NR_mknodat, (2, 0, M_NOFOLLOW, 0));
  (NR_renameat, (2, 4, M_NOFOLLOW, 0)); (NR_renameat2, (2, 4, M_NOFOLLOW, 0));
  (NR_linkat, (2, 4, M_LINKAT, 5)); (NR_symlinkat, (3, 0, M_NOFOLLOW, 0));
  (NR_inotify_add_watch, (2, 0, M_FOLLOW, 0))].

(** The entries of [action_syscalls[]]; the flag marks those that also need
    __LP64__. *)
Definition action_table : list (sysname * action * bool) := [
  (NR_getuid, A_GETUID, false); (NR_getuid32, A_GETUID, false); (NR_geteuid, A_GETEUID, false);
  (NR_geteuid32, A_GETEUID, false); (NR_getgid, A_GETGID, false); (NR_getgid32, A_GETGID, false);
  (NR_getegid, A_GETEGID, false); (NR_getegid32, A_GETEGID, false);
  (NR_getresuid, A_GETRESUID, false); (NR_getresuid32, A_GETRESUID, false);
  (NR_getresgid, A_GETRESGID, false); (NR_getresgid32, A_GETRESGID, false);
  (NR_getgroups, A_GETGROUPS, false); (NR_getgroups32, A_GETGROUPS, false);
  (NR_setuid, A_SETUID, false); (NR_setuid32, A_SETUID, false); (NR_setgid, A_SETGID, false);
  (NR_setgid32, A_SETGID, false); (NR_setreuid, A_SETREUID, false);
  (NR_setreuid32, A_SETREUID, false); (NR_setregid, A_SETREGID, false);
  (NR_setregid32, A_SETREGID, false); (NR_setresuid, A_SETRESUID, false);
  (NR_setresuid32, A_SETRESUID, false); (NR_setresgid, A_SETRESGID, false);
  (NR_setresgid32, A_SETRESGID, false); (NR_setgroups, A_SETGROUPS, false);
  (NR_setgroups32, A_SETGROUPS, false); (NR_setfsuid, A_SETFSUID, false);
  (NR_setfsuid32, A_SETFSUID, false); (NR_setfsgid, A_SETFSGID, false);
  (NR_setfsgid32, A_SETFSGID, false); (NR_chown, A_CHOWN, false); (NR_chown32, A_CHOWN, false);
  (NR_lchown, A_CHOWN, false); (NR_lchown32, A_CHOWN, false); (NR_fchown, A_CHOWN, false);
  (NR_fchown32, A_CHOWN, false); (NR_fchownat, A_CHOWN, false); (NR_stat, A_STAT_2, true);
  (NR_lstat, A_STAT_2, true); (NR_fstat, A_STAT_2, true); (NR_newfstatat, A_STAT_3, true);
  (NR_stat64, A_STAT_2, false); (NR_lstat64, A_STAT_2, false); (NR_fstat64, A_STAT_2, false);
  (NR_fstatat64, A_STAT_3, false); (NR_statx, A_STATX, false); (NR_chroot, A_CHROOT, false);
  (NR_mount, A_MOUNT, false); (NR_umount, A_UMOUNT, false); (NR_umount2, A_UMOUNT, false);
  (NR_readlink, A_READLINK, false); (NR_readlinkat, A_READLINK, false);
  (NR_execve, A_EXECVE, false); (NR_getcwd, A_GETCWD, false); (NR_uname, A_UNAME, false)].


Section tables.
Context {abi : ABI}.

(** #ifdef __NR_n ... #endif *)
Definition ifdef {B} (n : sysname) (f : Z -> B) : list B :=
  match nr n with Some z => [f z] | None => [] end.

(** #ifdef __NR_n, if (sysno == __NR_n) *)
Definition is_nr (n : sysname) (sysno : Z) : bool :=
  match nr n with Some z => z =? sysno | None => false end.

Definition path_syscalls : list path_syscall_t :=
  path_table ≫= fun '(n, (s1, s2, m, f)) => ifdef n (fun z => PathSyscall z s1 s2 m f).

Definition action_syscalls : list (Z * action) :=
  action_table ≫= fun '(n, a, only_lp64) =>
    if only_lp64 && negb (lp64 abi_arch) then [] else ifdef n (fun z => (z, a)).

Definition emuroot_find_path_syscall (sysno : Z) : option path_syscall_t :=
  List.find (fun d => ps_sysno d =? sysno) path_syscalls.

(** [None] is the -1 of the C enum. *)
Definition emuroot_action_of (sysno : Z) : option action :=
  snd <$> List.find (fun e => e.1 =? sysno) action_syscalls.

Definition traced_syscalls : list Z :=
  (ps_sysno <$> path_syscalls) ++ (fst <$> action_syscalls) ++
  ifdef NR_execve id ++ ifdef NR_bind id ++ ifdef NR_connect id ++ ifdef NR_sendto id.
End tables.

(** ** Two ABIs, from the kernel's headers *)

Definition number_in (tbl : list (sysname * Z)) (n : sysname) : option Z :=
  snd <$> List.find (fun e => bool_decide (e.1 = n)) tbl.

Definition x86_64_numbers : list (sysname * Z) := [
  (NR_open, 2); (NR_stat, 4); (NR_fstat, 5); (NR_lstat, 6); (NR_access, 21); (NR_sendto, 44);
  (NR_connect, 42); (NR_bind, 49); (NR_execve, 59); (NR_uname, 63); (NR_truncate, 76);
  (NR_getcwd, 79); (NR_chdir, 80); (NR_rename, 82); (NR_mkdir, 83); (NR_rmdir, 84);
  (NR_creat, 85); (NR_link, 86); (NR_unlink, 87); (NR_symlink, 88); (NR_readlink, 89);
  (NR_chmod, 90); (NR_chown, 92); (NR_fchown, 93); (NR_lchown, 94); (NR_getuid, 102);
  (NR_getgid, 104); (NR_setuid, 105); (NR_setgid, 106); (NR_geteuid, 107); (NR_getegid, 108);
  (NR_setreuid, 113); (NR_setregid, 114); (NR_getgroups, 115); (NR_setgroups, 116);
  (NR_setresuid, 117); (NR_getresuid, 118); (NR_setresgid, 119); (NR_getresgid, 120);
  (NR_setfsuid, 122); (NR_setfsgid, 123); (NR_utime, 132); (NR_mknod, 133); (NR_statfs, 137);
  (NR_chroot, 161); (NR_mount, 165); (NR_umount2, 166); (NR_setxattr, 188); (NR_lsetxattr, 189);
  (NR_getxattr, 191); (NR_lgetxattr, 192); (NR_listxattr, 194); (NR_llistxattr, 195);
  (NR_removexattr, 197); (NR_lremovexattr, 198); (NR_utimes, 235); (NR_inotify_add_watch, 254);
  (NR_openat, 257); (NR_mkdirat, 258); (NR_mknodat, 259); (NR_fchownat, 260); (NR_futimesat, 261);
  (NR_newfstatat, 262); (NR_unlinkat, 263); (NR_renameat, 264); (NR_linkat, 265);
  (NR_symlinkat, 266); (NR_readlinkat, 267); (NR_fchmodat, 268); (NR_faccessat, 269);
  (NR_utimensat, 280); (NR_renameat2, 316); (NR_execveat, 322); (NR_statx, 332);
  (NR_openat2, 437); (NR_faccessat2, 439); (NR_fchmodat2, 452)].

Definition aarch64_numbers : list (sysname * Z) := [
  (NR_setxattr, 5); (NR_lsetxattr, 6); (NR_getxattr, 8); (NR_lgetxattr, 9); (NR_listxattr, 11);
  (NR_llistxattr, 12); (NR_removexattr, 14); (NR_lremovexattr, 15); (NR_getcwd, 17);
  (NR_inotify_add_watch, 27); (NR_mknodat, 33); (NR_mkdirat, 34); (NR_unlinkat, 35);
  (NR_symlinkat, 36); (NR_linkat, 37); (NR_renameat, 38); (NR_umount2, 39); (NR_mount, 40);
  (NR_statfs, 43); (NR_truncate, 45); (NR_faccessat, 48); (NR_chdir, 49); (NR_chroot, 51);
  (NR_fchmodat, 53); (NR_fchownat, 54); (NR_fchown, 55); (NR_openat, 56); (NR_readlinkat, 78);
  (NR_newfstatat, 79); (NR_fstat, 80); (NR_utimensat, 88); (NR_setregid, 143); (NR_setgid, 144);
  (NR_setreuid, 145); (NR_setuid, 146); (NR_setresuid, 147); (NR_getresuid, 148);
  (NR_setresgid, 149); (NR_getresgid, 150); (NR_setfsuid, 151); (NR_setfsgid, 152);
  (NR_getgroups, 158); (NR_setgroups, 159); (NR_uname, 160); (NR_getuid, 174); (NR_geteuid, 175);
  (NR_getgid, 176); (NR_getegid, 177); (NR_bind, 200); (NR_connect, 203); (NR_sendto, 206);
  (NR_execve, 221); (NR_renameat2, 276); (NR_execveat, 281); (NR_statx, 291); (NR_openat2, 437);
  (NR_faccessat2, 439); (NR_fchmodat2, 452)].

Definition x86_64_abi : ABI := {| abi_arch := X86_64; nr := number_in x86_64_numbers |}.
Definition aarch64_abi : ABI := {| abi_arch := AARCH64; nr := number_in aarch64_numbers |}.

(** A table of numbers with no name or number twice makes an ABI. *)
Definition numbers_ok (tbl : list (sysname * Z)) : bool :=
  bool_decide (NoDup (snd <$> tbl)) && forallb (fun e => (0 <=? e.2) && (e.2 <? 2 ^ 31)) tbl.

Lemma number_in_Some tbl n z : number_in tbl n = Some z -> (n, z) ∈ tbl.
Proof.
  unfold number_in; intros H; apply fmap_Some in H as ([m y] & Hf & ->).
  apply List.find_some in Hf as [Hin Hd]; simpl in *; bool_cases; subst; by apply list_elem_of_In.
Qed.

Lemma numbers_ok_abi a tbl :
  numbers_ok tbl = true -> ABIOk {| abi_arch := a; nr := number_in tbl |}.
Proof.
  unfold numbers_ok; intros Hok; bool_cases.
  match goal with H : NoDup _ |- _ => rename H into Hnd end.
  match goal with H : forallb _ _ = true |- _ => rewrite forallb_forall in H; rename H into Hr end.
  split; simpl.
  - intros n m z Hn%number_in_Some Hm%number_in_Some.
    apply list_elem_of_lookup in Hn as [i Hi], Hm as [j Hj].
    assert (i = j) as -> by (eapply (NoDup_lookup _ i j z Hnd); rewrite list_lookup_fmap, ?Hi, ?Hj; done).
    congruence.
  - intros n z Hn%number_in_Some%list_elem_of_In; specialize (Hr _ Hn); simpl in Hr; bool_cases; lia.
Qed.

#[global] Typeclasses Opaque x86_64_abi aarch64_abi.
#[export] Instance x86_64_abi_ok : ABIOk x86_64_abi.
Proof. apply numbers_ok_abi; vm_compute; reflexivity. Qed.
#[export] Instance aarch64_abi_ok : ABIOk aarch64_abi.
Proof. apply numbers_ok_abi; vm_compute; reflexivity. Qed.

(** ** Lemmas *)

(** A table whose entries sit under their #ifdefs. *)
Section ifdef_tables.
Context {abi : ABI}.
Context {T D : Type} (name : T -> sysname) (keep : T -> bool) (mk : T -> Z -> D) (key : D -> Z).
Hypothesis key_mk : forall t z, key (mk t z) = z.

Definition ifdef_table (tbl : list T) : list D :=
  tbl ≫= fun t => if keep t then ifdef (name t) (mk t) else [].

Lemma ifdef_table_find `{!ABIOk abi} tbl n z :
  nr n = Some z ->
  List.find (fun d => key d =? z) (ifdef_table tbl) =
  (fun t => mk t z) <$> List.find (fun t => keep t && bool_decide (name t = n)) tbl.
Proof.
  intros Hn; unfold ifdef_table; induction tbl as [|t tbl IH]; [done|].
  cbn [mbind list_bind List.find]; destruct (keep t); cbn [andb app]; [|done].
  unfold ifdef; destruct (nr (name t)) as [y|] eqn:Ht; cbn [app List.find].
  - rewrite key_mk; destruct (Z.eqb_spec y z) as [->|Hne].
    + rewrite bool_decide_eq_true_2 by (eapply nr_inj; eauto); done.
    + rewrite bool_decide_eq_false_2 by (intros ?; congruence); done.
  - rewrite bool_decide_eq_false_2 by (intros ?; congruence); done.
Qed.

Lemma ifdef_table_elem tbl z :
  z ∈ key <$> ifdef_table tbl <-> exists t, t ∈ tbl /\ keep t = true /\ nr (name t) = Some z.
Proof.
  unfold ifdef_table; rewrite list_elem_of_fmap; setoid_rewrite list_elem_of_bind; unfold ifdef; split.
  - intros (d & -> & t & Hd & Ht); destruct (keep t) eqn:Hk; [|by apply not_elem_of_nil in Hd].
    destruct (nr (name t)) as [y|] eqn:Hy; [|by apply not_elem_of_nil in Hd].
    apply list_elem_of_singleton in Hd as ->; rewrite key_mk; eauto.
  - intros (t & Ht & Hk & Hz); exists (mk t z); rewrite key_mk; split; [done|].
    exists t; rewrite Hk, Hz; split; [by apply list_elem_of_singleton|done].
Qed.

Lemma ifdef_table_length tbl : (length (ifdef_table tbl) <= length tbl)%nat.
Proof.
  unfold ifdef_table; induction tbl as [|t tbl IH]; [done|].
  cbn [mbind list_bind]; rewrite length_app; unfold ifdef in *; case_ifs; [destruct (nr _)|]; simpl in *; lia.
Qed.
End ifdef_tables.

Section dispatch.
Context {abi : ABI}.

Definition mk_path (t : sysname * (Z * Z * follow_mode * Z)) (z : Z) : path_syscall_t :=
  let '(_, (s1, s2, m, f)) := t in PathSyscall z s1 s2 m f.

Definition keep_action (t : sysname * action * bool) : bool := negb (t.2 && negb (lp64 abi_arch)).

Lemma path_syscalls_table : path_syscalls = ifdef_table fst (fun _ => true) mk_path path_table.
Proof. apply list_bind_ext; [|done]; by intros [? [[[? ?] ?] ?]]. Qed.

Lemma action_syscalls_table :
  action_syscalls = ifdef_table (fun t => t.1.1) keep_action (fun t z => (z, t.1.2)) action_table.
Proof.
  apply list_bind_ext; [|done]; intros [[n a] b]; unfold keep_action; simpl.
  destruct (b && negb (lp64 abi_arch)); done.
Qed.

(** The entry each name has in the tables, for this ABI. *)
Definition path_entry (n : sysname) (z : Z) : option path_syscall_t :=
  (fun t => mk_path t z) <$> List.find (fun t => bool_decide (t.1 = n)) path_table.
Definition action_entry (n : sysname) : option action :=
  (fun t => t.1.2) <$> List.find (fun t => keep_action t && bool_decide (t.1.1 = n)) action_table.

Lemma find_path_entry `{!ABIOk abi} n z :
  nr n = Some z -> emuroot_find_path_syscall z = path_entry n z.
Proof.
  intros Hn; unfold emuroot_find_path_syscall; rewrite path_syscalls_table.
  rewrite (ifdef_table_find fst (fun _ => true) mk_path ps_sysno) with (n := n)
    by (done || by intros [? [[[? ?] ?] ?]] ?); done.
Qed.

Lemma action_of_entry `{!ABIOk abi} n z : nr n = Some z -> emuroot_action_of z = action_entry n.
Proof.
  intros Hn; unfold emuroot_action_of, action_entry; rewrite action_syscalls_table.
  rewrite (ifdef_table_find (fun t => t.1.1) keep_action (fun t z => (z, t.1.2)) fst) with (n := n) by done.
  by rewrite <- option_fmap_compose.
Qed.

(** The calls the engine acts on, by name: all of them but [fstat] when the ABI
    is 32-bit (its [struct stat] is the old one there). *)
Definition acted_on (n : sysname) : bool :=
  match n with NR_fstat => lp64 abi_arch | _ => true end.

Lemma ifdef_elem n (z : Z) : z ∈ ifdef n id <-> nr n = Some z.
Proof.
  unfold ifdef; destruct (nr n) as [y|]; [rewrite list_elem_of_singleton; unfold id; naive_solver|].
  split; [by intros ?%not_elem_of_nil|done].
Qed.

Lemma traced_elem z :
  z ∈ traced_syscalls <->
  (exists t, t ∈ path_table /\ nr t.1 = Some z) \/
  (exists t, t ∈ action_table /\ keep_action t = true /\ nr t.1.1 = Some z) \/
  (exists n, n ∈ [NR_execve; NR_bind; NR_connect; NR_sendto] /\ nr n = Some z).
Proof.
  unfold traced_syscalls; rewrite !elem_of_app, !ifdef_elem, path_syscalls_table, action_syscalls_table.
  rewrite (ifdef_table_elem fst _ mk_path ps_sysno) by (by intros [? [[[? ?] ?] ?]] ?).
  rewrite (ifdef_table_elem _ _ _ fst) by done.
  enough ((exists n, n ∈ [NR_execve; NR_bind; NR_connect; NR_sendto] /\ nr n = Some z) <->
          nr NR_execve = Some z \/ nr NR_bind = Some z \/ nr NR_connect = Some z \/ nr NR_sendto = Some z) as E. { rewrite E; naive_solver. }
  split.
  - intros (n & Hn & Hz); repeat (apply elem_of_cons in Hn as [->|Hn]; [tauto|]); by apply not_elem_of_nil in Hn.
  - intros [?|[?|[?|?]]]; eexists; (split; [|eassumption]); rewrite !elem_of_cons; tauto.
Qed.

Lemma lp64_only_names t :
  t ∈ action_table -> t.1.1 ∈ NR_fstat :: path_table.*1 \/ t.2 = false.
Proof.
  intros Ht%list_elem_of_In; revert t Ht; apply List.Forall_forall.
  apply (bool_decide_unpack (Forall (fun t => t.1.1 ∈ NR_fstat :: path_table.*1 \/ t.2 = false) action_table)).
  vm_compute; exact I.
Qed.

Lemma all_names n :
  n ∈ path_table.*1 \/ n ∈ (fun t => t.1.1) <$> action_table \/
  n ∈ [NR_execve; NR_bind; NR_connect; NR_sendto] \/ n = NR_execveat.
Proof.
  apply (bool_decide_unpack (n ∈ path_table.*1 \/ n ∈ (fun t => t.1.1) <$> action_table \/
    n ∈ [NR_execve; NR_bind; NR_connect; NR_sendto] \/ n = NR_execveat)).
  destruct n; vm_compute; exact I.
Qed.

Lemma traced_names n z :
  acted_on n = true -> n <> NR_execveat -> nr n = Some z -> z ∈ traced_syscalls.
Proof.
  intros Ha Hne Hz; apply traced_elem.
  destruct (decide (n ∈ path_table.*1)) as [(t & -> & Ht)%list_elem_of_fmap|Hp]; [left; by exists t|].
  right; destruct (decide (n ∈ [NR_execve; NR_bind; NR_connect; NR_sendto])) as [Hx|Hx]; [right; by exists n|].
  left; destruct (List.find (fun t => bool_decide (t.1.1 = n)) action_table) as [t|] eqn:Hf.
  - apply List.find_some in Hf as [Hin Heq]; apply list_elem_of_In in Hin; bool_cases; subst.
    exists t; split_and?; [done| |done].
    unfold keep_action; destruct (lp64_only_names t Hin) as [[Hf| ?]%elem_of_cons|Hm]; [|done|by rewrite Hm].
    rewrite Hf in Ha; simpl in Ha; rewrite Ha; by rewrite andb_false_r.
  - exfalso; destruct (all_names n) as [?|[[t [-> Ht%list_elem_of_In]]%list_elem_of_fmap|[?|?]]]; try done.
    pose proof (List.find_none _ _ Hf _ Ht) as Hd; cbv beta in Hd; bool_cases; done.
Qed.

Lemma traced_length : (length traced_syscalls <= 118)%nat.
Proof.
  unfold traced_syscalls; rewrite !length_app, !length_fmap, path_syscalls_table, action_syscalls_table.
  pose proof (ifdef_table_length fst (fun _ => true) mk_path path_table).
  pose proof (ifdef_table_length (fun t => t.1.1) keep_action (fun t z => (z, t.1.2)) action_table).
  change (length path_table) with 57%nat in *; change (length action_table) with 57%nat in *.
  assert (Hi : forall n, (length (ifdef n (@id Z)) <= 1)%nat) by (intros n; unfold ifdef; destruct (nr n); simpl; lia).
  pose proof (Hi NR_execve); pose proof (Hi NR_bind); pose proof (Hi NR_connect); pose proof (Hi NR_sendto); lia.
Qed.

Lemma path_names_acted_on t : t ∈ path_table -> t.1 <> NR_execveat /\ t.1 <> NR_fstat.
Proof.
  intros Ht%list_elem_of_In; revert t Ht; apply List.Forall_forall.
  apply (bool_decide_unpack (Forall (fun t => t.1 <> NR_execveat /\ t.1 <> NR_fstat) path_table)).
  vm_compute; exact I.
Qed.

Lemma action_names_acted_on t :
  t ∈ action_table -> t.1.1 <> NR_execveat /\ (t.1.1 = NR_fstat -> t.2 = true).
Proof.
  intros Ht%list_elem_of_In; revert t Ht; apply List.Forall_forall.
  apply (bool_decide_unpack (Forall (fun t => t.1.1 <> NR_execveat /\ (t.1.1 = NR_fstat -> t.2 = true)) action_table)).
  vm_compute; exact I.
Qed.

Lemma chroot_action_name t :
  t ∈ action_table -> t.1.2 = A_CHROOT -> exists e, e ∈ path_table /\ e.1 = t.1.1.
Proof.
  intros Ht%list_elem_of_In Ha; exists (NR_chroot, (1, 0, M_FOLLOW, 0)); split; [by apply elem_of_cons; left|].
  assert (Hall : Forall (fun t => t.1.2 = A_CHROOT -> NR_chroot = t.1.1) action_table)
    by (apply (bool_decide_unpack (Forall (fun t => t.1.2 = A_CHROOT -> NR_chroot = t.1.1) action_table));
        vm_compute; exact I).
  rewrite List.Forall_forall in Hall; by apply Hall.
Qed.

Lemma acted_on_other n : n <> NR_fstat -> acted_on n = true.
Proof. by destruct n. Qed.

Lemma traced_are_names z :
  z ∈ traced_syscalls -> exists n, nr n = Some z /\ acted_on n = true /\ n <> NR_execveat.
Proof.
  rewrite traced_elem; intros [(t & Ht & Hz)|[(t & Ht & Hk & Hz)|(n & Hn & Hz)]].
  - apply path_names_acted_on in Ht as [? ?]; exists t.1; auto using acted_on_other.
  - apply action_names_acted_on in Ht as [? Hf]; exists t.1.1; split_and?; try done.
    destruct (decide (t.1.1 = NR_fstat)) as [E|?]; [|by apply acted_on_other].
    rewrite E; simpl; unfold keep_action in Hk; rewrite (Hf E) in Hk; by destruct (lp64 _).
  - exists n; split_and?; try done;
      repeat (apply elem_of_cons in Hn as [->|Hn]; [done|]); by apply not_elem_of_nil in Hn.
Qed.
End dispatch.

(** ** Properties *)

(** *** What the tables should say *)

(** An argument in the kernel's prototype of a call: a path it resolves, with
    whether a symlink at its end is followed; flags that change that (open's, a
    struct open_how, AT_SYMLINK_NOFOLLOW, AT_SYMLINK_FOLLOW); a struct stat or
    statx to be filled in; or something else. *)
Inductive karg := PATH (follow : bool) | OFLAGS | HOW | ATFLAGS | LINKFLAGS | STATBUF | STATXBUF | DATA.
#[export] Instance karg_eq_dec : EqDecision karg.
Proof. solve_decision. Defined.

(** The prototypes (section 2 of the manual). *)
Definition prototype (n : sysname) : list karg :=
  match n with
  | NR_open => [PATH true; OFLAGS; DATA]
  | NR_openat => [DATA; PATH true; OFLAGS; DATA]
  | NR_openat2 => [DATA; PATH true; HOW; DATA]
  | NR_stat | NR_stat64 => [PATH true; STATBUF]
  | NR_lstat | NR_lstat64 => [PATH false; STATBUF]
  | NR_fstat | NR_fstat64 => [DATA; STATBUF]
  | NR_newfstatat | NR_fstatat64 => [DATA; PATH true; STATBUF; ATFLAGS]
  | NR_statx => [DATA; PATH true; ATFLAGS; DATA; STATXBUF]
  | NR_chroot | NR_chdir => [PATH true]
  | NR_creat | NR_access | NR_chmod | NR_truncate | NR_truncate64 | NR_utime | NR_utimes | NR_statfs => [PATH true; DATA]
  | NR_statfs64 | NR_chown | NR_chown32 | NR_listxattr => [PATH true; DATA; DATA]
  | NR_lchown | NR_lchown32 | NR_llistxattr | NR_readlink | NR_mknod => [PATH false; DATA; DATA]
  | NR_getxattr => [PATH true; DATA; DATA; DATA]
  | NR_lgetxattr => [PATH false; DATA; DATA; DATA]
  | NR_setxattr => [PATH true; DATA; DATA; DATA; DATA]
  | NR_lsetxattr => [PATH false; DATA; DATA; DATA; DATA]
  | NR_removexattr => [PATH true; DATA]
  | NR_lremovexattr | NR_mkdir => [PATH false; DATA]
  | NR_rmdir | NR_unlink => [PATH false]
  | NR_rename | NR_link => [PATH false; PATH false]
  | NR_symlink => [DATA; PATH false]                  (* the target is stored as it is *)
  | NR_mkdirat | NR_unlinkat => [DATA; PATH false; DATA]
  | NR_mknodat | NR_readlinkat => [DATA; PATH false; DATA; DATA]
  | NR_fchmodat | NR_futimesat | NR_faccessat => [DATA; PATH true; DATA]
  | NR_fchmodat2 | NR_utimensat | NR_faccessat2 => [DATA; PATH true; DATA; ATFLAGS]
  | NR_fchownat => [DATA; PATH true; DATA; DATA; ATFLAGS]
  | NR_renameat => [DATA; PATH false; DATA; PATH false]
  | NR_renameat2 => [DATA; PATH false; DATA; PATH false; DATA]
  | NR_linkat => [DATA; PATH false; DATA; PATH false; LINKFLAGS]
  | NR_symlinkat => [DATA; DATA; PATH false]
  | NR_inotify_add_watch => [DATA; PATH true; DATA]   (* IN_DONT_FOLLOW in the mask is not looked at *)
  | _ => []                                           (* no path, or a handler of its own *)
  end.

(** The positions, from 1, of the arguments that satisfy [f]. *)
Fixpoint positions (f : karg -> bool) (i : Z) (l : list karg) : list Z :=
  match l with [] => [] | a :: l => (if f a then [i] else []) ++ positions f (i + 1) l end.
Definition position (a : karg) (l : list karg) : option Z := head (positions (fun b => bool_decide (b = a)) 1 l).
Definition is_path (a : karg) : bool := match a with PATH _ => true | _ => false end.

(** When the end of a path is followed: the flags decide, if there are any. *)
Definition mode_of (l : list karg) : follow_mode * Z :=
  match position OFLAGS l, position HOW l, position ATFLAGS l, position LINKFLAGS l with
  | Some i, _, _, _ => (M_OPEN, i)
  | _, Some i, _, _ => (M_OPENAT2, i)
  | _, _, Some i, _ => (M_AT, i)
  | _, _, _, Some i => (M_LINKAT, i)
  | _, _, _, _ => (if bool_decide (PATH true ∈ l) then M_FOLLOW else M_NOFOLLOW, 0)
  end.
Definition path_spec (n : sysname) (z : Z) : option path_syscall_t :=
  let l := prototype n in
  match positions is_path 1 l with
  | [] => None
  | i :: rest => Some (PathSyscall z i (default 0 (head rest)) (mode_of l).1 (mode_of l).2)
  end.

(** What is emulated: by the call's meaning, and for the stat family by where
    its buffer is.  The calls that fill in an old struct stat are not, where
    there is a stat64. *)
Definition action_spec {abi : ABI} (n : sysname) : option action :=
  match n with
  | NR_getuid | NR_getuid32 => Some A_GETUID
  | NR_geteuid | NR_geteuid32 => Some A_GETEUID
  | NR_getgid | NR_getgid32 => Some A_GETGID
  | NR_getegid | NR_getegid32 => Some A_GETEGID
  | NR_getresuid | NR_getresuid32 => Some A_GETRESUID
  | NR_getresgid | NR_getresgid32 => Some A_GETRESGID
  | NR_getgroups | NR_getgroups32 => Some A_GETGROUPS
  | NR_setuid | NR_setuid32 => Some A_SETUID
  | NR_setgid | NR_setgid32 => Some A_SETGID
  | NR_setreuid | NR_setreuid32 => Some A_SETREUID
  | NR_setregid | NR_setregid32 => Some A_SETREGID
  | NR_setresuid | NR_setresuid32 => Some A_SETRESUID
  | NR_setresgid | NR_setresgid32 => Some A_SETRESGID
  | NR_setgroups | NR_setgroups32 => Some A_SETGROUPS
  | NR_setfsuid | NR_setfsuid32 => Some A_SETFSUID
  | NR_setfsgid | NR_setfsgid32 => Some A_SETFSGID
  | NR_chown | NR_chown32 | NR_lchown | NR_lchown32 | NR_fchown | NR_fchown32 | NR_fchownat => Some A_CHOWN
  | NR_getcwd => Some A_GETCWD
  | NR_chroot => Some A_CHROOT
  | NR_mount => Some A_MOUNT
  | NR_umount | NR_umount2 => Some A_UMOUNT
  | NR_readlink | NR_readlinkat => Some A_READLINK
  | NR_execve => Some A_EXECVE
  | NR_uname => Some A_UNAME
  | _ =>
      let old := bool_decide (n ∈ [NR_stat; NR_lstat; NR_fstat; NR_newfstatat]) in
      if old && negb (lp64 abi_arch) then None
      else match position STATBUF (prototype n), position STATXBUF (prototype n) with
           | Some i, _ => if i =? 2 then Some A_STAT_2 else if i =? 3 then Some A_STAT_3 else None
           | _, Some i => if i =? 5 then Some A_STATX else None
           | _, _ => None
           end
  end.

Lemma path_entry_spec n z : path_entry n z = path_spec n z.
Proof. by destruct n. Qed.

Lemma action_entry_spec {abi : ABI} n : action_entry n = action_spec n.
Proof. unfold action_entry, action_spec, keep_action; destruct (lp64 abi_arch); by destruct n. Qed.

(** No number is in a table twice, when no name is. *)
Lemma ifdef_table_NoDup {abi : ABI} `{!ABIOk abi} {T D} (name : T -> sysname) (keep : T -> bool) (mk : T -> Z -> D) (key : D -> Z)
    (Hkey : forall t z, key (mk t z) = z) (tbl : list T) :
  NoDup (name <$> tbl) -> NoDup (key <$> ifdef_table name keep mk tbl).
Proof.
  unfold ifdef_table; induction tbl as [|t tbl IH]; intros Hn; [constructor|].
  cbn [fmap list_fmap] in Hn; apply list.NoDup_cons in Hn as [Ht Hn]; cbn [mbind list_bind]; rewrite fmap_app.
  apply list.NoDup_app; split; [|split; [|by apply IH]].
  - unfold ifdef; case_ifs; [destruct (nr (name t)); [apply list.NoDup_singleton|]|]; constructor.
  - intros z Hz Hz'; apply (ifdef_table_elem name keep mk key Hkey tbl) in Hz' as (t' & Ht' & _ & Hnr').
    assert (nr (name t) = Some z) as Hnr.
    { unfold ifdef in Hz; destruct (keep t); [|by apply not_elem_of_nil in Hz]; destruct (nr (name t)); [|by apply not_elem_of_nil in Hz].
      apply list_elem_of_singleton in Hz as ->; by rewrite Hkey. }
    apply Ht; rewrite (nr_inj _ _ z Hnr Hnr'); by apply list_elem_of_fmap_2.
Qed.

Lemma tables_NoDup {abi : ABI} `{!ABIOk abi} : NoDup (ps_sysno <$> path_syscalls) /\ NoDup (fst <$> action_syscalls).
Proof.
  rewrite path_syscalls_table, action_syscalls_table; split; apply ifdef_table_NoDup; try done.
  - by intros [? [[[? ?] ?] ?]].
  - apply (bool_decide_unpack _); vm_compute; exact I.
  - apply (bool_decide_unpack _); vm_compute; exact I.
Qed.



(** The seccomp filter's list is complete but for [execveat]. A number is on
    the list of traced calls iff it is the number of a call the engine acts on
    other than [execveat]; and the list fits both the array [traced] of
    512 entries and the filter's limit of 250. *)
Theorem traced_complete `{abi : ABI} (z : Z) :
  (z ∈ traced_syscalls <-> exists n, nr n = Some z /\ acted_on n = true /\ n <> NR_execveat) /\
  (length traced_syscalls <= 250)%nat.
Proof.
  split; [split; [apply traced_are_names|]|pose proof (traced_length (abi := abi)); lia].
  intros (n & Hz & Ha & Hne); eapply traced_names; eauto.
Qed.

(** [execveat] is handled at syscall entry ([emuroot_on_entry]) but its number
    is not on the list, so the filter lets it through untraced. *)
Lemma execveat_not_traced `{abi : ABI} `{!ABIOk abi} z :
  nr NR_execveat = Some z -> z ∉ traced_syscalls.
Proof. intros Hz (n & Hn & _ & Hne)%traced_are_names; apply Hne; eapply nr_inj; eauto. Qed.
