(* ===== verification/Seccomp.v ===== *)
(** The seccomp-bpf fast path ([src/seccomp.c]): the filter program emuroot
    hands to the kernel, and when it may be used.

    The kernel's filter machine is not part of the repository: it is the class
    [BPF], with the documented meaning of the three instructions used as its
    laws, and a small interpreter as an instance. *)

From Stdlib Require Import ZArith Lia Ascii String.
From stdpp Require Import base list numbers.
From S2P Require Import Prelude Stdio Arch Syscalls.
Local Open Scope Z_scope.

(** ** The program *)

Record sock_filter := SockFilter { code : Z; jt : Z; jf : Z; k : Z }.

(** <linux/bpf_common.h> and <linux/seccomp.h>. *)
Definition BPF_LD_W_ABS : Z := 0x20.
Definition BPF_JMP_JEQ_K : Z := 0x15.
Definition BPF_RET_K : Z := 0x06.
Definition SECCOMP_RET_ALLOW : Z := 0x7fff0000.
Definition SECCOMP_RET_TRACE : Z := 0x7ff00000.
(** offsetof(struct seccomp_data, nr) and (..., arch). *)
Definition data_nr : Z := 0.
Definition data_arch : Z := 4.

Definition BPF_STMT (c v : Z) : sock_filter := SockFilter c 0 0 v.
Definition BPF_JUMP (c v t f : Z) : sock_filter := SockFilter c t f v.

Definition MAX_FILTERED : Z := 250.

(** The comparison for [nrs[i]]: a match jumps [(unsigned char)(n - i)] ahead. *)
Fixpoint match_each (nrs : list Z) (i n : Z) : list sock_filter :=
  match nrs with
  | [] => []
  | x :: nrs => BPF_JUMP BPF_JMP_JEQ_K (w32 x) ((n - i) mod 256) 0 :: match_each nrs (i + 1) n
  end.

Definition filter_program (a : arch) (nrs : list Z) : list sock_filter :=
  [ BPF_STMT BPF_LD_W_ABS data_arch;
    BPF_JUMP BPF_JMP_JEQ_K (EMU_AUDIT_ARCH a) 1 0;
    BPF_STMT BPF_RET_K SECCOMP_RET_ALLOW;
    BPF_STMT BPF_LD_W_ABS data_nr ] ++
  match_each nrs 0 (strlen nrs) ++
  [ BPF_STMT BPF_RET_K SECCOMP_RET_ALLOW; BPF_STMT BPF_RET_K SECCOMP_RET_TRACE ].

Section install.
(** What prctl(PR_SET_NO_NEW_PRIVS) and prctl(PR_SET_SECCOMP) answer. *)
Variable no_new_privs : bool.
Variable set_filter : list sock_filter -> bool.

(** The filter installed, if any, and the result. *)
Definition emuroot_seccomp_trace (a : arch) (nrs : list Z) : option (list sock_filter) * Z :=
  if (strlen nrs =? 0) || (MAX_FILTERED <? strlen nrs) then (None, -1)
  else if negb no_new_privs then (None, -1)
  else let prog := filter_program a nrs in
       if set_filter prog then (Some prog, 0) else (None, -1).

Definition emuroot_seccomp_installable : bool :=
  no_new_privs && set_filter [BPF_STMT BPF_RET_K SECCOMP_RET_ALLOW].
End install.

(** [release]: what uname reports, [None] if it fails. *)
Definition emuroot_seccomp_supported (release : option cstr) : bool :=
  match release with
  | None => false
  | Some r =>
      match scan_d r with
      | Some (major, c :: s) =>
          if Ascii.eqb c "." then
            match scan_d s with
            | Some (minor, _) => (4 <? major) || ((major =? 4) && (8 <=? minor))
            | None => false
            end
          else false
      | _ => false
      end
  end.

(** ** The kernel's filter machine *)

(** Running a program from an instruction, with the accumulator and the 32-bit
    words of the [struct seccomp_data]; the result is the returned value. *)
Class BPF := bpf_run : list sock_filter -> nat -> Z -> (Z -> Z) -> option Z.

Class BPFLaws (bpf : BPF) : Prop := {
  bpf_ld : forall prog pc a d v,
    prog !! pc = Some (BPF_STMT BPF_LD_W_ABS v) -> bpf_run prog pc a d = bpf_run prog (S pc) (d v) d;
  bpf_jeq : forall prog pc a d v t f,
    prog !! pc = Some (BPF_JUMP BPF_JMP_JEQ_K v t f) -> 0 <= t -> 0 <= f ->
    bpf_run prog pc a d = bpf_run prog (S pc + Z.to_nat (if a =? v then t else f)) a d;
  bpf_ret : forall prog pc a d v,
    prog !! pc = Some (BPF_STMT BPF_RET_K v) -> bpf_run prog pc a d = Some v
}.

(** An interpreter: jumps only go forward, so the instructions left bound the
    number of steps. *)
Fixpoint interp (fuel : nat) (prog : list sock_filter) (pc : nat) (a : Z) (d : Z -> Z) : option Z :=
  match fuel, prog !! pc with
  | S f, Some i =>
      if code i =? BPF_LD_W_ABS then interp f prog (S pc) (d (k i)) d
      else if code i =? BPF_JMP_JEQ_K then interp f prog (S pc + Z.to_nat (if a =? k i then jt i else jf i)) a d
      else if code i =? BPF_RET_K then Some (k i)
      else None
  | _, _ => None
  end.

Definition interp_bpf : BPF := fun prog pc a d => interp (length prog - pc) prog pc a d.

Lemma interp_fuel fuel : forall fuel' prog pc a d,
  (length prog - pc <= fuel)%nat -> (length prog - pc <= fuel')%nat ->
  interp fuel prog pc a d = interp fuel' prog pc a d.
Proof.
  induction fuel as [|fuel IH]; intros [|fuel'] prog pc a d H1 H2; [done| | |]; cbn [interp].
  1,2: rewrite lookup_ge_None_2 by lia; done.
  destruct (prog !! pc) as [i|] eqn:Hi; [|done].
  case_ifs; try done; apply IH; lia.
Qed.

#[export] Instance interp_bpf_laws : BPFLaws interp_bpf.
Proof.
  split; unfold bpf_run, interp_bpf; intros prog pc a d v.
  - intros Hi; pose proof (lookup_lt_Some _ _ _ Hi).
    rewrite (interp_fuel _ (S (length prog - S pc))) by lia; cbn [interp]; by rewrite Hi.
  - intros t f Hi Ht Hf; pose proof (lookup_lt_Some _ _ _ Hi).
    rewrite (interp_fuel _ (S (length prog - S pc))) by lia; cbn [interp]; rewrite Hi.
    cbn [code jt jf k BPF_JUMP]; change (BPF_JMP_JEQ_K =? BPF_LD_W_ABS) with false.
    change (BPF_JMP_JEQ_K =? BPF_JMP_JEQ_K) with true; cbv iota; apply interp_fuel; lia.
  - intros Hi; pose proof (lookup_lt_Some _ _ _ Hi).
    rewrite (interp_fuel _ (S (length prog - S pc))) by lia; cbn [interp]; by rewrite Hi.
Qed.

(** ** Lemmas *)

Section filter.
Context {bpf : BPF} {laws : BPFLaws bpf}.

Lemma match_each_length nrs : forall i n, length (match_each nrs i n) = length nrs.
Proof. induction nrs as [|x nrs IH]; intros i n; simpl; [done|by rewrite IH]. Qed.

Lemma match_each_lookup nrs : forall i n j x,
  nrs !! j = Some x ->
  match_each nrs i n !! j = Some (BPF_JUMP BPF_JMP_JEQ_K (w32 x) ((n - (i + Z.of_nat j)) mod 256) 0).
Proof.
  induction nrs as [|y nrs IH]; intros i n [|j] x; cbn [match_each lookup list_lookup]; try done.
  - intros [= ->]; by rewrite Z.add_0_r.
  - intros Hj; specialize (IH (i + 1) n j x Hj).
    replace (i + Z.of_nat (S j)) with (i + 1 + Z.of_nat j) by lia; exact IH.
Qed.

Lemma filter_length a nrs : length (filter_program a nrs) = (length nrs + 6)%nat.
Proof. unfold filter_program; rewrite !length_app, match_each_length; simpl; lia. Qed.

Lemma filter_jump a nrs j x :
  nrs !! j = Some x ->
  filter_program a nrs !! (4 + j)%nat =
  Some (BPF_JUMP BPF_JMP_JEQ_K (w32 x) ((strlen nrs - Z.of_nat j) mod 256) 0).
Proof.
  intros Hj; pose proof (lookup_lt_Some _ _ _ Hj); unfold filter_program.
  rewrite lookup_app_r by (simpl; lia); replace (4 + j - _)%nat with j by (simpl; lia).
  rewrite lookup_app_l by (by rewrite match_each_length); by apply (match_each_lookup nrs 0).
Qed.

Lemma filter_end a nrs i :
  filter_program a nrs !! (4 + length nrs + i)%nat =
  [ BPF_STMT BPF_RET_K SECCOMP_RET_ALLOW; BPF_STMT BPF_RET_K SECCOMP_RET_TRACE ] !! i.
Proof.
  unfold filter_program; rewrite lookup_app_r by (simpl; lia).
  rewrite lookup_app_r by (rewrite match_each_length; simpl; lia).
  f_equal; rewrite match_each_length; simpl; lia.
Qed.

(** From the comparison with [nrs[j]] on. *)
Lemma filter_chain a nrs d x :
  strlen nrs <= MAX_FILTERED -> forall rest j, drop j nrs = rest ->
  (j <= length nrs)%nat ->
  bpf_run (filter_program a nrs) (4 + j) x d =
  Some (if bool_decide (x ∈ w32 <$> rest) then SECCOMP_RET_TRACE else SECCOMP_RET_ALLOW).
Proof.
  unfold strlen, MAX_FILTERED; intros Hn; induction rest as [|y rest IH]; intros j Hj Hle.
  - assert (j = length nrs) as -> by (apply (f_equal length) in Hj; rewrite length_drop in Hj; simpl in Hj; lia).
    rewrite bpf_ret with (v := SECCOMP_RET_ALLOW); [|replace (4 + length nrs)%nat with (4 + length nrs + 0)%nat by lia; apply filter_end].
    by rewrite bool_decide_eq_false_2 by apply not_elem_of_nil.
  - assert (Hy : nrs !! j = Some y) by (rewrite <- (Nat.add_0_r j), <- lookup_drop, Hj; done).
    pose proof (lookup_lt_Some _ _ _ Hy) as Hlt.
    rewrite (bpf_jeq _ _ _ _ _ _ _ (filter_jump a nrs j y Hy)) by (try apply Z.mod_pos_bound; lia).
    unfold strlen; rewrite Z.mod_small by lia; destruct (Z.eqb_spec x (w32 y)) as [->|Hne].
    + rewrite bool_decide_eq_true_2 by (cbn; apply elem_of_cons; by left).
      apply bpf_ret; replace (S (4 + j) + _)%nat with (4 + length nrs + 1)%nat by lia; apply filter_end.
    + replace (S (4 + j) + Z.to_nat 0)%nat with (4 + S j)%nat by lia.
      rewrite IH; [|replace (S j) with (j + 1)%nat by lia; by rewrite <- drop_drop, Hj|lia].
      f_equal; erewrite bool_decide_ext; [done|]; cbn; rewrite elem_of_cons; naive_solver.
Qed.
End filter.

(** ** Properties *)

(** The filter is exact. Under the documented meaning of the three
    instructions, the program built for up to 250 numbers (so that no jump
    offset is cut to a byte) stops a call for the tracer iff it is made in the
    native ABI and its number is on the list; every other call, and every call
    of a foreign ABI, runs at full speed. *)
Theorem filter_decides {bpf : BPF} {laws : BPFLaws bpf} (a : arch) (nrs : list Z) (d : Z -> Z) :
  strlen nrs <= MAX_FILTERED ->
  bpf_run (filter_program a nrs) 0 0 d =
  Some (if (d data_arch =? EMU_AUDIT_ARCH a) && bool_decide (d data_nr ∈ w32 <$> nrs)
        then SECCOMP_RET_TRACE else SECCOMP_RET_ALLOW).
Proof.
  intros Hn; rewrite (bpf_ld _ _ _ _ data_arch) by done.
  rewrite (bpf_jeq _ _ _ _ (EMU_AUDIT_ARCH a) 1 0) by done.
  destruct (d data_arch =? EMU_AUDIT_ARCH a); cbn [andb].
  - rewrite (bpf_ld _ _ _ _ data_nr) by done; by apply (filter_chain a nrs d (d data_nr) Hn nrs 0); [|lia].
  - by rewrite (bpf_ret _ _ _ _ SECCOMP_RET_ALLOW).
Qed.

Lemma filter_decides_witness :
  bpf_run (BPF := interp_bpf) (filter_program X86_64 [2; 257]) 0 0 (fun off => if off =? 0 then 257 else 0xC000003E) =
  Some SECCOMP_RET_TRACE.
Proof. rewrite (filter_decides X86_64 [2; 257]); [reflexivity|vm_compute; discriminate]. Defined.

(** C31: the fast path stops the guest for every call emuroot handles and no
    other one. If installing the filter built from the traced calls succeeds,
    then on that kernel a native call [n] reports to the tracer iff it is one
    the engine acts on, [execveat] excepted, and a call the tables do not know
    never does. *)
Theorem fast_path_complete {bpf : BPF} {laws : BPFLaws bpf} `{abi : ABI} `{!ABIOk abi}
    (no_new_privs : bool) (set_filter : list sock_filter -> bool) (prog : list sock_filter) (z : Z) :
  emuroot_seccomp_trace no_new_privs set_filter abi_arch traced_syscalls = (Some prog, 0) ->
  0 <= z < 2 ^ 32 ->
  let data off := if off =? data_nr then z else EMU_AUDIT_ARCH abi_arch in
  bpf_run prog 0 0 data = Some SECCOMP_RET_TRACE <->
  exists n, nr n = Some z /\ acted_on n = true /\ n <> NR_execveat.
Proof.
  intros Htr Hz data; unfold emuroot_seccomp_trace in Htr.
  destruct (_ || _) eqn:Hlen; [done|]; destruct no_new_privs; [|done]; simpl in Htr.
  destruct (set_filter _); [|done]; injection Htr as <-; apply orb_false_iff in Hlen as [_ Hlen]; bool_cases.
  rewrite filter_decides by done; unfold data at 1; simpl; rewrite Z.eqb_refl; simpl.
  change (data data_nr) with z.
  assert (Hin : z ∈ w32 <$> traced_syscalls <-> z ∈ traced_syscalls).
  { rewrite list_elem_of_fmap; split.
    - intros (y & -> & Hy); destruct (traced_are_names _ Hy) as (n & Hn & _); apply nr_range in Hn.
      unfold w32; rewrite Z.mod_small by lia; done.
    - intros Hy; exists z; unfold w32; by rewrite Z.mod_small. }
  split.
  - destruct (bool_decide_reflect (z ∈ w32 <$> traced_syscalls)) as [H|H]; [intros _; by apply traced_are_names, Hin|done].
  - intros (n & Hn & Ha & Hne); rewrite bool_decide_eq_true_2; [done|]; apply Hin; by eapply traced_names.
Qed.

Lemma fast_path_complete_witness :
  bpf_run (BPF := interp_bpf) (filter_program X86_64 (traced_syscalls (abi := x86_64_abi))) 0 0
    (fun off => if off =? data_nr then 257 else EMU_AUDIT_ARCH X86_64) = Some SECCOMP_RET_TRACE.
Proof.
  apply (fast_path_complete (abi := x86_64_abi) true (fun _ => true)); [vm_compute; reflexivity|lia|].
  by exists NR_openat.
Defined.

(** The kernel version test. For a release that starts with "M.m", the fast
    path is used iff the version is at least 4.8. *)
Theorem seccomp_supported_spec (major minor : Z) (rest : cstr) :
  0 <= major < 2 ^ 31 -> 0 <= minor < 2 ^ 31 -> ends_number rest ->
  emuroot_seccomp_supported (Some (print_u major ++ lit "." ++ print_u minor ++ rest)) = true <->
  (4 < major \/ (major = 4 /\ 8 <= minor)).
Proof.
  intros HM Hm Hr; unfold emuroot_seccomp_supported; rewrite scan_d_print by done.
  cbn [lit list_ascii_of_string app]; change (Ascii.eqb "." ".") with true; cbv iota.
  rewrite scan_d_print by done; rewrite orb_true_iff, andb_true_iff, Z.ltb_lt, Z.eqb_eq, Z.leb_le; done.
Qed.

Lemma seccomp_supported_spec_witness :
  emuroot_seccomp_supported (Some (print_u 4 ++ lit "." ++ print_u 14 ++ lit "-generic")) = true.
Proof. apply seccomp_supported_spec; try done; lia. Defined.
