(* ===== verification/World.v ===== *)
(** The world the engine acts on, as interfaces: the host's file system
    ([HostFS]) and the traced process's memory and registers ([GuestMem]), with
    the laws the engine's theorems rely on; and the state monad its handlers
    are written in.

    The host kernel is not part of the repository, so [HostFS] is an argument
    of every definition.  [GuestMem] is what [src/guest.h] and the register
    functions of [src/arch.h] promise; [Guest.v] discharges it for the code of
    [src/guest.c]. *)

From Stdlib Require Import ZArith Lia Ascii String.
From stdpp Require Import base list numbers.
From S2P Require Import Prelude Arch.
Local Open Scope Z_scope.

(** ** Bytes and words *)

Definition byte (z : Z) : ascii := ascii_of_nat (Z.to_nat (z mod 256)).
Definition unbyte (c : ascii) : Z := Z.of_nat (nat_of_ascii c).

(** [n] bytes of [z], least significant first, and back. *)
Fixpoint le_bytes (n : nat) (z : Z) : cstr :=
  match n with O => [] | S n => byte z :: le_bytes n (z / 256) end.
Fixpoint le_value (s : cstr) : Z :=
  match s with [] => 0 | c :: s => unbyte c + 256 * le_value s end.

(** In the target's byte order. *)
Definition bytes_of (a : arch) (n : nat) (z : Z) : cstr :=
  if big_endian a then rev (le_bytes n z) else le_bytes n z.
Definition value_of (a : arch) (s : cstr) : Z :=
  if big_endian a then le_value (rev s) else le_value s.

Lemma unbyte_range c : 0 <= unbyte c < 256.
Proof. unfold unbyte; pose proof (nat_ascii_bounded c); lia. Qed.

Lemma byte_unbyte c : byte (unbyte c) = c.
Proof.
  pose proof (unbyte_range c) as Hc; unfold byte; rewrite Z.mod_small by done.
  unfold unbyte; by rewrite Nat2Z.id, ascii_nat_embedding.
Qed.

Lemma unbyte_byte z : unbyte (byte z) = z mod 256.
Proof.
  pose proof (Z.mod_pos_bound z 256 ltac:(lia)); unfold unbyte, byte.
  rewrite nat_ascii_embedding by lia; lia.
Qed.

Lemma le_bytes_length n : forall z, length (le_bytes n z) = n.
Proof. induction n as [|n IH]; intros z; simpl; [done|by rewrite IH]. Qed.

Lemma le_value_bytes n : forall z, le_value (le_bytes n z) = z mod 2 ^ (8 * Z.of_nat n).
Proof.
  induction n as [|n IH]; intros z; cbn [le_bytes le_value].
  - by rewrite Z.mul_0_r, Z.pow_0_r, Z.mod_1_r.
  - rewrite IH, unbyte_byte, Nat2Z.inj_succ.
    replace (8 * Z.succ (Z.of_nat n)) with (8 + 8 * Z.of_nat n) by lia; rewrite Z.pow_add_r by lia.
    change (2 ^ 8) with 256; rewrite Z.rem_mul_r; lia.
Qed.

Lemma le_bytes_value s : le_bytes (length s) (le_value s) = s.
Proof.
  induction s as [|c s IH]; cbn [length le_bytes le_value]; [done|].
  pose proof (unbyte_range c) as Hc; f_equal.
  - unfold byte; rewrite Z.mul_comm, Z.mod_add, Z.mod_small by lia.
    rewrite <- (byte_unbyte c) at 2; unfold byte; by rewrite Z.mod_small.
  - rewrite Z.mul_comm, Z.div_add, Z.div_small by lia; by rewrite Z.add_0_l.
Qed.

Lemma le_value_range s : 0 <= le_value s < 2 ^ (8 * strlen s).
Proof.
  induction s as [|c s IH]; cbn [le_value]; [done|]; rewrite strlen_cons; pose proof (unbyte_range c).
  pose proof (strlen_nonneg s); replace (8 * (1 + strlen s)) with (8 + 8 * strlen s) by lia.
  rewrite Z.pow_add_r by lia; change (2 ^ 8) with 256; lia.
Qed.

Lemma value_of_range a s : 0 <= value_of a s < 2 ^ (8 * strlen s).
Proof.
  unfold value_of; destruct (big_endian a); [|apply le_value_range].
  pose proof (le_value_range (rev s)) as Hr; unfold strlen in *; by rewrite length_rev in Hr.
Qed.

Lemma bytes_of_length a n z : length (bytes_of a n z) = n.
Proof. unfold bytes_of; destruct (big_endian a); rewrite ?length_rev; apply le_bytes_length. Qed.

(** Bytes and value are two forms of the same word. *)
Lemma value_bytes_of a n z : value_of a (bytes_of a n z) = z mod 2 ^ (8 * Z.of_nat n).
Proof. unfold value_of, bytes_of; destruct (big_endian a); rewrite ?rev_involutive; apply le_value_bytes. Qed.

Lemma bytes_of_value a n s : length s = n -> bytes_of a n (value_of a s) = s.
Proof.
  intros <-; unfold value_of, bytes_of; destruct (big_endian a); [|apply le_bytes_value].
  rewrite <- length_rev, le_bytes_value; apply rev_involutive.
Qed.

(** [buf] after its first bytes have been overwritten. *)
Definition overlay (bs buf : cstr) : cstr := bs ++ zdrop (strlen bs) buf.
Definition zeros (n : Z) : cstr := replicate (Z.to_nat n) NUL.

(** ** The host *)

Record file_stat := FileStat {
  st_dev : Z;
  st_ino : Z;
  st_uid : Z;
  st_gid : Z;
  st_mode : Z
}.

Definition S_IFMT : Z := 0xF000.
Definition S_ISDIR (m : Z) : bool := Z.land m S_IFMT =? 0x4000.

(** What the engine asks of the host on its own behalf.  Paths are host paths;
    [None] is a failing call. *)
Class HostFS (W : Type) := {
  fs_readlink : W -> cstr -> option cstr;
  fs_stat : W -> cstr -> option file_stat;
  fs_lstat : W -> cstr -> option file_stat;
  fs_realpath : W -> cstr -> option cstr;
  fs_chmod : W -> cstr -> Z -> W;
  fs_open : W -> cstr -> bool;                      (* open(path, O_RDONLY) *)
  fs_pread : W -> cstr -> Z -> Z -> option cstr;    (* of the opened file: offset, length *)
  strdup : W -> cstr -> bool;                       (* is there memory for a copy of the string? *)
  host_euid : W -> Z;
  host_egid : W -> Z
}.

(** There may be no memory for a copy of some string. *)
Definition strdup_fails (W : Type) `{HostFS W} : Prop := exists (w : W) s, strdup w s = false.

(** ** The traced process *)

(** [guest_read] returns the bytes transferred, [None] for -1; [guest_errno] is
    [errno] as the last call left it. *)
Class GuestMem (W : Type) := {
  guest_read : W -> Z -> Z -> Z -> W * option cstr;     (* pid, address, length *)
  guest_write : W -> Z -> Z -> cstr -> W * bool;        (* pid, address, data *)
  guest_errno : W -> Z;
  regs_fetch : W -> Z -> W * option (list Z);
  regs_store : W -> Z -> list Z -> W * bool
}.

(** An address: a word of the target. *)
Definition is_addr (ar : arch) (a : Z) : Prop := 0 <= a < 2 ^ word_bits ar.

(** The parts of the world an access to the guest leaves alone. *)
Definition same_host `{HostFS W} (w w' : W) : Prop :=
  fs_readlink w' = fs_readlink w /\ fs_stat w' = fs_stat w /\ fs_lstat w' = fs_lstat w /\
  fs_realpath w' = fs_realpath w /\ fs_open w' = fs_open w /\ fs_pread w' = fs_pread w /\
  host_euid w' = host_euid w /\ host_egid w' = host_egid w.

(** What the clients rely on: a view of each process's memory and registers
    that reads report faithfully and writes change exactly. *)
Class GuestLaws (ar : arch) (W : Type) `{HostFS W, GuestMem W} := {
  mem : W -> Z -> Z -> option ascii;
  kernel_regs : W -> Z -> option (list Z);
  mem_range : forall w pid x c, mem w pid x = Some c -> 0 <= x < 2 ^ word_bits ar - word_size ar;
  read_same : forall w pid a n, let w' := (guest_read w pid a n).1 in
    same_host w w' /\ mem w' = mem w /\ kernel_regs w' = kernel_regs w;
  read_bytes : forall w pid a n bs, is_addr ar a -> 0 <= n -> (guest_read w pid a n).2 = Some bs ->
    strlen bs <= n /\ forall i c, bs !! i = Some c -> mem w pid (a + Z.of_nat i) = Some c;
  write_same : forall w pid a bs, is_addr ar a -> let w' := (guest_write w pid a bs).1 in
    same_host w w' /\ kernel_regs w' = kernel_regs w /\
    forall x, ~ (a <= x < a + strlen bs) -> mem w' pid x = mem w pid x;
  write_bytes : forall w pid a bs, is_addr ar a -> (guest_write w pid a bs).2 = true ->
    forall i c, bs !! i = Some c -> mem (guest_write w pid a bs).1 pid (a + Z.of_nat i) = Some c;
  store_same : forall w pid r, let w' := (regs_store w pid r).1 in same_host w w' /\ mem w' = mem w;
  store_regs : forall w pid r, length r = length (emuroot_regs_t ar) ->
    (regs_store w pid r).2 = true -> kernel_regs (regs_store w pid r).1 pid = Some r;
  fetch_same : forall w pid, let w' := (regs_fetch w pid).1 in
    same_host w w' /\ mem w' = mem w /\ kernel_regs w' = kernel_regs w;
  fetch_regs : forall w pid r, (regs_fetch w pid).2 = Some r -> kernel_regs w pid = Some r;
  chmod_same : forall w p m, mem (fs_chmod w p m) = mem w /\ kernel_regs (fs_chmod w p m) = kernel_regs w
}.

(** A C string of the guest: its bytes, then a NUL. *)
Definition guest_cstr `{GuestLaws ar W} (w : W) (pid a : Z) (s : cstr) : Prop :=
  (forall i c, s !! i = Some c -> mem w pid (a + Z.of_nat i) = Some c) /\
  mem w pid (a + strlen s) = Some NUL.
