(* ===== verification/Guest.v ===== *)
(** Access to the traced process's memory ([src/guest.c]): three methods tried
    in turn, the word-at-a-time fallback, and C strings read in chunks.

    The kernel's calls are the class [RawMem]; [RawLaws] is their documented
    effect on memory.  The instance [guest_laws] proves that the code on top of
    them keeps the promises of [GuestLaws], whichever method is in use. *)

From Stdlib Require Import ZArith Lia Ascii String.
From stdpp Require Import base list numbers.
From S2P Require Import Prelude Stdio Arch World.
Local Open Scope Z_scope.

(** ** Strings: [guest_read_str], on any implementation of [guest_read] *)

Section strings.
Context `{GuestMem W}.
Variable ar : arch.

(** [memchr(buf, '\0', n)]: the bytes before the first NUL, if there is one. *)
Fixpoint until_nul (s : cstr) : option cstr :=
  match s with
  | [] => None
  | c :: s => if bool_decide (c = NUL) then Some [] else cons c <$> until_nul s
  end.

Definition CHUNK : Z := 128.

(** The loop; [have] is the text read so far.  Every round but the last adds
    [CHUNK] bytes. *)
Fixpoint read_chunks (fuel : nat) (w : W) (pid addr size : Z) (have : cstr) : W * option cstr :=
  let stop (w : W) (have : cstr) := (w, if bool_decide (have = []) then None else Some have) in
  if strlen have + 1 <? size then
    match fuel with
    | O => stop w have
    | S f =>
        let want := if size - 1 - strlen have <? CHUNK then size - 1 - strlen have else CHUNK in
        let '(w, r) := guest_read w pid (uword ar (addr + strlen have)) want in
        match r with
        | None => if bool_decide (have = []) then (w, None) else stop w have
        | Some [] => if bool_decide (have = []) then (w, None) else stop w have
        | Some bs =>
            match until_nul bs with
            | Some s => (w, Some (have ++ s))
            | None => if strlen bs <? want then stop w (have ++ bs)
                      else read_chunks f w pid addr size (have ++ bs)
            end
        end
    end
  else stop w have.

(** The string, or [None] for -1. *)
Definition guest_read_str (w : W) (pid addr size : Z) : W * option cstr :=
  read_chunks (Z.to_nat size) w pid addr size [].
End strings.

(** ** The three methods *)

Inductive method := PROCESS_VM | PROC_MEM | PEEK_POKE.

#[export] Instance method_eq_dec : EqDecision method.
Proof. solve_decision. Defined.

(** [method + 1] *)
Definition next_method (m : method) : method :=
  match m with PROCESS_VM => PROC_MEM | _ => PEEK_POKE end.

(** The kernel: [inl] is an errno, the numbers are pid and address. *)
Class RawMem (K : Type) := {
  vm_readv : K -> Z -> Z -> Z -> Z + cstr;
  vm_writev : K -> Z -> Z -> cstr -> K * (Z + Z);
  mem_open : K -> cstr -> bool -> option Z;             (* open of /proc/PID/mem: errno if it fails *)
  mem_pread : K -> Z -> Z -> Z -> Z + cstr;             (* at an offset, which may be negative *)
  mem_pwrite : K -> Z -> Z -> cstr -> K * (Z + Z);
  peekdata : K -> Z -> Z -> Z + Z;
  pokedata : K -> Z -> Z -> Z -> K * option Z;
  getregset : K -> Z -> Z -> Z + list Z;
  setregset : K -> Z -> list Z -> K * bool;
  getregs : K -> Z -> option (list Z);
  setregs : K -> Z -> list Z -> K * bool;
  (* getenv("EMUROOT_GUEST_MEM"), ("EMUROOT_REGS"), and is EMUROOT_NO_PROCESS_VM set *)
  env_guest_mem : K -> option cstr;
  env_regs : K -> option cstr;
  env_no_process_vm : K -> bool
}.

(** The kernel with the library's statics: [method] (-1 is [None]) of guest.c,
    [mode] of regs.c, and [errno]. *)
Record tracer K := Tracer { kernel : K; method_now : option method; regs_mode_now : regs_mode; errno : Z }.
Arguments Tracer {K}.
Arguments regs_mode_now {K}.
Arguments kernel {K}.
Arguments method_now {K}.
Arguments errno {K}.

(** Errors that mean "not this way", as opposed to "no such memory". *)
Definition denied (err : Z) : bool :=
  negb (err =? EFAULT) && negb (err =? ESRCH) && negb (err =? EIO) && negb (err =? EINVAL).

Section transfer.
Context `{RawMem K}.
(** The architecture, and whether the headers know process_vm_readv/writev. *)
Variable ar : arch.
Variable has_process_vm : bool.

Definition env_is (k : K) (v : cstr) : bool :=
  match env_guest_mem k with Some want => strcmp_eq want v | None => false end.

Definition current (st : tracer K) : method :=
  match method_now st with
  | Some m => m
  | None =>
      let k := kernel st in
      if env_is k (lit "peek") then PEEK_POKE
      else if env_no_process_vm k || env_is k (lit "procmem") then PROC_MEM else PROCESS_VM
  end.

(** ** Word-at-a-time access *)

Definition wsize : Z := word_size ar.
Definition word_at (x : Z) : Z := Z.ldiff x (wsize - 1).

(** Reading stops at the first word that can't be accessed: the bytes read, and
    errno as the loop leaves it. *)
Fixpoint peek_loop (fuel : nat) (k : K) (pid addr len : Z) (acc : cstr) (err : Z) : cstr * Z :=
  let done := strlen acc in
  if done <? len then
    match fuel with
    | O => (acc, err)
    | S f =>
        let x := uword ar (addr + done) in
        let at_ := word_at x in
        let off := x - at_ in
        let chunk := if wsize - off <? len - done then wsize - off else len - done in
        match peekdata k pid at_ with
        | inl e => (acc, e)
        | inr word =>
            peek_loop f k pid addr len (acc ++ ztake chunk (zdrop off (bytes_of ar (Z.to_nat wsize) word))) 0
        end
    end
  else (acc, err).

(** Writing: the number of bytes written. *)
Fixpoint poke_loop (fuel : nat) (k : K) (pid addr : Z) (data : cstr) (done : Z) (err : Z) : K * Z * Z :=
  if done <? strlen data then
    match fuel with
    | O => (k, done, err)
    | S f =>
        let x := uword ar (addr + done) in
        let at_ := word_at x in
        let off := x - at_ in
        let chunk := if wsize - off <? strlen data - done then wsize - off else strlen data - done in
        match peekdata k pid at_ with
        | inl e => (k, done, e)
        | inr word =>
            let cell := bytes_of ar (Z.to_nat wsize) word in
            let cell := ztake off cell ++ ztake chunk (zdrop done data) ++ zdrop (off + chunk) cell in
            match pokedata k pid at_ (value_of ar cell) with
            | (k, Some e) => (k, done, e)
            | (k, None) => poke_loop f k pid addr data (done + chunk) 0
            end
        end
    end
  else (k, done, err).

(** ** One attempt with a method: [None] is -1 with the returned errno *)

(** [(off_t)addr]: as wide as a long, in glibc and bionic without
    [_FILE_OFFSET_BITS=64] (on 32-bit targets musl's is wider). *)
Definition off_t (x : Z) : Z := slong ar x.

Definition proc_mem_path (pid : Z) : cstr := lit "/proc/" ++ print_d pid ++ lit "/mem".

Definition read_once (m : method) (k : K) (pid addr len err : Z) : K * Z * option cstr :=
  match m with
  | PROCESS_VM =>
      if has_process_vm then
        match vm_readv k pid addr len with inl e => (k, e, None) | inr bs => (k, err, Some bs) end
      else (k, ENOSYS, None)
  | PROC_MEM =>
      match mem_open k (proc_mem_path pid) false with
      | Some e => (k, e, None)
      | None => match mem_pread k pid (off_t addr) len with inl e => (k, e, None) | inr bs => (k, err, Some bs) end
      end
  | PEEK_POKE =>
      let '(bs, e) := peek_loop (Z.to_nat len) k pid addr len [] err in
      (k, e, if bool_decide (bs = []) && (0 <? len) then None else Some bs)
  end.

Definition write_once (m : method) (k : K) (pid addr : Z) (data : cstr) (err : Z) : K * Z * option Z :=
  match m with
  | PROCESS_VM =>
      if has_process_vm then
        match vm_writev k pid addr data with (k, inl e) => (k, e, None) | (k, inr n) => (k, err, Some n) end
      else (k, ENOSYS, None)
  | PROC_MEM =>
      match mem_open k (proc_mem_path pid) true with
      | Some e => (k, e, None)
      | None => match mem_pwrite k pid (off_t addr) data with (k, inl e) => (k, e, None) | (k, inr n) => (k, err, Some n) end
      end
  | PEEK_POKE =>
      let '(k, n, e) := poke_loop (length data) k pid addr data 0 err in
      (k, e, if (n =? 0) && (0 <? strlen data) then None else Some n)
  end.

(** The loop of [transfer]: a method that is not permitted gives way to the
    next one, for good. *)
Fixpoint transfer {R} (fuel : nat) (once : method -> K -> Z -> K * Z * option R) (st : tracer K)
    : tracer K * option R :=
  let m := current st in
  let '(k, e, r) := once m (kernel st) (errno st) in
  let st' := Tracer k (Some m) (regs_mode_now st) e in
  match r with
  | Some _ => (st', r)
  | None =>
      if negb (denied e) || bool_decide (m = PEEK_POKE) then (st', None)
      else match fuel with
           | O => (st', None)
           | S f => transfer f once (Tracer k (Some (next_method m)) (regs_mode_now st) e)
           end
  end.

(** Three methods: two changes are enough. *)
Definition TRANSFER_FUEL : nat := 2.

Definition tracer_read (st : tracer K) (pid addr len : Z) : tracer K * option cstr :=
  transfer TRANSFER_FUEL (fun m k e => read_once m k pid addr len e) st.

Definition tracer_write (st : tracer K) (pid addr : Z) (data : cstr) : tracer K * bool :=
  let '(st, r) := transfer TRANSFER_FUEL (fun m k e => write_once m k pid addr data e) st in
  (st, bool_decide (r = Some (strlen data))).

#[export] Instance tracer_guest : GuestMem (tracer K) := {|
  guest_read := tracer_read;
  guest_write := tracer_write;
  guest_errno := errno;
  regs_fetch st pid :=
    let '(m, r) := regs_get getregset getregs (env_regs (kernel st)) ar (regs_mode_now st) (kernel st) pid in
    (Tracer (kernel st) (method_now st) m (errno st), r);
  regs_store st pid r :=
    let '(m, k, ok) := regs_set setregset getregs setregs (env_regs (kernel st)) (regs_mode_now st) (kernel st) pid r in
    (Tracer k (method_now st) m (errno st), ok)
|}.

#[export] Instance tracer_host `{HostFS K} : HostFS (tracer K) := {|
  fs_readlink st := fs_readlink (kernel st);
  fs_stat st := fs_stat (kernel st);
  fs_lstat st := fs_lstat (kernel st);
  fs_realpath st := fs_realpath (kernel st);
  fs_chmod st p m := Tracer (fs_chmod (kernel st) p m) (method_now st) (regs_mode_now st) (errno st);
  fs_open st := fs_open (kernel st);
  fs_pread st := fs_pread (kernel st);
  strdup st := strdup (kernel st);
  host_euid st := host_euid (kernel st);
  host_egid st := host_egid (kernel st)
|}.
End transfer.

(** ** What the kernel's calls do to memory *)

(** Bytes [bs] stand at address [a]. *)
Definition at_addr (view : Z -> option ascii) (a : Z) (bs : cstr) : Prop :=
  forall i c, bs !! i = Some c -> view (a + Z.of_nat i) = Some c.

(** Two views agree outside [a, a + n). *)
Definition agree_outside (v v' : Z -> option ascii) (a n : Z) : Prop :=
  forall x, ~ (a <= x < a + n) -> v' x = v x.

Class RawLaws (ar : arch) (K : Type) `{HostFS K, RawMem K} := {
  raw_mem : K -> Z -> Z -> option ascii;
  raw_regs : K -> Z -> option (list Z);
  modern : bool;
  (** No process has memory at the very top of the address space. *)
  raw_top : forall k pid x c, raw_mem k pid x = Some c -> 0 <= x < 2 ^ word_bits ar - word_size ar;
  vm_readv_ok : forall k pid a n bs, vm_readv k pid a n = inr bs -> 0 <= n ->
    strlen bs <= n /\ at_addr (raw_mem k pid) a bs;
  mem_pread_ok : forall k pid a n bs, mem_pread k pid a n = inr bs -> 0 <= a -> 0 <= n ->
    strlen bs <= n /\ at_addr (raw_mem k pid) a bs;
  mem_pread_neg : forall k pid a n, a < 0 -> mem_pread k pid a n = inl EINVAL;
  vm_writev_ok : forall k pid a bs, let '(k', r) := vm_writev k pid a bs in
    same_host k k' /\ raw_regs k' = raw_regs k /\ agree_outside (raw_mem k pid) (raw_mem k' pid) a (strlen bs) /\
    (r = inr (strlen bs) -> at_addr (raw_mem k' pid) a bs);
  mem_pwrite_neg : forall k pid a bs, a < 0 -> mem_pwrite k pid a bs = (k, inl EINVAL);
  mem_pwrite_ok : forall k pid a bs, 0 <= a -> let '(k', r) := mem_pwrite k pid a bs in
    same_host k k' /\ raw_regs k' = raw_regs k /\ agree_outside (raw_mem k pid) (raw_mem k' pid) a (strlen bs) /\
    (r = inr (strlen bs) -> at_addr (raw_mem k' pid) a bs);
  peek_ok : forall k pid a word, peekdata k pid a = inr word ->
    at_addr (raw_mem k pid) a (bytes_of ar (Z.to_nat (word_size ar)) word);
  poke_ok : forall k pid a word, let '(k', r) := pokedata k pid a word in
    same_host k k' /\ raw_regs k' = raw_regs k /\ agree_outside (raw_mem k pid) (raw_mem k' pid) a (word_size ar) /\
    (r = None -> at_addr (raw_mem k' pid) a (bytes_of ar (Z.to_nat (word_size ar)) word)) /\
    (r <> None -> raw_mem k' pid = raw_mem k pid);
  regs_ok : ptrace_regs raw_regs modern getregset setregset getregs setregs;
  setregset_same : forall k pid r, let k' := (setregset k pid r).1 in same_host k k' /\ raw_mem k' = raw_mem k;
  setregs_same : forall k pid r, let k' := (setregs k pid r).1 in same_host k k' /\ raw_mem k' = raw_mem k;
  chmod_raw : forall k p m, raw_mem (fs_chmod k p m) = raw_mem k /\ raw_regs (fs_chmod k p m) = raw_regs k
}.

(** ** Lemmas *)

Lemma same_host_refl `{HostFS W} (w : W) : same_host w w.
Proof. by unfold same_host. Qed.

Lemma same_host_trans `{HostFS W} (w1 w2 w3 : W) : same_host w1 w2 -> same_host w2 w3 -> same_host w1 w3.
Proof. unfold same_host; intros (?&?&?&?&?&?&?&?) (?&?&?&?&?&?&?&?); split_and?; congruence. Qed.

Section at_addr.
Implicit Types (v : Z -> option ascii) (bs : cstr).

Lemma at_addr_nil v a : at_addr v a [].
Proof. intros i c Hi; by rewrite lookup_nil in Hi. Qed.

Lemma at_addr_app v a bs bs' :
  at_addr v a (bs ++ bs') <-> at_addr v a bs /\ at_addr v (a + strlen bs) bs'.
Proof.
  unfold at_addr, strlen; split.
  - intros H; split; intros i c Hi.
    + apply H; by apply lookup_app_l_Some.
    + replace (a + Z.of_nat (length bs) + Z.of_nat i) with (a + Z.of_nat (length bs + i)) by lia.
      apply H; rewrite lookup_app_r by lia; by replace (length bs + i - length bs)%nat with i by lia.
  - intros [H1 H2] i c [Hi|[Hle Hi]]%lookup_app_Some; [by apply H1|].
    replace (a + Z.of_nat i) with (a + Z.of_nat (length bs) + Z.of_nat (i - length bs)) by lia; by apply H2.
Qed.

Lemma at_addr_ztake v a n bs : at_addr v a bs -> at_addr v a (ztake n bs).
Proof. intros H i c Hi; apply H; unfold ztake in Hi; apply lookup_take_Some in Hi as [? _]; done. Qed.

Lemma at_addr_zdrop v a n bs : 0 <= n -> at_addr v a bs -> at_addr v (a + n) (zdrop n bs).
Proof.
  intros Hn H i c Hi; unfold zdrop in Hi; rewrite lookup_drop in Hi.
  replace (a + n + Z.of_nat i) with (a + Z.of_nat (Z.to_nat n + i)) by lia; by apply H.
Qed.

Lemma at_addr_mapped v a bs x : at_addr v a bs -> a <= x < a + strlen bs -> exists c, v x = Some c.
Proof.
  intros H Hx; unfold strlen in Hx; destruct (lookup_lt_is_Some_2 bs (Z.to_nat (x - a))) as [c Hc]; [lia|].
  exists c; apply H in Hc; by replace (a + Z.of_nat (Z.to_nat (x - a))) with x in Hc by lia.
Qed.

Lemma at_addr_outside v v' a n a' bs :
  agree_outside v v' a n -> a' + strlen bs <= a \/ a + n <= a' -> at_addr v a' bs -> at_addr v' a' bs.
Proof.
  intros Hv Hd H i c Hi; rewrite Hv; [by apply H|].
  apply lookup_lt_Some in Hi; unfold strlen in Hd; lia.
Qed.

Lemma agree_outside_le v v' a n a' n' :
  agree_outside v v' a n -> a' <= a -> a + n <= a' + n' -> agree_outside v v' a' n'.
Proof. intros H ? ? x Hx; apply H; lia. Qed.

Lemma agree_outside_trans v v' v'' a n :
  agree_outside v v' a n -> agree_outside v' v'' a n -> agree_outside v v'' a n.
Proof. intros H1 H2 x Hx; by rewrite H2, H1. Qed.
End at_addr.

Lemma strlen_zdrop_gen {A} n (s : list A) : 0 <= n -> strlen (zdrop n s) = Z.max 0 (strlen s - n).
Proof. intros; unfold strlen, zdrop; rewrite length_drop; lia. Qed.

Section words.
Variable ar : arch.

Lemma wsize_pow : exists n, 0 < n /\ wsize ar = 2 ^ n /\ wsize ar - 1 = Z.ones n /\ n < word_bits ar.
Proof. unfold wsize, word_size; destruct ar; [exists 3|exists 2|exists 3|exists 2|exists 3|exists 3|exists 3|exists 3]; vm_compute; auto. Qed.

Lemma wsize_pos : 4 <= wsize ar.
Proof. unfold wsize, word_size; destruct ar; vm_compute; discriminate. Qed.

Lemma word_at_spec x : word_at ar x <= x < word_at ar x + wsize ar.
Proof.
  destruct wsize_pow as (n & Hn & Hw & Ho & _); unfold word_at; rewrite Ho, Hw, Z.ldiff_ones_r by lia.
  rewrite Z.shiftl_mul_pow2, Z.shiftr_div_pow2 by lia.
  pose proof (Z.div_mod x (2 ^ n) ltac:(lia)); pose proof (Z.mod_pos_bound x (2 ^ n) ltac:(lia)); lia.
Qed.

Lemma strlen_word w : strlen (bytes_of ar (Z.to_nat (wsize ar)) w) = wsize ar.
Proof. unfold strlen; rewrite bytes_of_length; pose proof wsize_pos; lia. Qed.
End words.

Lemma ztake_add {A} (s : list A) n m :
  0 <= n -> 0 <= m -> ztake (n + m) s = ztake n s ++ ztake m (zdrop n s).
Proof. intros Hn Hm; unfold ztake, zdrop; rewrite Z2Nat.inj_add by done; by rewrite take_take_drop. Qed.

Section loops.
Context {ar : arch} `{RawLaws ar K}.

(** The part of a word cell that a step of either loop covers. *)
Definition step_range (addr done len : Z) : Prop := is_addr ar addr /\ 0 <= done < len /\ addr + done < 2 ^ word_bits ar.

Definition chunk_of (x len done : Z) : Z :=
  if wsize ar - (x - word_at ar x) <? len - done then wsize ar - (x - word_at ar x) else len - done.

Lemma chunk_of_spec x len done :
  done < len -> 0 < chunk_of x len done /\ done + chunk_of x len done <= len /\ x + chunk_of x len done <= word_at ar x + wsize ar.
Proof. intros Hd; pose proof (word_at_spec ar x); unfold chunk_of; case_ifs; lia. Qed.

(** A word that can be read lies well inside the address space. *)
Lemma peek_top k pid a word : peekdata k pid a = inr word -> 0 <= a /\ a + wsize ar < 2 ^ word_bits ar.
Proof.
  intros Hp; apply peek_ok in Hp; change (word_size ar) with (wsize ar) in Hp; pose proof (wsize_pos ar).
  destruct (at_addr_mapped _ _ _ a Hp) as [c Hc]; [rewrite strlen_word; lia|].
  destruct (at_addr_mapped _ _ _ (a + wsize ar - 1) Hp) as [c' Hc']; [rewrite strlen_word; lia|].
  apply raw_top in Hc; apply raw_top in Hc'; change (word_size ar) with (wsize ar) in *; lia.
Qed.

Lemma peek_loop_ok fuel : forall k pid addr len acc err,
  is_addr ar addr -> strlen acc <= len -> addr + strlen acc < 2 ^ word_bits ar ->
  at_addr (raw_mem k pid) addr acc ->
  let '(bs, _) := peek_loop ar fuel k pid addr len acc err in
  strlen bs <= len /\ at_addr (raw_mem k pid) addr bs.
Proof.
  induction fuel as [|fuel IH]; intros k pid addr len acc err Ha Hl Ht Hacc; cbn [peek_loop];
    destruct (strlen acc <? len) eqn:Hd; bool_cases; try done.
  pose proof (strlen_nonneg acc); unfold is_addr in Ha; rewrite uword_small by lia; set (x := addr + strlen acc) in *.
  fold (chunk_of x len (strlen acc)).
  destruct (peekdata k pid (word_at ar x)) as [e|word] eqn:Hp; [done|].
  pose proof (word_at_spec ar x); destruct (chunk_of_spec x len (strlen acc) Hd) as (Hc1 & Hc2 & Hc3).
  destruct (peek_top _ _ _ _ Hp) as [Hp1 Hp2].
  set (part := ztake _ _); assert (Hpart : strlen part = chunk_of x len (strlen acc)).
  { unfold part; rewrite strlen_ztake, strlen_zdrop_gen by lia; rewrite strlen_word; lia. }
  apply IH; [done|rewrite strlen_app; lia|rewrite strlen_app; lia|].
  apply at_addr_app; split; [done|]; apply at_addr_ztake.
  replace (addr + strlen acc) with (word_at ar x + (x - word_at ar x)) by lia.
  apply at_addr_zdrop; [lia|by apply peek_ok].
Qed.

(** One POKEDATA of a patched word. *)
Lemma poke_word k pid x word data chunk k' r :
  let off := x - word_at ar x in
  let cell := bytes_of ar (Z.to_nat (wsize ar)) word in
  peekdata k pid (word_at ar x) = inr word -> 0 <= chunk -> strlen data = chunk ->
  x + chunk <= word_at ar x + wsize ar ->
  pokedata k pid (word_at ar x) (value_of ar (ztake off cell ++ data ++ zdrop (off + chunk) cell)) = (k', r) ->
  same_host k k' /\ raw_regs k' = raw_regs k /\ agree_outside (raw_mem k pid) (raw_mem k' pid) x chunk /\ (r = None -> at_addr (raw_mem k' pid) x data).
Proof.
  intros off cell Hp Hc Hl Hx Hpoke; pose proof (word_at_spec ar x) as Hw; pose proof (wsize_pos ar).
  assert (Hcell : strlen cell = wsize ar) by apply strlen_word.
  pose proof (peek_ok _ _ _ _ Hp) as Hold; change (word_size ar) with (wsize ar) in Hold; fold cell in Hold.
  set (new := ztake off cell ++ data ++ zdrop (off + chunk) cell) in *.
  assert (Hoff : strlen (ztake off cell) = off) by (rewrite strlen_ztake; unfold off; lia).
  assert (Hnew : length new = Z.to_nat (wsize ar)).
  { apply Nat2Z.inj; change (Z.of_nat (length new)) with (strlen new); unfold new.
    rewrite !strlen_app, Hoff, Hl, strlen_zdrop_gen; unfold off; lia. }
  pose proof (poke_ok k pid (word_at ar x) (value_of ar new)) as Hok; rewrite Hpoke in Hok.
  change (word_size ar) with (wsize ar) in Hok; rewrite bytes_of_value in Hok by done.
  destruct Hok as (Hh & Hr & Hout & Hin & Hfail); split_and?; try done.
  - destruct r as [e|]; [rewrite Hfail by done; by intros ??|].
    specialize (Hin eq_refl); unfold new in Hin; rewrite !at_addr_app, Hoff, Hl in Hin.
    destruct Hin as (Hlo & _ & Hhi); intros y Hy.
    destruct (decide (word_at ar x <= y < word_at ar x + wsize ar)) as [Hyw|]; [|by apply Hout].
    destruct (decide (y < x)).
    + rewrite <- (ztake_zdrop off cell), at_addr_app, Hoff in Hold; destruct Hold as [Hold _].
      destruct (lookup_lt_is_Some_2 (ztake off cell) (Z.to_nat (y - word_at ar x))) as [c Hci]; [unfold strlen in Hoff; lia|].
      pose proof (Hold _ _ Hci) as E1; pose proof (Hlo _ _ Hci) as E2.
      replace (word_at ar x + Z.of_nat (Z.to_nat (y - word_at ar x))) with y in * by lia; congruence.
    + assert (Hd : strlen (zdrop (off + chunk) cell) = wsize ar - off - chunk)
        by (rewrite strlen_zdrop_gen; unfold off; lia).
      destruct (lookup_lt_is_Some_2 (zdrop (off + chunk) cell) (Z.to_nat (y - (x + chunk)))) as [c Hci];
        [unfold strlen in Hd; unfold off in *; lia|].
      apply (at_addr_zdrop _ _ (off + chunk)) in Hold; [|unfold off; lia].
      pose proof (Hold _ _ Hci) as E1; pose proof (Hhi _ _ Hci) as E2.
      replace (word_at ar x + (off + chunk) + Z.of_nat (Z.to_nat (y - (x + chunk)))) with y in E1 by (unfold off; lia).
      replace (word_at ar x + off + chunk + Z.of_nat (Z.to_nat (y - (x + chunk)))) with y in E2 by (unfold off; lia).
      congruence.
  - intros ->; specialize (Hin eq_refl); unfold new in Hin; rewrite !at_addr_app, Hoff in Hin.
    destruct Hin as (_ & Hin & _); by replace (word_at ar x + off) with x in Hin by (unfold off; lia).
Qed.

Lemma poke_loop_ok fuel : forall k pid addr data done err,
  is_addr ar addr -> 0 <= done <= strlen data -> addr + done < 2 ^ word_bits ar ->
  at_addr (raw_mem k pid) addr (ztake done data) ->
  let '(k', n, _) := poke_loop ar fuel k pid addr data done err in
  same_host k k' /\ raw_regs k' = raw_regs k /\ agree_outside (raw_mem k pid) (raw_mem k' pid) addr (strlen data) /\
  (n = strlen data -> at_addr (raw_mem k' pid) addr data).
Proof.
  induction fuel as [|fuel IH]; intros k pid addr data done err Ha Hl Ht Hacc; cbn [poke_loop];
    destruct (done <? strlen data) eqn:Hd; bool_cases.
  1,2,4: split_and?; [apply same_host_refl|done|by intros ??|intros ->; rewrite ztake_ge in Hacc by lia; done].
  unfold is_addr in Ha; rewrite uword_small by lia; set (x := addr + done) in *.
  fold (chunk_of x (strlen data) done); destruct (chunk_of_spec x (strlen data) done Hd) as (Hc1 & Hc2 & Hc3).
  set (chunk := chunk_of x (strlen data) done) in *.
  destruct (peekdata k pid (word_at ar x)) as [e|word] eqn:Hp.
  { split_and?; [apply same_host_refl|done|by intros ??|lia]. }
  pose proof (word_at_spec ar x); destruct (peek_top _ _ _ _ Hp) as [Hp1 Hp2].
  assert (Hpart : strlen (ztake chunk (zdrop done data)) = chunk) by (rewrite strlen_ztake, strlen_zdrop; lia).
  destruct (pokedata _ _ _ _) as [k1 r] eqn:Hpoke.
  destruct (poke_word _ _ _ _ _ chunk _ _ Hp ltac:(lia) Hpart Hc3 Hpoke) as (Hh & Hr & Hout & Hin).
  destruct r as [e|].
  { split_and?; [done|done|eapply agree_outside_le; [done|lia|lia]|lia]. }
  specialize (IH k1 pid addr data (done + chunk) 0 Ha ltac:(lia) ltac:(lia)).
  destruct (poke_loop ar fuel k1 pid addr data (done + chunk) 0) as [[k2 n] e].
  destruct IH as (Hh2 & Hr2 & Hout2 & Hin2).
  { rewrite ztake_add, at_addr_app by lia; split.
    - eapply at_addr_outside; [exact Hout| |done]; rewrite strlen_ztake by lia; lia.
    - rewrite strlen_ztake by lia; rewrite Z.min_l by lia; by apply Hin. }
  split_and?; [by eapply same_host_trans|congruence| |done].
  eapply agree_outside_trans; [|done]; eapply agree_outside_le; [done|lia|lia].
Qed.
End loops.

Section transfers.
Context {ar : arch} `{RawLaws ar K}.
Variable has_process_vm : bool.

Lemma transfer_ind {R} (Q : K -> K -> option R -> Prop) once :
  (forall m k e k' e' r, once m k e = (k', e', r) -> Q k k' r) ->
  (forall k k' k'' r, Q k k' None -> Q k' k'' r -> Q k k'' r) ->
  forall fuel st st' r, transfer fuel once st = (st', r) -> Q (kernel st) (kernel st') r.
Proof.
  intros Honce Htrans; induction fuel as [|fuel IH]; intros st st' r Ht; cbn [transfer] in Ht;
    destruct (once (current st) (kernel st) (errno st)) as [[k e] [x|]] eqn:Ho;
    pose proof (Honce _ _ _ _ _ _ Ho) as HQ; try (by injection Ht as <- <-).
  1: destruct (_ || _); by injection Ht as <- <-.
  destruct (_ || _); [by injection Ht as <- <-|].
  eapply Htrans; [exact HQ|]; by apply IH in Ht.
Qed.

Lemma transfer_regs_mode {R} (once : method -> K -> Z -> K * Z * option R) fuel :
  forall st, regs_mode_now (transfer fuel once st).1 = regs_mode_now st.
Proof.
  induction fuel as [|fuel IH]; intros st; cbn [transfer];
    destruct (once _ _ _) as [[k e] [x|]]; try done; destruct (_ || _); try done; by rewrite IH.
Qed.

Lemma off_t_cases a : is_addr ar a -> off_t ar a = a \/ off_t ar a < 0.
Proof.
  intros Ha; unfold off_t, slong; rewrite uword_small by done; unfold is_addr in Ha.
  destruct (Z.ltb_spec a (2 ^ (word_bits ar - 1))); [by constructor 1|constructor 2; lia].
Qed.

Lemma off_t_low a : 0 <= a < 2 ^ (word_bits ar - 1) -> off_t ar a = a.
Proof.
  intros Ha; unfold off_t, slong; rewrite uword_small; [by rewrite (proj2 (Z.ltb_lt _ _)) by lia|].
  split; [lia|]; eapply Z.lt_le_trans; [apply Ha|]; apply Z.pow_le_mono_r; lia.
Qed.

Lemma read_once_ok m k pid a n e k' e' r :
  is_addr ar a -> 0 <= n -> read_once ar has_process_vm m k pid a n e = (k', e', r) ->
  k' = k /\ forall bs, r = Some bs -> strlen bs <= n /\ at_addr (raw_mem k pid) a bs.
Proof.
  intros Ha Hn; destruct m; cbn [read_once].
  - destruct has_process_vm; [|by intros [= <- <- <-]].
    destruct (vm_readv k pid a n) as [|bs] eqn:Hr; intros [= <- <- <-]; (split; [done|]); [done|].
    intros bs' [= <-]; by apply vm_readv_ok.
  - destruct (mem_open _ _ _); [by intros [= <- <- <-]|].
    destruct (off_t_cases a Ha) as [->|Hneg]; [|by rewrite mem_pread_neg by done; intros [= <- <- <-]].
    destruct (mem_pread k pid a n) as [|bs] eqn:Hr; intros [= <- <- <-]; (split; [done|]); [done|].
    intros bs' [= <-]; apply mem_pread_ok; [done|apply Ha|done].
  - pose proof (peek_loop_ok (Z.to_nat n) k pid a n [] e Ha) as Hok.
    destruct (peek_loop ar (Z.to_nat n) k pid a n [] e) as [bs e1]; intros [= <- <- <-]; split; [done|].
    rewrite strlen_nil in Hok; unfold is_addr in Ha.
    intros bs'; case_ifs; [done|intros [= <-]]; apply Hok; [lia|lia|apply at_addr_nil].
Qed.

Definition written (pid a : Z) (data : cstr) (k k' : K) (r : option Z) : Prop :=
  same_host k k' /\ raw_regs k' = raw_regs k /\
  agree_outside (raw_mem k pid) (raw_mem k' pid) a (strlen data) /\
  (r = Some (strlen data) -> at_addr (raw_mem k' pid) a data).

Lemma write_once_ok m k pid a data e k' e' r :
  is_addr ar a -> write_once ar has_process_vm m k pid a data e = (k', e', r) -> written pid a data k k' r.
Proof.
  intros Ha; assert (Hsame : written pid a data k k None) by (unfold written; split_and?; [apply same_host_refl|done|by intros ??|done]).
  destruct m; cbn [write_once].
  - destruct has_process_vm; [|by intros [= <- <- <-]].
    pose proof (vm_writev_ok k pid a data) as Hw; destruct (vm_writev k pid a data) as [k1 [e1|n]];
      destruct Hw as (?&?&?&Hin); intros [= <- <- <-]; unfold written; split_and?; try done; intros [= ->]; by apply Hin.
  - destruct (mem_open _ _ _); [by intros [= <- <- <-]|].
    destruct (off_t_cases a Ha) as [->|Hneg]; [|by rewrite mem_pwrite_neg by done; intros [= <- <- <-]].
    pose proof (mem_pwrite_ok k pid a data (proj1 Ha)) as Hw; destruct (mem_pwrite k pid a data) as [k1 [e1|n]];
      destruct Hw as (?&?&?&Hin); intros [= <- <- <-]; unfold written; split_and?; try done; intros [= ->]; by apply Hin.
  - pose proof (strlen_nonneg data).
    pose proof (poke_loop_ok (length data) k pid a data 0 e Ha) as Hok.
    destruct (poke_loop ar (length data) k pid a data 0 e) as [[k1 n] e1].
    destruct Hok as (?&?&?&Hin); [lia|unfold is_addr in Ha; lia|rewrite ztake_le_0 by lia; apply at_addr_nil|].
    intros [= <- <- <-]; unfold written; split_and?; try done; case_ifs; [done|intros [= ->]; by apply Hin].
Qed.

Lemma tracer_read_ok st pid a n :
  is_addr ar a -> 0 <= n ->
  forall bs, (tracer_read ar has_process_vm st pid a n).2 = Some bs ->
    strlen bs <= n /\ at_addr (raw_mem (kernel st) pid) a bs.
Proof.
  intros Ha Hn; unfold tracer_read; destruct (transfer _ _ st) as [st' r] eqn:Ht.
  enough (kernel st' = kernel st /\ forall bs, r = Some bs -> strlen bs <= n /\ at_addr (raw_mem (kernel st) pid) a bs) as [_ ?]
    by done.
  revert Ht; apply (transfer_ind (fun k k' r =>
    k' = k /\ forall bs, r = Some bs -> strlen bs <= n /\ at_addr (raw_mem k pid) a bs)).
  - intros m k e k' e' r' Ho; by eapply read_once_ok in Ho.
  - intros k k' k'' r' [-> _] H'; done.
Qed.

Lemma tracer_write_ok st pid a data :
  is_addr ar a ->
  let '(st', ok) := tracer_write ar has_process_vm st pid a data in
  written pid a data (kernel st) (kernel st') (if ok then Some (strlen data) else None).
Proof.
  intros Ha; unfold tracer_write; destruct (transfer _ _ st) as [st' r] eqn:Ht.
  assert (Hw : written pid a data (kernel st) (kernel st') r).
  { revert Ht; apply (transfer_ind (written pid a data)).
    - intros m k e k' e' r' Ho; by eapply write_once_ok.
    - intros k k' k'' r' (?&?&?&_) (?&?&?&?); unfold written; split_and?; try done; [by eapply same_host_trans|congruence|].
      by eapply agree_outside_trans. }
  destruct Hw as (?&?&?&Hin); unfold written; split_and?; try done; case_ifs; [|done]; intros _; by apply Hin.
Qed.

(** What [regs_get] and [regs_set] do, in any mode. *)
Lemma regs_get_kernel forced mode k pid r :
  (regs_get getregset getregs forced ar mode k pid).2 = Some r ->
  exists f, raw_regs k pid = Some f /\ r = ztake (nwords ar) f.
Proof.
  pose proof (regs_ok (ar := ar) (K := K)) as Hlaws.
  assert (Hw : get_whole getregs ar k pid = Some r -> exists f, raw_regs k pid = Some f /\ r = ztake (nwords ar) f).
  { unfold get_whole; rewrite (getregs_full _ _ _ _ _ _ Hlaws); intros (f & -> & Hf)%fmap_Some; eauto. }
  unfold regs_get; destruct (mode_now forced mode); [exact Hw| |exact Hw].
  destruct (getregset k pid (nwords ar)) as [e|regs] eqn:Hg; [case_ifs; [done|exact Hw]|].
  intros [= ->]; destruct (modern (ar := ar) (K := K)).
  - destruct (raw_regs k pid) as [f|] eqn:Hf.
    + rewrite (getregset_full _ _ _ _ _ _ Hlaws _ _ _ _ eq_refl Hf) in Hg; injection Hg as <-; eauto.
    + rewrite (getregset_gone _ _ _ _ _ _ Hlaws) in Hg by done; done.
  - rewrite (getregset_old _ _ _ _ _ _ Hlaws) in Hg by done; done.
Qed.

Lemma regs_set_kernel forced mode k pid r m' k' ok :
  regs_set setregset getregs setregs forced mode k pid r = (m', k', ok) ->
  same_host k k' /\ raw_mem k' = raw_mem k /\
  (ok = true -> exists f, raw_regs k' pid = Some (r ++ f)).
Proof.
  pose proof (regs_ok (ar := ar) (K := K)) as Hlaws.
  unfold regs_set; destruct (mode_now forced mode).
  2:{ pose proof (setregset_same k pid r) as Hs; destruct (setregset k pid r) as [k1 ok1] eqn:E.
      intros [= <- <- <-]; destruct Hs; split_and?; try done; intros ->.
      apply (setregset_ok _ _ _ _ _ _ Hlaws) in E as (f & _ & ->); eauto. }
  all: destruct (getregs k pid) as [full|]; [|intros [= <- <- <-]; split_and?; [apply same_host_refl|done|done]].
  all: pose proof (setregs_same k pid (r ++ zdrop (strlen r) full)) as Hs;
       destruct (setregs k pid _) as [k1 ok1] eqn:E; intros [= <- <- <-]; destruct Hs; split_and?; try done; intros ->;
       apply (setregs_ok _ _ _ _ _ _ Hlaws) in E; rewrite E; eauto.
Qed.
End transfers.

(** ** The implementation keeps the promises of [GuestLaws] *)

Lemma tracer_read_kernel {ar} `{RawLaws ar K} has_process_vm st pid a n :
  kernel (tracer_read ar has_process_vm st pid a n).1 = kernel st.
Proof.
  unfold tracer_read; destruct (transfer _ _ st) as [st' r] eqn:Ht.
  pattern (kernel st), (kernel st'), r; revert Ht; apply (transfer_ind (fun k k' _ => k' = k)); [|congruence].
  intros m k e k' e' r' Ho; destruct m; cbn [read_once] in Ho.
  - destruct has_process_vm; [destruct (vm_readv _ _ _ _)|]; by injection Ho as <- <- <-.
  - destruct (mem_open _ _ _); [|destruct (mem_pread _ _ _ _)]; by injection Ho as <- <- <-.
  - destruct (peek_loop _ _ _ _ _ _ _ _); by injection Ho as <- <- <-.
Qed.

Lemma same_host_tracer `{HostFS K} (st st' : tracer K) : same_host (kernel st) (kernel st') -> same_host st st'.
Proof. done. Qed.

#[export] Instance guest_laws {ar} `{RawLaws ar K} (has_process_vm : bool) :
  GuestLaws ar (tracer K) (H0 := tracer_guest ar has_process_vm).
Proof.
  refine {| mem st := raw_mem (kernel st); kernel_regs st pid := ztake (nwords ar) <$> raw_regs (kernel st) pid |}.
  all: cbn [guest_read guest_write regs_fetch regs_store tracer_guest].
  - intros w pid; apply raw_top.
  - intros w pid a n; pose proof (tracer_read_kernel has_process_vm w pid a n) as Hk; cbv zeta.
    split_and?; [apply same_host_tracer; rewrite Hk; apply same_host_refl| |]; by rewrite Hk.
  - intros w pid a n bs Ha Hn Hr; by apply (tracer_read_ok has_process_vm w pid a n).
  - intros w pid a bs Ha; pose proof (tracer_write_ok has_process_vm w pid a bs Ha) as Hw.
    destruct (tracer_write _ _ w pid a bs) as [st' ok]; destruct Hw as (Hh & Hr & Hout & _); cbv zeta; cbn [fst].
    split_and?; [by apply same_host_tracer|by rewrite Hr|exact Hout].
  - intros w pid a bs Ha Hok; pose proof (tracer_write_ok has_process_vm w pid a bs Ha) as Hw.
    destruct (tracer_write _ _ w pid a bs) as [st' ok]; simpl in Hok; subst ok; by apply Hw.
  - intros w pid r; cbv zeta; destruct (regs_set _ _ _ _ _ _ _ _) as [[m k'] ok] eqn:E; cbn [fst kernel].
    apply regs_set_kernel in E as (Hh & -> & _); split; [by apply same_host_tracer|done].
  - intros w pid r Hl; destruct (regs_set _ _ _ _ _ _ _ _) as [[m k'] ok] eqn:E; cbn [fst snd kernel]; intros ->.
    apply regs_set_kernel in E as (_ & _ & Hr); destruct (Hr eq_refl) as (f & ->); simpl.
    assert (nwords ar = strlen r) as -> by (unfold nwords, strlen; by rewrite Hl).
    by rewrite ztake_app_strlen.
  - intros w pid; cbv zeta; destruct (regs_get _ _ _ _ _ _ _); cbn [fst kernel]; split_and?; done.
  - intros w pid r; pose proof (regs_get_kernel (env_regs (kernel w)) (regs_mode_now w) (kernel w) pid) as Hg.
    destruct (regs_get _ _ _ _ _ _ _) as [m o]; cbn [snd] in *; intros Hr.
    destruct (Hg r Hr) as (f & -> & ->); done.
  - intros w p m; destruct (chmod_raw (kernel w) p m) as [Hm Hr]; split; [exact Hm|].
    cbn [fs_chmod tracer_host kernel]; by rewrite Hr.
Defined.
