(* ===== verification/ToyKernel.v ===== *)
(** A small concrete kernel: one process with a flat memory and a register set,
    a few files and symlinks.  It satisfies [RawLaws], so the hypotheses of the
    engine's theorems can be met; the witnesses run on it. *)

From Stdlib Require Import ZArith Lia Ascii String.
From stdpp Require Import base list numbers.
From S2P Require Import Prelude Arch World Guest.
Local Open Scope Z_scope.

Record toy := Toy {
  toy_mem : Z -> ascii;                   (* contents *)
  toy_pages : Z -> bool;                  (* which pages are mapped *)
  toy_regs : list Z;                      (* the registers: see [words] *)
  toy_vm_denied : bool;                   (* process_vm_readv/writev refused by a sandbox *)
  toy_links : list (cstr * cstr);
  toy_files : list (cstr * file_stat);
  toy_data : list (cstr * cstr);          (* of files *)
  toy_euid : Z
}.

Definition find_path {A} (l : list (cstr * A)) (p : cstr) : option A :=
  snd <$> List.find (fun e => bool_decide (e.1 = p)) l.

Definition toy_chmod (k : toy) (p : cstr) (m : Z) : toy :=
  Toy (toy_mem k) (toy_pages k) (toy_regs k) (toy_vm_denied k) (toy_links k)
      (map (fun e => if bool_decide (e.1 = p)
                     then (e.1, FileStat (st_dev e.2) (st_ino e.2) (st_uid e.2) (st_gid e.2) m) else e) (toy_files k))
      (toy_data k) (toy_euid k).

#[export] Instance toy_host : HostFS toy := {|
  fs_readlink k p := match find_path (toy_links k) p with Some [] => None | r => r end;
  fs_stat k := find_path (toy_files k);
  fs_lstat k := find_path (toy_files k);
  fs_realpath k p := if bool_decide (is_Some (find_path (toy_files k) p)) then Some p else None;
  fs_chmod := toy_chmod;
  fs_open k p := bool_decide (is_Some (find_path (toy_data k) p));
  fs_pread k p off n := (fun s => ztake n (zdrop off s)) <$> find_path (toy_data k) p;
  strdup k s := true;
  host_euid := toy_euid;
  host_egid k := 1000
|}.

(** The memory of the mapped pages below the last one. *)
Definition accessible (k : toy) (x : Z) : bool :=
  (0 <=? x) && (x <? 2 ^ 63 - 4096) && toy_pages k (x / 4096).
Definition toy_view (k : toy) (x : Z) : option ascii :=
  if accessible k x then Some (toy_mem k x) else None.

Fixpoint prefix_at (k : toy) (a : Z) (n : nat) : cstr :=
  match n with
  | O => []
  | S n => match toy_view k a with Some c => c :: prefix_at k (a + 1) n | None => [] end
  end.

Definition toy_read (k : toy) (a n : Z) : Z + cstr :=
  let bs := prefix_at k a (Z.to_nat n) in
  if bool_decide (bs = []) && (0 <? n) then inl EFAULT else inr bs.

Definition with_mem (k : toy) (m : Z -> ascii) : toy :=
  Toy m (toy_pages k) (toy_regs k) (toy_vm_denied k) (toy_links k) (toy_files k) (toy_data k) (toy_euid k).
Definition with_regs (k : toy) (r : list Z) : toy :=
  Toy (toy_mem k) (toy_pages k) r (toy_vm_denied k) (toy_links k) (toy_files k) (toy_data k) (toy_euid k).

(** The register struct: 64-bit words, as many as the struct has fields. *)
Definition toy_nregs : nat := length (emuroot_regs_t X86_64).
Definition words (k : toy) : list Z := uword X86_64 <$> take toy_nregs (toy_regs k ++ replicate toy_nregs 0).
Definition words_ok (r : list Z) : bool :=
  (length r =? toy_nregs)%nat && forallb (fun x => (0 <=? x) && (x <? 2 ^ 64)) r.
Definition toy_setregs (k : toy) (r : list Z) : toy * bool :=
  if words_ok r then (with_regs k r, true) else (k, false).

Definition store_at (m : Z -> ascii) (a : Z) (bs : cstr) (x : Z) : ascii :=
  if (a <=? x) && (x <? a + strlen bs) then nth (Z.to_nat (x - a)) bs NUL else m x.

Definition mapped (k : toy) (a n : Z) : bool := strlen (prefix_at k a (Z.to_nat n)) =? n.

Definition toy_write (k : toy) (a : Z) (bs : cstr) : toy * (Z + Z) :=
  if mapped k a (strlen bs) then (with_mem k (store_at (toy_mem k) a bs), inr (strlen bs)) else (k, inl EFAULT).

#[export] Instance toy_raw : RawMem toy := {|
  vm_readv k _ a n := if toy_vm_denied k then inl EPERM else toy_read k a n;
  vm_writev k _ a bs := if toy_vm_denied k then (k, inl EPERM) else toy_write k a bs;
  mem_open _ _ _ := None;
  mem_pread k _ a n := if a <? 0 then inl EINVAL else toy_read k a n;
  mem_pwrite k _ a bs := if a <? 0 then (k, inl EINVAL) else toy_write k a bs;
  peekdata k _ a := if mapped k a 8 then inr (value_of X86_64 (prefix_at k a 8)) else inl EIO;
  pokedata k _ a v := if mapped k a 8 then (with_mem k (store_at (toy_mem k) a (bytes_of X86_64 8 v)), None) else (k, Some EIO);
  getregset k _ n := inr (ztake n (words k));
  setregset k _ r := toy_setregs k (r ++ zdrop (strlen r) (words k));
  getregs k _ := Some (words k);
  setregs k _ r := toy_setregs k r;
  env_guest_mem _ := None;
  env_regs _ := None;
  env_no_process_vm _ := false
|}.

(** ** It satisfies the laws *)

Lemma toy_links_nonempty (k : tracer toy) p :
  match find_path (toy_links (kernel k)) p with Some [] => None | r => r end <> Some [].
Proof. by destruct (find_path _ p) as [[|c s]|]. Qed.

Lemma prefix_at_ok k n : forall a, (length (prefix_at k a n) <= n)%nat /\ at_addr (toy_view k) a (prefix_at k a n).
Proof.
  induction n as [|n IH]; intros a; cbn [prefix_at]; [split; [simpl; lia|apply at_addr_nil]|].
  destruct (toy_view k a) as [c|] eqn:Hc; [|split; [simpl; lia|apply at_addr_nil]].
  destruct (IH (a + 1)) as [Hl Ha]; split; [simpl; lia|].
  intros [|i] d; cbn [lookup list_lookup]; [intros [= <-]; by rewrite Z.add_0_r|].
  intros Hi; apply Ha in Hi; by replace (a + Z.of_nat (S i)) with (a + 1 + Z.of_nat i) by lia.
Qed.

Lemma toy_read_ok k a n bs : toy_read k a n = inr bs -> 0 <= n -> strlen bs <= n /\ at_addr (toy_view k) a bs.
Proof.
  unfold toy_read; case_ifs; [done|]; intros [= <-] Hn;
    destruct (prefix_at_ok k (Z.to_nat n) a); unfold strlen; split; try done; lia.
Qed.

Lemma mapped_accessible k a n x : mapped k a n = true -> 0 <= n -> a <= x < a + n -> accessible k x = true.
Proof.
  unfold mapped; intros Hm Hn Hx; apply Z.eqb_eq in Hm; destruct (prefix_at_ok k (Z.to_nat n) a) as [_ Ha].
  destruct (at_addr_mapped _ _ _ x Ha) as [c Hc]; [lia|]; revert Hc; unfold toy_view; case_ifs; done.
Qed.

Lemma store_view k a bs :
  mapped k a (strlen bs) = true ->
  agree_outside (toy_view k) (toy_view (with_mem k (store_at (toy_mem k) a bs))) a (strlen bs) /\
  at_addr (toy_view (with_mem k (store_at (toy_mem k) a bs))) a bs.
Proof.
  intros Hm; split.
  - intros x Hx; unfold toy_view, store_at; change (accessible (with_mem k _) x) with (accessible k x); simpl.
    destruct (a <=? x) eqn:?, (x <? a + strlen bs) eqn:?; bool_cases; simpl; try done; lia.
  - intros i c Hi; pose proof (lookup_lt_Some _ _ _ Hi); pose proof (strlen_nonneg bs).
    unfold toy_view, store_at; change (accessible (with_mem k _) ?x) with (accessible k x).
    rewrite (mapped_accessible _ _ _ _ Hm) by (unfold strlen; lia); simpl.
    replace (a <=? a + Z.of_nat i) with true by (symmetry; apply Z.leb_le; lia).
    replace (a + Z.of_nat i <? a + strlen bs) with true by (symmetry; apply Z.ltb_lt; unfold strlen; lia).
    simpl; replace (Z.to_nat (a + Z.of_nat i - a)) with i by lia; f_equal; by apply nth_lookup_Some.
Qed.

Lemma words_ok_spec r : words_ok r = true <-> regs_wf X86_64 r.
Proof.
  unfold words_ok, regs_wf; fold toy_nregs; rewrite andb_true_iff, Nat.eqb_eq, List.forallb_forall, List.Forall_forall.
  change (word_bits X86_64) with 64; split; intros [Hl Hf]; (split; [done|]); intros x Hx; specialize (Hf x Hx).
  - by apply andb_prop in Hf as [?%Z.leb_le ?%Z.ltb_lt].
  - apply andb_true_iff; by rewrite Z.leb_le, Z.ltb_lt.
Qed.

Lemma words_wf k : regs_wf X86_64 (words k).
Proof.
  split; [unfold words; rewrite length_fmap, length_take, length_app, length_replicate; fold toy_nregs; lia|].
  apply Forall_fmap, Forall_true; intros x; apply uword_range.
Qed.

Lemma words_set k r : regs_wf X86_64 r -> words (with_regs k r) = r.
Proof.
  intros [Hl Hf]; unfold words, with_regs; cbn [toy_regs]; fold toy_nregs in Hl.
  rewrite take_app_length' by done; rewrite (Forall_fmap_ext_1 _ id); [apply list_fmap_id|].
  eapply list.Forall_impl; [exact Hf|]; intros x Hx; by apply uword_small.
Qed.

Lemma toy_setregs_ok k r k' : toy_setregs k r = (k', true) -> words k' = r.
Proof. unfold toy_setregs; destruct (words_ok r) eqn:E; [|done]; intros [= <-]; by apply words_set, words_ok_spec. Qed.

Lemma toy_setregs_same k r : same_host k (toy_setregs k r).1 /\ toy_view (toy_setregs k r).1 = toy_view k.
Proof. unfold toy_setregs; by destruct (words_ok r). Qed.

#[export] Instance toy_laws : RawLaws X86_64 toy.
Proof.
  refine {| raw_mem k _ := toy_view k; raw_regs k _ := Some (words k); modern := true |}.
  - intros k _ x c; unfold toy_view, accessible; change (word_bits X86_64) with 64; change (word_size X86_64) with 8.
    case_ifs; bool_cases; [lia|done].
  - intros k pid a n bs; simpl; destruct (toy_vm_denied k); [done|apply toy_read_ok].
  - intros k pid a n bs Hr Ha; revert Hr; cbn [mem_pread toy_raw]; rewrite (proj2 (Z.ltb_ge _ _)) by done; apply toy_read_ok.
  - intros k pid a n Ha; cbn [mem_pread toy_raw]; by rewrite (proj2 (Z.ltb_lt _ _)).
  - intros k pid a bs; simpl; unfold toy_write; case_ifs;
      (split_and?; [done|done| |]); try (by intros ??); [by apply store_view|intros _; by apply store_view].
  - intros k pid a bs Ha; cbn [mem_pwrite toy_raw]; by rewrite (proj2 (Z.ltb_lt _ _)).
  - intros k pid a bs Ha; cbn [mem_pwrite toy_raw]; rewrite (proj2 (Z.ltb_ge _ _)) by done; unfold toy_write; case_ifs;
      (split_and?; [done|done| |]); try (by intros ??); [by apply store_view|intros _; by apply store_view].
  - intros k pid a v; cbn [peekdata toy_raw]; change (Z.to_nat (word_size X86_64)) with 8%nat.
    unfold mapped; change (Z.to_nat 8) with 8%nat; destruct (prefix_at_ok k 8 a) as [_ Ha]; revert Ha.
    generalize (prefix_at k a 8); intros s Ha; case_ifs; [|done]; intros [= <-].
    rewrite bytes_of_value; [done|unfold strlen in *; lia].
  - intros k pid a v; cbn [pokedata toy_raw]; change (Z.to_nat (word_size X86_64)) with 8%nat.
    destruct (mapped k a 8) eqn:Hm; [|split_and?; try done; by intros ??].
    assert (Hs : strlen (bytes_of X86_64 8 v) = 8) by (unfold strlen; by rewrite bytes_of_length).
    rewrite <- Hs in Hm; destruct (store_view k a _ Hm) as [H1 H2]; rewrite Hs in H1.
    split_and?; try done; intros _; exact H2.
  - split; try done; simpl.
    + intros k pid n f _ [= <-]; done.
    + intros k pid r k' Hk; apply toy_setregs_ok in Hk; exists (words k); by rewrite Hk.
    + intros k pid r k' Hk; by apply toy_setregs_ok in Hk as ->.
  - intros k pid r; cbv zeta; cbn [setregset toy_raw]; destruct (toy_setregs_same k (r ++ zdrop (strlen r) (words k))) as [? E].
    split; [done|by rewrite E].
  - intros k pid r; cbv zeta; cbn [setregs toy_raw]; destruct (toy_setregs_same k r) as [? E]; split; [done|by rewrite E].
  - done.
Defined.

Lemma toy_chmod_stat (k : toy) p m st :
  fs_stat k p = Some st ->
  fs_stat (fs_chmod k p m) p = Some (FileStat (st_dev st) (st_ino st) (st_uid st) (st_gid st) m).
Proof.
  simpl; unfold find_path; induction (toy_files k) as [|[q f] l IH]; [done|]; cbn [map List.find fst snd].
  destruct (bool_decide_reflect (q = p)) as [->|Hne]; cbn [fst snd].
  - rewrite bool_decide_eq_true_2 by done; by intros [= <-].
  - rewrite bool_decide_eq_false_2 by done; exact IH.
Qed.

(** The tracer's view of it. *)
Definition toy_tracer (k : toy) : tracer toy := Tracer k None UNDECIDED 0.

#[export] Instance toy_guest : GuestMem (tracer toy) := tracer_guest X86_64 true.
#[export] Instance toy_guest_laws : GuestLaws X86_64 (tracer toy) (H0 := toy_guest) := guest_laws true.
