(* ===== verification/GuestFacts.v ===== *)
(** What the access to the traced process's memory guarantees: writes are exact
    whichever method is used, the methods are tried in order and only given up
    for a refusal, and [guest_read_str] reads the text at an address up to its
    NUL or to where it is cut. *)

From Stdlib Require Import ZArith Lia Ascii String.
From stdpp Require Import base list numbers.
From S2P Require Import Prelude Arch World Guest ToyKernel.
Local Open Scope Z_scope.

(** ** Lemmas *)

Lemma until_nul_Some s t :
  until_nul s = Some t -> NUL ∉ t /\ exists rest, s = t ++ NUL :: rest.
Proof.
  revert t; induction s as [|c s IH]; intros t; cbn [until_nul]; [done|].
  case_ifs; [intros [= <-]; subst; split; [apply not_elem_of_nil|by exists s]|].
  intros (t' & Ht & ->)%fmap_Some; destruct (IH _ Ht) as (Hn & rest & ->).
  split; [rewrite not_elem_of_cons; split; [congruence|done]|by exists rest].
Qed.

Lemma until_nul_None s : until_nul s = None -> NUL ∉ s.
Proof.
  induction s as [|c s IH]; cbn [until_nul]; [intros _; apply not_elem_of_nil|].
  case_ifs; [done|]; intros Hs%fmap_None; rewrite not_elem_of_cons; split; [congruence|auto].
Qed.

Lemma until_nul_app s rest : NUL ∉ s -> until_nul (s ++ NUL :: rest) = Some s.
Proof.
  induction s as [|c s IH]; cbn [until_nul app]; intros Hs; [done|].
  rewrite not_elem_of_cons in Hs; destruct Hs as [Hc Hs]; rewrite bool_decide_eq_false_2 by congruence.
  by rewrite IH.
Qed.

Lemma until_nul_clean s : NUL ∉ s -> until_nul s = None.
Proof.
  intros Hs; destruct (until_nul s) as [t|] eqn:E; [|done].
  apply until_nul_Some in E as (_ & rest & ->); exfalso; apply Hs, elem_of_app; right; apply elem_of_cons; by left.
Qed.

(** Two strings at the same address: the shorter is a prefix of the longer. *)
Lemma at_addr_agree v a bs bs' :
  at_addr v a bs -> at_addr v a bs' -> strlen bs <= strlen bs' -> bs = ztake (strlen bs) bs'.
Proof.
  intros H1 H2 Hl; unfold ztake, strlen in *; rewrite Nat2Z.id; apply list_eq; intros i.
  destruct (decide (i < length bs)%nat) as [Hi|Hi].
  - rewrite lookup_take_lt by done; destruct (lookup_lt_is_Some_2 bs i Hi) as [c Hc].
    destruct (lookup_lt_is_Some_2 bs' i) as [c' Hc']; [lia|].
    pose proof (H1 _ _ Hc) as E1; pose proof (H2 _ _ Hc') as E2; congruence.
  - rewrite !lookup_ge_None_2; [done| |lia]; rewrite length_take; lia.
Qed.

Lemma ztake_app_le {A} n (s t : list A) : n <= strlen s -> ztake n (s ++ t) = ztake n s.
Proof. intros; unfold ztake, strlen in *; apply take_app_le; lia. Qed.

Section read_str.
Context {ar : arch} `{GuestLaws ar W}.

Lemma mem_next w pid a bs :
  bs <> [] -> at_addr (mem w pid) a bs -> a + strlen bs < 2 ^ word_bits ar.
Proof.
  intros Hne Hat; assert (0 < strlen bs) by (destruct bs; [done|rewrite strlen_cons; pose proof (strlen_nonneg bs); lia]).
  destruct (at_addr_mapped _ _ _ (a + strlen bs - 1) Hat) as [c Hc]; [lia|]; apply mem_range in Hc.
  change (word_size ar) with (wsize ar) in Hc; pose proof (wsize_pos ar); lia.
Qed.

Lemma next_addr w pid a bs :
  is_addr ar a -> at_addr (mem w pid) a bs -> uword ar (a + strlen bs) = a + strlen bs /\ is_addr ar (a + strlen bs).
Proof.
  intros Ha Hat; unfold is_addr in *; pose proof (strlen_nonneg bs); destruct (decide (bs = [])) as [->|Hne].
  - rewrite strlen_nil, Z.add_0_r; split; [by apply uword_small|done].
  - pose proof (mem_next _ _ _ _ Hne Hat); split; [apply uword_small; lia|lia].
Qed.

(** The world after any number of reads. *)
Definition only_reads (w w' : W) : Prop := same_host w w' /\ mem w' = mem w /\ kernel_regs w' = kernel_regs w.

Lemma only_reads_refl w : only_reads w w.
Proof. unfold only_reads; split_and?; [apply same_host_refl|done|done]. Qed.

Lemma only_reads_trans w1 w2 w3 : only_reads w1 w2 -> only_reads w2 w3 -> only_reads w1 w3.
Proof. intros (?&?&?) (?&?&?); unfold only_reads; split_and?; [by eapply same_host_trans|congruence|congruence]. Qed.

Lemma read_chunks_ok fuel : forall w pid a size have,
  is_addr ar a -> NUL ∉ have -> strlen have <= Z.max 0 (size - 1) -> at_addr (mem w pid) a have ->
  let '(w', r) := read_chunks ar fuel w pid a size have in
  only_reads w w' /\
  forall s, r = Some s -> NUL ∉ s /\ strlen s < size /\ at_addr (mem w pid) a s.
Proof.
  induction fuel as [|fuel IH]; intros w pid a size have Ha Hn Hl Hat; cbn [read_chunks]; pose proof (strlen_nonneg have).
  all: assert (Hstop : forall s, (if bool_decide (have = []) then None else Some have) = Some s ->
         NUL ∉ s /\ strlen s < size /\ at_addr (mem w pid) a s)
         by (intros s; case_ifs; [done|intros [= <-]]; split_and?; try done;
             destruct have as [|c have]; [done|rewrite strlen_cons in *; pose proof (strlen_nonneg have); lia]).
  { case_ifs; (split; [apply only_reads_refl|done]). }
  destruct (strlen have + 1 <? size) eqn:Hsz; bool_cases; [|split; [apply only_reads_refl|done]].
  destruct (next_addr w pid a have Ha Hat) as [-> Hnext].
  set (want := if size - 1 - strlen have <? CHUNK then size - 1 - strlen have else CHUNK).
  assert (Hwant : 0 < want <= size - 1 - strlen have) by (unfold want, CHUNK; case_ifs; lia).
  pose proof (read_same w pid (a + strlen have) want) as Hs.
  pose proof (read_bytes w pid (a + strlen have) want) as Hb.
  destruct (guest_read w pid (a + strlen have) want) as [w1 r]; cbn [fst snd] in *.
  destruct r as [[|c bs]|].
  1,3: destruct (bool_decide (have = [])); (split; [done|]); [done|exact Hstop].
  destruct (Hb (c :: bs) Hnext ltac:(lia) eq_refl) as [Hbl Hbat].
  destruct (until_nul (c :: bs)) as [s|] eqn:Hu.
  - apply until_nul_Some in Hu as (Hsn & rest & Heq); split; [done|]; intros ? [= <-].
    rewrite Heq in Hbl, Hbat; rewrite strlen_app, strlen_cons in Hbl; pose proof (strlen_nonneg rest).
    rewrite strlen_app; split_and?; [rewrite not_elem_of_app; done|lia|].
    apply at_addr_app; split; [done|]; apply at_addr_app in Hbat as [Hbat _]; done.
  - apply until_nul_None in Hu.
    assert (Hat' : at_addr (mem w pid) a (have ++ c :: bs)) by (apply at_addr_app; done).
    assert (Hn' : NUL ∉ have ++ c :: bs) by (rewrite not_elem_of_app; done).
    destruct (strlen (c :: bs) <? want).
    + rewrite bool_decide_eq_false_2 by (by destruct have).
      split; [done|]; intros ? [= <-]; split_and?; try done; rewrite strlen_app; lia.
    + destruct Hs as (Hh & Hm & Hr); specialize (IH w1 pid a size (have ++ c :: bs) Ha Hn').
      destruct (read_chunks ar fuel w1 pid a size (have ++ c :: bs)) as [w2 r].
      rewrite strlen_app, Hm in IH; destruct IH as [IH1 IH2]; [lia|done|].
      split; [eapply only_reads_trans; [|exact IH1]; done|done].
Qed.

(** Why the text ends where it does: at its NUL, at the end of the buffer, or
    before memory that a read did not return. *)
Definition text_ends (w : W) (pid a size : Z) (s : cstr) : Prop :=
  mem w pid (a + strlen s) = Some NUL \/ strlen s = size - 1 \/
  exists w1 x n, only_reads w w1 /\ a <= x <= a + strlen s /\ a + strlen s < x + n /\
    match (guest_read w1 pid x n).2 with Some bs => strlen bs < n | None => True end.

Lemma read_chunks_ends fuel : forall w0 w pid a size have s,
  is_addr ar a -> only_reads w0 w -> strlen have <= Z.max 0 (size - 1) -> size - strlen have <= Z.of_nat fuel ->
  at_addr (mem w pid) a have -> (read_chunks ar fuel w pid a size have).2 = Some s -> text_ends w0 pid a size s.
Proof.
  induction fuel as [|fuel IH]; intros w0 w pid a size have s Ha Hw0 Hl Hf Hat; cbn [read_chunks]; pose proof (strlen_nonneg have).
  all: destruct (strlen have + 1 <? size) eqn:Hsz; bool_cases; [lia || idtac|].
  1,3: cbn [snd]; case_ifs; [done|]; intros [= <-]; constructor 2; constructor 1.
  1,2: destruct have as [|c have]; [done|rewrite strlen_cons in *; pose proof (strlen_nonneg have); lia].
  destruct (next_addr w pid a have Ha Hat) as [-> Hnext].
  set (want := if size - 1 - strlen have <? CHUNK then size - 1 - strlen have else CHUNK).
  assert (Hwant : 0 < want <= size - 1 - strlen have) by (unfold want, CHUNK; case_ifs; lia).
  pose proof (read_same w pid (a + strlen have) want) as Hs.
  pose proof (read_bytes w pid (a + strlen have) want) as Hb.
  assert (Hcut : forall t, strlen have <= strlen t < strlen have + want ->
    match (guest_read w pid (a + strlen have) want).2 with Some bs => strlen bs < want | None => True end ->
    text_ends w0 pid a size t).
  { intros t Ht Hr; constructor 2; constructor 2; exists w, (a + strlen have), want; split_and?; try done; lia. }
  destruct (guest_read w pid (a + strlen have) want) as [w1 r]; cbn [fst snd] in *.
  destruct r as [[|c bs]|].
  1,3: case_ifs; [done|]; intros [= <-]; apply Hcut; [lia|]; rewrite ?strlen_nil; lia || done.
  destruct (Hb (c :: bs) Hnext ltac:(lia) eq_refl) as [Hbl Hbat].
  destruct (until_nul (c :: bs)) as [t|] eqn:Hu.
  - apply until_nul_Some in Hu as (_ & rest & Heq); intros [= <-]; constructor 1.
    rewrite Heq in Hbat; apply at_addr_app in Hbat as [_ Hbat]; specialize (Hbat 0%nat NUL eq_refl).
    destruct Hw0 as (_ & Hm0 & _); rewrite <- Hm0, <- Hbat; f_equal; rewrite strlen_app; lia.
  - destruct (strlen (c :: bs) <? want) eqn:Hlt; bool_cases.
    + rewrite bool_decide_eq_false_2 by (by destruct have); intros [= <-]; apply Hcut; [|done].
      rewrite strlen_app; pose proof (strlen_nonneg (c :: bs)); lia.
    + assert (strlen (c :: bs) = want) as Hfull by lia.
      apply IH; try done; [by eapply only_reads_trans|rewrite strlen_app; lia|rewrite strlen_app; lia|].
      destruct Hs as (_ & Hm & _); rewrite Hm; by apply at_addr_app.
Qed.

(** A complete string comes back whole, when the memory a chunk further on can
    be read too. *)
Lemma read_chunks_complete fuel : forall w pid a size have rest,
  (forall w pid x n, is_addr ar x -> 0 < n -> (forall y, x <= y < x + n -> is_Some (mem w pid y)) ->
     exists bs, (guest_read w pid x n).2 = Some bs /\ strlen bs = n) ->
  is_addr ar a -> NUL ∉ have ++ rest -> strlen (have ++ rest) < size -> (have = [] -> 1 < size) ->
  size - strlen have <= Z.of_nat fuel ->
  at_addr (mem w pid) a ((have ++ rest) ++ [NUL]) ->
  (forall y, a <= y < a + strlen (have ++ rest) + CHUNK -> is_Some (mem w pid y)) ->
  (read_chunks ar fuel w pid a size have).2 = Some (have ++ rest).
Proof.
  induction fuel as [|fuel IH]; intros w pid a size have rest Hfull Ha Hn Hsize Hne Hf Hat Hmap; cbn [read_chunks];
    pose proof (strlen_nonneg have); rewrite strlen_app in Hsize; pose proof (strlen_nonneg rest); [lia|].
  destruct (strlen have + 1 <? size) eqn:Hsz; bool_cases.
  2:{ assert (rest = []) as -> by (apply strlen_0; lia); rewrite app_nil_r; simpl.
      rewrite bool_decide_eq_false_2; [done|intros E; specialize (Hne E); rewrite E, strlen_nil in *; lia]. }
  pose proof Hat as Hat0; rewrite <- app_assoc, at_addr_app in Hat0; destruct Hat0 as [Hhave Hrest].
  destruct (next_addr w pid a have Ha Hhave) as [-> Hnext].
  set (want := if size - 1 - strlen have <? CHUNK then size - 1 - strlen have else CHUNK).
  assert (Hwant : 0 < want <= size - 1 - strlen have /\ want <= CHUNK) by (unfold want, CHUNK; case_ifs; lia).
  destruct (Hfull w pid (a + strlen have) want Hnext ltac:(lia)) as (bs & Hbs & Hlen).
  { intros y Hy; apply Hmap; rewrite strlen_app; lia. }
  pose proof (read_same w pid (a + strlen have) want) as Hs.
  pose proof (read_bytes w pid (a + strlen have) want bs Hnext ltac:(lia) Hbs) as [_ Hb].
  destruct (guest_read w pid (a + strlen have) want) as [w1 r]; cbn [fst snd] in *; subst r.
  destruct bs as [|c bs]; [rewrite strlen_nil in Hlen; lia|]; set (chunk := c :: bs) in *.
  rewrite not_elem_of_app in Hn; destruct Hn as [Hn1 Hn2].
  destruct (decide (strlen rest < want)) as [Hlt|Hge].
  - assert (rest ++ [NUL] = ztake (strlen rest + 1) chunk) as Heq.
    { pose proof (at_addr_agree _ _ _ _ Hrest Hb) as E; rewrite strlen_app in E.
      change (strlen [NUL]) with 1 in E; apply E; lia. }
    rewrite <- (ztake_zdrop (strlen rest + 1) chunk), <- Heq, <- app_assoc; cbn [app].
    by rewrite until_nul_app.
  - assert (chunk = ztake want rest) as Heq.
    { rewrite <- Hlen, <- (ztake_app_le (strlen chunk) rest [NUL]) by lia.
      eapply at_addr_agree; [exact Hb|exact Hrest|]; rewrite strlen_app; change (strlen [NUL]) with 1; lia. }
    assert (Hsplit : rest = chunk ++ zdrop want rest) by (by rewrite Heq, ztake_zdrop).
    rewrite until_nul_clean by (intros ?; apply Hn2; rewrite Hsplit, elem_of_app; by left).
    replace (strlen chunk <? want) with false by (symmetry; apply Z.ltb_ge; lia).
    rewrite Hsplit, app_assoc in *; destruct Hs as (_ & Hm & _); apply IH; try done.
    + rewrite !not_elem_of_app in *; tauto.
    + rewrite !strlen_app in *; lia.
    + intros E; by destruct have.
    + rewrite strlen_app; lia.
    + by rewrite Hm.
    + by rewrite Hm.
Qed.
End read_str.

(** Position of a method in the order they are tried. *)
Definition rank (m : method) : nat := match m with PROCESS_VM => 0 | PROC_MEM => 1 | PEEK_POKE => 2 end.

Lemma rank_next m : m <> PEEK_POKE -> rank (next_method m) = S (rank m).
Proof. by destruct m. Qed.

Lemma rank_inj m m' : rank m = rank m' -> m = m'.
Proof. by destruct m, m'. Qed.

Section fallback.
Context `{RawMem K} {R : Type}.
Variable once : method -> K -> Z -> K * Z * option R.

(** What the loop of [transfer] guarantees about its result. *)
Definition gave_way (st st' : tracer K) (r : option R) : Prop :=
  exists m, method_now st' = Some m /\ (rank (current st) <= rank m)%nat /\
    (r = None -> denied (errno st') = false \/ m = PEEK_POKE) /\
    (forall m', (rank (current st) <= rank m' < rank m)%nat ->
       exists k e k' e', once m' k e = (k', e', None) /\ denied e' = true).

Lemma transfer_gives_way fuel : forall st,
  (2 - rank (current st) <= fuel)%nat ->
  gave_way st (transfer fuel once st).1 (transfer fuel once st).2 /\
  forall fuel', (2 - rank (current st) <= fuel')%nat -> transfer fuel' once st = transfer fuel once st.
Proof.
  induction fuel as [|fuel IH]; intros st Hf.
  all: destruct (once (current st) (kernel st) (errno st)) as [[k e] r] eqn:Ho.
  all: assert (Hdone : (r <> None \/ denied e = false \/ current st = PEEK_POKE) ->
         gave_way st (Tracer k (Some (current st)) (regs_mode_now st) e) r) by
       (intros Hr; exists (current st); split_and?; try done; [intros ->; simpl; tauto|lia]).
  - assert (current st = PEEK_POKE) as Hc by (destruct (current st); simpl in Hf; try lia; done).
    assert (Hstop : negb (denied e) || bool_decide (current st = PEEK_POKE) = true)
      by (by rewrite Hc, bool_decide_eq_true_2, orb_true_r).
    destruct r as [x|].
    { split; [cbn [transfer]; rewrite Ho; apply Hdone; by left|].
      intros [|fuel'] _; cbn [transfer]; by rewrite Ho. }
    split; [cbn [transfer]; rewrite Ho, Hstop; apply Hdone; tauto|].
    intros [|fuel'] _; cbn [transfer]; by rewrite Ho, Hstop.
  - destruct r as [x|].
    { split; [cbn [transfer]; rewrite Ho; apply Hdone; by left|].
      intros [|fuel'] _; cbn [transfer]; by rewrite Ho. }
    destruct (negb (denied e) || bool_decide (current st = PEEK_POKE)) eqn:Hstop.
    { split; [cbn [transfer]; rewrite Ho, Hstop; apply Hdone|].
      - apply orb_true_iff in Hstop as [?|?]; bool_cases; tauto.
      - intros [|fuel'] _; cbn [transfer]; by rewrite Ho, Hstop. }
    destruct (orb_false_elim _ _ Hstop) as [Hd%negb_false_iff Hp%bool_decide_eq_false_1].
    set (st1 := Tracer k (Some (next_method (current st))) (regs_mode_now st) e).
    assert (Hr1 : rank (current st1) = S (rank (current st))) by (by apply rank_next).
    destruct (IH st1) as [(m & Hm & Hle & Herr & Hbetween) Heq]; [lia|]; split.
    + cbn [transfer]; rewrite Ho, Hstop; fold st1; exists m; split_and?; [done|lia|done|].
      intros m' Hm'; destruct (decide (rank m' = rank (current st))) as [E|].
      * apply rank_inj in E as ->; eauto 8.
      * apply Hbetween; lia.
    + intros [|fuel'] Hf'; [destruct (current st); simpl in Hf'; lia || done|].
      cbn [transfer]; rewrite Ho, Hstop; apply Heq; fold st1; lia.
Qed.
End fallback.

(** ** Properties *)

(** C36: a transfer tries the methods in order and always ends. Starting from the
    method in use it moves to the next one only after a refusal (an error other
    than EFAULT, ESRCH, EIO and EINVAL); it fails only with an error that
    another method would not cure, or after the last method; and two changes of
    method are enough, whatever the calls answer. *)
Theorem fallback_order `{RawMem K} {R} (once : method -> K -> Z -> K * Z * option R) (st : tracer K) :
  gave_way once st (transfer TRANSFER_FUEL once st).1 (transfer TRANSFER_FUEL once st).2 /\
  forall more, transfer (TRANSFER_FUEL + more) once st = transfer TRANSFER_FUEL once st.
Proof.
  destruct (transfer_gives_way once TRANSFER_FUEL st) as [Hg Hf]; [unfold TRANSFER_FUEL; lia|].
  split; [done|intros more; apply Hf; unfold TRANSFER_FUEL; lia].
Qed.

(** C32: writes to the guest are exact. Whichever method is in use and however
    the bytes fall on words, a write that reports success leaves exactly the
    given bytes at the address; successful or not, it changes no other byte of
    the process and none of its registers; and what a later read of the range
    returns is a prefix of what was written. *)
Theorem guest_write_exact {ar} `{RawLaws ar K} (has_process_vm : bool) (st : tracer K) (pid a : Z) (data : cstr) :
  is_addr ar a ->
  let '(st', ok) := tracer_write ar has_process_vm st pid a data in
  same_host (kernel st) (kernel st') /\ raw_regs (kernel st') = raw_regs (kernel st) /\
  agree_outside (raw_mem (kernel st) pid) (raw_mem (kernel st') pid) a (strlen data) /\
  (ok = true ->
     at_addr (raw_mem (kernel st') pid) a data /\
     forall bs, (tracer_read ar has_process_vm st' pid a (strlen data)).2 = Some bs -> bs = ztake (strlen bs) data).
Proof.
  intros Ha; pose proof (tracer_write_ok has_process_vm st pid a data Ha) as Hw.
  destruct (tracer_write ar has_process_vm st pid a data) as [st' ok]; destruct Hw as (Hh & Hr & Hout & Hin).
  split_and?; try done; intros ->; specialize (Hin eq_refl); split; [done|intros bs Hbs].
  apply (tracer_read_ok has_process_vm st') in Hbs as [Hl Hat]; [|done|apply strlen_nonneg].
  by eapply at_addr_agree.
Qed.

(** A page of memory at 4096 holding "/etc/passwd". *)
Definition toy_page (s : cstr) (x : Z) : ascii := nth (Z.to_nat (x - 4096)) s NUL.
Definition toy_example : toy :=
  Toy (toy_page (lit "/etc/passwd")) (Z.eqb 1) (zero_regs X86_64) true [] [] [] 1000.

(** A sandboxed kernel (process_vm_writev is refused), an address across words. *)
Lemma guest_write_exact_witness :
  let '(st', ok) := tracer_write X86_64 true (toy_tracer toy_example) 7 4101 (lit "shadow-file") in
  ok = true /\ at_addr (raw_mem (kernel st') 7) 4101 (lit "shadow-file").
Proof.
  pose proof (guest_write_exact (ar := X86_64) true (toy_tracer toy_example) 7 4101 (lit "shadow-file")) as H.
  destruct (tracer_write X86_64 true (toy_tracer toy_example) 7 4101 (lit "shadow-file")) as [st' ok] eqn:E.
  assert (ok = true) as Hok by (vm_compute in E; injection E as _ <-; reflexivity).
  split; [exact Hok|]; destruct H as (_ & _ & _ & Hin); [unfold is_addr; simpl; lia|]; exact (proj1 (Hin Hok)).
Defined.


