(* ===== verification/Live.v ===== *)
(** Completeness of guest access: memory that the process has mapped, at an
    address that an [off_t] holds, is transferred whole, whichever of the first
    two methods a sandbox refuses. *)

From Stdlib Require Import ZArith Lia Ascii String.
From stdpp Require Import base list numbers.
From S2P Require Import Prelude Arch World Guest ToyKernel GuestFacts.
Local Open Scope Z_scope.

(** ** What a kernel that lets the tracer in guarantees *)

(** Process [pid] of [k] has all of [a, a + n), by a predicate on addresses. *)
Definition all_of (p : Z -> Prop) (a n : Z) : Prop := forall x, a <= x < a + n -> p x.

(** A method may be refused; one that is not transfers accessible memory whole,
    and a tracer is never refused PEEKDATA and POKEDATA.  [raw_rw] is the memory
    that can be both read and written; no access changes what is mapped. *)
Class RawLive (ar : arch) (K : Type) `{RawLaws ar K} := {
  raw_rw : K -> Z -> Z -> Prop;
  rw_mapped : forall k pid x, raw_rw k pid x -> is_Some (raw_mem k pid x);
  vm_readv_live : forall k pid a n, 0 <= n -> all_of (fun x => is_Some (raw_mem k pid x)) a n ->
    match vm_readv k pid a n with inl e => denied e = true | inr bs => strlen bs = n end;
  mem_open_live : forall k path w e, mem_open k path w = Some e -> denied e = true;
  mem_pread_live : forall k pid a n, 0 <= a -> 0 <= n -> all_of (fun x => is_Some (raw_mem k pid x)) a n ->
    match mem_pread k pid a n with inl e => denied e = true | inr bs => strlen bs = n end;
  peek_live : forall k pid x, is_Some (raw_mem k pid x) -> exists word, peekdata k pid (word_at ar x) = inr word;
  vm_writev_live : forall k pid a bs, all_of (raw_rw k pid) a (strlen bs) ->
    match (vm_writev k pid a bs).2 with inl e => denied e = true | inr n => n = strlen bs end;
  mem_pwrite_live : forall k pid a bs, 0 <= a -> all_of (raw_rw k pid) a (strlen bs) ->
    match (mem_pwrite k pid a bs).2 with inl e => denied e = true | inr n => n = strlen bs end;
  poke_live : forall k pid x v, raw_rw k pid x -> (pokedata k pid (word_at ar x) v).2 = None;
  vm_writev_rw : forall k pid a bs, raw_rw (vm_writev k pid a bs).1 = raw_rw k;
  mem_pwrite_rw : forall k pid a bs, raw_rw (mem_pwrite k pid a bs).1 = raw_rw k;
  poke_rw : forall k pid a v, raw_rw (pokedata k pid a v).1 = raw_rw k;
  setregset_rw : forall k pid r, raw_rw (setregset k pid r).1 = raw_rw k;
  setregs_rw : forall k pid r, raw_rw (setregs k pid r).1 = raw_rw k;
  chmod_raw_rw : forall k p m, raw_rw (fs_chmod k p m) = raw_rw k
}.

(** All memory of processes is in the lower half of the address space, where an
    [off_t] reaches it, as on 64-bit Linux. *)
Class LowMemory (ar : arch) (K : Type) `{RawLaws ar K} : Prop :=
  raw_low : forall k pid x, is_Some (raw_mem k pid x) -> x < 2 ^ (word_bits ar - 1).

(** What the clients of guest access rely on. *)
Class GuestLive (ar : arch) (W : Type) `{GuestLaws ar W} := {
  guest_rw : W -> Z -> Z -> Prop;
  guest_rw_mapped : forall w pid x, guest_rw w pid x -> is_Some (mem w pid x);
  read_live : forall w pid a n, is_addr ar a -> 0 < n -> all_of (fun x => is_Some (mem w pid x)) a n ->
    exists bs, (guest_read w pid a n).2 = Some bs /\ strlen bs = n;
  write_live : forall w pid a bs, is_addr ar a -> bs <> [] -> all_of (guest_rw w pid) a (strlen bs) ->
    (guest_write w pid a bs).2 = true;
  read_rw : forall w pid a n, guest_rw (guest_read w pid a n).1 = guest_rw w;
  write_rw : forall w pid a bs, guest_rw (guest_write w pid a bs).1 = guest_rw w;
  store_rw : forall w pid r, guest_rw (regs_store w pid r).1 = guest_rw w;
  chmod_rw : forall w p m, guest_rw (fs_chmod w p m) = guest_rw w
}.

(** ** Lemmas *)

Lemma all_of_le (p : Z -> Prop) a n a' n' : all_of p a n -> a <= a' -> a' + n' <= a + n -> all_of p a' n'.
Proof. intros Hp ? ? x Hx; apply Hp; lia. Qed.

(** A transfer whose attempts succeed or are refused, the last one excepted,
    succeeds. *)
Lemma transfer_live `{RawMem K} {R} (once : method -> K -> Z -> K * Z * option R) (I : K -> Prop) (Q : K -> R -> Prop) :
  (forall m k e, I k -> let '(k', e', r) := once m k e in
     I k' /\ match r with Some x => Q k' x | None => m <> PEEK_POKE /\ denied e' = true end) ->
  forall fuel st, (2 - rank (current st) <= fuel)%nat -> I (kernel st) ->
  let '(st', r) := transfer fuel once st in I (kernel st') /\ exists x, r = Some x /\ Q (kernel st') x.
Proof.
  intros Honce; induction fuel as [|fuel IH]; intros st Hf HI; cbn [transfer];
    pose proof (Honce (current st) (kernel st) (errno st) HI) as Ho;
    destruct (once (current st) (kernel st) (errno st)) as [[k e] [x|]]; destruct Ho as [HIk Hr];
    try (split; [done|by exists x]); destruct Hr as [Hm Hd].
  - destruct (current st); simpl in Hf; [lia|lia|done].
  - rewrite Hd, bool_decide_eq_false_2 by done; cbn [negb orb].
    pose proof (rank_next _ Hm) as Hrank; apply IH; [|done].
    change (current (Tracer k (Some (next_method (current st))) (regs_mode_now st) e)) with (next_method (current st)); lia.
Qed.

Section live.
Context {ar : arch} `{RawLive ar K}.
Variable has_process_vm : bool.

Lemma mapped_no_wrap k pid a n x : all_of (fun x => is_Some (raw_mem k pid x)) a n -> a <= x < a + n -> uword ar x = x.
Proof.
  intros Hm Hx; destruct (Hm x Hx) as [c Hc]; apply raw_top in Hc; apply uword_small.
  change (word_size ar) with (wsize ar) in Hc; pose proof (wsize_pos ar); lia.
Qed.

Lemma peek_loop_live fuel : forall k pid addr len acc err,
  all_of (fun x => is_Some (raw_mem k pid x)) addr len -> strlen acc <= len ->
  len - strlen acc <= Z.of_nat fuel ->
  strlen (peek_loop ar fuel k pid addr len acc err).1 = len.
Proof.
  induction fuel as [|fuel IH]; intros k pid addr len acc err Hm Hl Hf; cbn [peek_loop];
    destruct (strlen acc <? len) eqn:Hd; bool_cases; cbn [fst]; try lia.
  pose proof (strlen_nonneg acc); rewrite (mapped_no_wrap k pid addr len) by (done || lia).
  set (x := addr + strlen acc); fold (chunk_of (ar := ar) x len (strlen acc)).
  destruct (chunk_of_spec (ar := ar) x len (strlen acc) Hd) as (Hc1 & Hc2 & Hc3); pose proof (word_at_spec ar x).
  destruct (peek_live k pid x) as [word ->]; [apply Hm; lia|].
  apply IH; [done|rewrite strlen_app, strlen_ztake, strlen_zdrop_gen by lia; lia|].
  rewrite strlen_app, strlen_ztake, strlen_zdrop_gen, strlen_word by lia; lia.
Qed.

Lemma poke_loop_live fuel : forall k pid addr data done err,
  all_of (raw_rw k pid) addr (strlen data) -> 0 <= done <= strlen data ->
  strlen data - done <= Z.of_nat fuel ->
  let '(k', n, _) := poke_loop ar fuel k pid addr data done err in raw_rw k' = raw_rw k /\ n = strlen data.
Proof.
  induction fuel as [|fuel IH]; intros k pid addr data done err Hm Hl Hf; cbn [poke_loop];
    destruct (done <? strlen data) eqn:Hd; bool_cases.
  1,2,4: split; [reflexivity|lia].
  assert (Hmap : all_of (fun x => is_Some (raw_mem k pid x)) addr (strlen data)) by (intros y Hy; by apply rw_mapped, Hm).
  rewrite (mapped_no_wrap k pid addr (strlen data)) by (done || lia).
  set (x := addr + done); fold (chunk_of (ar := ar) x (strlen data) done).
  destruct (chunk_of_spec (ar := ar) x (strlen data) done Hd) as (Hc1 & Hc2 & Hc3).
  destruct (peek_live k pid x) as [word ->]; [apply Hmap; lia|].
  set (v := value_of ar _); pose proof (poke_live k pid x v (Hm x ltac:(lia))) as Hp; pose proof (poke_rw k pid (word_at ar x) v) as Hrw.
  destruct (pokedata k pid (word_at ar x) v) as [k1 r]; cbn [fst snd] in *; subst r.
  specialize (IH k1 pid addr data (done + chunk_of (ar := ar) x (strlen data) done) 0).
  rewrite Hrw in IH; specialize (IH Hm ltac:(lia) ltac:(lia)).
  destruct (poke_loop _ _ _ _ _ _ _ _) as [[k2 n] e]; exact IH.
Qed.

(** Addresses that an [off_t] holds. *)
Definition low_addr (a : Z) : Prop := 0 <= a < 2 ^ (word_bits ar - 1).

Lemma read_once_live m k pid a n e :
  low_addr a -> 0 < n -> all_of (fun x => is_Some (raw_mem k pid x)) a n ->
  let '(k', e', r) := read_once ar has_process_vm m k pid a n e in
  (k' = k /\ True) /\ match r with Some bs => strlen bs = n | None => m <> PEEK_POKE /\ denied e' = true end.
Proof.
  intros Ha Hn Hm; pose proof (proj1 Ha); destruct m; cbn [read_once].
  - destruct has_process_vm; [|done]; pose proof (vm_readv_live k pid a n ltac:(lia) Hm); by destruct (vm_readv _ _ _ _).
  - pose proof (mem_open_live k (proc_mem_path pid) false) as Ho; destruct (mem_open _ _ _); [by rewrite Ho|].
    rewrite off_t_low by done.
    pose proof (mem_pread_live k pid a n ltac:(lia) ltac:(lia) Hm); by destruct (mem_pread _ _ _ _).
  - pose proof (peek_loop_live (Z.to_nat n) k pid a n [] e Hm ltac:(rewrite strlen_nil; lia) ltac:(rewrite strlen_nil; lia)) as Hl.
    destruct (peek_loop _ _ _ _ _ _ _ _) as [bs e']; cbn [fst] in Hl; split; [done|]; case_ifs; [|done].
    subst bs; rewrite strlen_nil in *; bool_cases; lia.
Qed.

Lemma strlen_pos {A} (s : list A) : s <> [] -> 0 < strlen s.
Proof. destruct s; [done|]; rewrite strlen_cons; pose proof (strlen_nonneg s); lia. Qed.

Lemma write_once_live m k pid a bs e :
  low_addr a -> bs <> [] -> all_of (raw_rw k pid) a (strlen bs) ->
  let '(k', e', r) := write_once ar has_process_vm m k pid a bs e in
  raw_rw k' = raw_rw k /\ match r with Some n => n = strlen bs | None => m <> PEEK_POKE /\ denied e' = true end.
Proof.
  intros Ha Hne Hm; apply strlen_pos in Hne; pose proof (proj1 Ha); destruct m; cbn [write_once].
  - destruct has_process_vm; [|done]; pose proof (vm_writev_live k pid a bs Hm); pose proof (vm_writev_rw k pid a bs).
    by destruct (vm_writev _ _ _ _) as [k' [e'|n]].
  - pose proof (mem_open_live k (proc_mem_path pid) true) as Ho; destruct (mem_open _ _ _); [by rewrite Ho|].
    rewrite off_t_low by done.
    pose proof (mem_pwrite_live k pid a bs ltac:(lia) Hm); pose proof (mem_pwrite_rw k pid a bs).
    by destruct (mem_pwrite _ _ _ _) as [k' [e'|n]].
  - pose proof (strlen_nonneg bs).
    pose proof (poke_loop_live (length bs) k pid a bs 0 e Hm ltac:(lia) ltac:(unfold strlen; lia)) as Hl.
    destruct (poke_loop _ _ _ _ _ _ _ _) as [[k' n] e']; destruct Hl as [Hrw ->]; split; [done|]; case_ifs; [|done].
    lia.
Qed.

Lemma write_once_rw m k pid a bs e : raw_rw (write_once ar has_process_vm m k pid a bs e).1.1 = raw_rw k.
Proof.
  assert (Hloop : forall fuel k done e, raw_rw (poke_loop ar fuel k pid a bs done e).1.1 = raw_rw k).
  { induction fuel as [|fuel IH]; intros k1 done e1; cbn [poke_loop]; destruct (done <? strlen bs); try reflexivity.
    destruct (peekdata _ _ _) as [|word]; [reflexivity|]; set (v := value_of ar _).
    pose proof (poke_rw k1 pid (word_at ar (uword ar (a + done))) v) as Hp.
    destruct (pokedata _ _ _ v) as [k2 [e2|]]; [exact Hp|]; rewrite IH; exact Hp. }
  destruct m; cbn [write_once].
  - destruct has_process_vm; [|done]; pose proof (vm_writev_rw k pid a bs); by destruct (vm_writev _ _ _ _) as [k' [e'|n]].
  - destruct (mem_open _ _ _); [done|]; pose proof (mem_pwrite_rw k pid (off_t ar a) bs).
    by destruct (mem_pwrite _ _ _ _) as [k' [e'|n]].
  - specialize (Hloop (length bs) k 0 e); by destruct (poke_loop _ _ _ _ _ _ _ _) as [[k' n] e'].
Qed.

Lemma transfer_fuel_enough (st : tracer K) : (2 - rank (current st) <= TRANSFER_FUEL)%nat.
Proof. unfold TRANSFER_FUEL; lia. Qed.

Lemma tracer_read_live st pid a n :
  low_addr a -> 0 < n -> all_of (fun x => is_Some (raw_mem (kernel st) pid x)) a n ->
  exists bs, (tracer_read ar has_process_vm st pid a n).2 = Some bs /\ strlen bs = n.
Proof.
  intros Ha Hn Hm; unfold tracer_read.
  pose proof (transfer_live (fun m k e => read_once ar has_process_vm m k pid a n e) (fun k => k = kernel st)
    (fun _ bs => strlen bs = n)) as Ht.
  assert (Honce : forall m k e, k = kernel st -> let '(k', e', r) := read_once ar has_process_vm m k pid a n e in
     k' = kernel st /\ match r with Some x => strlen x = n | None => m <> PEEK_POKE /\ denied e' = true end).
  { intros m k e ->; pose proof (read_once_live m (kernel st) pid a n e Ha Hn Hm) as Ho.
    destruct (read_once _ _ _ _ _ _ _ _) as [[k' e'] r]; destruct Ho as [[? _] ?]; done. }
  specialize (Ht Honce TRANSFER_FUEL st (transfer_fuel_enough st) eq_refl).
  destruct (transfer _ _ st) as [st' r]; destruct Ht as (_ & bs & -> & Hl); eauto.
Qed.

Lemma tracer_write_live st pid a bs :
  low_addr a -> bs <> [] -> all_of (raw_rw (kernel st) pid) a (strlen bs) -> (tracer_write ar has_process_vm st pid a bs).2 = true.
Proof.
  intros Ha Hne Hm; unfold tracer_write.
  pose proof (transfer_live (fun m k e => write_once ar has_process_vm m k pid a bs e)
    (fun k => raw_rw k = raw_rw (kernel st)) (fun _ n => n = strlen bs)) as Ht.
  assert (Honce : forall m k e, raw_rw k = raw_rw (kernel st) ->
     let '(k', e', r) := write_once ar has_process_vm m k pid a bs e in
     raw_rw k' = raw_rw (kernel st) /\ match r with Some n => n = strlen bs | None => m <> PEEK_POKE /\ denied e' = true end).
  { intros m k e Hk; pose proof (write_once_live m k pid a bs e) as Ho; rewrite Hk in Ho; exact (Ho Ha Hne Hm). }
  specialize (Ht Honce TRANSFER_FUEL st (transfer_fuel_enough st) eq_refl).
  destruct (transfer _ _ st) as [st' r]; destruct Ht as (_ & n & -> & ->); by apply bool_decide_eq_true_2.
Qed.

Lemma transfer_rw {R} (once : method -> K -> Z -> K * Z * option R) :
  (forall m k e, raw_rw (once m k e).1.1 = raw_rw k) ->
  forall fuel st, raw_rw (kernel (transfer fuel once st).1) = raw_rw (kernel st).
Proof.
  intros Honce; induction fuel as [|fuel IH]; intros st; cbn [transfer];
    pose proof (Honce (current st) (kernel st) (errno st)) as Ho; destruct (once _ _ _) as [[k e] [x|]]; try exact Ho;
    destruct (_ || _); try exact Ho; rewrite IH; exact Ho.
Qed.
End live.

(** The tracer's access is complete when the kernel's is. *)
#[export] Instance guest_live {ar} `{RawLive ar K, !LowMemory ar K} (has_process_vm : bool) :
  GuestLive ar (tracer K) (H0 := tracer_guest ar has_process_vm) (H1 := guest_laws has_process_vm).
Proof.
  refine (Build_GuestLive ar (tracer K) _ _ (guest_laws has_process_vm) (fun st => raw_rw (kernel st)) _ _ _ _ _ _ _);
    cbn [guest_read guest_write regs_store tracer_guest].
  - intros w pid x; apply rw_mapped.
  - intros w pid a n [Ha _] Hn Hm; apply tracer_read_live; [split; [done|apply (raw_low (kernel w) pid), Hm; lia]|done|done].
  - intros w pid a bs [Ha _] Hne Hm; apply tracer_write_live; [split; [done|]|done|done].
    apply (raw_low (kernel w) pid), rw_mapped, Hm; apply strlen_pos in Hne; lia.
  - intros w pid a n; by rewrite tracer_read_kernel.
  - intros w pid a bs; unfold tracer_write.
    pose proof (transfer_rw (fun m k e => write_once ar has_process_vm m k pid a bs e)
      (fun m k e => write_once_rw has_process_vm m k pid a bs e) TRANSFER_FUEL w) as Ht.
    by destruct (transfer _ _ w) as [st' r].
  - intros w pid r; unfold regs_set; destruct (mode_now _ _); try (destruct (getregs _ _); [|done]).
    1,3: match goal with |- context [setregs ?k ?p ?x] => pose proof (setregs_rw k p x); by destruct (setregs k p x) end.
    match goal with |- context [setregset ?k ?p ?x] => pose proof (setregset_rw k p x); by destruct (setregset k p x) end.
  - intros w p m; apply chmod_raw_rw.
Defined.

(** ** The toy kernel *)

Lemma prefix_at_full k n : forall a, all_of (fun x => accessible k x = true) a (Z.of_nat n) -> length (prefix_at k a n) = n.
Proof.
  induction n as [|n IH]; intros a Ha; [done|]; cbn [prefix_at]; unfold toy_view at 1; rewrite Ha by lia.
  cbn [length]; f_equal; apply IH; eapply all_of_le; [exact Ha|lia|lia].
Qed.

Lemma toy_mapped_full k a n :
  0 <= n -> all_of (fun x => accessible k x = true) a n -> mapped k a n = true.
Proof.
  intros Hn Ha; unfold mapped; apply Z.eqb_eq; unfold strlen; rewrite prefix_at_full; [lia|].
  eapply all_of_le; [exact Ha|lia|lia].
Qed.

Lemma toy_view_accessible k x : is_Some (toy_view k x) <-> accessible k x = true.
Proof. unfold toy_view; split; [intros [c Hc]; by destruct (accessible k x)|intros ->; by eexists]. Qed.

(** An aligned word lies in one page. *)
Lemma accessible_word k x : accessible k x = true -> all_of (fun y => accessible k y = true) (word_at X86_64 x) 8.
Proof.
  unfold accessible, word_at, wsize, word_size; change (word_bits X86_64 / 8 - 1) with (Z.ones 3); intros Hx y Hy.
  rewrite Z.ldiff_ones_r, Z.shiftl_mul_pow2, Z.shiftr_div_pow2 in Hy by lia; change (2 ^ 3) with 8 in Hy.
  apply andb_prop in Hx as [[H1%Z.leb_le H2%Z.ltb_lt]%andb_prop H3].
  pose proof (Z.div_mod x 8 ltac:(lia)); pose proof (Z.mod_pos_bound x 8 ltac:(lia)).
  assert (y / 4096 = x / 4096) as E.
  { change 4096 with (8 * 512); rewrite <- !Z.div_div by lia; f_equal.
    symmetry; apply (Z.div_unique _ _ _ (y - x / 8 * 8)); lia. }
  pose proof (Z.div_mod x 4096 ltac:(lia)); pose proof (Z.mod_pos_bound x 4096 ltac:(lia)).
  pose proof (Z.div_mod y 4096 ltac:(lia)); pose proof (Z.mod_pos_bound y 4096 ltac:(lia)).
  assert (0 <= x / 4096) by (apply Z.div_pos; lia).
  rewrite E; apply andb_true_iff; split; [apply andb_true_iff; split|done]; [apply Z.leb_le|apply Z.ltb_lt]; lia.
Qed.

#[export] Instance toy_live : RawLive X86_64 toy.
Proof.
  assert (Hread : forall k a n, 0 <= n -> all_of (fun x => is_Some (toy_view k x)) a n ->
    match toy_read k a n with inl e => denied e = true | inr bs => strlen bs = n end).
  { intros k a n Hn Hm; unfold toy_read.
    assert (Hl : strlen (prefix_at k a (Z.to_nat n)) = n).
    { unfold strlen; rewrite prefix_at_full; [lia|]; intros x Hx; apply toy_view_accessible, Hm; lia. }
    destruct (bool_decide (_ = []) && _) eqn:E; [|done].
    apply andb_prop in E as [Hb%bool_decide_eq_true_1 Hn0%Z.ltb_lt]; rewrite Hb, strlen_nil in Hl; lia. }
  assert (Hwrite : forall k a bs, all_of (fun x => is_Some (toy_view k x)) a (strlen bs) ->
    match (toy_write k a bs).2 with inl e => denied e = true | inr n => n = strlen bs end).
  { intros k a bs Hm; unfold toy_write; rewrite toy_mapped_full; [done|apply strlen_nonneg|].
    intros x Hx; by apply toy_view_accessible, Hm. }
  assert (Hword : forall k x, is_Some (toy_view k x) -> mapped k (word_at X86_64 x) 8 = true).
  { intros k x Hx; apply toy_mapped_full; [done|]; by apply accessible_word, toy_view_accessible. }
  refine {| raw_rw k _ x := accessible k x = true |}.
  - intros k pid x; apply toy_view_accessible.
  - intros k pid a n Hn Hm; simpl; destruct (toy_vm_denied k); [done|by apply Hread].
  - done.
  - intros k pid a n Ha; cbn [mem_pread toy_raw]; rewrite (proj2 (Z.ltb_ge _ _)) by done; apply Hread.
  - intros k pid x Hx; cbn [peekdata toy_raw]; rewrite Hword by done; by eexists.
  - intros k pid a bs Hm; simpl; destruct (toy_vm_denied k); [done|apply Hwrite]; intros x Hx; by apply toy_view_accessible, Hm.
  - intros k pid a bs Ha Hm; cbn [mem_pwrite toy_raw]; rewrite (proj2 (Z.ltb_ge _ _)) by done; apply Hwrite; intros x Hx;
      by apply toy_view_accessible, Hm.
  - intros k pid x v Hx; cbn [pokedata toy_raw]; by rewrite Hword by (by apply toy_view_accessible).
  - intros k pid a bs; simpl; unfold toy_write; by case_ifs.
  - intros k pid a bs; cbn [mem_pwrite toy_raw]; unfold toy_write; by case_ifs.
  - intros k pid a v; cbn [pokedata toy_raw]; by case_ifs.
  - intros k pid r; cbn [setregset toy_raw]; unfold toy_setregs; by case_ifs.
  - intros k pid r; cbn [setregs toy_raw]; unfold toy_setregs; by case_ifs.
  - done.
Defined.

#[export] Instance toy_low : LowMemory X86_64 toy.
Proof.
  intros k pid x Hx%toy_view_accessible; unfold accessible in Hx; bool_cases; change (2 ^ (word_bits X86_64 - 1)) with (2 ^ 63); lia.
Qed.

#[export] Instance toy_guest_live : GuestLive X86_64 (tracer toy) (H0 := toy_guest) (H1 := toy_guest_laws) := guest_live true.

(** Page 1 of the toy kernel. *)
Lemma toy_page_accessible k a n :
  toy_pages k = Z.eqb 1 -> 4096 <= a -> a + n <= 8192 -> all_of (fun x => accessible k x = true) a n.
Proof.
  intros Hk Ha Hn x Hx; unfold accessible; rewrite Hk.
  replace (x / 4096) with 1 by (apply (Z.div_unique _ _ _ (x - 4096)); lia).
  apply andb_true_iff; split; [apply andb_true_iff; split; [apply Z.leb_le|apply Z.ltb_lt]; lia|done].
Qed.

(** ** Properties *)

(** C34: guest access is complete, at addresses that an [off_t] holds: below the
    middle of the address space, which on 64-bit Linux is every address of a
    process. Whichever of process_vm_readv/writev and /proc/PID/mem are refused,
    missing, or already given up, as long as the tracer is allowed
    PTRACE_PEEKDATA and POKEDATA, and however the range falls on words: a read of
    mapped memory returns every byte, and a write to memory the process can
    write reports success and leaves every byte there. (On 32-bit, above the
    middle, access by /proc/PID/mem fails: [high_address_unread].) *)
Theorem guest_access_complete {ar} `{RawLive ar K} (has_process_vm : bool) (st : tracer K) (pid a : Z) (data : cstr) :
  low_addr (ar := ar) a -> data <> [] ->
  (all_of (fun x => is_Some (raw_mem (kernel st) pid x)) a (strlen data) ->
     exists bs, (tracer_read ar has_process_vm st pid a (strlen data)).2 = Some bs /\ strlen bs = strlen data /\
       at_addr (raw_mem (kernel st) pid) a bs) /\
  (all_of (raw_rw (kernel st) pid) a (strlen data) ->
     let '(st', ok) := tracer_write ar has_process_vm st pid a data in
     ok = true /\ at_addr (raw_mem (kernel st') pid) a data).
Proof.
  intros Hlow Hne; assert (is_addr ar a) as Ha by (destruct Hlow; split; [done|]; pose proof (Z.pow_le_mono_r 2 (word_bits ar - 1) (word_bits ar)); lia).
  split; intros Hm.
  - destruct (tracer_read_live has_process_vm st pid a (strlen data) Hlow) as (bs & Hbs & Hl); [by apply strlen_pos|done|].
    exists bs; split_and?; try done.
    by destruct (tracer_read_ok has_process_vm st pid a (strlen data) Ha (strlen_nonneg _) bs Hbs).
  - pose proof (tracer_write_live has_process_vm st pid a data Hlow Hne Hm) as Hok.
    pose proof (tracer_write_ok has_process_vm st pid a data Ha) as Hw.
    destruct (tracer_write _ _ st pid a data) as [st' ok]; cbn [snd] in Hok; subst ok; split; [done|by apply Hw].
Qed.

(** process_vm_readv/writev refused, across a word boundary. *)
Lemma guest_access_complete_witness :
  (exists bs, (tracer_read X86_64 true (toy_tracer toy_example) 7 4101 6).2 = Some bs /\ strlen bs = 6 /\
     at_addr (raw_mem toy_example 7) 4101 bs) /\
  (let '(st', ok) := tracer_write X86_64 true (toy_tracer toy_example) 7 4101 (lit "shadow") in
   ok = true /\ at_addr (raw_mem (kernel st') 7) 4101 (lit "shadow")).
Proof.
  assert (Hall : all_of (fun x => accessible toy_example x = true) 4101 6).
  { intros x Hx; unfold accessible; assert (x = 4101 \/ x = 4102 \/ x = 4103 \/ x = 4104 \/ x = 4105 \/ x = 4106) as Hc by lia.
    destruct_or! Hc; subst; reflexivity. }
  split; apply (guest_access_complete (ar := X86_64) true (toy_tracer toy_example) 7 4101 (lit "shadow"));
    try discriminate; try (split; [discriminate|reflexivity]).
  - intros x Hx; apply toy_view_accessible, Hall, Hx.
  - exact Hall.
Defined.

(** *** A finding *)

(** With 32-bit addresses, from 2 ^ 31 on the offset into /proc/PID/mem is
    negative: the access fails with EINVAL, and no other method is tried. *)
Lemma high_address_unread {ar} `{RawLaws ar K} (has_process_vm : bool) (st : tracer K) (pid a n : Z) :
  word_bits ar = 32 -> 2 ^ 31 <= a < 2 ^ 32 -> current st = PROC_MEM -> mem_open (kernel st) (proc_mem_path pid) false = None ->
  let '(st', r) := tracer_read ar has_process_vm st pid a n in r = None /\ errno st' = EINVAL /\ current st' = PROC_MEM.
Proof.
  intros Hw Ha Hm Ho; unfold tracer_read; change TRANSFER_FUEL with 2%nat; cbn [transfer]; rewrite Hm; cbn [read_once]; rewrite Ho.
  rewrite mem_pread_neg; [done|]; unfold off_t, slong, uword; rewrite Hw, Z.mod_small by lia.
  rewrite (proj2 (Z.ltb_ge _ _)) by (change (32 - 1) with 31; lia); lia.
Qed.
