(* ===== verification/Tracee.v ===== *)
(** The state emuroot keeps per traced process ([src/tracee.h]) and the monad
    its syscall handlers are written in: they read and change the context the
    tracees share ([t->ctx]), the tracee, the local copy of its registers
    ([regs]) and the world. *)

From Stdlib Require Import ZArith Lia Ascii String.
From stdpp Require Import base list numbers.
From S2P Require Import Prelude Arch Syscalls World Creds Owners Config Guest.
Local Open Scope Z_scope.
Local Open Scope emu_scope.

Record tracee_t := Tracee {
  t_pid : Z;
  t_root : cstr;
  in_syscall : bool;
  awaiting_exit : bool;
  fresh : bool;
  logged : bool;
  t_sysno : Z;
  last_entry : Z;
  t_args : list Z;
  t_creds : creds_t;
  scratch_top : Z;
  t_exe : cstr;
  pending_exe : cstr;
  chown_valid : bool;
  chown_dev : Z;
  chown_ino : Z;
  chown_cur_uid : Z;
  chown_cur_gid : Z;
  chown_uid : Z;
  chown_gid : Z;
  created : cstr;
  pending_root : cstr;
  mount_handled : bool;
  proc_link : bool;
  proc_link_exe : bool
}.

#[export] Instance eta_tracee : Eta tracee_t := fun t => Tracee
  (t_pid t) (t_root t) (in_syscall t) (awaiting_exit t) (fresh t) (logged t) (t_sysno t)
  (last_entry t) (t_args t) (t_creds t) (scratch_top t) (t_exe t) (pending_exe t) (chown_valid t)
  (chown_dev t) (chown_ino t) (chown_cur_uid t) (chown_cur_gid t) (chown_uid t) (chown_gid t)
  (created t) (pending_root t) (mount_handled t) (proc_link t) (proc_link_exe t).

(** What a handler can see and change; [e_loaders] is the static cache of
    [loader_has_argv0] in exec.c. *)
Record engine (W : Type) := Engine {
  e_ctx : emuroot_ctx;
  e_t : tracee_t;
  e_regs : list Z;
  e_loaders : list (cstr * bool);
  e_world : W
}.
Arguments Engine {W}.
Arguments e_ctx {W}.
Arguments e_t {W}.
Arguments e_regs {W}.
Arguments e_loaders {W}.
Arguments e_world {W}.
#[export] Instance eta_engine {W} : Eta (engine W) := fun s =>
  Engine (e_ctx s) (e_t s) (e_regs s) (e_loaders s) (e_world s).

(** A handler. *)
Definition M (W A : Type) : Type := engine W -> result (A * engine W).

#[export] Instance M_ret {W} : MRet (M W) := fun _ x s => Done (x, s).
#[export] Instance M_bind {W} : MBind (M W) := fun _ _ f m s =>
  match m s with Done (x, s') => f x s' | Aborted => Aborted | Undefined => Undefined end.

Section monad.
Context {abi : ABI} `{HostFS W, GuestMem W}.

Definition the_ctx : M W emuroot_ctx := fun s => Done (e_ctx s, s).
Definition the_t : M W tracee_t := fun s => Done (e_t s, s).
Definition the_regs : M W (list Z) := fun s => Done (e_regs s, s).
Definition the_world : M W W := fun s => Done (e_world s, s).

Definition set_ctx (c : emuroot_ctx) : M W () := fun s => Done ((), s <| e_ctx := c |>).
Definition put_t (t : tracee_t) : M W () := fun s => Done ((), s <| e_t := t |>).
Definition modify_t (f : tracee_t -> tracee_t) : M W () := fun s => Done ((), s <| e_t := f (e_t s) |>).
Definition put_regs (r : list Z) : M W () := fun s => Done ((), s <| e_regs := r |>).
Definition the_loaders : M W (list (cstr * bool)) := fun s => Done (e_loaders s, s).
Definition set_loaders (l : list (cstr * bool)) : M W () := fun s => Done ((), s <| e_loaders := l |>).
(** A call that changes the world and answers. *)
Definition on_world {A} (f : W -> W * A) : M W A :=
  fun s => let '(w, x) := f (e_world s) in Done (x, s <| e_world := w |>).
Definition ask {A} (f : W -> A) : M W A := fun s => Done (f (e_world s), s).
(** A computation that may have undefined behaviour. *)
Definition defined {A} (o : option A) : M W A := fun s => (fun x => (x, s)) <$> defined_result o.
(** Undefined behaviour unless [b]: the bounds of a buffer. *)
Definition require (b : bool) : M W () := fun s => if b then Done ((), s) else Undefined.
(** [abort()] *)
Definition abort {A} : M W A := fun _ => Aborted.

Definition when (b : bool) (m : M W ()) : M W () := if b then m else mret ().

(** [*reg_arg(regs, n)], read and written. *)
Definition arg (n : Z) : M W Z := fun s => Done (Arch.reg_arg abi_arch n (e_regs s), s).
Definition set_arg (n v : Z) : M W () :=
  fun s => Done ((), s <| e_regs := put abi_arch (ARG n) v (e_regs s) |>).

(** The calls on the tracee's own process. *)
Definition mem_read (addr len : Z) : M W (option cstr) :=
  fun s => on_world (fun w => guest_read w (t_pid (e_t s)) addr len) s.
(** Into a buffer of [cap] bytes. *)
Definition mem_read_into (cap addr len : Z) : M W (option cstr) := _ ← require (len <=? cap); mem_read addr len.
Definition mem_write (addr : Z) (data : cstr) : M W bool :=
  fun s => on_world (fun w => guest_write w (t_pid (e_t s)) addr data) s.
Definition mem_read_str (addr size : Z) : M W (option cstr) :=
  fun s => on_world (fun w => guest_read_str abi_arch w (t_pid (e_t s)) addr size) s.
(** [regs_set(t->pid, regs)] *)
Definition store_regs_now : M W bool :=
  fun s => on_world (fun w => regs_store w (t_pid (e_t s)) (e_regs s)) s.
End monad.
