(* ===== verification/PathArg.v ===== *)
(** The helpers of [src/rewrite.c] that the other entry handlers share: scratch
    memory in the guest, the follow mode of a call, and the guest and host path
    that a path argument names. *)

From Stdlib Require Import ZArith Lia Ascii String.
From stdpp Require Import base list numbers.
From S2P Require Import Prelude Stdio Arch Syscalls World Guest Config Path Tracee.
Local Open Scope Z_scope.
Local Open Scope emu_scope.

(** ** Flags of <fcntl.h> *)

Definition O_ACCMODE : Z := 3.
Definition O_RDONLY : Z := 0.
Definition O_CREAT : Z := 0x40.
Definition O_EXCL : Z := 0x80.
Definition O_TRUNC : Z := 0x200.
Definition O_NOFOLLOW (a : arch) : Z := match a with ARM | AARCH64 | PPC64LE => 0x8000 | _ => 0x20000 end.
Definition AT_SYMLINK_NOFOLLOW : Z := 0x100.
Definition AT_SYMLINK_FOLLOW : Z := 0x400.
Definition AT_FDCWD : Z := -100.

Definition has (flags bits : Z) : bool := negb (Z.land flags bits =? 0).

Section pathargs.
Context {abi : ABI} `{HostFS W, GuestMem W}.

Definition SCRATCH_MARGIN : Z := 512.

(** [x & ~0xFUL] *)
Definition align_down_16 (x : Z) : Z := Z.ldiff x 15.

Definition emuroot_scratch (len : Z) : M W Z :=
  t ← the_t;
  let addr := align_down_16 (uword abi_arch (scratch_top t - len)) in
  if scratch_top t <? addr then mret 0        (* wrapped *)
  else _ ← put_t (t <| scratch_top := addr |>); mret addr.

(** A little-endian or big-endian 64-bit field read into a zeroed buffer. *)
Definition read_words (addr n : Z) : M W (list Z) :=
  r ← mem_read addr (8 * n);
  let buf := overlay (default [] r) (zeros (8 * n)) in
  mret ((fun i => value_of abi_arch (ztake 8 (zdrop (8 * Z.of_nat i) buf))) <$> seq 0 (Z.to_nat n)).

Definition emuroot_follow_last (d : path_syscall_t) : M W bool :=
  flags ← (if flag_slot d =? 0 then mret 0 else arg (flag_slot d));
  match mode d with
  | M_FOLLOW => mret true
  | M_NOFOLLOW => mret false
  | M_OPEN => mret (negb (has flags (O_NOFOLLOW abi_arch)) &&
                    negb (Z.land flags (Z.lor O_CREAT O_EXCL) =? Z.lor O_CREAT O_EXCL))
  | M_AT => mret (negb (has flags AT_SYMLINK_NOFOLLOW))
  | M_LINKAT => mret (has flags AT_SYMLINK_FOLLOW)
  | M_OPENAT2 =>
      how ← read_words flags 1;
      mret (negb (has (nth 0 how 0) (O_NOFOLLOW abi_arch)))
  end.

Definition dirfd_slot (sysno slot : Z) : Z :=
  if slot <? 2 then 0
  else if is_nr NR_symlink sysno then 0
  else if is_nr NR_inotify_add_watch sysno then 0
  else slot - 1.

Definition cwd_link (pid : Z) : cstr := snprintf 64 (lit "/proc/" ++ print_d pid ++ lit "/cwd").
Definition fd_link (pid fd : Z) : cstr := snprintf 64 (lit "/proc/" ++ print_d pid ++ lit "/fd/" ++ print_d fd).

(** [None]: the base directory lies outside the emulated namespace (result 0). *)
Definition absolute_guest_path (fd_slot : Z) (path : cstr) (size : Z) : M W (option cstr) :=
  if is_slash (chr_at path 0) then mret (Some (snprintf size path))
  else
    fd ← (if fd_slot =? 0 then mret AT_FDCWD else v ← arg fd_slot; mret (s32 v));
    t ← the_t;
    let link := if fd =? AT_FDCWD then cwd_link (t_pid t) else fd_link (t_pid t) fd in
    base ← ask (fun w => fs_readlink w link);
    ctx ← the_ctx;
    match base with
    | None | Some [] => mret None
    | Some base =>
        base ← defined (into PATH_LEN (ztake (PATH_LEN - 1) base));
        mret ((fun guest_base => snprintf size (unless_slash guest_base ++ [SLASH] ++ path)) <$>
              emuroot_host_to_guest ctx (t_root t) base PATH_LEN)
    end.

Definition strict_openat2 (sysno slot : Z) : M W bool :=
  if is_nr NR_openat2 sysno && (slot =? 2) then
    addr ← arg 3;
    how ← read_words addr 3;
    mret (negb (nth 2 how 0 =? 0))
  else mret false.

Definition is_readlink (sysno : Z) : bool := is_nr NR_readlink sysno || is_nr NR_readlinkat sysno.

(** The path a pointer argument names: [None] for a null or unreadable pointer
    and for the empty string. *)
Definition given_path (slot : Z) : M W (option cstr) :=
  ptr ← arg slot;
  if ptr =? 0 then mret None
  else
    given ← mem_read_str ptr PATH_LEN;
    mret (match given with Some [] => None | _ => given end).

(** [emuroot_translate_path] with the world's readlink. *)
Definition translate (guest : cstr) (follow : bool) (outsz guest_outsz : Z) : M W translation :=
  ctx ← the_ctx; t ← the_t; w ← the_world;
  defined (emuroot_translate_path_ex (fs_readlink w) ctx (t_root t) guest follow outsz guest_outsz).

(** [None]: the argument can't be read (result 0). *)
Definition emuroot_host_path_arg (sysno slot : Z) (follow : bool) : M W (option cstr) :=
  given ← given_path slot;
  match given with
  | None => mret None
  | Some given =>
      guest ← absolute_guest_path (dirfd_slot sysno slot) given (2 * PATH_LEN);
      match guest with
      | None => mret (Some (snprintf PATH_LEN given))     (* outside the emulated namespace *)
      | Some guest => tr ← translate guest follow PATH_LEN 1; mret (Some (tr_host tr))
      end
  end.

(** The guest path with its symlinks resolved, and the host path. *)
Definition emuroot_guest_path_arg (sysno slot : Z) : M W (option (cstr * cstr)) :=
  given ← given_path slot;
  match given with
  | None => mret None
  | Some given =>
      guest ← absolute_guest_path (dirfd_slot sysno slot) given (2 * PATH_LEN);
      match guest with
      | None => mret None
      | Some guest => tr ← translate guest true PATH_LEN PATH_LEN; mret (Some (tr_guest tr, tr_host tr))
      end
  end.
End pathargs.

(** ** Lemmas *)

Lemma align_down_16_spec x : 0 <= x -> align_down_16 x <= x < align_down_16 x + 16 /\ align_down_16 x mod 16 = 0 /\ 0 <= align_down_16 x.
Proof.
  intros Hx; unfold align_down_16; change 15 with (Z.ones 4); rewrite Z.ldiff_ones_r by lia.
  rewrite Z.shiftl_mul_pow2, Z.shiftr_div_pow2 by lia; change (2 ^ 4) with 16.
  pose proof (Z.div_mod x 16 ltac:(lia)); pose proof (Z.mod_pos_bound x 16 ltac:(lia)).
  pose proof (Z.div_pos x 16 Hx ltac:(lia)); rewrite Z.mod_mul by lia; lia.
Qed.
