(* ===== verification/Dac.v ===== *)
(** Permission bits for the fake root ([src/dac.c]): files and directories the
    real user owns get the owner bits that root would not have needed. *)

From Stdlib Require Import ZArith Lia Ascii String.
From stdpp Require Import base list numbers.
From S2P Require Import Prelude Arch Syscalls World Guest ToyKernel Config Path Tracee PathArg.
Local Open Scope Z_scope.
Local Open Scope emu_scope.

Inductive dac := DAC_NONE | DAC_PARENT_W | DAC_READ | DAC_RW.

#[export] Instance dac_eq_dec : EqDecision dac.
Proof. solve_decision. Defined.

(** The octal modes of the source. *)
Definition M0100 : Z := 0x40.
Definition M0300 : Z := 0xC0.
Definition M0400 : Z := 0x100.
Definition M0600 : Z := 0x180.
Definition M0700 : Z := 0x1C0.

Section dac.
Context {abi : ABI} `{HostFS W, GuestMem W}.

Definition one_of (names : list sysname) (sysno : Z) : bool := existsb (fun n => is_nr n sysno) names.

(** The label [open_like]. *)
Definition open_like (flags : Z) : dac :=
  if has flags O_CREAT then DAC_PARENT_W
  else if negb (Z.land flags O_ACCMODE =? O_RDONLY) || has flags O_TRUNC then DAC_RW else DAC_READ.

(** The first path argument: calls that make or remove a name. *)
Definition parent_w_first : list sysname :=
  [NR_creat; NR_mkdir; NR_mkdirat; NR_mknod; NR_mknodat; NR_symlink; NR_symlinkat; NR_unlink; NR_unlinkat;
   NR_rmdir; NR_rename; NR_renameat; NR_renameat2].
(** The second one: the destination of a rename or a link. *)
Definition parent_w_second : list sysname := [NR_rename; NR_renameat; NR_renameat2; NR_link; NR_linkat].

Definition dac_for (sysno : Z) (regs : list Z) (which : Z) : dac :=
  if which =? 0 then
    if is_nr NR_open sysno then open_like (Arch.reg_arg abi_arch 2 regs)
    else if is_nr NR_openat sysno then open_like (Arch.reg_arg abi_arch 3 regs)
    else if is_nr NR_openat2 sysno then DAC_READ
    else if one_of [NR_truncate; NR_truncate64] sysno then DAC_RW
    else if one_of parent_w_first sysno then DAC_PARENT_W
    else DAC_NONE
  else if one_of parent_w_second sysno then DAC_PARENT_W
  else DAC_NONE.

Definition grant_owner (path : cstr) (bits : Z) (w : W) : W :=
  match fs_stat w path with
  | None => w
  | Some st =>
      if negb (st_uid st =? host_euid w) then w
      else if negb (Z.land (st_mode st) bits =? bits) then fs_chmod w path (Z.lor (st_mode st) bits)
      else w
  end.

Definition ensure_dac (host : cstr) (need : dac) (w : W) : W :=
  if bool_decide (need = DAC_NONE) || (host_euid w =? 0) then w
  else if bool_decide (need = DAC_PARENT_W) then
    let dir := snprintf PATH_LEN host in
    match strrchr_slash dir with
    | None => w
    | Some i => grant_owner (ztake (if i =? 0 then 1 else i) dir) M0300 w
    end
  else
    let bits := if bool_decide (need = DAC_RW) then M0600 else M0400 in
    let bits := match fs_stat w host with
                | Some st => if S_ISDIR (st_mode st) then Z.lor bits M0100 else bits
                | None => bits
                end in
    grant_owner host bits w.

Definition emuroot_grant_access (sysno which : Z) (host : cstr) : M W () :=
  regs ← the_regs;
  on_world (fun w => (ensure_dac host (dac_for sysno regs which) w, ())).
End dac.

(** ** Lemmas *)

Section facts.
Context {abi : ABI} `{HostFS W, GuestMem W}.

(** The only change: one chmod that adds owner bits to a file the real user
    owns. *)
Definition granted (w w' : W) (path : cstr) (bits : Z) : Prop :=
  w' = w \/
  exists st, fs_stat w path = Some st /\ st_uid st = host_euid w /\ Z.land bits M0700 = bits /\
    w' = fs_chmod w path (Z.lor (st_mode st) bits).

Lemma grant_owner_granted path bits w :
  Z.land bits M0700 = bits -> granted w (grant_owner path bits w) path bits.
Proof.
  intros Hb; unfold granted, grant_owner; destruct (fs_stat w path) as [st|] eqn:Hst; [|by left].
  case_ifs; try (by left); right; by exists st.
Qed.

Lemma ensure_dac_granted host need w :
  exists path bits, granted w (ensure_dac host need w) path bits /\
    (path = host \/ exists p, pop_component (snprintf PATH_LEN host) = Some p /\ path = p).
Proof.
  unfold ensure_dac; destruct (_ || _); [exists host, 0; split; [by left|by left]|].
  destruct (bool_decide (need = DAC_PARENT_W)).
  - unfold pop_component; destruct (strrchr_slash (snprintf PATH_LEN host)) as [i|]; [|exists host, 0; split; by left].
    eexists _, _; split; [by apply grant_owner_granted|right; by eexists].
  - eexists host, _; split; [apply grant_owner_granted|by left].
    destruct (bool_decide (need = DAC_RW)), (fs_stat w host) as [st|]; try destruct (S_ISDIR _); done.
Qed.
End facts.

(** ** Properties *)

(** C40: granting access is safe. Whatever the call, it changes at most one file's
    mode: the path itself or its parent directory, only when the real user owns
    it, and only by adding owner permission bits; it does nothing at all when
    emuroot runs as the real root or for a call that needs no access. *)
Theorem grant_access_safe {abi : ABI} `{HostFS W, GuestMem W} (s : engine W) (sysno which : Z) (host : cstr) :
  exists s', emuroot_grant_access sysno which host s = Done ((), s') /\
    e_ctx s' = e_ctx s /\ e_t s' = e_t s /\ e_regs s' = e_regs s /\
    (exists path bits, granted (e_world s) (e_world s') path bits /\
       (path = host \/ pop_component (snprintf PATH_LEN host) = Some path)) /\
    (host_euid (e_world s) = 0 \/ dac_for sysno (e_regs s) which = DAC_NONE -> e_world s' = e_world s).
Proof.
  eexists; split; [reflexivity|]; cbn [e_ctx e_t e_regs e_world]; split_and?; try done.
  - destruct (ensure_dac_granted host (dac_for sysno (e_regs s) which) (e_world s)) as (p & b & Hg & Hp).
    exists p, b; split; [done|]; destruct Hp as [->|(q & Hq & ->)]; [by left|by right].
  - intros [E|E]; unfold ensure_dac; rewrite E; [by rewrite orb_true_r|done].
Qed.

(** The access granted is enough. If the real user owns the file (or, for a
    call that changes names, its directory) and chmod does what it says, then
    after the grant the owner bits the call needs are set: read for a read-only
    open, read and write for a writing one or a truncate, search too for a
    directory, write and search on the parent for names. *)
Theorem grant_access_enough `{HostFS W} (w : W) (host dir : cstr) (st : file_stat) (need : dac) :
  (forall p m st, fs_stat w p = Some st ->
     fs_stat (fs_chmod w p m) p = Some (FileStat (st_dev st) (st_ino st) (st_uid st) (st_gid st) m)) ->
  host_euid w <> 0 -> need <> DAC_NONE ->
  (if bool_decide (need = DAC_PARENT_W) then pop_component (snprintf PATH_LEN host) = Some dir else dir = host) ->
  fs_stat w dir = Some st -> st_uid st = host_euid w ->
  exists st', fs_stat (ensure_dac host need w) dir = Some st' /\
    (need = DAC_PARENT_W -> Z.land (st_mode st') M0300 = M0300) /\
    (need = DAC_READ -> Z.land (st_mode st') M0400 = M0400) /\
    (need = DAC_RW -> Z.land (st_mode st') M0600 = M0600) /\
    (need <> DAC_PARENT_W -> S_ISDIR (st_mode st) = true -> Z.land (st_mode st') M0100 = M0100).
Proof.
  intros Hchmod Heuid Hneed Hdir Hst Hown.
  assert (Hgrant : forall p bits, fs_stat w p = Some st -> exists st',
    fs_stat (grant_owner p bits w) p = Some st' /\ forall b, Z.land b bits = b -> Z.land (st_mode st') b = b).
  { intros p bits Hp; unfold grant_owner; rewrite Hp, Hown, Z.eqb_refl; cbn [negb].
    destruct (Z.land (st_mode st) bits =? bits) eqn:E; cbn [negb]; bool_cases.
    - exists st; split; [done|]; intros b Hb; by rewrite <- Hb, (Z.land_comm b), Z.land_assoc, E.
    - rewrite (Hchmod _ _ _ Hp); eexists; split; [done|]; intros b Hb; cbn [st_mode].
      rewrite Z.land_lor_distr_l, (Z.land_comm bits), Hb.
      apply Z.bits_inj'; intros n _; rewrite Z.lor_spec, Z.land_spec; destruct (Z.testbit b n), (Z.testbit _ n); done. }
  unfold ensure_dac; rewrite bool_decide_eq_false_2 by done; rewrite (proj2 (Z.eqb_neq _ _) Heuid); cbn [orb].
  destruct (decide (need = DAC_PARENT_W)) as [E|E].
  - rewrite bool_decide_eq_true_2 in * by done; unfold pop_component in Hdir.
    destruct (strrchr_slash _) as [i|]; [injection Hdir as <-|done].
    destruct (Hgrant _ M0300 Hst) as (st' & Hst' & Hb); exists st'; rewrite E; split_and?; try done; intros _; by apply Hb.
  - rewrite bool_decide_eq_false_2 in * by done; subst dir; rewrite Hst.
    destruct need; [done|done| |]; 
      destruct (S_ISDIR (st_mode st)) eqn:Hd;
      match goal with |- context [grant_owner host ?b w] => destruct (Hgrant host b Hst) as (st' & Hst' & Hb) end;
      exists st'; split_and?; try done; intros _; try intros _; apply Hb; reflexivity.
Qed.

(** A directory of the real user without write permission. *)
Definition locked_dir : toy :=
  Toy (fun _ => NUL) (fun _ => false) [] false [] [(lit "/r/usr/bin", FileStat 1 2 1000 1000 0x416D)] [] 1000.

Lemma grant_access_enough_witness :
  exists st', fs_stat (ensure_dac (lit "/r/usr/bin/tool") DAC_PARENT_W locked_dir) (lit "/r/usr/bin") = Some st' /\
    Z.land (st_mode st') M0300 = M0300.
Proof.
  destruct (grant_access_enough locked_dir (lit "/r/usr/bin/tool") (lit "/r/usr/bin")
              (FileStat 1 2 1000 1000 0x416D) DAC_PARENT_W) as (st' & Hst & Hb & _);
    [apply toy_chmod_stat|done|done|reflexivity|reflexivity|reflexivity|].
  exists st'; split; [exact Hst|exact (Hb eq_refl)].
Defined.
