(* ===== verification/Identity.v ===== *)
(** Syscall entry, identity side ([src/identity.c]): real credential changes are
    made harmless, and chowns and file creations are noted for the exit
    handler. *)

From Stdlib Require Import ZArith Lia Ascii String.
From stdpp Require Import base list numbers.
From S2P Require Import Prelude Arch Syscalls World Guest Creds Owners Config Path Tracee PathArg Dac.
Local Open Scope Z_scope.
Local Open Scope emu_scope.

Section identity.
Context {abi : ABI} `{HostFS W, GuestMem W}.

(** [(unsigned int)-1], an id that means "no change". *)
Definition none_id : Z := 0xFFFFFFFF.

Definition neutralize_id_change (a : option action) : M W () :=
  let commit : M W () := _ ← store_regs_now; mret () in
  match a with
  | Some A_SETUID => u ← ask host_euid; _ ← set_arg 1 u; commit
  | Some A_SETGID => g ← ask host_egid; _ ← set_arg 1 g; commit
  | Some A_SETREUID | Some A_SETREGID => _ ← set_arg 2 none_id; _ ← set_arg 1 none_id; commit
  | Some A_SETRESUID | Some A_SETRESGID =>
      _ ← set_arg 3 none_id; _ ← set_arg 2 none_id; _ ← set_arg 1 none_id; commit
  | Some A_SETFSUID | Some A_SETFSGID => _ ← set_arg 1 none_id; commit
  | _ => mret ()
  end.

(** The file a chown is about: through its path argument, or a descriptor. *)
Definition chown_target (sysno : Z) (d : option path_syscall_t) : M W (option file_stat) :=
  follow ← (match d with Some d => emuroot_follow_last d | None => mret true end);
  host ← (match d with Some d => emuroot_host_path_arg sysno (slot1 d) follow | None => mret None end);
  match host with
  | Some host => ask (fun w => if follow : bool then fs_stat w host else fs_lstat w host)
  | None =>
      fd ← arg 1; t ← the_t;
      ask (fun w => fs_stat w (fd_link (t_pid t) (s32 fd)))
  end.

Definition note_chown (sysno : Z) (d : option path_syscall_t) : M W () :=
  let uid_arg := if is_nr NR_fchownat sysno then 3 else 2 in
  st ← chown_target sysno d;
  match st with
  | None => mret ()
  | Some st =>
      ctx ← the_ctx;
      euid ← ask host_euid; egid ← ask host_egid;
      owner ← defined (owner_lookup (owners ctx) (st_dev st) (st_ino st));
      uid ← arg uid_arg; gid ← arg (uid_arg + 1);
      let seen_uid := if st_uid st =? euid then fake_uid ctx else st_uid st in
      let seen_gid := if st_gid st =? egid then fake_gid ctx else st_gid st in
      modify_t (fun t => t
        <| chown_valid := true |>
        <| chown_dev := st_dev st |> <| chown_ino := st_ino st |>
        <| chown_cur_uid := match owner with Some (u, _) => u | None => seen_uid end |>
        <| chown_cur_gid := match owner with Some (_, g) => g | None => seen_gid end |>
        <| chown_uid := w32 uid |> <| chown_gid := w32 gid |>)
  end.

Definition creates_always : list sysname :=
  [NR_creat; NR_mkdir; NR_mkdirat; NR_mknod; NR_mknodat; NR_symlink; NR_symlinkat].

Definition creates_file (regs : list Z) (sysno : Z) : bool :=
  if is_nr NR_open sysno then has (Arch.reg_arg abi_arch 2 regs) O_CREAT
  else if is_nr NR_openat sysno then has (Arch.reg_arg abi_arch 3 regs) O_CREAT
  else one_of creates_always sysno.

Definition emuroot_note_creation (sysno : Z) (d : path_syscall_t) : M W () :=
  ctx ← the_ctx; t ← the_t; regs ← the_regs;
  if negb (has_fake_ids ctx) || ((fsuid (t_creds t) =? fake_uid ctx) && (fsgid (t_creds t) =? fake_gid ctx))
  then mret ()
  else if negb (creates_file regs sysno) then mret ()
  else
    host ← emuroot_host_path_arg sysno (slot1 d) false;
    match host with
    | Some host =>
        exists_ ← ask (fun w => bool_decide (is_Some (fs_lstat w host)));
        modify_t (fun t => t <| created := if exists_ : bool then [] else host |>)
    | None => modify_t (fun t => t <| created := [] |>)
    end.

Definition emuroot_identity_entry (sysno : Z) (a : option action) : M W () :=
  _ ← neutralize_id_change a;
  if bool_decide (a = Some A_CHOWN) then note_chown sysno (emuroot_find_path_syscall sysno) else mret ().
End identity.
