(* ===== verification/Mounts.v ===== *)
(** chroot, mount and umount for a privileged fake root ([src/mounts.c]): chroot
    changes the process's root, bind and pseudo-filesystem mounts become
    bindings of the shared context, and the real call is made harmless. *)

From Stdlib Require Import ZArith Lia Ascii String.
From stdpp Require Import base list numbers.
From S2P Require Import Prelude Arch Syscalls World Guest Creds Config Path Tracee PathArg.
Local Open Scope Z_scope.
Local Open Scope emu_scope.

Definition MS_BIND : Z := 4096.
Definition MS_REMOUNT : Z := 32.
Definition MS_MOVE : Z := 8192.

Section mounts.
Context {abi : ABI} `{HostFS W, GuestMem W}.

Definition neutralize (slot : Z) (to_root : bool) : M W () :=
  slash ← (if to_root then emuroot_scratch 2 else mret 0);
  ok ← (if to_root then
          if slash =? 0 then mret false else mem_write slash [SLASH; NUL]
        else mret true);
  _ ← set_arg slot (if ok : bool then slash else 0);
  _ ← store_regs_now;
  mret ().

Definition guest_dir_exists (w : W) (host : cstr) : bool :=
  match fs_stat w host with Some st => S_ISDIR (st_mode st) | None => false end.

(** [realpath(host, canon) ? canon : host] *)
Definition canonical (w : W) (host : cstr) : cstr := default host (fs_realpath w host).

(** [d] is dereferenced: a null pointer would be undefined behaviour. *)
Definition emulate_chroot (sysno : Z) (d : option path_syscall_t) : M W () :=
  d ← defined d;
  host ← emuroot_host_path_arg sysno (slot1 d) true;
  match host with
  | None => mret ()
  | Some host =>
      ok ← ask (fun w => guest_dir_exists w host);
      if ok : bool then
        root ← ask (fun w => canonical w host);
        _ ← modify_t (fun t => t <| pending_root := snprintf PATH_LEN root |>);
        neutralize (slot1 d) true
      else mret ()
  end.

(** The host directory a pseudo filesystem is bound to. *)
Definition pseudo_fs (fstype : cstr) : option cstr :=
  if strcmp_eq fstype (lit "proc") then Some (lit "/proc")
  else if strcmp_eq fstype (lit "sysfs") then Some (lit "/sys")
  else if strcmp_eq fstype (lit "devtmpfs") then Some (lit "/dev")
  else if strcmp_eq fstype (lit "devpts") then Some (lit "/dev/pts")
  else None.

(** What the mount makes visible: a host path, or nothing. *)
Definition mount_source (sysno flags : Z) : M W (option cstr) :=
  if has flags (Z.lor MS_REMOUNT MS_MOVE) then mret None
  else if has flags MS_BIND then emuroot_host_path_arg sysno 1 true
  else
    p ← arg 3;
    if p =? 0 then mret None
    else fstype ← mem_read_str p 64; mret (fstype ≫= pseudo_fs).

(** A binding made while the guest runs: attached at [host_target]. *)
Definition bind_at (ctx : emuroot_ctx) (host guest_target host_target : cstr) : emuroot_ctx :=
  let '(ctx, rc) := emuroot_bind ctx (Some host) (Some guest_target) in
  if rc =? EMUROOT_OK then
    let i := nbindings ctx - 1 in
    let b := get_binding ctx i in
    let m := snprintf PATH_LEN host_target in
    set_binding ctx i (Binding (Config.host b) (Config.guest b) (guest_len b) m (strlen m))
  else ctx.

Definition emulate_mount (sysno : Z) : M W () :=
  flags ← arg 4;
  target ← emuroot_guest_path_arg sysno 2;
  match target with
  | None => mret ()
  | Some (guest_target, host_target) =>
      host ← mount_source sysno flags;
      _ ← (match host with
           | Some host =>
               ctx ← the_ctx; canon ← ask (fun w => canonical w host);
               set_ctx (bind_at ctx canon guest_target host_target)
           | None => mret ()
           end);
      _ ← modify_t (fun t => t <| mount_handled := true |>);
      neutralize 2 false
  end.

Definition emulate_umount (sysno : Z) : M W () :=
  target ← emuroot_guest_path_arg sysno 1;
  match target with
  | None => mret ()
  | Some (guest_target, _) =>
      ctx ← the_ctx;
      _ ← set_ctx (emuroot_unbind ctx guest_target).1;
      _ ← modify_t (fun t => t <| mount_handled := true |>);
      neutralize 1 false
  end.

(** Was the call emulated? *)
Definition emuroot_emulate_mounts (sysno : Z) (a : option action) : M W bool :=
  t ← the_t;
  if negb (effective (uid (t_creds t)) =? 0) then mret false
  else match a with
       | Some A_CHROOT =>
           _ ← emulate_chroot sysno (emuroot_find_path_syscall sysno);
           t ← the_t; mret (negb (bool_decide (pending_root t = [])))
       | Some A_MOUNT => _ ← emulate_mount sysno; mret true
       | Some A_UMOUNT => _ ← emulate_umount sysno; mret true
       | _ => mret false
       end.
End mounts.
