(* ===== verification/Exec.v ===== *)
(** execve rewriting ([src/exec.c]): scripts are expanded through their #!
    interpreter and dynamic programs are run through the root's own loader, so
    that the kernel never loads an interpreter from the real file system. *)

From Stdlib Require Import ZArith Lia Ascii String.
From stdpp Require Import base list numbers.
From S2P Require Import Prelude Stdio Arch Syscalls World Guest Config Path Tracee PathArg.
Local Open Scope Z_scope.
Local Open Scope emu_scope.

Definition MAX_EXEC_ARGS : Z := 8192.
Definition MAX_SHEBANG_DEPTH : nat := 5.

(** ** argv entries *)

(** A string we made up, or a pointer into guest memory. *)
Inductive earg_t := Made (str : cstr) | Ptr (p : Z).

(** What [calloc] reserves for them. *)
Definition EARGS : Z := MAX_EXEC_ARGS + 16.

(** ** Scripts *)

Definition is_blank (c : ascii) : bool := Ascii.eqb c " " || Ascii.eqb c "009".
Definition is_blank_cr (c : ascii) : bool := is_blank c || Ascii.eqb c "013".
Definition not_newline (c : ascii) : bool := negb (Ascii.eqb c "010").
Definition not_nul (c : ascii) : bool := negb (Ascii.eqb c NUL).

(** A buffer read as a C string. *)
Definition c_str (buf : cstr) : cstr := take_while not_nul buf.

(** The loop that drops trailing characters. *)
Definition strip_end (f : ascii -> bool) (s : cstr) : cstr := rev (drop_while f (rev s)).

Definition LINE_BUF : Z := 256.        (* char line[256] *)

(** The #! interpreter and its single optional argument, or no interpreter; the
    outer [None] is a line too long for the buffer. *)
Definition parse_shebang (head : cstr) : option (option (cstr * option cstr)) :=
  match head with
  | a :: b :: _ :: _ =>
      if Ascii.eqb a "#" && Ascii.eqb b "!" then
        line ← into LINE_BUF (ztake (LINE_BUF - 1) (take_while not_newline (drop 2 head)));
        let p := drop_while is_blank (c_str line) in
        if bool_decide (p = []) then Some None
        else
          let tok := take_while (fun c => negb (is_blank c)) p in
          let rest := drop_while is_blank (drop_while (fun c => negb (is_blank c)) p) in
          let rest := strip_end is_blank_cr rest in
          Some (Some (tok, if bool_decide (rest = []) then None else Some rest))
      else Some None
  | _ => Some None
  end.

(** [memmem(buf, n, needle)] *)
Definition starts_with (needle hay : cstr) : bool := bool_decide (take (length needle) hay = needle).
Fixpoint contains (hay needle : cstr) : bool :=
  starts_with needle hay || match hay with [] => false | _ :: hay => contains hay needle end.

Section exec.
Context {abi : ABI} `{HostFS W, GuestMem W}.
(** Can [calloc(n, size)] be served? *)
Variable calloc : Z -> Z -> bool.

(** [strdup] that aborts when there is no memory. *)
Definition dupstr (s : cstr) : M W cstr :=
  ok ← ask (fun w => strdup w s); if ok : bool then mret s else abort.

(** The first [drop_] entries give way to [strs], in the array of [EARGS]. *)
Definition replace_head (args : list earg_t) (drop_ : nat) (strs : list cstr) : M W (list earg_t) :=
  let out := (Made <$> strs) ++ drop drop_ args in
  _ ← require ((drop_ <=? length args)%nat && (strlen out <=? EARGS)); mret out.

(** ** ELF *)

Definition ELFMAG : cstr := ["127"%char; "E"%char; "L"%char; "F"%char].
Definition PT_INTERP : Z := 3.

(** An exact [pread]: fails on a short one or a negative offset. *)
Definition pread_exact (w : W) (path : cstr) (off len : Z) : option cstr :=
  if off <? 0 then None
  else s ← fs_pread w path off len; if strlen s =? len then Some s else None.

(** The [n]-byte field at [off] of a structure in native byte order. *)
Definition elf_field (s : cstr) (off n : Z) : Z := value_of abi_arch (ztake n (zdrop off s)).

(** The loop over the program headers, [i] of [phnum] done; the outer [None] is
    a name too long for the buffer. *)
Fixpoint find_interp (w : W) (path : cstr) (class64 : bool) (phoff phentsize : Z) (n : nat) (i size : Z)
    : option (option cstr) :=
  match n with
  | O => Some None
  | S n =>
      let at_ := off_t abi_arch (phoff + i * phentsize) in
      match pread_exact w path at_ (if class64 then 56 else 32) with None => Some None | Some ph =>
      let type := elf_field ph 0 4 in
      let off := if class64 then elf_field ph 8 8 else elf_field ph 4 4 in
      let filesz := if class64 then elf_field ph 32 8 else elf_field ph 16 4 in
      if type =? PT_INTERP then
        if (filesz =? 0) || (size <=? filesz) then Some None
        else match pread_exact w path (off_t abi_arch off) filesz with
             | None => Some None
             | Some s => interp ← into size s; Some (Some (c_str interp))
             end
      else find_interp w path class64 phoff phentsize n (i + 1) size
      end
  end.

Definition elf_interp (w : W) (path : cstr) (size : Z) : option (option cstr) :=
  match pread_exact w path 0 16 with None => Some None | Some id =>
  if negb (bool_decide (ztake 4 id = ELFMAG)) then Some None
  else if negb (unbyte (chr_at id 5) =? (if big_endian abi_arch then 2 else 1)) then Some None
  else
    let class := unbyte (chr_at id 4) in
    if class =? 2 then
      match pread_exact w path 0 64 with
      | None => Some None
      | Some h => find_interp w path true (elf_field h 32 8) (elf_field h 54 2) (Z.to_nat (elf_field h 56 2)) 0 size
      end
    else if class =? 1 then
      match pread_exact w path 0 52 with
      | None => Some None
      | Some h => find_interp w path false (elf_field h 28 4) (elf_field h 42 2) (Z.to_nat (elf_field h 44 2)) 0 size
      end
    else Some None
  end.

(** ** The loader *)

Definition LOADER_BUF : Z := 4194304.       (* 4 << 20 *)

Definition LOADERS : Z := 8.

(** glibc >= 2.33's ld.so takes --argv0; the answers for the first eight loaders
    are cached. *)
Definition loader_has_argv0 (host_path : cstr) : M W bool :=
  cache ← the_loaders;
  match List.find (fun e => strcmp_eq e.1 host_path) cache with
  | Some e => mret e.2
  | None =>
      ok ← ask (fun w => if fs_open w host_path then
                           match fs_pread w host_path 0 LOADER_BUF with
                           | Some buf => (0 <? strlen buf) && contains buf (lit "--argv0")
                           | None => false
                           end
                         else false);
      _ ← (if strlen cache <? 8 then
             _ ← require (strlen cache <? LOADERS); set_loaders (cache ++ [(snprintf PATH_LEN host_path, ok)])
           else mret ());
      mret ok
  end.

(** ** Paths *)

(** The host path of the guest's working directory, empty if it can't be read. *)
Definition read_cwd : M W cstr :=
  t ← the_t; r ← ask (fun w => fs_readlink w (cwd_link (t_pid t)));
  defined (into PATH_LEN (ztake (PATH_LEN - 1) (default [] r))).

Definition host_path_of (path : cstr) (size : Z) : M W cstr :=
  if is_slash (chr_at path 0) then tr ← translate path true size 1; mret (tr_host tr)
  else
    cwd ← read_cwd;
    if size <? strlen cwd + strlen path + 2 then mret [] else defined (into size (cwd ++ [SLASH] ++ path)).

(** [guest_cwd], a slash unless it is "/", and the path, cut to the buffer. *)
Definition join_cwd (size : Z) (guest_cwd path : cstr) : cstr :=
  let out := snprintf size guest_cwd in
  let len := strlen guest_cwd in
  let slash := (1 <? len) && (len <? size) in
  let out := if slash then out ++ [SLASH] else out in
  let len := if slash then len + 1 else len in
  if len <? size then out ++ snprintf (size - len) (ztake (size - len - 1) path) else out.

Definition guest_absolute (path : cstr) (size : Z) : M W cstr :=
  if is_slash (chr_at path 0) then mret (snprintf size path)
  else
    t ← the_t; ctx ← the_ctx; cwd ← read_cwd;
    mret (join_cwd size
            (if bool_decide (cwd = []) then [SLASH]
             else default [SLASH] (emuroot_host_to_guest ctx (t_root t) cwd PATH_LEN)) path).

(** ** Expanding the call *)

(** The argv array of the guest, up to its null pointer or [n] entries. *)
Fixpoint read_argv (n : nat) (addr : Z) : M W (list earg_t) :=
  match n with
  | O => mret []
  | S n =>
      let w := word_size abi_arch in
      r ← mem_read addr w;
      match r with
      | Some s =>
          if (strlen s =? w) && negb (value_of abi_arch s =? 0) then
            rest ← read_argv n (uword abi_arch (addr + w));
            mret (Ptr (value_of abi_arch s) :: rest)
          else mret []
      | None => mret []
      end
  end.

Record expansion := Expansion {
  ex_path : cstr;             (* exec_path *)
  ex_host : cstr;             (* host *)
  ex_args : list earg_t;
  ex_rewritten : bool
}.

(** Is the loader the same file at both paths? *)
Definition same_file (w : W) (p q : cstr) : bool :=
  match fs_stat w p, fs_stat w q with
  | Some a, Some b => (st_dev a =? st_dev b) && (st_ino a =? st_ino b)
  | _, _ => false
  end.

Definition argv0_of (args : list earg_t) : M W cstr :=
  match args with
  | Made s :: _ => mret (snprintf PATH_LEN s)
  | Ptr p :: _ => r ← mem_read_str p PATH_LEN; mret (default [] r)
  | [] => mret []
  end.

(** A dynamic program: argv := loader [--argv0 argv0] program argv[1..]. *)
Definition expand_elf (interp : cstr) (e : expansion) : M W expansion :=
  tr ← translate interp true PATH_LEN 1;
  let loader_host := tr_host tr in
  as_is ← ask (fun w => same_file w interp loader_host);
  if as_is : bool then mret e
  else
    loader ← dupstr interp;
    argv0 ← loader_has_argv0 loader_host;
    lead ← (if argv0 : bool then
              a0 ← argv0_of (ex_args e); opt ← dupstr (lit "--argv0"); a0 ← dupstr a0; mret [opt; a0]
            else mret []);
    path ← dupstr (ex_path e);
    args ← replace_head (ex_args e) 1 ([loader] ++ lead ++ [path]);
    pending ← guest_absolute (ex_path e) PATH_LEN;
    _ ← modify_t (fun t => t <| pending_exe := pending |>);
    mret (Expansion (snprintf PATH_LEN interp) (snprintf PATH_LEN loader_host) args true).

(** The loop over nested scripts; [depth] rounds are left. *)
Fixpoint expand (depth : nat) (e : expansion) : M W expansion :=
  match depth with
  | O => mret e
  | S depth =>
      host ← host_path_of (ex_path e) PATH_LEN;
      let e := Expansion (ex_path e) host (ex_args e) (ex_rewritten e) in
      opened ← ask (fun w => fs_open w host);
      if negb opened then mret e
      else
        head ← ask (fun w => default [] (fs_pread w host 0 256));
        shebang ← defined (parse_shebang head);
        match shebang with
        | Some (interp, sb_arg) =>
            interp ← dupstr interp;
            sb_arg ← (match sb_arg with Some a => a ← dupstr a; mret [a] | None => mret [] end);
            path ← dupstr (ex_path e);
            args ← replace_head (ex_args e) 1 ([interp] ++ sb_arg ++ [path]);
            expand depth (Expansion (snprintf PATH_LEN interp) host args true)
        | None =>
            w ← the_world;
            found ← defined (elf_interp w host PATH_LEN);
            match found with
            | None => mret e                    (* static binary: runs as is *)
            | Some interp => expand_elf interp e
            end
        end
  end.

(** ** Laying the new call out in guest memory *)

Definition made_bytes (args : list earg_t) : cstr :=
  concat (map (fun a => match a with Made s => s ++ [NUL] | Ptr _ => [] end) args).

(** [(off + 15) & ~15UL] *)
Definition align_up_16 (x : Z) : Z := align_down_16 (x + 15).

(** The size asked for. *)
Definition blob_total (host : cstr) (args : list earg_t) : Z :=
  strlen host + 1 + (strlen args + 1) * word_size abi_arch + 32 + strlen (made_bytes args).

(** The pointer of each entry; [off] is where the next made-up string goes. *)
Fixpoint arg_pointers (base off : Z) (args : list earg_t) : list Z :=
  match args with
  | [] => [0]
  | Made s :: args => uword abi_arch (base + off) :: arg_pointers base (off + strlen s + 1) args
  | Ptr p :: args => p :: arg_pointers base off args
  end.

Definition word_bytes (ps : list Z) : cstr :=
  concat (map (bytes_of abi_arch (Z.to_nat (word_size abi_arch))) ps).

(** [path][strings][padding], then where the array of pointers starts. *)
Definition blob_strings (host : cstr) (args : list earg_t) : cstr := host ++ [NUL] ++ made_bytes args.
Definition blob_off (host : cstr) (args : list earg_t) : Z := align_up_16 (strlen (blob_strings host args)).

Definition blob_of (base : Z) (host : cstr) (args : list earg_t) : cstr :=
  let strings := blob_strings host args in
  strings ++ zeros (blob_off host args - strlen strings) ++
  word_bytes (arg_pointers base (strlen host + 1) args).

(** It is laid out in a buffer of [total] bytes. *)
Definition blob_in (total base : Z) (host : cstr) (args : list earg_t) : option cstr :=
  into (total + 1) (blob_of base host args).

(** 1 if the call was redirected, -1 if it was made to fail. *)
Definition commit_exec (path_slot argv_slot : Z) (host : cstr) (args : list earg_t) : M W Z :=
  let total := blob_total host args in
  base ← (if calloc 1 total && calloc (strlen args + 1) (word_size abi_arch) then emuroot_scratch total else mret 0);
  ok ← (if base =? 0 then mret false else blob ← defined (blob_in total base host args); mem_write base blob);
  if ok : bool then
    _ ← set_arg path_slot base;
    _ ← set_arg argv_slot (base + blob_off host args);
    _ ← store_regs_now;
    mret 1
  else
    _ ← set_arg path_slot 0;
    _ ← store_regs_now;
    mret (-1).

Definition emuroot_rewrite_exec (path_slot argv_slot : Z) : M W Z :=
  path_ptr ← arg path_slot; argv_ptr ← arg argv_slot;
  if (path_ptr =? 0) || (argv_ptr =? 0) then mret 0
  else
    exec_path ← mem_read_str path_ptr PATH_LEN;
    match exec_path with
    | None => mret 0
    | Some exec_path =>
        if negb (calloc EARGS (2 * word_size abi_arch)) then mret 0
        else
          args ← read_argv (Z.to_nat MAX_EXEC_ARGS) argv_ptr;
          _ ← require (strlen args <=? EARGS);
          if bool_decide (args = []) then mret 0
          else
            e ← expand MAX_SHEBANG_DEPTH (Expansion exec_path [] args false);
            if ex_rewritten e then commit_exec path_slot argv_slot (ex_host e) (ex_args e) else mret 0
    end.
End exec.

(** ** The size of the block *)

Section layout.
Context {abi : ABI}.
Notation wsz := (word_size abi_arch).

Lemma strlen_word_bytes ps : strlen (word_bytes ps) = strlen ps * wsz.
Proof.
  induction ps as [|p ps IH]; [done|]; change (word_bytes (p :: ps)) with (bytes_of abi_arch (Z.to_nat wsz) p ++ word_bytes ps); rewrite strlen_app, strlen_cons, IH.
  unfold strlen at 1; rewrite bytes_of_length, Z2Nat.id; [lia|]; unfold word_size; by destruct abi_arch.
Qed.

Lemma word_size_bits : word_bits abi_arch = 8 * wsz /\ 4 <= wsz <= 8.
Proof. unfold word_size; by destruct abi_arch. Qed.

Lemma align_up_16_spec x : 0 <= x -> x <= align_up_16 x < x + 16.
Proof. intros Hx; unfold align_up_16; destruct (align_down_16_spec (x + 15)) as [? _]; lia. Qed.

Lemma arg_pointers_length base args : forall off, length (arg_pointers base off args) = S (length args).
Proof. induction args as [|[s|p] args IH]; intros off; cbn [arg_pointers length]; by rewrite ?IH. Qed.

Lemma blob_parts base host args :
  strlen (blob_strings host args) = strlen host + 1 + strlen (made_bytes args) /\
  strlen (blob_strings host args) <= blob_off host args < strlen (blob_strings host args) + 16 /\
  strlen (blob_of base host args) = blob_off host args + (strlen args + 1) * wsz.
Proof.
  assert (strlen (blob_strings host args) = strlen host + 1 + strlen (made_bytes args)) as Hs.
  { unfold blob_strings; rewrite !strlen_app; change (strlen [NUL]) with 1; lia. }
  pose proof (align_up_16_spec _ (strlen_nonneg (blob_strings host args))) as Ha; split; [done|split; [done|]].
  unfold blob_of; rewrite !strlen_app, strlen_word_bytes; unfold blob_off in *.
  replace (strlen (arg_pointers _ _ args)) with (strlen args + 1) by (unfold strlen; rewrite arg_pointers_length; lia).
  unfold zeros, strlen at 2; rewrite length_replicate; lia.
Qed.

(** It fits the space asked for. *)
Lemma blob_fits base host args : 0 < strlen (blob_of base host args) <= blob_total host args.
Proof.
  destruct (blob_parts base host args) as (Hs & Ho & ->); unfold blob_total; destruct word_size_bits.
  pose proof (strlen_nonneg args); pose proof (strlen_nonneg host); pose proof (strlen_nonneg (made_bytes args)); nia.
Qed.
End layout.
