(* ===== verification/Rewrite.v ===== *)
(** Syscall entry, path side ([src/rewrite.c]): each path a traced call is about
    to resolve is replaced by its host path, written into the guest's own
    memory; a rewrite that cannot be done makes the call fail. *)

From Stdlib Require Import ZArith Lia Ascii String.
From stdpp Require Import base list numbers.
From S2P Require Import Prelude Stdio Arch Syscalls World Guest Creds Config Path Tracee PathArg Dac Identity Mounts.
From S2P Require Import Exec.
Local Open Scope Z_scope.
Local Open Scope emu_scope.

Section rewrite.
Context {abi : ABI} `{HostFS W, GuestMem W}.
Variable calloc : Z -> Z -> bool.

Definition fail_closed (slot : Z) : M W () :=
  _ ← set_arg slot 0; _ ← store_regs_now; mret ().

(** Is this a readlink of a path under /proc/, and of an "exe" link? *)
Definition note_proc_link (sysno which : Z) (guest : cstr) : M W () :=
  if strncmp_eq guest PROC_PREFIX 6 && (which =? 0) && is_readlink sysno then
    let n := strlen guest in
    modify_t (fun t => t <| proc_link := true |>
                         <| proc_link_exe := (4 <=? n) && strcmp_eq (zdrop (n - 4) guest) (lit "/exe") |>)
  else mret ().

(** Points the argument at a copy of [data] in scratch memory. *)
Definition redirect (slot : Z) (data : cstr) : M W bool :=
  scratch ← emuroot_scratch (strlen data);
  ok ← (if scratch =? 0 then mret false else mem_write scratch data);
  if ok : bool then _ ← set_arg slot scratch; mret true else mret false.

Definition rewrite_path_arg (sysno slot : Z) (follow : bool) (which : Z) : M W () :=
  ctx ← the_ctx; t ← the_t;
  if (slot =? 0) || (bool_decide (t_root t = []) && (nbindings ctx =? 0)) then mret ()
  else
    ptr ← arg slot;
    if ptr =? 0 then mret ()
    else
      given ← mem_read_str ptr PATH_LEN;
      match given with
      | None =>
          err ← ask guest_errno;
          if negb (err =? EFAULT) then fail_closed slot else mret ()
      | Some [] => mret ()
      | Some given =>
          strict ← (if is_slash (chr_at given 0) then mret false else strict_openat2 sysno slot);
          if strict : bool then mret ()
          else
            guest ← absolute_guest_path (dirfd_slot sysno slot) given (2 * PATH_LEN);
            match guest with
            | None => mret ()
            | Some guest =>
                _ ← note_proc_link sysno which guest;
                tr ← translate guest follow PATH_LEN 1;
                t ← the_t;
                _ ← (if has_fake_ids ctx && (effective (uid (t_creds t)) =? 0)
                     then emuroot_grant_access sysno which (tr_host tr) else mret ());
                _ ← (if verbose ctx then modify_t (fun t => t <| logged := true |>) else mret ());
                if negb (tr_changed tr) then mret ()
                else
                  ok ← redirect slot (tr_host tr ++ [NUL]);
                  if ok : bool then _ ← store_regs_now; mret () else fail_closed slot
            end
      end.

(** ** Unix socket addresses *)

Definition SUN_SIZE : Z := 110.        (* sizeof(struct sockaddr_un) *)
Definition SUN_PATH : Z := 2.          (* offsetof(struct sockaddr_un, sun_path) *)
Definition SUN_PATH_SIZE : Z := 108.
Definition AF_UNIX : Z := 1.

Definition rewrite_sockaddr (addr_slot len_slot : Z) : M W () :=
  addr ← arg addr_slot; given_len ← arg len_slot;
  let len := if given_len <? SUN_SIZE then given_len else SUN_SIZE in
  if (addr =? 0) || (len <=? SUN_PATH) then mret ()
  else
    r ← mem_read_into SUN_SIZE addr len;
    let sun := overlay (default [] r) (zeros SUN_SIZE) in
    let sun_path := zdrop SUN_PATH sun in
    if negb (bool_decide (strlen <$> r = Some len)) ||
       negb (value_of abi_arch (ztake 2 sun) =? AF_UNIX) || negb (is_slash (chr_at sun_path 0)) then mret ()
    else
      tr ← translate (snprintf PATH_LEN (c_str sun_path)) true PATH_LEN 1;
      let host := tr_host tr in
      if negb (tr_changed tr) || (SUN_PATH_SIZE <=? strlen host) then mret ()
      else
        host ← defined (into SUN_PATH_SIZE host);
        ok ← redirect addr_slot (ztake SUN_PATH sun ++ host ++ zeros (SUN_PATH_SIZE - strlen host));
        if ok : bool then
          _ ← set_arg len_slot (SUN_PATH + strlen host + 1);
          _ ← store_regs_now; mret ()
        else fail_closed addr_slot.

(** ** Entry *)

(** The per-call state is cleared and the arguments saved. *)
Definition start_call (sysno : Z) : M W () :=
  regs ← the_regs;
  modify_t (fun t => t
    <| t_sysno := sysno |>
    <| scratch_top := align_down_16 (uword abi_arch (Arch.get abi_arch SP regs - SCRATCH_MARGIN)) |>
    <| proc_link := false |> <| proc_link_exe := false |>
    <| pending_exe := [] |> <| chown_valid := false |> <| created := [] |>
    <| pending_root := [] |> <| mount_handled := false |>
    <| t_args := (fun i => Arch.reg_arg abi_arch i regs) <$> [1; 2; 3; 4; 5; 6] |>).

(** After the identity and mount handlers: redirect what the call names. *)
Definition redirect_call (sysno : Z) : M W () :=
  done_ ← (if is_nr NR_execve sysno then rc ← emuroot_rewrite_exec calloc 1 2; mret (negb (rc =? 0))
           else mret false);
  if done_ : bool then mret ()
  else if is_nr NR_bind sysno then rewrite_sockaddr 2 3
  else if is_nr NR_connect sysno then rewrite_sockaddr 2 3
  else if is_nr NR_sendto sysno then rewrite_sockaddr 5 6
  else
    match emuroot_find_path_syscall sysno with
    | Some d =>
        _ ← emuroot_note_creation sysno d;
        follow ← emuroot_follow_last d;
        _ ← rewrite_path_arg sysno (slot1 d) follow 0;
        rewrite_path_arg sysno (slot2 d) false 1
    | None =>
        if is_nr NR_execve sysno then rewrite_path_arg sysno 1 true 0
        else if is_nr NR_execveat sysno then rewrite_path_arg sysno 2 true 0
        else mret ()
    end.

Definition emuroot_on_entry : M W () :=
  regs ← the_regs;
  let sysno := slong abi_arch (Arch.get abi_arch SYSNO regs) in
  _ ← start_call sysno;
  ctx ← the_ctx;
  handled ← (if has_fake_ids ctx then
               let a := emuroot_action_of sysno in
               _ ← emuroot_identity_entry sysno a;
               emuroot_emulate_mounts sysno a
             else mret false);
  if handled : bool then mret () else redirect_call sysno.
End rewrite.
