(* ===== verification/Fake.v ===== *)
(** Syscall exit ([src/fake.c]): the result of a call that has just run is
    patched to match the fake root - credentials, file owners, working
    directory, /proc links, uname, emulated chroot and mounts. *)

From Stdlib Require Import ZArith Lia Ascii String.
From stdpp Require Import base list numbers.
From S2P Require Import Prelude Arch Syscalls World Guest Creds Owners Config Path Tracee PathArg Exec.
Local Open Scope Z_scope.
Local Open Scope emu_scope.

(** Where, in a stat buffer, the fields that identify a file and its owner are. *)
Record stat_layout := StatLayout {
  l_uid : Z;
  l_gid : Z;
  l_dev : Z;
  l_ino : Z;
  l_statx : bool        (* statx stores the device as major / minor halves *)
}.

Definition statx_layout : stat_layout := StatLayout 20 24 136 32 true.

(** glibc's makedev. *)
Definition makedev (major minor : Z) : Z :=
  Z.lor (Z.lor (Z.shiftl (Z.ldiff major 0xfff) 32) (Z.shiftl (Z.land major 0xfff) 8))
        (Z.lor (Z.shiftl (Z.ldiff minor 0xff) 12) (Z.land minor 0xff)).

Section fake.
Context {abi : ABI} `{HostFS W, GuestMem W}.
Variable calloc : Z -> Z -> bool.
(** [offsetof] the fields in the kernel's struct stat of the target. *)
Variable kstat : stat_layout.

(** A little number of the guest, read in full. *)
Definition read_num (addr n : Z) : M W (option Z) :=
  r ← mem_read (uword abi_arch addr) n;
  mret (match r with
        | Some s => if strlen s =? n then Some (value_of abi_arch s) else None
        | None => None
        end).
Definition write_u32 (addr v : Z) : M W () :=
  _ ← mem_write (uword abi_arch addr) (bytes_of abi_arch 4 v); mret ().

Definition file_dev (buf : Z) (l : stat_layout) : M W (option Z) :=
  if l_statx l then
    major ← read_num (buf + l_dev l) 4;
    match major with
    | None => mret None
    | Some major =>
        minor ← read_num (buf + l_dev l + 4) 4;
        mret (makedev major <$> minor)
    end
  else
    r ← mem_read (uword abi_arch (buf + l_dev l)) 8;
    mret (match r with
          | Some s => if strlen s <? 4 then None else Some (value_of abi_arch (overlay s (zeros 8)))
          | None => None
          end).

Definition fake_owner (buf : Z) (l : stat_layout) : M W () :=
  if buf =? 0 then mret ()
  else
    u ← read_num (buf + l_uid l) 4;
    match u with None => mret () | Some u =>
    g ← read_num (buf + l_gid l) 4;
    match g with None => mret () | Some g =>
    ino ← read_num (buf + l_ino l) 8;
    match ino with None => mret () | Some ino =>
    dev ← file_dev buf l;
    match dev with None => mret () | Some dev =>
      ctx ← the_ctx;
      owner ← defined (owner_lookup (owners ctx) dev ino);
      match owner with
      | Some (ou, og) => _ ← write_u32 (buf + l_uid l) ou; write_u32 (buf + l_gid l) og
      | None =>
          euid ← ask host_euid; egid ← ask host_egid;
          _ ← (if u =? euid then write_u32 (buf + l_uid l) (fake_uid ctx) else mret ());
          if g =? egid then write_u32 (buf + l_gid l) (fake_gid ctx) else mret ()
      end
    end end end end.

(** [EMU_RET(regs) = v; regs_set(pid, regs)] *)
Definition set_result (v : Z) : M W () :=
  regs ← the_regs; _ ← put_regs (put abi_arch RET v regs); _ ← store_regs_now; mret ().

Definition saved_arg (t : tracee_t) (i : nat) : Z := nth i (t_args t) 0.

(** A buffer of [PATH_LEN] bytes used as a string: undefined if no NUL is left. *)
Definition terminated (buf : cstr) : option cstr := if strlen buf <? PATH_LEN then Some buf else None.

Definition map_proc_link (len : Z) : M W () :=
  t ← the_t; ctx ← the_ctx;
  let at_ := if is_nr NR_readlinkat (t_sysno t) then 1%nat else 0%nat in
  let buf := saved_arg t (1 + at_) in
  let size := saved_arg t (2 + at_) in
  if PATH_LEN <=? len then mret ()
  else
    r ← mem_read_into PATH_LEN buf len;
    match r with
    | Some host =>
        if negb (strlen host =? len) then mret ()
        else
          host ← defined (into PATH_LEN host);
          answer ← (if proc_link_exe t && negb (bool_decide (t_exe t = []))
                    then exe ← defined (terminated (t_exe t)); mret (Some exe)
                    else mret (emuroot_host_to_guest ctx (t_root t) (c_str host) PATH_LEN));
          match answer with
          | None => mret ()
          | Some answer =>
              let n := if strlen answer <? size then strlen answer else size in
              ok ← mem_write buf (ztake n answer);
              if ok : bool then
                fresh ← on_world (fun w => regs_fetch w (t_pid t));
                match fresh with
                | Some regs =>
                    _ ← on_world (fun w => regs_store w (t_pid t) (put abi_arch RET n regs)); mret ()
                | None => mret ()
                end
              else mret ()
          end
    | None => mret ()
    end.

(** The working directory reported to the guest. *)
Definition fake_getcwd (ret : Z) : M W () :=
  if ret <=? 0 then mret ()
  else
    buf ← arg 1;
    cwd ← mem_read_str buf PATH_LEN;
    ctx ← the_ctx; t ← the_t;
    match cwd ≫= fun cwd => emuroot_host_to_guest ctx (t_root t) cwd PATH_LEN with
    | None => mret ()
    | Some guest =>
        ok ← mem_write buf (guest ++ [NUL]);
        if ok : bool then set_result (strlen guest + 1) else mret ()
    end.

(** struct utsname: six fields of 65 bytes. *)
Definition UTSNAME_SIZE : Z := 6 * UNAME_LEN.
Definition set_uts (i : Z) (s : cstr) (u : cstr) : cstr :=
  let field := overlay (snprintf UNAME_LEN s ++ [NUL]) (ztake UNAME_LEN (zdrop (i * UNAME_LEN) u)) in
  ztake (i * UNAME_LEN) u ++ field ++ zdrop ((i + 1) * UNAME_LEN) u.

Definition fake_uname (ret : Z) : M W () :=
  ctx ← the_ctx;
  if negb (has_fake_uname ctx) || negb (ret =? 0) then mret ()
  else
    buf ← arg 1;
    r ← mem_read buf UTSNAME_SIZE;
    match r with
    | Some u =>
        if negb (strlen u =? UTSNAME_SIZE) then mret ()
        else
          let u := set_uts 0 (uname_sysname ctx) u in
          let u := set_uts 2 (uname_release ctx) u in
          let u := set_uts 4 (uname_machine ctx) u in
          _ ← mem_write buf u; mret ()
    | None => mret ()
    end.

(** ** Credentials and owners *)

(** The emulated call on the credentials, and its result. *)
Definition set_creds (f : creds_t -> creds_t * Z) : M W Z :=
  t ← the_t;
  let '(c, r) := f (t_creds t) in
  _ ← put_t (t <| t_creds := c |>); mret r.

Fixpoint write_ids (addrs ids : list Z) : M W () :=
  match addrs, ids with
  | a :: addrs, i :: ids => _ ← write_u32 a i; write_ids addrs ids
  | _, _ => mret ()
  end.

Definition group_bytes (gs : list Z) : cstr := concat (map (bytes_of abi_arch 4) gs).

Definition fake_getgroups (t : tracee_t) : M W Z :=
  let c := t_creds t in
  let size := slong abi_arch (saved_arg t 0) in
  if negb (size =? 0) && (size <? ngroups c) then mret (- EINVAL)
  else if negb (size =? 0) then
    _ ← mem_write (saved_arg t 1) (group_bytes (group_list c)); mret (ngroups c)
  else mret (ngroups c).

Definition fake_setgroups (t : tracee_t) : M W Z :=
  let n := slong abi_arch (saved_arg t 0) in
  if (0 <? n) && (n <=? CREDS_MAX_GROUPS) then
    r ← mem_read_into (CREDS_MAX_GROUPS * 4) (saved_arg t 1) (n * 4);
    match r with
    | Some s =>
        if strlen s =? n * 4 then
          set_creds (fun c => creds_setgroups c
            ((fun i => value_of abi_arch (ztake 4 (zdrop (4 * Z.of_nat i) s))) <$> seq 0 (Z.to_nat n)) n)
        else mret (- EFAULT)
    | None => mret (- EFAULT)
    end
  else set_creds (fun c => creds_setgroups c [] n).

Definition fake_chown (t : tracee_t) (ret : Z) : M W Z :=
  let forgiven := (ret =? - EPERM) || (ret =? - EINVAL) in
  _ ← (if chown_valid t && ((ret =? 0) || forgiven) then
         ctx ← the_ctx;
         let u := if chown_uid t =? NOID then chown_cur_uid t else chown_uid t in
         let g := if chown_gid t =? NOID then chown_cur_gid t else chown_gid t in
         o ← defined (owner_set calloc (owners ctx) (chown_dev t) (chown_ino t) u g);
         set_ctx (with_owners ctx o)
       else mret ());
  mret (if forgiven then 0 else ret).

(** The switch: what the guest will see as the result. *)
Definition fake_result (a : action) (ret : Z) : M W Z :=
  t ← the_t;
  let c := t_creds t in
  let a_ := fun i => w32 (saved_arg t i) in
  match a with
  | A_GETUID => mret (real (uid c))
  | A_GETEUID => mret (effective (uid c))
  | A_GETGID => mret (real (gid c))
  | A_GETEGID => mret (effective (gid c))
  | A_GETRESUID =>
      _ ← write_ids [saved_arg t 0; saved_arg t 1; saved_arg t 2] [real (uid c); effective (uid c); saved (uid c)]; mret 0
  | A_GETRESGID =>
      _ ← write_ids [saved_arg t 0; saved_arg t 1; saved_arg t 2] [real (gid c); effective (gid c); saved (gid c)]; mret 0
  | A_GETGROUPS => fake_getgroups t
  | A_SETUID => set_creds (fun c => creds_setuid c (a_ 0%nat))
  | A_SETGID => set_creds (fun c => creds_setgid c (a_ 0%nat))
  | A_SETREUID => set_creds (fun c => creds_setreuid c (a_ 0%nat) (a_ 1%nat))
  | A_SETREGID => set_creds (fun c => creds_setregid c (a_ 0%nat) (a_ 1%nat))
  | A_SETRESUID => set_creds (fun c => creds_setresuid c (a_ 0%nat) (a_ 1%nat) (a_ 2%nat))
  | A_SETRESGID => set_creds (fun c => creds_setresgid c (a_ 0%nat) (a_ 1%nat) (a_ 2%nat))
  | A_SETFSUID => set_creds (fun c => creds_setfsuid c (a_ 0%nat))
  | A_SETFSGID => set_creds (fun c => creds_setfsgid c (a_ 0%nat))
  | A_SETGROUPS => fake_setgroups t
  | A_CHOWN => fake_chown t ret
  | A_STAT_2 => _ ← (if ret =? 0 then fake_owner (saved_arg t 1) kstat else mret ()); mret ret
  | A_STAT_3 => _ ← (if ret =? 0 then fake_owner (saved_arg t 2) kstat else mret ()); mret ret
  | A_STATX => _ ← (if ret =? 0 then fake_owner (saved_arg t 4) statx_layout else mret ()); mret ret
  | _ => mret ret
  end.

(** A file this call may just have made: its owner is recorded. *)
Definition record_created (ret : Z) : M W () :=
  t ← the_t;
  if bool_decide (created t = []) then mret ()
  else
    st ← ask (fun w => fs_lstat w (created t));
    _ ← (match st with
         | Some st =>
             if 0 <=? ret then
               ctx ← the_ctx;
               o ← defined (owner_set calloc (owners ctx) (st_dev st) (st_ino st)
                                      (fsuid (t_creds t)) (fsgid (t_creds t)));
               set_ctx (with_owners ctx o)
             else mret ()
         | None => mret ()
         end);
    modify_t (fun t => t <| created := [] |>).

Definition emuroot_on_exit : M W () :=
  regs ← the_regs;
  let ret := slong abi_arch (get abi_arch RET regs) in
  _ ← modify_t (fun t => t <| logged := false |>);
  _ ← record_created ret;
  t ← the_t; ctx ← the_ctx;
  let finish_ids (a : action) : M W () :=
    if negb (has_fake_ids ctx) then mret ()
    else
      result ← fake_result a ret;
      if negb (result =? ret) then set_result result else mret () in
  match emuroot_action_of (t_sysno t) with
  | None => mret ()
  | Some A_GETCWD => fake_getcwd ret
  | Some A_EXECVE => if ret =? 0 then put_t (t <| t_exe := pending_exe t |>) else mret ()
  | Some A_CHROOT =>
      if bool_decide (pending_root t = []) then finish_ids A_CHROOT
      else _ ← put_t (t <| t_root := snprintf PATH_LEN (pending_root t) |> <| pending_root := [] |>); set_result 0
  | Some A_MOUNT => if mount_handled t then set_result 0 else finish_ids A_MOUNT
  | Some A_UMOUNT => if mount_handled t then set_result 0 else finish_ids A_UMOUNT
  | Some A_READLINK => if negb (proc_link t) || (ret <=? 0) then mret () else map_proc_link ret
  | Some A_UNAME => fake_uname ret
  | Some a => finish_ids a
  end.
End fake.
