(* ===== verification/Safety.v ===== *)
(** Memory safety and termination of the syscall handlers: where they can end in
    abort() or in undefined behaviour (two known cases), and that otherwise they
    return and keep the engine's state well formed (strings inside their C
    buffers, credentials and registers in range, the binding and ownership tables
    sound). *)

From Stdlib Require Import ZArith Lia Ascii String.
From stdpp Require Import base list numbers.
From S2P Require Import Prelude Stdio Arch Syscalls World Guest ToyKernel GuestFacts Creds Owners Config Path PathFacts.
From S2P Require Import Tracee PathArg Dac Identity Mounts Exec Rewrite Fake.
Local Open Scope Z_scope.
Local Open Scope emu_scope.

(** [exe] and [pending_exe] may fill their buffers without a NUL: see
    [guest_absolute_unterminated]. *)
Definition tracee_wf (ar : arch) (t : tracee_t) : Prop :=
  strlen (t_root t) < PATH_LEN /\ strlen (t_exe t) <= PATH_LEN /\ strlen (pending_exe t) <= PATH_LEN /\
  strlen (created t) < PATH_LEN /\ strlen (pending_root t) < PATH_LEN /\
  is_addr ar (scratch_top t) /\ creds_wf (t_creds t).

Definition engine_wf {W} (ar : arch) (s : engine W) : Prop :=
  ctx_wf (e_ctx s) /\ tracee_wf ar (e_t s) /\ regs_wf ar (e_regs s).

(** The same for the process [the_pid] running the program [the_exe]: no handler
    changes whose state it is, and only a successful execve what it runs. *)
Class Proc := { the_pid : Z; the_exe : cstr }.
Definition tracee_at {proc : Proc} (ar : arch) (t : tracee_t) : Prop :=
  tracee_wf ar t /\ t_pid t = the_pid /\ t_exe t = the_exe.
Definition engine_at {proc : Proc} {W} (ar : arch) (s : engine W) : Prop :=
  ctx_wf (e_ctx s) /\ tracee_at ar (e_t s) /\ regs_wf ar (e_regs s).

Definition proc_of (t : tracee_t) : Proc := {| the_pid := t_pid t; the_exe := t_exe t |}.

Lemma engine_wf_at {W} ar (s : engine W) : engine_wf ar s -> engine_at (proc := proc_of (e_t s)) ar s.
Proof. by intros (?&?&?). Qed.

Lemma engine_at_wf {proc : Proc} {W} ar (s : engine W) : engine_at ar s -> engine_wf ar s /\ t_pid (e_t s) = the_pid.
Proof. by intros (?&(?&?&?)&?). Qed.

(** ** The rules *)

(** When a handler may end otherwise than by returning: in [abort()], in
    undefined behaviour. *)
Class Endings := { may_abort : Prop; may_overrun : Prop }.

Section safe.
Context {abi : ABI} {proc : Proc} {endings : Endings} `{HostFS W, GuestMem W}.

(** From a well-formed state the handler returns, with a result that satisfies
    [P], in a well-formed state. *)
Definition safe {A} (m : M W A) (P : A -> Prop) : Prop :=
  forall s, engine_at abi_arch s ->
  match m s with Done (x, s') => P x /\ engine_at abi_arch s' | Aborted => may_abort | Undefined => may_overrun end.

Definition any {A} : A -> Prop := fun _ => True.

Lemma safe_ret {A} (x : A) (P : A -> Prop) : P x -> safe (mret x) P.
Proof. by intros Hx s Hs. Qed.

Lemma safe_bind {A B} (m : M W A) (f : A -> M W B) P Q :
  safe m P -> (forall x, P x -> safe (f x) Q) -> safe (m ≫= f) Q.
Proof.
  intros Hm Hf s Hs; specialize (Hm s Hs); unfold mbind, M_bind; destruct (m s) as [[x s1]| |]; [|done|done].
  destruct Hm as [Hx Hs1]; by apply Hf.
Qed.

Lemma safe_mono {A} (m : M W A) (P Q : A -> Prop) : (forall x, P x -> Q x) -> safe m P -> safe m Q.
Proof. intros HPQ Hm s Hs; specialize (Hm s Hs); destruct (m s) as [[x s1]| |]; naive_solver. Qed.

Lemma safe_any {A} (m : M W A) (P : A -> Prop) : safe m P -> safe m any.
Proof. by apply safe_mono. Qed.

Lemma safe_pure {A} (f : engine W -> A) (P : A -> Prop) :
  (forall s, engine_at abi_arch s -> P (f s)) -> safe (fun s => Done (f s, s)) P.
Proof. intros Hf s Hs; auto. Qed.

Lemma safe_the_ctx : safe the_ctx ctx_wf.
Proof. apply safe_pure; by intros s (?&?&?). Qed.

Lemma safe_the_t : safe the_t (tracee_at abi_arch).
Proof. apply safe_pure; by intros s (?&?&?). Qed.

Lemma safe_the_regs : safe the_regs (regs_wf abi_arch).
Proof. apply safe_pure; by intros s (?&?&?). Qed.

Lemma safe_the_world : safe the_world any.
Proof. by apply safe_pure. Qed.

Lemma safe_the_loaders : safe the_loaders any.
Proof. by apply safe_pure. Qed.

Lemma safe_ask {A} (f : W -> A) : safe (ask f) any.
Proof. by apply safe_pure. Qed.

Lemma safe_arg n : safe (arg n) (is_addr abi_arch).
Proof. apply safe_pure; intros s (_&_&Hr); unfold Arch.reg_arg; by apply get_range. Qed.

Lemma safe_on_world {A} (f : W -> W * A) : safe (on_world f) any.
Proof. intros s Hs; unfold on_world; by destruct (f (e_world s)) as [w x]. Qed.

Lemma safe_state_world {A} (f : engine W -> W -> W * A) : safe (fun s => on_world (f s) s) any.
Proof. intros s Hs; by apply safe_on_world. Qed.

Lemma safe_mem_read a n : safe (mem_read a n) any.
Proof. apply (safe_state_world (fun s w => guest_read w _ a n)). Qed.

Lemma safe_mem_write a d : safe (mem_write a d) any.
Proof. apply (safe_state_world (fun s w => guest_write w _ a d)). Qed.

Lemma safe_mem_read_str a n : safe (mem_read_str a n) any.
Proof. apply (safe_state_world (fun s w => guest_read_str _ w _ a n)). Qed.

Lemma safe_store_regs : safe store_regs_now any.
Proof. apply (safe_state_world (fun s w => regs_store w _ _)). Qed.

Lemma safe_set_arg n v : safe (set_arg n v) any.
Proof. intros s (?&?&?); split; [done|]; split; [done|split; [done|by apply put_wf]]. Qed.

Lemma safe_put_regs r : regs_wf abi_arch r -> safe (put_regs r) any.
Proof. by intros Hr s (?&?&?). Qed.

Lemma safe_set_ctx c : ctx_wf c -> safe (set_ctx c) any.
Proof. by intros Hc s (?&?&?). Qed.

Lemma safe_set_loaders l : safe (set_loaders l) any.
Proof. by intros s Hs. Qed.

Lemma safe_put_t t : tracee_at abi_arch t -> safe (put_t t) any.
Proof. by intros Ht s (?&?&?). Qed.

Lemma safe_modify_t f : (forall t, tracee_at abi_arch t -> tracee_at abi_arch (f t)) -> safe (modify_t f) any.
Proof. intros Hf s (?&?&?); split; [done|]; split; [done|split; [by apply Hf|done]]. Qed.

Lemma safe_defined {A} (o : option A) (P : A -> Prop) : (exists x, o = Some x /\ P x) -> safe (defined o) P.
Proof. by intros (x & -> & Hx) s Hs. Qed.

Lemma safe_require b : b = true -> safe (require b) any.
Proof. by intros -> s Hs. Qed.

Lemma safe_into sz x : strlen x < sz -> safe (defined (into sz x)) (fun y => strlen y < sz).
Proof. intros Hx; apply safe_defined; exists x; by rewrite into_fits. Qed.

Lemma ztake_buf (s : cstr) : strlen (ztake (PATH_LEN - 1) s) < PATH_LEN.
Proof. pose proof (strlen_ztake_le (PATH_LEN - 1) s); unfold PATH_LEN in *; lia. Qed.

Lemma safe_mem_read_into cap a n : n <= cap -> safe (mem_read_into cap a n) any.
Proof.
  intros Hn; unfold mem_read_into; eapply safe_bind; [apply safe_require; by apply Z.leb_le|intros _ _; apply safe_mem_read].
Qed.
End safe.

(** One rule of the proof of [safe m P]: the shape of [m] decides. *)
Ltac safe_step :=
  lazymatch goal with
  | |- safe (mbind _ (defined (into _ _))) _ => eapply safe_bind; [apply safe_into; try apply ztake_buf|intros ? ?]
  | |- safe (mbind _ (require _)) _ => eapply safe_bind; [apply safe_require|intros ? _]
  | |- safe (mbind _ _) _ => first
      [ eapply safe_bind; [first [ apply safe_the_ctx | apply safe_the_t | apply safe_the_regs | apply safe_arg
                                 | solve [eauto with safe] ]|intros]
      | eapply (safe_bind _ _ any); [|intros ? _] ]
  | |- safe (mret _) _ => apply safe_ret
  | |- safe (if ?b then _ else _) _ => destruct b eqn:?
  | |- safe (match ?x with _ => _ end) _ => destruct x eqn:?
  | |- safe the_world _ => apply safe_the_world
  | |- safe the_loaders _ => apply safe_the_loaders
  | |- safe (ask _) _ => apply safe_ask
  | |- safe (on_world _) _ => apply safe_on_world
  | |- safe (mem_read _ _) _ => apply safe_mem_read
  | |- safe (mem_write _ _) _ => apply safe_mem_write
  | |- safe (mem_read_str _ _) _ => apply safe_mem_read_str
  | |- safe store_regs_now _ => apply safe_store_regs
  | |- safe (set_arg _ _) _ => apply safe_set_arg
  | |- safe (set_loaders _) _ => apply safe_set_loaders
  | |- safe (modify_t _) _ => apply safe_modify_t
  | |- safe (put_t _) _ => apply safe_put_t
  | |- safe (put_regs _) _ => apply safe_put_regs
  | |- safe (mem_read_into _ _ _) _ => apply safe_mem_read_into
  | |- safe (set_ctx _) _ => apply safe_set_ctx
  | |- safe (arg _) any => eapply safe_any, safe_arg
  | |- safe _ any => first [ solve [eauto with safe] | eapply safe_any; solve [eauto with safe] ]
  | |- any _ => exact I
  end.
Ltac safe_auto := cbv zeta; repeat (safe_step; cbv zeta).
(** A tracee with some fields replaced is still well formed. *)
Ltac tracee_fields := intros; unfold tracee_at, tracee_wf in *; destruct_and?; split_and?; try done; simpl; eauto.
Create HintDb safe.

(** ** Path arguments *)

Section handlers.
Context {abi : ABI} {proc : Proc} {endings : Endings} `{HostFS W, GuestMem W}.
Hypothesis links_nonempty : forall w p, fs_readlink w p <> Some [].

Lemma strlen_unless s : strlen (unless_slash s) <= strlen s.
Proof. unfold unless_slash; case_ifs; [apply strlen_nonneg|lia]. Qed.

Lemma align_down_range ar x : is_addr ar x -> is_addr ar (align_down_16 x).
Proof.
  unfold is_addr, align_down_16; intros Hx; change 15 with (Z.ones 4); rewrite Z.ldiff_ones_r by lia.
  rewrite Z.shiftl_mul_pow2, Z.shiftr_div_pow2 by lia.
  pose proof (Z.div_mod x (2 ^ 4) ltac:(lia)); pose proof (Z.mod_pos_bound x (2 ^ 4) ltac:(lia)).
  assert (0 <= x / 2 ^ 4) by (apply Z.div_pos; lia); lia.
Qed.

Lemma safe_scratch len : safe (emuroot_scratch len : M W Z) any.
Proof.
  unfold emuroot_scratch; safe_auto.
  unfold tracee_at, tracee_wf in *; destruct_and?; split_and?; try done; apply align_down_range, uword_range.
Qed.

Lemma safe_read_words a n : safe (read_words a n) any.
Proof. unfold read_words; safe_auto. Qed.
#[local] Hint Resolve safe_scratch safe_read_words : safe.

Lemma safe_follow_last d : safe (emuroot_follow_last d) any.
Proof. unfold emuroot_follow_last; safe_auto. Qed.

Definition fits (n : Z) (o : option cstr) : Prop := forall s, o = Some s -> strlen s < n.

Lemma safe_absolute fd p size : 0 < size -> safe (absolute_guest_path fd p size) (fits size).
Proof.
  intros Hs; unfold absolute_guest_path; safe_auto; unfold fits; intros q; try done; [by intros [= <-]; apply strlen_snprintf|].
  intros (g & _ & ->)%fmap_Some; by apply strlen_snprintf.
Qed.
#[local] Hint Resolve safe_follow_last : safe.

Lemma safe_given_path slot : safe (given_path slot) any.
Proof. unfold given_path; safe_auto. Qed.

Lemma safe_strict sysno slot : safe (strict_openat2 sysno slot) any.
Proof. unfold strict_openat2; safe_auto. Qed.

Definition fits_tr (n m : Z) (tr : translation) : Prop := strlen (tr_host tr) < n /\ strlen (tr_guest tr) < m.

Lemma safe_translate g fl n m :
  strlen g < 2 * PATH_LEN -> 0 < n -> 0 < m -> safe (translate g fl n m) (fits_tr n m).
Proof.
  intros Hg Hn Hm; unfold translate.
  eapply safe_bind; [apply safe_the_ctx|intros ctx _].
  eapply safe_bind; [apply safe_the_t|intros t _].
  eapply safe_bind; [apply safe_the_world|intros w _]; apply safe_defined.
  destruct (translate_defined (fs_readlink w) ctx (t_root t) g fl n m (links_nonempty w) Hg) as [tr Htr].
  rewrite Htr; exists tr; split; [done|]; by eapply translate_fits.
Qed.
#[local] Hint Resolve safe_given_path safe_strict : safe.

Lemma PATH_LEN_pos : 0 < PATH_LEN.
Proof. done. Qed.
Lemma PATH_LEN2_pos : 0 < 2 * PATH_LEN.
Proof. done. Qed.
#[local] Hint Resolve PATH_LEN_pos PATH_LEN2_pos : safe.

Lemma safe_host_path_arg sysno slot fl : safe (emuroot_host_path_arg sysno slot fl) (fits PATH_LEN).
Proof.
  unfold emuroot_host_path_arg; eapply safe_bind; [apply safe_given_path|]; intros [given|] _; [|by apply safe_ret].
  eapply safe_bind; [apply safe_absolute; done|]; intros [g|] Hg.
  - eapply safe_bind; [apply safe_translate; [by apply Hg|done|done]|]; intros tr [Htr _].
    apply safe_ret; by intros ? [= <-].
  - apply safe_ret; intros ? [= <-]; by apply strlen_snprintf.
Qed.

Lemma safe_guest_path_arg sysno slot :
  safe (emuroot_guest_path_arg sysno slot) (fun o => forall g h, o = Some (g, h) -> strlen g < PATH_LEN).
Proof.
  unfold emuroot_guest_path_arg; eapply safe_bind; [apply safe_given_path|]; intros [given|] _; [|by apply safe_ret].
  eapply safe_bind; [apply safe_absolute; done|]; intros [g|] Hg; [|by apply safe_ret].
  eapply safe_bind; [apply safe_translate; [by apply Hg|done|done]|]; intros tr [_ Htr].
  apply safe_ret; by intros ? ? [= <- <-].
Qed.
#[local] Hint Resolve safe_host_path_arg safe_guest_path_arg : safe.

Lemma safe_grant sysno which h : safe (emuroot_grant_access sysno which h) any.
Proof. unfold emuroot_grant_access; safe_auto. Qed.

(** ** Identity *)

Lemma safe_neutralize_id a : safe (neutralize_id_change a) any.
Proof. unfold neutralize_id_change; destruct a as [[]|]; safe_auto. Qed.

Lemma safe_chown_target sysno d : safe (chown_target sysno d) any.
Proof. unfold chown_target; safe_auto. Qed.
#[local] Hint Resolve safe_chown_target : safe.

Lemma safe_owner_lookup ctx d i :
  ctx_wf ctx -> safe (defined (owner_lookup (owners ctx) d i) : M W _) any.
Proof.
  intros (_&_&_&_&_&_&_&_&Ho&_); apply safe_defined; rewrite owner_lookup_spec by done; by eexists.
Qed.
#[local] Hint Resolve safe_owner_lookup safe_neutralize_id safe_grant : safe.


Lemma safe_note_chown sysno d : safe (note_chown sysno d) any.
Proof. unfold note_chown; safe_auto; tracee_fields. Qed.
#[local] Hint Resolve safe_note_chown : safe.

Lemma safe_note_creation sysno d : safe (emuroot_note_creation sysno d) any.
Proof.
  unfold emuroot_note_creation; safe_auto; tracee_fields; case_ifs; try done.
  all: match goal with Hf : fits _ _ |- _ => by apply Hf end.
Qed.

Lemma safe_identity sysno a : safe (emuroot_identity_entry sysno a) any.
Proof. unfold emuroot_identity_entry; safe_auto. Qed.
#[local] Hint Resolve safe_note_creation safe_identity : safe.

(** ** Mounts *)

Lemma safe_neutralize slot r : safe (neutralize slot r) any.
Proof. unfold neutralize; safe_auto. Qed.
#[local] Hint Resolve safe_neutralize : safe.

Lemma safe_emulate_chroot sysno d : d <> None -> safe (emulate_chroot sysno d) any.
Proof.
  intros Hd; destruct d as [d|]; [|done]; unfold emulate_chroot.
  eapply (safe_bind _ _ any); [apply safe_defined; by exists d|intros d' _]; safe_auto.
  tracee_fields; by apply strlen_snprintf.
Qed.

Lemma bind_at_wf ctx h g ht : ctx_wf ctx -> ctx_wf (bind_at ctx h g ht).
Proof.
  intros Hc; pose proof (config_step_wf ctx (BIND (Some h) (Some g)) Hc) as Hb; cbn [config_step] in Hb.
  unfold bind_at; destruct (emuroot_bind ctx (Some h) (Some g)) as [c rc]; cbn [fst] in Hb.
  destruct (rc =? EMUROOT_OK); [|done].
  destruct Hb as (?&?&?&Hbs&?&?&?&?&?&?&?); unfold ctx_wf; simpl; rewrite strlen_insert; split_and?; try done; try lia.
  apply Forall_insert; [done|]; destruct (get_binding_wf c (nbindings c - 1) Hbs) as (?&?&?&?&?).
  unfold binding_wf; simpl; split_and?; try done; by apply strlen_snprintf.
Qed.

Lemma safe_mount_source sysno fl : safe (mount_source sysno fl) any.
Proof. unfold mount_source; safe_auto. Qed.
#[local] Hint Resolve safe_mount_source : safe.

Lemma safe_emulate_mount sysno : safe (emulate_mount sysno) any.
Proof. unfold emulate_mount; safe_auto; [by apply bind_at_wf|tracee_fields..]. Qed.

Lemma safe_emulate_umount sysno : safe (emulate_umount sysno) any.
Proof.
  unfold emulate_umount; safe_auto; [|tracee_fields].
  match goal with Hc : ctx_wf ?c |- ctx_wf (emuroot_unbind ?c ?g).1 => apply (config_step_wf c (UNBIND g) Hc) end.
Qed.
#[local] Hint Resolve safe_emulate_mount safe_emulate_umount : safe.

(** The chroot entry of the tables exists whenever the action is A_CHROOT. *)
Lemma chroot_entry sysno : emuroot_action_of sysno = Some A_CHROOT -> emuroot_find_path_syscall sysno <> None.
Proof.
  unfold emuroot_action_of; rewrite action_syscalls_table; intros Ha Hp.
  apply fmap_Some in Ha as ([z a] & Hf & Ha); simpl in Ha; subst a.
  apply List.find_some in Hf as [Hin Hz]; simpl in Hz; bool_cases; subst z.
  unfold ifdef_table in Hin; apply list_elem_of_In in Hin; apply list_elem_of_bind in Hin as (t & Hin & Ht).
  destruct (keep_action t); [|by apply not_elem_of_nil in Hin].
  unfold ifdef in Hin; destruct (nr t.1.1) as [y|] eqn:Hn; [|by apply not_elem_of_nil in Hin].
  apply list_elem_of_singleton in Hin as [= Hz Ha]; subst y.
  destruct (chroot_action_name t Ht (eq_sym Ha)) as (e & He & Hname).
  unfold emuroot_find_path_syscall in Hp; rewrite path_syscalls_table in Hp.
  rewrite <- Hname in Hn.
  pose proof (List.find_none _ _ Hp (mk_path e sysno)) as Hnone; cbv beta in Hnone.
  assert (ps_sysno (mk_path e sysno) = sysno) as E by (by destruct e as [? [[[? ?] ?] ?]]).
  rewrite E, Z.eqb_refl in Hnone; discriminate Hnone.
  apply list_elem_of_In, list_elem_of_bind; exists e; split; [|done].
  unfold ifdef; rewrite Hn; by apply list_elem_of_singleton.
Qed.

Lemma safe_emulate_mounts sysno :
  safe (emuroot_emulate_mounts sysno (emuroot_action_of sysno)) any.
Proof.
  unfold emuroot_emulate_mounts; destruct (emuroot_action_of sysno) as [a|] eqn:Ha; [|safe_auto].
  destruct a; try (safe_auto; fail).
  eapply safe_bind; [apply safe_the_t|intros t _]; destruct (negb _); [by apply safe_ret|].
  eapply (safe_bind _ _ any); [by apply safe_emulate_chroot, chroot_entry|intros _ _]; safe_auto.
Qed.
#[local] Hint Resolve safe_emulate_mounts : safe.

(** ** Exec *)

Variable calloc : Z -> Z -> bool.

Hypothesis abort_ok : forall (w : W) s, strdup w s = false -> may_abort.

Lemma safe_dupstr s : safe (dupstr s) (fun y => y = s).
Proof.
  intros t Ht; unfold dupstr, mbind, M_bind, ask; pose proof (abort_ok (e_world t) s).
  destruct (strdup (e_world t) s); [done|]; unfold abort; auto.
Qed.

Lemma safe_loader p : safe (loader_has_argv0 p) any.
Proof. unfold loader_has_argv0; safe_auto; done. Qed.

Lemma safe_read_cwd : safe read_cwd (fun c => strlen c < PATH_LEN).
Proof.
  unfold read_cwd; eapply safe_bind; [apply safe_the_t|intros t _].
  eapply (safe_bind _ _ any); [safe_auto|intros r _]; apply safe_into, ztake_buf.
Qed.

Lemma safe_host_path_of p : strlen p < 2 * PATH_LEN -> safe (host_path_of p PATH_LEN) any.
Proof.
  intros Hp; unfold host_path_of; destruct (is_slash _).
  - eapply safe_bind; [by apply safe_translate|intros tr _]; safe_auto.
  - eapply safe_bind; [apply safe_read_cwd|intros cwd _]; destruct (_ <? _) eqn:E; [by apply safe_ret|]; bool_cases.
    eapply safe_any, safe_into; rewrite !strlen_app; change (strlen [SLASH]) with 1; lia.
Qed.

Lemma strlen_snprintf_le sz s : strlen (snprintf sz s) <= Z.max 0 (sz - 1).
Proof.
  unfold snprintf; destruct (Z.le_gt_cases (sz - 1) 0); [rewrite ztake_le_0 by done; rewrite strlen_nil; lia|].
  pose proof (strlen_ztake_le (sz - 1) s ltac:(lia)); lia.
Qed.

Lemma host_to_guest_fits ctx root host sz g :
  1 < sz -> emuroot_host_to_guest ctx root host sz = Some g -> strlen g < sz.
Proof.
  intros Hsz; unfold emuroot_host_to_guest, slash_if_empty.
  destruct (pick_longest _ _ _); [|destruct (_ && _); [|done]]; intros [= <-]; case_ifs; apply strlen_snprintf; lia.
Qed.

Lemma join_cwd_fits size gc p : strlen gc < size -> strlen (join_cwd size gc p) <= size.
Proof.
  intros Hgc; unfold join_cwd; rewrite snprintf_fits by done; pose proof (strlen_nonneg gc).
  assert (Hs : forall n, 0 < n -> strlen (snprintf n (ztake (n - 1) p)) < n) by (intros; by apply strlen_snprintf).
  destruct ((1 <? strlen gc) && (strlen gc <? size)).
  - destruct (strlen gc + 1 <? size) eqn:E; bool_cases; rewrite !strlen_app; change (strlen [SLASH]) with 1; [|lia].
    specialize (Hs (size - (strlen gc + 1))); lia.
  - destruct (strlen gc <? size) eqn:E; bool_cases; [|lia]; rewrite strlen_app; specialize (Hs (size - strlen gc)); lia.
Qed.

Lemma safe_guest_absolute p : safe (guest_absolute p PATH_LEN) (fun o => strlen o <= PATH_LEN).
Proof.
  unfold guest_absolute; destruct (is_slash _); [apply safe_ret; pose proof (strlen_snprintf PATH_LEN p PATH_LEN_pos); lia|].
  eapply safe_bind; [apply safe_the_t|intros t _]; eapply safe_bind; [apply safe_the_ctx|intros ctx _].
  eapply safe_bind; [apply safe_read_cwd|intros cwd _]; apply safe_ret.
  apply join_cwd_fits; case_ifs; [done|].
  destruct (emuroot_host_to_guest _ _ _ _) eqn:E; [by eapply host_to_guest_fits|done].
Qed.

Lemma safe_argv0 args : safe (argv0_of args) any.
Proof. unfold argv0_of; safe_auto. Qed.
#[local] Hint Resolve safe_loader safe_argv0 : safe.

Lemma safe_read_argv n : forall a, safe (read_argv n a) (fun args => (length args <= n)%nat).
Proof.
  induction n as [|n IH]; intros a; cbn [read_argv]; [by apply safe_ret|].
  eapply (safe_bind _ _ any); [safe_auto|intros [s|] _]; [|apply safe_ret; simpl; lia].
  destruct (_ && _); [|apply safe_ret; simpl; lia].
  eapply safe_bind; [apply IH|intros rest Hr]; apply safe_ret; cbn [length] in *; cbv beta in Hr; lia.
Qed.

(** The strings of an expansion fit their buffers, and its arguments the array
    with room for the strings of [n] more steps. *)
Definition expansion_fits (n : nat) (e : expansion) : Prop :=
  strlen (ex_path e) < PATH_LEN /\ (0 < length (ex_args e))%nat /\ strlen (ex_args e) + 3 * Z.of_nat n <= EARGS.

Lemma safe_replace_head args strs :
  (0 < length args)%nat -> strlen strs <= 4 -> strlen args + 3 <= EARGS ->
  safe (replace_head args 1 strs : M W _)
    (fun out => (0 < length strs -> 0 < length out)%nat /\ strlen out = strlen args + strlen strs - 1).
Proof.
  intros Ha Hs Hn; unfold replace_head; cbv zeta; set (out := (Made <$> strs) ++ drop 1 args).
  assert (strlen out = strlen args + strlen strs - 1) as Hl.
  { unfold out, strlen; rewrite length_app, length_fmap, length_drop; lia. }
  eapply safe_bind; [apply safe_require; rewrite (proj2 (Nat.leb_le _ _)) by lia; apply Z.leb_le; lia|intros _ _].
  apply safe_ret; split; [|done]; unfold strlen in *; lia.
Qed.

Lemma take_while_le {A} (f : A -> bool) s : strlen (take_while f s) <= strlen s.
Proof.
  induction s as [|c s IH]; simpl; [lia|]; destruct (f c); rewrite ?strlen_cons, ?strlen_nil; pose proof (strlen_nonneg s); lia.
Qed.

(** An interpreter found in a program is shorter than the buffer it is read in. *)
Lemma find_interp_fits w p c64 po ps n : forall i size,
  exists r, find_interp w p c64 po ps n i size = Some r /\ fits size r.
Proof.
  assert (Hnone : forall size, exists r, Some None = Some r /\ fits size r) by (intros size; by exists None).
  induction n as [|n IH]; intros i size; cbn [find_interp]; [apply Hnone|].
  destruct (pread_exact w p _ _) as [ph|]; [|apply Hnone].
  set (fs := if c64 then elf_field ph 32 8 else elf_field ph 16 4).
  destruct (_ =? PT_INTERP); [|by apply IH].
  destruct ((fs =? 0) || (size <=? fs)) eqn:Hf; [apply Hnone|]; bool_cases.
  destruct (pread_exact w p _ fs) as [x|] eqn:Hx; [|apply Hnone]; unfold pread_exact in Hx.
  destruct (_ <? 0); [done|]; destruct (fs_pread _ _ _ _) as [y|]; cbn [mbind option_bind] in Hx; [|done].
  destruct (strlen y =? fs) eqn:Hy; [injection Hx as <-|done]; bool_cases; rewrite into_fits by lia; cbn [mbind option_bind].
  eexists; split; [done|]; intros ? [= <-]; unfold c_str; pose proof (take_while_le not_nul y); lia.
Qed.

Lemma elf_interp_fits w p : exists r, elf_interp w p PATH_LEN = Some r /\ fits PATH_LEN r.
Proof.
  assert (Hnone : exists r, Some None = Some r /\ fits PATH_LEN r) by (by exists None).
  unfold elf_interp; destruct (pread_exact w p 0 16); [|apply Hnone].
  case_ifs; try apply Hnone; destruct (pread_exact w p 0 _); try apply Hnone; apply find_interp_fits.
Qed.

Lemma parse_shebang_defined head : exists r, parse_shebang head = Some r.
Proof.
  unfold parse_shebang; destruct head as [|a [|b [|c head]]]; try by eexists.
  destruct (_ && _); [|by eexists]; rewrite into_fits; [cbn [mbind option_bind]; case_ifs; by eexists|].
  pose proof (strlen_ztake_le (LINE_BUF - 1) (take_while not_newline (drop 2 (a :: b :: c :: head)))).
  unfold LINE_BUF in *; lia.
Qed.

Lemma safe_expand_elf interp e :
  expansion_fits 1 e -> strlen interp < PATH_LEN -> safe (expand_elf interp e) any.
Proof.
  intros (He & Hne & Hn) Hi; unfold expand_elf.
  eapply safe_bind; [apply safe_translate; [unfold PATH_LEN in *; lia|done|done]|intros tr _].
  cbv zeta; eapply (safe_bind _ _ any); [safe_auto|intros same _]; destruct same; [by apply safe_ret|].
  eapply safe_bind; [apply safe_dupstr|intros loader _]; eapply (safe_bind _ _ any); [safe_auto|intros argv0 _].
  eapply (safe_bind _ _ (fun lead => strlen lead <= 2)).
  { destruct argv0; [|by apply safe_ret]; eapply (safe_bind _ _ any); [safe_auto|intros a0 _].
    do 2 (eapply safe_bind; [apply safe_dupstr|intros ? _]); by apply safe_ret. }
  intros lead Hl; eapply safe_bind; [apply safe_dupstr|intros path _].
  eapply safe_bind; [apply safe_replace_head; [done| |lia]|intros args _].
  { rewrite !strlen_app; change (strlen [loader]) with 1; change (strlen [path]) with 1; lia. }
  eapply safe_bind; [apply safe_guest_absolute|intros pending Hp]; safe_auto; tracee_fields.
Qed.

Lemma safe_expand n : forall e, expansion_fits n e -> safe (expand n e) any.
Proof.
  induction n as [|n IH]; intros e (Hp & Hne & Hn); cbn [expand]; [by apply safe_ret|].
  eapply (safe_bind _ _ any); [apply safe_host_path_of; unfold PATH_LEN in *; lia|intros host _]; cbv zeta.
  eapply (safe_bind _ _ any); [safe_auto|intros opened _]; destruct opened; cbn [negb]; [|by apply safe_ret].
  eapply (safe_bind _ _ any); [safe_auto|intros head _].
  eapply (safe_bind _ _ any); [apply safe_defined; destruct (parse_shebang_defined head) as [r ->]; by eexists|].
  intros [[i a]|] _.
  - eapply safe_bind; [apply safe_dupstr|intros i' _].
    eapply (safe_bind _ _ (fun lead => strlen lead <= 1)).
    { destruct a as [a|]; [|by apply safe_ret]; eapply safe_bind; [apply safe_dupstr|intros ? _]; by apply safe_ret. }
    intros lead Hl; eapply safe_bind; [apply safe_dupstr|intros path _].
    cbn [ex_args] in *; eapply safe_bind; [apply safe_replace_head; [done| |lia]|intros args [Hne' Hl']].
    { rewrite !strlen_app; change (strlen [i']) with 1; change (strlen [path]) with 1; lia. }
    apply IH; split; [by apply strlen_snprintf|]; cbn [ex_args]; split; [apply Hne'; simpl; lia|].
    rewrite !strlen_app in Hl'; change (strlen [i']) with 1 in Hl'; change (strlen [path]) with 1 in Hl'; lia.
  - eapply (safe_bind _ _ any); [apply safe_the_world|intros x _]; eapply (safe_bind _ _ (fits PATH_LEN)).
    { apply safe_defined; destruct (elf_interp_fits x host) as (r & -> & ?); eauto. }
    intros [i|] Hi; [|by apply safe_ret]; apply safe_expand_elf; [|by apply Hi].
    split; [done|]; cbn [ex_args] in *; split; [done|lia].
Qed.

Lemma safe_commit ps as_ h args : safe (commit_exec calloc ps as_ h args) any.
Proof.
  unfold commit_exec; safe_auto.
  apply safe_defined; unfold blob_in; rewrite into_fits; [by eexists|]; pose proof (blob_fits x h args); lia.
Qed.
#[local] Hint Resolve safe_commit : safe.

Context {laws : GuestLaws abi_arch W}.

Lemma safe_read_str_fits a n : is_addr abi_arch a -> 0 < n -> safe (mem_read_str a n) (fits n).
Proof.
  intros Ha Hn s Hs; unfold mem_read_str, on_world, guest_read_str.
  pose proof (read_chunks_ok (Z.to_nat n) (e_world s) (t_pid (e_t s)) a n [] Ha) as Hok.
  destruct (read_chunks _ _ _ _ _ _ _) as [w r]; split; [|done].
  destruct Hok as [_ Hok]; [apply not_elem_of_nil|rewrite strlen_nil; lia|intros i c Hi; by rewrite lookup_nil in Hi|].
  intros q Hq; by apply Hok.
Qed.

Lemma safe_rewrite_exec ps as_ : safe (emuroot_rewrite_exec calloc ps as_) any.
Proof.
  unfold emuroot_rewrite_exec; eapply safe_bind; [apply safe_arg|intros pp Hpp].
  eapply (safe_bind _ _ any); [safe_auto|intros ap _]; destruct (_ || _); [by apply safe_ret|].
  eapply safe_bind; [apply safe_read_str_fits; [exact Hpp|done]|intros [p|] Hp; [|by apply safe_ret]].
  destruct (negb _); [by apply safe_ret|].
  eapply safe_bind; [apply safe_read_argv|intros args Hargs].
  assert (strlen args <= MAX_EXEC_ARGS) as Hl by (unfold strlen, MAX_EXEC_ARGS in *; lia).
  eapply (safe_bind _ _ any); [apply safe_require, Z.leb_le; unfold EARGS; lia|intros _ _].
  destruct (bool_decide _) eqn:Hne; [by apply safe_ret|]; apply bool_decide_eq_false in Hne.
  eapply (safe_bind _ _ any); [apply safe_expand|intros e _; safe_auto].
  split; [by apply Hp|]; cbn [ex_args]; split; [destruct args; [done|simpl; lia]|unfold EARGS, MAX_SHEBANG_DEPTH; lia].
Qed.

(** ** Entry *)

Lemma safe_fail_closed slot : safe (fail_closed slot) any.
Proof. unfold fail_closed; safe_auto. Qed.

Lemma safe_note_proc_link sysno which g : safe (note_proc_link sysno which g : M W ()) any.
Proof. unfold note_proc_link; safe_auto; tracee_fields. Qed.

Lemma safe_redirect slot d : safe (redirect slot d) any.
Proof. unfold redirect; safe_auto. Qed.
#[local] Hint Resolve safe_rewrite_exec safe_fail_closed safe_note_proc_link safe_redirect : safe.

Lemma fits_Some n s : fits n (Some s) -> strlen s < n.
Proof. intros Hf; by apply Hf. Qed.
Lemma snprintf_2 s : strlen (snprintf PATH_LEN s) < 2 * PATH_LEN.
Proof. pose proof (strlen_snprintf PATH_LEN s PATH_LEN_pos); unfold PATH_LEN in *; lia. Qed.
#[local] Hint Resolve safe_absolute safe_translate fits_Some snprintf_2 : safe.
#[local] Hint Extern 1 (0 < 1) => reflexivity : safe.

Lemma safe_rewrite_path_arg sysno slot fl which : safe (rewrite_path_arg sysno slot fl which) any.
Proof.
  unfold rewrite_path_arg; safe_auto; try done; tracee_fields.
Qed.

Lemma safe_rewrite_sockaddr a l : safe (rewrite_sockaddr a l) any.
Proof.
  unfold rewrite_sockaddr; safe_auto; try done; bool_cases; [|done].
  destruct (Z.ltb_spec x0 SUN_SIZE); lia.
Qed.
#[local] Hint Resolve safe_rewrite_path_arg safe_rewrite_sockaddr : safe.

Lemma safe_start_call sysno : safe (start_call sysno : M W ()) any.
Proof. unfold start_call; safe_auto; tracee_fields; apply align_down_range, uword_range. Qed.
#[local] Hint Resolve safe_start_call : safe.

Lemma safe_redirect_call sysno : safe (redirect_call calloc sysno) any.
Proof. unfold redirect_call; safe_auto. Qed.
#[local] Hint Resolve safe_redirect_call : safe.

Lemma safe_on_entry : safe (emuroot_on_entry calloc) any.
Proof. unfold emuroot_on_entry; safe_auto. Qed.

(** ** Exit *)

Variable kstat : stat_layout.
Hypothesis overrun_ok : PATH_LEN <= strlen the_exe -> may_overrun.
Hypothesis calloc_sound : forall n sz, calloc n sz = true -> n * sz < 2 ^ 64.

Lemma safe_owner_set ctx d i u g :
  ctx_wf ctx -> safe (defined (owner_set calloc (owners ctx) d i u g) : M W _) owners_wf.
Proof.
  intros (_&_&_&_&_&_&_&_&Ho&_); apply safe_defined.
  destruct (owner_set_spec calloc calloc_sound (owners ctx) d i u g Ho) as (o & Hs & Hwf & _); by exists o.
Qed.

Lemma with_owners_wf ctx o : ctx_wf ctx -> owners_wf o -> ctx_wf (with_owners ctx o).
Proof. intros (?&?&?&?&?&?&?&?&_&?&?) Ho; unfold ctx_wf; split_and?; simpl; try done; lia. Qed.
#[local] Hint Resolve safe_owner_set with_owners_wf : safe.

Lemma safe_record_created ret : safe (record_created calloc ret) any.
Proof. unfold record_created; safe_auto; try (by apply with_owners_wf); tracee_fields. Qed.

Lemma safe_set_result v : safe (set_result v) any.
Proof. unfold set_result; safe_auto; by apply put_wf. Qed.

Lemma safe_read_num a n : safe (read_num a n) any.
Proof. unfold read_num; safe_auto. Qed.

Lemma safe_write_u32 a v : safe (write_u32 a v) any.
Proof. unfold write_u32; safe_auto. Qed.
#[local] Hint Resolve safe_record_created safe_set_result safe_read_num safe_write_u32 : safe.

Lemma safe_file_dev b l : safe (file_dev b l) any.
Proof. unfold file_dev; safe_auto. Qed.
#[local] Hint Resolve safe_file_dev : safe.

Lemma safe_fake_owner b l : safe (fake_owner b l) any.
Proof. unfold fake_owner; safe_auto. Qed.

Lemma safe_terminated t : tracee_at abi_arch t -> safe (defined (terminated (t_exe t)) : M W _) any.
Proof.
  intros (_ & _ & Ht) s Hs; unfold defined, terminated; rewrite Ht; pose proof overrun_ok as Ho.
  destruct (Z.ltb_spec (strlen the_exe) PATH_LEN); [done|]; cbn [defined_result fmap result_fmap]; auto.
Qed.

Lemma safe_map_proc_link n : safe (map_proc_link n) any.
Proof.
  unfold map_proc_link; eapply safe_bind; [apply safe_the_t|intros t Ht]; eapply safe_bind; [apply safe_the_ctx|intros ctx _].
  cbv zeta; destruct (PATH_LEN <=? n) eqn:Hn; [by apply safe_ret|]; bool_cases.
  eapply (safe_bind _ _ any); [apply safe_mem_read_into; lia|intros [host|] _]; [|by apply safe_ret].
  destruct (strlen host =? n) eqn:Hl; [bool_cases|by apply safe_ret]; cbn [negb].
  eapply safe_bind; [apply safe_into; lia|intros host' _].
  eapply (safe_bind _ _ any); [|intros answer _; safe_auto].
  destruct (_ && _); [|by apply safe_ret]; eapply safe_bind; [by apply safe_terminated|intros exe _; by apply safe_ret].
Qed.

Lemma safe_fake_getcwd r : safe (fake_getcwd r) any.
Proof. unfold fake_getcwd; safe_auto. Qed.

Lemma safe_fake_uname r : safe (fake_uname r) any.
Proof. unfold fake_uname; safe_auto. Qed.
#[local] Hint Resolve safe_fake_owner safe_map_proc_link safe_fake_getcwd safe_fake_uname : safe.

Lemma safe_set_creds k :
  call_wf k -> safe (set_creds (fun c => cred_step c k) : M W Z) any.
Proof.
  intros Hk; unfold set_creds; eapply safe_bind; [apply safe_the_t|intros t Ht].
  assert (Hwf : creds_wf (cred_step (t_creds t) k).1) by (apply cred_step_wf; [apply Ht|done]).
  destruct (cred_step (t_creds t) k) as [c r]; safe_auto; tracee_fields.
Qed.

Lemma safe_write_ids addrs : forall ids, safe (write_ids addrs ids) any.
Proof. induction addrs as [|a addrs IH]; intros [|i ids]; cbn [write_ids]; safe_auto. Qed.
#[local] Hint Resolve safe_write_ids : safe.

Lemma safe_fake_getgroups t : safe (fake_getgroups t) any.
Proof. unfold fake_getgroups; safe_auto. Qed.

Lemma safe_fake_setgroups t : safe (fake_setgroups t) any.
Proof.
  unfold fake_setgroups; cbv zeta; set (n := slong abi_arch (saved_arg t 0)).
  destruct ((0 <? n) && (n <=? CREDS_MAX_GROUPS)) eqn:Hn.
  - bool_cases; eapply (safe_bind _ _ any); [apply safe_mem_read_into; lia|intros [s|] _]; [|safe_auto].
    destruct (strlen s =? n * 4) eqn:Hs; [|safe_auto]; bool_cases.
    match goal with |- safe (set_creds (fun c => creds_setgroups c ?l n)) _ => apply (safe_set_creds (SETGROUPS l n)) end.
    split; [intros _; unfold strlen; rewrite length_fmap, length_seq; lia|].
    apply Forall_fmap, List.Forall_forall; intros i Hi; cbn.
    pose proof (value_of_range abi_arch (ztake 4 (zdrop (4 * Z.of_nat i) s))) as Hv; unfold is_u32.
    pose proof (strlen_ztake_le 4 (zdrop (4 * Z.of_nat i) s) ltac:(lia)).
    assert (2 ^ (8 * strlen (ztake 4 (zdrop (4 * Z.of_nat i) s))) <= 2 ^ 32) by (apply Z.pow_le_mono_r; lia); lia.
  - apply (safe_set_creds (SETGROUPS [] n)); split; [|constructor].
    intros Hr; rewrite strlen_nil; apply andb_false_iff in Hn as [Hn|Hn]; bool_cases; lia.
Qed.

Lemma safe_fake_chown t ret : safe (fake_chown calloc t ret : M W Z) any.
Proof. unfold fake_chown; safe_auto; by apply with_owners_wf. Qed.
#[local] Hint Resolve safe_fake_getgroups safe_fake_setgroups safe_fake_chown : safe.

Lemma safe_fake_result a ret : safe (fake_result calloc kstat a ret) any.
Proof.
  unfold fake_result; eapply safe_bind; [apply safe_the_t|intros t _]; cbv zeta.
  destruct a; try (safe_auto; fail).
  - apply (safe_set_creds (SETUID _)), w32_u32.
  - apply (safe_set_creds (SETGID _)), w32_u32.
  - apply (safe_set_creds (SETREUID _ _)); split; apply w32_u32.
  - apply (safe_set_creds (SETREGID _ _)); split; apply w32_u32.
  - apply (safe_set_creds (SETRESUID _ _ _)); repeat split; apply w32_u32.
  - apply (safe_set_creds (SETRESGID _ _ _)); repeat split; apply w32_u32.
  - apply (safe_set_creds (SETFSUID _)), w32_u32.
  - apply (safe_set_creds (SETFSGID _)), w32_u32.
Qed.
#[local] Hint Resolve safe_fake_result : safe.

(** The exit handler changes the tracee's program last, after a successful
    execve. *)
Lemma on_exit_ends (s : engine W) :
  engine_at abi_arch s ->
  match emuroot_on_exit calloc kstat s with
  | Done (_, s') => engine_wf abi_arch s' /\ t_pid (e_t s') = the_pid
  | Aborted => may_abort | Undefined => may_overrun
  end.
Proof.
  set (ends := fun m : M W () => forall s, engine_at abi_arch s ->
    match m s with Done (_, s') => engine_wf abi_arch s' /\ t_pid (e_t s') = the_pid
    | Aborted => may_abort | Undefined => may_overrun end).
  assert (Hbind : forall A (m : M W A) f (P : A -> Prop), safe m P -> (forall x, P x -> ends (f x)) -> ends (m ≫= f)).
  { intros A m f P Hm Hf s1 Hs1; specialize (Hm s1 Hs1); unfold mbind, M_bind; destruct (m s1) as [[x s2]| |]; [|done|done].
    destruct Hm; by apply (Hf x). }
  assert (Hsafe : forall m, safe m any -> ends m).
  { intros m Hm s1 Hs1; specialize (Hm s1 Hs1); destruct (m s1) as [[x s2]| |]; [|done|done].
    by destruct Hm as [_ ?%engine_at_wf]. }
  revert s; fold (ends (emuroot_on_exit calloc kstat)).
  unfold emuroot_on_exit; eapply Hbind; [apply safe_the_regs|intros regs _]; cbv zeta.
  eapply (Hbind _ _ _ any); [safe_auto; tracee_fields|intros _ _].
  eapply (Hbind _ _ _ any); [safe_auto|intros _ _].
  eapply Hbind; [apply safe_the_t|intros t Ht]; eapply Hbind; [apply safe_the_ctx|intros ctx Hc].
  destruct (emuroot_action_of (t_sysno t)) as [a|]; [|by apply Hsafe, safe_ret].
  destruct (decide (a = A_EXECVE)) as [->|Hne].
  { destruct (_ =? 0); [|by apply Hsafe, safe_ret]; intros s1 (Hc1 & Ht1 & Hr1); cbn [put_t]; unfold engine_wf.
    cbn [e_ctx e_t e_regs update eta_engine]; unfold tracee_at, tracee_wf in *; destruct_and?; split_and?; done. }
  apply Hsafe; destruct a; try done; safe_auto; tracee_fields; by apply strlen_snprintf.
Qed.
End handlers.

(** An engine on the toy kernel: a call of [sysno] with the given arguments. *)
Definition toy_regs_of (sysno : Z) (args : list Z) : list Z :=
  let r := put X86_64 SYSNO sysno (put X86_64 SP 8192 (zero_regs X86_64)) in
  foldl (fun r '(i, v) => put X86_64 (ARG i) v r) r (zip [1; 2; 3; 4; 5; 6] args).
Definition toy_ctx (host_root : cstr) : emuroot_ctx :=
  Ctx host_root (replicate 128 zero_binding) 0 true 0 0 false [] [] [] [] None false.
Definition toy_engine (k : toy) (host_root : cstr) (sysno : Z) (args : list Z) : engine (tracer toy) :=
  Engine (toy_ctx host_root)
    (Tracee 7 host_root false false false false 0 0 [] (creds_init 0 0) 0 [] [] false 0 0 0 0 0 0 [] [] false false false)
    (toy_regs_of sysno args) [] (toy_tracer k).

Lemma toy_ctx_wf r : strlen r < PATH_LEN -> ctx_wf (toy_ctx r).
Proof.
  intros Hr; destruct (cleared_wf 0) as (?&?&?&?&?&?&?&?&?&?&?); [unfold MAX_BINDINGS; lia|].
  unfold ctx_wf; cbn [root bindings nbindings uname_sysname uname_release uname_machine ids_file owners toy_ctx] in *.
  split_and?; try done; lia.
Qed.

Lemma toy_regs_of_wf sysno args : regs_wf X86_64 (toy_regs_of sysno args).
Proof.
  unfold toy_regs_of; set (l := zip _ args); clearbody l.
  assert (Hr : regs_wf X86_64 (put X86_64 SYSNO sysno (put X86_64 SP 8192 (zero_regs X86_64))))
    by (apply put_wf, put_wf, zero_regs_wf).
  revert Hr; generalize (put X86_64 SYSNO sysno (put X86_64 SP 8192 (zero_regs X86_64))).
  induction l as [|[i v] l IH]; intros r Hr; [done|]; apply IH; by apply put_wf.
Qed.

Lemma toy_engine_wf k r sysno args : strlen r < PATH_LEN -> engine_wf X86_64 (toy_engine k r sysno args).
Proof.
  intros Hr; split; [by apply toy_ctx_wf|split; [|apply toy_regs_of_wf]].
  unfold tracee_wf; cbn [e_t toy_engine t_root t_exe pending_exe created pending_root scratch_top t_creds].
  split_and?; try done; apply creds_init_wf; unfold is_u32; lia.
Qed.

(** ** Properties *)

(** C29: the entry handler is safe. For every system call, register set, guest
    memory and file system, [emuroot_on_entry] ends, without undefined behaviour
    (no null table entry, no index before a buffer, no copy past the end of one,
    no argument past the array reserved, no probe loop that spins, symlink loops
    and unreadable memory included), and leaves a well-formed state: strings
    inside their buffers, credentials in range, a sound binding table. The one
    other way out is abort(), when there is no memory to copy a string. *)
Theorem entry_safe {abi : ABI} `{laws : GuestLaws abi_arch W} (calloc : Z -> Z -> bool) (s : engine W) :
  (forall w p, fs_readlink w p <> Some []) -> engine_wf abi_arch s ->
  match emuroot_on_entry calloc s with
  | Done (_, s') => engine_wf abi_arch s'
  | Aborted => strdup_fails W
  | Undefined => False
  end.
Proof.
  intros Hlinks Hs%engine_wf_at.
  set (e := {| may_abort := strdup_fails W; may_overrun := False |} : Endings).
  assert (Habort : forall (w : W) str, strdup w str = false -> may_abort (Endings := e)) by (intros w str ?; by exists w, str).
  pose proof (safe_on_entry (endings := e) Hlinks calloc Habort s Hs) as Hsafe.
  destruct (emuroot_on_entry calloc s) as [[x s']| |]; [|done|done]; by destruct Hsafe as [_ [? _]%engine_at_wf].
Qed.

(** open("/etc/passwd") with the string at 4096. *)
Lemma entry_safe_witness :
  match emuroot_on_entry (abi := x86_64_abi) (fun _ _ => true) (toy_engine toy_example (lit "/r") 2 [4096]) with
  | Done (_, s') => engine_wf X86_64 s'
  | Aborted => strdup_fails (tracer toy)
  | Undefined => False
  end.
Proof.
  exact (entry_safe (abi := x86_64_abi) (laws := toy_guest_laws) (fun _ _ => true)
           (toy_engine toy_example (lit "/r") 2 [4096]) toy_links_nonempty
           (toy_engine_wf toy_example (lit "/r") 2 [4096] eq_refl)).
Defined.

(** C30: the exit handler is safe. Whatever the call's result and the guest's
    memory, [emuroot_on_exit] ends, without undefined behaviour - the hash table
    probes and the buffers it reads into included - and keeps the state well
    formed; except that it may read past the end of the program's name when that
    fills its buffer to the last byte, without a NUL. *)
Theorem exit_safe {abi : ABI} `{HostFS W, GuestMem W} (calloc : Z -> Z -> bool) (kstat : stat_layout) (s : engine W) :
  (forall n sz, calloc n sz = true -> n * sz < 2 ^ 64) -> engine_wf abi_arch s ->
  match emuroot_on_exit calloc kstat s with
  | Done (_, s') => engine_wf abi_arch s'
  | Aborted => False
  | Undefined => strlen (t_exe (e_t s)) = PATH_LEN
  end.
Proof.
  intros Hcalloc Hs; pose proof (engine_wf_at _ _ Hs) as Hat.
  set (e := {| may_abort := False; may_overrun := strlen (t_exe (e_t s)) = PATH_LEN |} : Endings).
  assert (PATH_LEN <= strlen (t_exe (e_t s)) -> strlen (t_exe (e_t s)) = PATH_LEN) as Hover.
  { destruct Hs as (_ & (_ & ? & _) & _); lia. }
  pose proof (on_exit_ends (proc := proc_of (e_t s)) (endings := e) calloc kstat Hover Hcalloc s Hat) as Hends.
  destruct (emuroot_on_exit calloc kstat s) as [[x s']| |]; [by destruct Hends|done|done].
Qed.

(** offsetof the fields of x86_64's struct stat. *)
Definition x86_64_stat : stat_layout := StatLayout 28 32 0 8 false.

Lemma exit_safe_witness :
  match emuroot_on_exit (abi := x86_64_abi) calloc_64 x86_64_stat (toy_engine toy_example (lit "/r") 4 [4096; 4200]) with
  | Done (_, s') => engine_wf X86_64 s'
  | Aborted => False
  | Undefined => strlen (t_exe (e_t (toy_engine toy_example (lit "/r") 4 [4096; 4200]))) = PATH_LEN
  end.
Proof.
  exact (exit_safe (abi := x86_64_abi) calloc_64 x86_64_stat
           (toy_engine toy_example (lit "/r") 4 [4096; 4200]) (fun n sz => proj1 (calloc_64_available n sz))
           (toy_engine_wf toy_example (lit "/r") 4 [4096; 4200] eq_refl)).
Defined.

(** [guest_absolute] can fill its buffer to the last byte: a working directory
    of 4095 characters leaves [pending_exe] without a NUL. *)
Lemma guest_absolute_unterminated gc p :
  strlen gc = PATH_LEN - 1 -> strlen (join_cwd PATH_LEN gc p) = PATH_LEN.
Proof.
  intros Hgc; unfold join_cwd; rewrite snprintf_fits by lia; rewrite Hgc.
  change ((1 <? PATH_LEN - 1) && (PATH_LEN - 1 <? PATH_LEN)) with true; cbv iota.
  change (PATH_LEN - 1 + 1 <? PATH_LEN) with false; cbv iota; rewrite strlen_app, Hgc; done.
Qed.
