(* ===== verification/Wp.v ===== *)
(** A program logic for the handlers' monad: [wp m P s] says that [m] run from
    [s] ends with a result and a state that satisfy [P].  One rule per
    primitive, and a tactic that follows the shape of the handler. *)

From Stdlib Require Import ZArith Lia.
From stdpp Require Import base list numbers.
From S2P Require Import Prelude Stdio Arch Syscalls World Guest Config Tracee PathArg Exec Rewrite Safety.
Local Open Scope Z_scope.
Local Open Scope emu_scope.

Definition wp {W A} (m : M W A) (P : A -> engine W -> Prop) (s : engine W) : Prop :=
  exists x s', m s = Done (x, s') /\ P x s'.

Section rules.
Context {abi : ABI} `{HostFS W, GuestMem W}.

Lemma wp_bind {A B} (m : M W A) (f : A -> M W B) P s :
  wp m (fun x => wp (f x) P) s -> wp (m ≫= f) P s.
Proof.
  intros (x & s1 & E1 & y & s2 & E2 & HP); exists y, s2; split; [|done].
  unfold mbind, M_bind; by rewrite E1.
Qed.

Lemma wp_mono {A} (m : M W A) (P Q : A -> engine W -> Prop) s :
  (forall x s', P x s' -> Q x s') -> wp m P s -> wp m Q s.
Proof. intros HPQ (x & s' & E & HP); exists x, s'; eauto. Qed.

Lemma wp_and {A} (m : M W A) (P Q : A -> engine W -> Prop) s :
  wp m P s -> wp m Q s -> wp m (fun x s' => P x s' /\ Q x s') s.
Proof. intros (x & s' & E & HP) (y & s2 & E2 & HQ); exists x, s'; rewrite E in E2; injection E2 as <- <-; done. Qed.

Lemma wp_eval {A} (m : M W A) (P : A -> engine W -> Prop) s x s' : m s = Done (x, s') -> P x s' -> wp m P s.
Proof. intros E HP; by exists x, s'. Qed.

Lemma wp_ret {A} (x : A) P s : P x s -> wp (mret x : M W A) P s.
Proof. by exists x, s. Qed.
Lemma wp_the_ctx P s : P (e_ctx s) s -> wp (the_ctx : M W _) P s.
Proof. by apply wp_eval. Qed.
Lemma wp_the_t P s : P (e_t s) s -> wp (the_t : M W _) P s.
Proof. by apply wp_eval. Qed.
Lemma wp_the_regs P s : P (e_regs s) s -> wp (the_regs : M W _) P s.
Proof. by apply wp_eval. Qed.
Lemma wp_the_world P s : P (e_world s) s -> wp (the_world : M W _) P s.
Proof. by apply wp_eval. Qed.
Lemma wp_the_loaders P s : P (e_loaders s) s -> wp (the_loaders : M W _) P s.
Proof. by apply wp_eval. Qed.
Lemma wp_ask {A} (f : W -> A) P s : P (f (e_world s)) s -> wp (ask f) P s.
Proof. by apply wp_eval. Qed.
Lemma wp_arg n P s : P (Arch.reg_arg abi_arch n (e_regs s)) s -> wp (arg n : M W Z) P s.
Proof. by apply wp_eval. Qed.
Lemma wp_set_arg n v P s :
  P () (s <| e_regs := put abi_arch (ARG n) v (e_regs s) |>) -> wp (set_arg n v : M W ()) P s.
Proof. by apply wp_eval. Qed.
Lemma wp_put_regs r P s : P () (s <| e_regs := r |>) -> wp (put_regs r : M W ()) P s.
Proof. by apply wp_eval. Qed.
Lemma wp_put_t t P s : P () (s <| e_t := t |>) -> wp (put_t t : M W ()) P s.
Proof. by apply wp_eval. Qed.
Lemma wp_modify_t f P s : P () (s <| e_t := f (e_t s) |>) -> wp (modify_t f : M W ()) P s.
Proof. by apply wp_eval. Qed.
Lemma wp_set_ctx c P s : P () (s <| e_ctx := c |>) -> wp (set_ctx c : M W ()) P s.
Proof. by apply wp_eval. Qed.
Lemma wp_set_loaders l P s : P () (s <| e_loaders := l |>) -> wp (set_loaders l : M W ()) P s.
Proof. by apply wp_eval. Qed.
Lemma wp_on_world {A} (f : W -> W * A) P s :
  P (f (e_world s)).2 (s <| e_world := (f (e_world s)).1 |>) -> wp (on_world f) P s.
Proof. unfold on_world; intros HP; destruct (f (e_world s)) as [w x] eqn:E; eapply wp_eval; rewrite ?E; done. Qed.
Lemma wp_defined {A} (o : option A) P s : (exists x, o = Some x /\ P x s) -> wp (defined o : M W A) P s.
Proof. intros (x & -> & HP); by exists x, s. Qed.

Lemma wp_require (b : bool) P s : b = true -> P () s -> wp (require b : M W ()) P s.
Proof. intros -> HP; by exists (), s. Qed.
Lemma wp_into sz x P s : strlen x < sz -> P x s -> wp (defined (into sz x) : M W cstr) P s.
Proof. intros Hx HP; apply wp_defined; exists x; by rewrite into_fits. Qed.
Lemma wp_dupstr x P s : ~ strdup_fails W -> P x s -> wp (dupstr x) P s.
Proof.
  intros Hmem HP; apply wp_bind, wp_ask; destruct (strdup (e_world s) x) eqn:E; [by apply wp_ret|].
  elim Hmem; by exists (e_world s), x.
Qed.

Lemma wp_mem_read a n P s :
  let r := guest_read (e_world s) (t_pid (e_t s)) a n in
  P r.2 (s <| e_world := r.1 |>) -> wp (mem_read a n : M W _) P s.
Proof. intros r HP; apply (wp_on_world (fun w => guest_read w (t_pid (e_t s)) a n)) in HP; exact HP. Qed.
Lemma wp_mem_read_into cap a n P s :
  n <= cap -> wp (mem_read a n : M W _) P s -> wp (mem_read_into cap a n : M W _) P s.
Proof. intros Hn Hm; apply wp_bind, wp_require; [by apply Z.leb_le|done]. Qed.
Lemma wp_mem_write a d P s :
  let r := guest_write (e_world s) (t_pid (e_t s)) a d in
  P r.2 (s <| e_world := r.1 |>) -> wp (mem_write a d : M W _) P s.
Proof. intros r HP; apply (wp_on_world (fun w => guest_write w (t_pid (e_t s)) a d)) in HP; exact HP. Qed.
Lemma wp_mem_read_str a n P s :
  let r := guest_read_str abi_arch (e_world s) (t_pid (e_t s)) a n in
  P r.2 (s <| e_world := r.1 |>) -> wp (mem_read_str a n : M W _) P s.
Proof. intros r HP; apply (wp_on_world (fun w => guest_read_str abi_arch w (t_pid (e_t s)) a n)) in HP; exact HP. Qed.
Lemma wp_store_regs P s :
  let r := regs_store (e_world s) (t_pid (e_t s)) (e_regs s) in
  P r.2 (s <| e_world := r.1 |>) -> wp (store_regs_now : M W _) P s.
Proof. intros r HP; apply (wp_on_world (fun w => regs_store w (t_pid (e_t s)) (e_regs s))) in HP; exact HP. Qed.
End rules.

(** One step of a handler whose head is a primitive. *)
Ltac wp_prim :=
  lazymatch goal with
  | |- wp (mbind _ _) _ _ => apply wp_bind
  | |- wp (mret _) _ _ => apply wp_ret
  | |- wp the_ctx _ _ => apply wp_the_ctx
  | |- wp the_t _ _ => apply wp_the_t
  | |- wp the_regs _ _ => apply wp_the_regs
  | |- wp the_world _ _ => apply wp_the_world
  | |- wp the_loaders _ _ => apply wp_the_loaders
  | |- wp (ask _) _ _ => apply wp_ask
  | |- wp (arg _) _ _ => apply wp_arg
  | |- wp (set_arg _ _) _ _ => apply wp_set_arg
  | |- wp (put_regs _) _ _ => apply wp_put_regs
  | |- wp (put_t _) _ _ => apply wp_put_t
  | |- wp (modify_t _) _ _ => apply wp_modify_t
  | |- wp (set_ctx _) _ _ => apply wp_set_ctx
  | |- wp (set_loaders _) _ _ => apply wp_set_loaders
  | |- wp (mem_read _ _) _ _ => apply wp_mem_read
  | |- wp (mem_write _ _) _ _ => apply wp_mem_write
  | |- wp (mem_read_str _ _) _ _ => apply wp_mem_read_str
  end.
(** Steps up to the first branch or call. *)
Ltac wp_run := cbv beta zeta; repeat (wp_prim; cbv beta zeta).
(** The fields of an updated state. *)
Ltac fields := cbn [e_ctx e_t e_regs e_loaders e_world t_pid update eta_engine] in *.
