(* ===== verification/RewriteFacts.v ===== *)
(** What the entry handlers do to the calls they redirect: scratch memory stays
    clear of the guest's stack, and a path argument is replaced by its host path
    or, for want of scratch memory, the call is made to fail. *)

From Stdlib Require Import ZArith Lia Ascii String.
From stdpp Require Import base list numbers.
From S2P Require Import Prelude Stdio Arch Syscalls World Guest ToyKernel GuestFacts Creds Owners Config Path PathFacts.
From S2P Require Import Tracee PathArg Dac Identity Mounts Exec Rewrite Fake Safety Wp Live.
Local Open Scope Z_scope.
Local Open Scope emu_scope.

(** ** Lemmas *)

Section facts.
Context {abi : ABI} `{laws : GuestLaws abi_arch W}.

(** [emuroot_scratch] answers 0 and changes nothing, when there are fewer than
    [len] bytes of scratch memory, or reserves a 16-byte aligned block of [len]
    bytes just below what was free. *)
Lemma wp_scratch len P (s : engine W) :
  is_addr abi_arch (scratch_top (e_t s)) -> 0 < len < 2 ^ 31 -> (scratch_top (e_t s) < len -> P 0 s) ->
  (forall a, is_addr abi_arch a -> a mod 16 = 0 -> scratch_top (e_t s) - len - 16 < a -> a + len <= scratch_top (e_t s) ->
     P a (s <| e_t := e_t s <| scratch_top := a |> |>)) ->
  wp (emuroot_scratch len) P s.
Proof.
  intros Ht Hl Hzero Ha; unfold emuroot_scratch; wp_run.
  set (top := scratch_top (e_t s)) in *; set (a := align_down_16 (uword abi_arch (top - len))) in *.
  pose proof (uword_range abi_arch (top - len)) as Hu.
  destruct (align_down_16_spec _ (proj1 Hu)) as (Hle & Hm & Hp); fold a in Hle, Hm, Hp.
  assert (Hpow : 2 ^ 32 <= 2 ^ word_bits abi_arch) by (pose proof (word_bits_ge abi_arch); apply Z.pow_le_mono_r; lia).
  unfold uword in Hle, Hu; unfold is_addr in *; destruct (Z.le_gt_cases len top).
  - rewrite Z.mod_small in Hle by lia; rewrite (proj2 (Z.ltb_ge top a)) by lia; wp_run; apply Ha; lia.
  - assert ((top - len) mod 2 ^ word_bits abi_arch = top - len + 2 ^ word_bits abi_arch)
      by (symmetry; apply (Z.mod_unique_pos _ _ (-1)); lia).
    rewrite (proj2 (Z.ltb_lt top a)) by lia; wp_run; apply Hzero; lia.
Qed.

Lemma guest_cstr_at (w : W) pid a p : at_addr (mem w pid) a (p ++ [NUL]) -> guest_cstr w pid a p.
Proof.
  intros [Hp Hn]%at_addr_app; split; [done|].
  specialize (Hn 0%nat NUL eq_refl); by rewrite Z.add_0_r in Hn.
Qed.

(** The kernel has the engine's registers after a store that it accepts. *)
Definition store_accepted (pid : Z) : Prop :=
  forall (w : W) r, regs_wf abi_arch r -> (regs_store w pid r).2 = true.

Lemma wp_store_accepted P (s : engine W) :
  store_accepted (t_pid (e_t s)) -> regs_wf abi_arch (e_regs s) ->
  (forall b w', mem w' = mem (e_world s) -> same_host (e_world s) w' -> kernel_regs w' (t_pid (e_t s)) = Some (e_regs s) ->
     P b (s <| e_world := w' |>)) ->
  wp store_regs_now P s.
Proof.
  intros Hacc Hl HP; apply wp_store_regs; destruct (store_same (e_world s) (t_pid (e_t s)) (e_regs s)) as [Hh Hm].
  apply HP; [done|done|apply store_regs; [apply Hl|by apply Hacc]].
Qed.

(** [absolute_guest_path] reads nothing but the host's symlinks. *)
Lemma absolute_guest_path_world fd p size (s : engine W) w' g :
  same_host (e_world s) w' -> absolute_guest_path fd p size s = Done (g, s) ->
  absolute_guest_path fd p size (s <| e_world := w' |>) = Done (g, s <| e_world := w' |>).
Proof.
  intros (Hrl & _) E; unfold absolute_guest_path in *; destruct (is_slash _); [by injection E as <-|].
  unfold mbind, M_bind, mret, M_ret, arg, the_t, the_ctx, ask in *.
  destruct (fd =? 0); cbn [e_t e_ctx e_world e_regs update eta_engine] in *; rewrite Hrl;
    (destruct (fs_readlink _ _) as [[|c base]|]; [by injection E as <-| |by injection E as <-]);
    unfold defined in *; destruct (into _ _); cbn in *; try done; by injection E as <-.
Qed.

Lemma read_str_world (w : W) pid a size : is_addr abi_arch a -> only_reads w (guest_read_str abi_arch w pid a size).1.
Proof.
  intros Ha; pose proof (read_chunks_ok (Z.to_nat size) w pid a size [] Ha) as Hok; unfold guest_read_str.
  destruct (read_chunks _ _ _ _ _ _ _) as [w' r]; apply Hok;
    [apply not_elem_of_nil|rewrite strlen_nil; lia|apply at_addr_nil].
Qed.

Lemma same_host_readlink (w w' : W) : same_host w w' -> fs_readlink w' = fs_readlink w.
Proof. by intros (-> & _). Qed.

End facts.

(** *** What a redirection keeps *)

Section redirections.
Context {abi : ABI} `{live : GuestLive abi_arch W}.
Implicit Types s : engine W.

Lemma read_chunks_rw fuel : forall (w : W) p a size have,
  guest_rw (read_chunks abi_arch fuel w p a size have).1 = guest_rw w.
Proof.
  induction fuel as [|fuel IH]; intros w p a size have; cbn [read_chunks]; cbv zeta; [by case_ifs|]; destruct (_ <? size); [|done].
  set (want := if _ <? CHUNK then _ else _); pose proof (read_rw w p (uword abi_arch (a + strlen have)) want) as Hr.
  destruct (guest_read _ _ _ _) as [w1 [[|c bs]|]]; cbn [fst] in Hr; [by case_ifs| |by case_ifs].
  destruct (until_nul _); [done|]; destruct (strlen _ <? want); [done|by rewrite IH].
Qed.

Lemma read_str_rw (w : W) p a size : guest_rw (guest_read_str abi_arch w p a size).1 = guest_rw w.
Proof. apply read_chunks_rw. Qed.

(** From [s] to [s'] only the scratch memory has been used, in the tracee's
    books and in its memory: what lies between the old top and the new one. *)
Definition kept s s' : Prop :=
  e_ctx s' = e_ctx s /\ e_loaders s' = e_loaders s /\
  (exists top l p pe, scratch_top (e_t s') = top /\
     e_t s' = e_t s <| scratch_top := top |> <| logged := l |> <| proc_link := p |> <| proc_link_exe := pe |>) /\
  guest_rw (e_world s') = guest_rw (e_world s) /\
  (forall x, ~ (scratch_top (e_t s') <= x < scratch_top (e_t s)) ->
     mem (e_world s') (t_pid (e_t s)) x = mem (e_world s) (t_pid (e_t s)) x).

(** Nothing of that either: the same registers and memory. *)
Definition like s s' : Prop :=
  kept s s' /\ e_regs s' = e_regs s /\ scratch_top (e_t s') = scratch_top (e_t s) /\
  mem (e_world s') = mem (e_world s) /\ kernel_regs (e_world s') = kernel_regs (e_world s).

Lemma kept_pid s s' : kept s s' -> t_pid (e_t s') = t_pid (e_t s).
Proof. by intros (_ & _ & (? & ? & ? & ? & _ & ->) & _). Qed.

Lemma like_refl s : like s s.
Proof.
  unfold like, kept; split_and?; try done; exists (scratch_top (e_t s)), (logged (e_t s)), (proc_link (e_t s)), (proc_link_exe (e_t s)).
  split; [done|by destruct (e_t s)].
Qed.

Lemma like_kept s1 s2 s3 : like s1 s2 -> kept s2 s3 -> kept s1 s3.
Proof.
  intros (Hk & _ & Htop & Hmem & _) (Hc & Hl & (t & l & p & pe & Ht & E) & Hrw & Hm); pose proof (kept_pid _ _ Hk) as Hp.
  destruct Hk as (Hc0 & Hl0 & (t0 & l0 & p0 & pe0 & _ & E0) & Hrw0 & _).
  unfold kept; split_and?; try congruence; [|by rewrite <- Htop, <- Hp, <- Hmem].
  exists t, l, p, pe; split; [done|]; by rewrite E, E0.
Qed.

Lemma like_trans s1 s2 s3 : like s1 s2 -> like s2 s3 -> like s1 s3.
Proof.
  intros H12 H23; pose proof (like_kept _ _ _ H12 (proj1 H23)); unfold like in *; destruct_and!; split_and?; congruence.
Qed.

Lemma like_world s w' :
  mem w' = mem (e_world s) -> kernel_regs w' = kernel_regs (e_world s) -> guest_rw w' = guest_rw (e_world s) ->
  like s (s <| e_world := w' |>).
Proof.
  intros Hm Hk Hrw; destruct (like_refl s) as ((?&?&?&?&?)&?&?&?&?); unfold like, kept; fields; split_and?; try done; by rewrite Hm.
Qed.

Lemma like_notes s l p pe :
  like s (s <| e_t := e_t s <| logged := l |> <| proc_link := p |> <| proc_link_exe := pe |> |>).
Proof.
  unfold like, kept; fields; split_and?; try done.
  exists (scratch_top (e_t s)), l, p, pe; split; [done|by destruct (e_t s)].
Qed.

(** *** [redirect] *)

(** There is scratch memory for [len] bytes: mapped and writable, aligned. *)
Definition scratch_room s (len : Z) : Prop :=
  len + 16 <= scratch_top (e_t s) /\
  all_of (guest_rw (e_world s) (t_pid (e_t s))) (scratch_top (e_t s) - len - 16) (len + 16).

Lemma like_room s1 s2 len : like s1 s2 -> scratch_room s1 len -> scratch_room s2 len.
Proof.
  intros (Hk & _ & Htop & _) (Hl & Hall); pose proof (kept_pid _ _ Hk) as Hp; destruct Hk as (_ & _ & _ & Hrw & _).
  unfold scratch_room; by rewrite Htop, Hp, Hrw.
Qed.

(** [redirect] makes the argument point to a copy of the data in fresh scratch
    memory; it leaves it alone when there is no room. *)
Lemma wp_redirect slot data P s :
  is_addr abi_arch (scratch_top (e_t s)) -> 0 < strlen data < 2 ^ 31 ->
  (forall s', e_regs s' = e_regs s -> kept s s' -> ~ scratch_room s (strlen data) -> P false s') ->
  (forall a s', e_regs s' = put abi_arch (ARG slot) a (e_regs s) -> kept s s' -> scratch_top (e_t s') = a ->
     is_addr abi_arch a -> a mod 16 = 0 -> a + strlen data <= scratch_top (e_t s) ->
     at_addr (mem (e_world s') (t_pid (e_t s))) a data -> P true s') ->
  wp (redirect slot data) P s.
Proof.
  intros Htop Hlen Hf Ht; unfold redirect; wp_run; apply wp_scratch; try done.
  - intros Hno; change (0 =? 0) with true; cbv iota; wp_run; apply Hf; [done|apply like_refl|intros [? _]; lia].
  - intros a Ha Hm Hlo Hle; assert (Hkept : forall w', guest_rw w' = guest_rw (e_world s) ->
      (forall x, ~ (a <= x < a + strlen data) -> mem w' (t_pid (e_t s)) x = mem (e_world s) (t_pid (e_t s)) x) ->
      forall r, kept s (s <| e_t := e_t s <| scratch_top := a |> |> <| e_world := w' |> <| e_regs := r |>)).
    { intros w' Hrw Hout r; unfold kept; fields; split_and?; try done; [|intros x Hx; apply Hout; simpl in Hx; lia].
      exists a, (logged (e_t s)), (proc_link (e_t s)), (proc_link_exe (e_t s)); split; [done|by destruct (e_t s)]. }
    destruct (Z.eqb_spec a 0) as [->|Hnz]; wp_run.
    { apply Hf; [done|exact (Hkept (e_world s) eq_refl ltac:(done) (e_regs s))|intros [? _]; unfold is_addr in *; lia]. }
    pose proof (write_bytes (e_world s) (t_pid (e_t s)) a data Ha) as Hw.
    pose proof (write_live (e_world s) (t_pid (e_t s)) a data Ha) as Hlive.
    pose proof (write_rw (e_world s) (t_pid (e_t s)) a data) as Hrw.
    destruct (write_same (e_world s) (t_pid (e_t s)) a data Ha) as (_ & _ & Hout).
    change (guest_write _ _ a data) with (guest_write (e_world s) (t_pid (e_t s)) a data).
    destruct (guest_write (e_world s) (t_pid (e_t s)) a data) as [w [|]]; cbn [fst snd] in *; wp_run.
    + eapply Ht; try done; [exact (Hkept w Hrw Hout _)|exact (Hw eq_refl)].
    + apply Hf; [done|exact (Hkept w Hrw Hout (e_regs s))|]; intros [_ Hall]; discriminate Hlive.
      * intros E; clear -Hlen E; subst; unfold strlen in Hlen; simpl in Hlen; lia.
      * eapply all_of_le; [exact Hall|lia|lia].
Qed.

Lemma wp_store_kept P s0 s :
  store_accepted (W := W) (t_pid (e_t s0)) -> regs_wf abi_arch (e_regs s) -> kept s0 s ->
  (forall b w', mem w' = mem (e_world s) -> kernel_regs w' (t_pid (e_t s0)) = Some (e_regs s) ->
     kept s0 (s <| e_world := w' |>) -> P b (s <| e_world := w' |>)) ->
  wp store_regs_now P s.
Proof.
  intros Hacc Hl Hk HP; pose proof (kept_pid _ _ Hk) as Hp; apply wp_store_regs; rewrite Hp.
  destruct (store_same (e_world s) (t_pid (e_t s0)) (e_regs s)) as [_ Hm].
  apply HP; [done|apply store_regs; [apply Hl|by apply Hacc]|].
  destruct Hk as (?&?&?&Hrw&Hout); unfold kept; fields; split_and?; try done; [by rewrite store_rw|by rewrite Hm].
Qed.
End redirections.

(** What has become of a path argument that had to change: the host path in
    scratch memory, in the engine's registers and in the kernel's; or, when there
    is no scratch memory for it, a null pointer. *)
Definition redirected {abi : ABI} `{live : GuestLive abi_arch W} (slot : Z) (host : cstr) (s s' : engine W) : Prop :=
  let v := Arch.reg_arg abi_arch slot (e_regs s') in
  e_regs s' = put abi_arch (ARG slot) v (e_regs s) /\
  kernel_regs (e_world s') (t_pid (e_t s)) = Some (e_regs s') /\ kept s s' /\
  (guest_cstr (e_world s') (t_pid (e_t s)) v host /\ v mod 16 = 0 /\ scratch_top (e_t s') = v /\
     v + strlen host < scratch_top (e_t s) \/
   v = 0 /\ ~ scratch_room s (strlen host + 1)).

Lemma put_self a n v regs :
  regs_wf a regs -> 0 <= v < 2 ^ word_bits a -> Arch.reg_arg a n (put a (ARG n) v regs) = v.
Proof. intros Hr Hv; unfold Arch.reg_arg; rewrite get_put_eq by done; by apply uword_small. Qed.

Section replace.
Context {abi : ABI} `{live : GuestLive abi_arch W}.
Implicit Types s : engine W.

Lemma wp_fail_closed slot host s s' :
  regs_wf abi_arch (e_regs s) -> store_accepted (W := W) (t_pid (e_t s)) -> ~ scratch_room s (strlen host + 1) ->
  e_regs s' = e_regs s -> kept s s' -> wp (fail_closed slot) (fun _ => redirected slot host s) s'.
Proof.
  intros Hregs Hacc Hroom Hr Hk; unfold fail_closed; wp_run; eapply (wp_store_kept _ s); fields.
  - done.
  - rewrite Hr; by apply put_wf.
  - exact Hk.
  - intros b w' _ Hkr Hk2; wp_run; unfold redirected; fields; rewrite Hr in Hkr |- *.
    rewrite put_self by (done || (split; [done|apply Z.pow_pos_nonneg; pose proof (word_bits_ge abi_arch); lia])).
    split; [done|split; [done|split; [exact Hk2 || by rewrite Hr in Hk2|by constructor 2]]].
Qed.

(** The steps of [rewrite_path_arg] after the translation. *)
Lemma wp_replace slot host s s' :
  regs_wf abi_arch (e_regs s) -> is_addr abi_arch (scratch_top (e_t s)) -> store_accepted (W := W) (t_pid (e_t s)) ->
  strlen host < PATH_LEN -> like s s' ->
  wp (ok ← redirect slot (host ++ [NUL]); if ok : bool then _ ← store_regs_now; mret () else fail_closed slot)
     (fun _ => redirected slot host s) s'.
Proof.
  intros Hregs Htop Hacc Hl Hlike; pose proof Hlike as (Hk & Hr & Hs & _); pose proof (kept_pid _ _ Hk) as Hp.
  assert (Hlen : strlen (host ++ [NUL]) = strlen host + 1) by (by rewrite strlen_app).
  wp_run; apply wp_redirect.
  - by rewrite Hs.
  - rewrite Hlen; unfold PATH_LEN in *; pose proof (strlen_nonneg host); lia.
  - intros s2 Hr2 Hk2 Hroom; rewrite Hlen in Hroom; apply wp_fail_closed; try done; [|congruence|by eapply like_kept].
    intros Hrm; by apply Hroom; eapply like_room.
  - intros a s2 Hr2 Hk2 Ht2 Ha Hm Hle Hat; wp_run; rewrite Hr in Hr2; rewrite Hp in Hat; rewrite Hs, Hlen in Hle.
    eapply (wp_store_kept _ s); [done|rewrite Hr2; by apply put_wf|by eapply like_kept|].
    intros b w' Hmem Hkr Hk3; wp_run; unfold redirected; fields; rewrite Hr2 in Hkr |- *.
    rewrite put_self by done; split; [done|split; [done|split; [exact Hk3|constructor 1]]].
    split; [apply guest_cstr_at; by rewrite Hmem|split; [done|split; [done|lia]]].
Qed.

Lemma wp_grant sysno which host P s :
  (forall w', like s (s <| e_world := w' |>) -> P () (s <| e_world := w' |>)) -> wp (emuroot_grant_access sysno which host) P s.
Proof.
  intros HP; unfold emuroot_grant_access; wp_run; apply wp_on_world; apply HP; fields.
  destruct (ensure_dac_granted host (dac_for sysno (e_regs s) which) (e_world s)) as (p & b & [->|(st & _ & _ & _ & ->)] & _).
  - apply like_world; done.
  - destruct (chmod_same (e_world s) p (Z.lor (st_mode st) b)); apply like_world; [done|done|apply chmod_rw].
Qed.

Lemma wp_note_proc_link sysno which guest P s :
  (forall s', like s s' -> e_world s' = e_world s -> P () s') -> wp (note_proc_link sysno which guest) P s.
Proof.
  intros HP; unfold note_proc_link; destruct (_ && _); wp_run; [|by apply HP; [apply like_refl|]].
  apply HP; [|done]; destruct s as [ctx t regs ld w]; fields.
  exact (like_notes (Engine ctx t regs ld w) (logged t) true _).
Qed.

(** What becomes of the argument, changed by the translation or not. *)
Definition replaced (slot : Z) (tr : translation) s s' : Prop :=
  if tr_changed tr then redirected slot (tr_host tr) s s' else like s s'.

Lemma wp_translated s s' sysno slot which guest follow tr :
  regs_wf abi_arch (e_regs s) -> is_addr abi_arch (scratch_top (e_t s)) -> store_accepted (W := W) (t_pid (e_t s)) ->
  emuroot_translate_path_ex (fs_readlink (e_world s)) (e_ctx s) (t_root (e_t s)) guest follow PATH_LEN 1 = Some tr ->
  like s s' -> fs_readlink (e_world s') = fs_readlink (e_world s) ->
  wp (tr ← translate guest follow PATH_LEN 1; t ← the_t;
      _ ← (if has_fake_ids (e_ctx s) && (effective (uid (t_creds t)) =? 0)
           then emuroot_grant_access sysno which (tr_host tr) else mret ());
      _ ← (if verbose (e_ctx s) then modify_t (fun t => t <| logged := true |>) else mret ());
      if negb (tr_changed tr) then mret ()
      else ok ← redirect slot (tr_host tr ++ [NUL]); if ok : bool then _ ← store_regs_now; mret () else fail_closed slot)
     (fun _ => replaced slot tr s) s'.
Proof.
  intros Hregs Htop Hacc Htr Hs' Hrl; pose proof Hs' as ((Hc & _ & (? & ? & ? & ? & _ & Ht) & _) & _).
  destruct (translate_fits _ _ _ _ _ PATH_LEN 1 _ ltac:(done) ltac:(done) Htr) as [Hhost _].
  unfold translate; wp_run.
  apply wp_defined; exists tr; split; [rewrite Hrl, Hc, Ht; exact Htr|]; wp_run.
  assert (Hend : forall s2 : engine W, like s s2 ->
    wp (if negb (tr_changed tr) then mret ()
        else ok ← redirect slot (tr_host tr ++ [NUL]); if ok : bool then _ ← store_regs_now; mret () else fail_closed slot)
       (fun _ => replaced slot tr s) s2).
  { intros s2 Hs2; unfold replaced; destruct (tr_changed tr); cbn [negb]; [by apply wp_replace|wp_run; exact Hs2]. }
  assert (Hlog : forall s2 : engine W, like s s2 -> like s (s2 <| e_t := e_t s2 <| logged := true |> |>)).
  { intros s2 Hs2; apply (like_trans _ s2); [done|]; destruct s2 as [ctx t regs ld w]; fields.
    exact (like_notes (Engine ctx t regs ld w) true (proc_link t) (proc_link_exe t)). }
  destruct (_ && _); wp_run; [apply wp_grant; intros w2 Hw2; wp_run|];
    (destruct (verbose _); wp_run; apply Hend; try apply Hlog; [..|try done]; try done; by eapply like_trans).
Qed.
End replace.

(** ** Properties *)

(** C3: a redirected path argument is never left as the guest gave it. When a
    root or a binding is set and the call names a readable path that the
    translation changes, the argument register ends, in the engine's copy and in
    the kernel's, pointing to a 16-byte aligned C string in the guest that is the
    host path, below the scratch memory already in use and so clear of the
    guest's stack and of an earlier argument; only if there is no writable
    scratch memory for the path it ends null, and the call fails. No other
    register changes, nor does the guest's memory outside the block, the context,
    or the tracee's state apart from notes about this call; a path that the
    translation leaves alone changes no register and no memory at all. *)
Theorem path_arg_redirected {abi : ABI} `{live : GuestLive abi_arch W} (s : engine W)
    (sysno slot which : Z) (follow : bool) (given guest : cstr) (tr : translation) :
  engine_wf abi_arch s -> arg_ok slot -> store_accepted (W := W) (t_pid (e_t s)) ->
  t_root (e_t s) <> [] \/ nbindings (e_ctx s) <> 0 ->
  Arch.reg_arg abi_arch slot (e_regs s) <> 0 -> given <> [] ->
  (guest_read_str abi_arch (e_world s) (t_pid (e_t s)) (Arch.reg_arg abi_arch slot (e_regs s)) PATH_LEN).2 = Some given ->
  is_slash (chr_at given 0) = true \/ is_nr NR_openat2 sysno = false ->
  absolute_guest_path (dirfd_slot sysno slot) given (2 * PATH_LEN) s = Done (Some guest, s) ->
  emuroot_translate_path_ex (fs_readlink (e_world s)) (e_ctx s) (t_root (e_t s)) guest follow PATH_LEN 1 = Some tr ->
  wp (rewrite_path_arg sysno slot follow which) (fun _ s' =>
    if tr_changed tr then redirected slot (tr_host tr) s s' else like s s') s.
Proof.
  intros (Hctx & Ht & Hregs) Hslot Hacc Hroot Hptr Hne Hread Habs Hguest Htr.
  unfold rewrite_path_arg; wp_run.
  replace (slot =? 0) with false by (symmetry; apply Z.eqb_neq; unfold arg_ok in Hslot; lia).
  replace (bool_decide _ && _) with false by
    (symmetry; apply andb_false_iff; destruct Hroot; [constructor 1|constructor 2];
     [by apply bool_decide_eq_false|by apply Z.eqb_neq]).
  cbn [orb]; wp_run; rewrite (proj2 (Z.eqb_neq _ _) Hptr); wp_run; rewrite Hread.
  destruct (read_str_world (e_world s) (t_pid (e_t s)) _ PATH_LEN (get_range _ (ARG slot) _ Hregs)) as (Hw1 & Hm1 & Hk1).
  pose proof (read_str_rw (e_world s) (t_pid (e_t s)) (get abi_arch (ARG slot) (e_regs s)) PATH_LEN) as Hrw1.
  revert Hw1 Hm1 Hk1 Hrw1; fold (Arch.reg_arg abi_arch slot (e_regs s)); generalize (guest_read_str abi_arch (e_world s)
    (t_pid (e_t s)) (Arch.reg_arg abi_arch slot (e_regs s)) PATH_LEN).1; intros w1 Hw1 Hm1 Hk1 Hrw1.
  destruct given as [|c given]; [done|]; wp_run.
  assert (Hstrict : forall P, P false (s <| e_world := w1 |>) ->
    wp (if is_slash (chr_at (c :: given) 0) then mret false else strict_openat2 sysno slot : M W bool) P (s <| e_world := w1 |>)).
  { intros P HP; destruct (is_slash _); [by apply wp_ret|]; destruct Habs as [?|Hno]; [done|].
    unfold strict_openat2; rewrite Hno; by apply wp_ret. }
  apply Hstrict; cbv iota; wp_run.
  eapply wp_eval; [by apply absolute_guest_path_world|]; wp_run.
  cbv iota; wp_run; apply wp_note_proc_link; intros s2 Hs2 Hw2.
  assert (like s s2) as Hlike by (eapply like_trans; [by apply (like_world s w1)|done]).
  eapply wp_translated; try done; [by apply Ht|]; rewrite Hw2; fields; by apply same_host_readlink.
Qed.

Lemma toy_store_accepted pid : store_accepted (abi := x86_64_abi) (W := tracer toy) pid.
Proof.
  assert (Hset : forall k r, regs_wf X86_64 r -> (toy_setregs k r).2 = true).
  { intros k r Hr; unfold toy_setregs; by rewrite (proj2 (words_ok_spec r) Hr). }
  assert (Hfull : forall k r, regs_wf X86_64 r -> r ++ zdrop (strlen r) (words k) = r).
  { intros k r [Hl _]; destruct (words_wf k) as [Hl' _]; unfold zdrop, strlen; rewrite drop_ge, app_nil_r; [done|]; lia. }
  intros [k ? [| |] ?] r Hr; cbn [regs_store toy_guest tracer_guest]; unfold regs_set, mode_now; simpl;
    rewrite (Hfull k r Hr); specialize (Hset k r Hr); by destruct (toy_setregs k r).
Qed.

(** The toy engine as the entry handler leaves it before the redirection. *)
Definition toy_engine_at (k : toy) (host_root : cstr) (sysno : Z) (args : list Z) : engine (tracer toy) :=
  let s := toy_engine k host_root sysno args in s <| e_t := e_t s <| scratch_top := 7680 |> |>.

Lemma toy_engine_at_wf k r sysno args : strlen r < PATH_LEN -> engine_wf X86_64 (toy_engine_at k r sysno args).
Proof.
  intros Hr; destruct (toy_engine_wf k r sysno args Hr) as (Hc & (?&?&?&?&?&_&?) & Hregs).
  split; [exact Hc|split; [|exact Hregs]]; unfold tracee_wf; split_and?; done.
Qed.

(** open("/etc/passwd") under the host root /r. *)
Lemma path_arg_redirected_witness :
  let s := toy_engine_at toy_example (lit "/r") 2 [4096] in
  wp (rewrite_path_arg (abi := x86_64_abi) 2 1 true 0)
     (fun _ s' => redirected (abi := x86_64_abi) (live := toy_guest_live) 1 (lit "/r/etc/passwd") s s') s.
Proof.
  intros s.
  assert (H1 : (guest_read_str X86_64 (e_world s) 7 4096 PATH_LEN).2 = Some (lit "/etc/passwd")) by (vm_compute; reflexivity).
  assert (H2 : absolute_guest_path (abi := x86_64_abi) (dirfd_slot (abi := x86_64_abi) 2 1) (lit "/etc/passwd") (2 * PATH_LEN) s = Done (Some (lit "/etc/passwd"), s)) by reflexivity.
  assert (H3 : emuroot_translate_path_ex (fs_readlink (e_world s)) (e_ctx s) (lit "/r") (lit "/etc/passwd") true PATH_LEN 1 =
    Some (Translation (lit "/r/etc/passwd") [] true)) by (vm_compute; reflexivity).
  apply (path_arg_redirected (abi := x86_64_abi) (live := toy_guest_live) s 2 1 0 true (lit "/etc/passwd") (lit "/etc/passwd")
    (Translation (lit "/r/etc/passwd") [] true)).
  - exact (toy_engine_at_wf toy_example (lit "/r") 2 [4096] eq_refl).
  - split; discriminate.
  - exact (toy_store_accepted 7).
  - constructor 1; vm_compute; discriminate.
  - vm_compute; discriminate.
  - discriminate.
  - exact H1.
  - constructor 1; reflexivity.
  - exact H2.
  - exact H3.
Defined.
