(* ===== verification/IdentityFacts.v ===== *)
(** What becomes of a credential call from entry to exit: the kernel runs a
    harmless version of it, and the guest sees the emulated one. *)

From Stdlib Require Import ZArith Lia Ascii String.
From stdpp Require Import base list numbers.
From S2P Require Import Prelude Stdio Arch Syscalls World Guest ToyKernel GuestFacts Creds Owners Config Path PathFacts.
From S2P Require Import Tracee PathArg Dac Identity Mounts Exec Rewrite Fake Safety Wp RewriteFacts.
Local Open Scope Z_scope.
Local Open Scope emu_scope.

(** The calls that change the user or group ids, with the arguments the guest
    passed; [None] for the other actions. *)
Definition id_change (a : action) (args : list Z) : option cred_call :=
  let a_ := fun i => w32 (nth i args 0) in
  match a with
  | A_SETUID => Some (SETUID (a_ 0%nat))
  | A_SETGID => Some (SETGID (a_ 0%nat))
  | A_SETREUID => Some (SETREUID (a_ 0%nat) (a_ 1%nat))
  | A_SETREGID => Some (SETREGID (a_ 0%nat) (a_ 1%nat))
  | A_SETRESUID => Some (SETRESUID (a_ 0%nat) (a_ 1%nat) (a_ 2%nat))
  | A_SETRESGID => Some (SETRESGID (a_ 0%nat) (a_ 1%nat) (a_ 2%nat))
  | A_SETFSUID => Some (SETFSUID (a_ 0%nat))
  | A_SETFSGID => Some (SETFSGID (a_ 0%nat))
  | _ => None
  end.

(** What the kernel may find in the arguments of such a call: the real user's
    own id for [setuid] and [setgid], "no change" for the others. *)
Definition harmless (ar : arch) (euid egid : Z) (a : action) (regs : list Z) : Prop :=
  let arg_is := fun n v => Arch.reg_arg ar n regs = uword ar v in
  match a with
  | A_SETUID => arg_is 1 euid
  | A_SETGID => arg_is 1 egid
  | A_SETREUID | A_SETREGID => arg_is 1 none_id /\ arg_is 2 none_id
  | A_SETRESUID | A_SETRESGID => arg_is 1 none_id /\ arg_is 2 none_id /\ arg_is 3 none_id
  | A_SETFSUID | A_SETFSGID => arg_is 1 none_id
  | _ => True
  end.

(** ** Lemmas *)

Section facts.
Context {abi : ABI} `{!ABIOk abi} `{laws : GuestLaws abi_arch W}.

(** A call that changes ids takes no path and is none of the special ones. *)
Lemma id_change_name n a args call :
  action_entry n = Some a -> id_change a args = Some call ->
  (forall z, path_entry n z = None) /\ n ∉ [NR_execve; NR_bind; NR_connect; NR_sendto; NR_execveat].
Proof.
  unfold action_entry; intros Ha Hc.
  destruct (List.find _ action_table) as [t|] eqn:Hf; [|done]; injection Ha as Ha.
  apply List.find_some in Hf as [Hin [_ Hn]%andb_prop]; bool_cases; subst n.
  set (other n := bool_decide (n ∉ path_table.*1) &&
                  bool_decide (n ∉ [NR_execve; NR_bind; NR_connect; NR_sendto; NR_execveat])).
  assert (Hall : forallb (fun t => match id_change t.1.2 [] with Some _ => other t.1.1 | None => true end) action_table = true)
    by (vm_compute; reflexivity).
  rewrite List.forallb_forall in Hall; specialize (Hall t Hin); cbv beta in Hall; rewrite Ha in Hall.
  destruct (id_change a []) eqn:E; [|by destruct a].
  unfold other in Hall; apply andb_prop in Hall as [H1%bool_decide_eq_true_1 H2%bool_decide_eq_true_1].
  split; [|exact H2]; intros z; unfold path_entry.
  destruct (List.find _ path_table) as [p|] eqn:Hp; [|done].
  apply List.find_some in Hp as [Hp1%list_elem_of_In Hp2]; bool_cases.
  exfalso; apply H1; rewrite <- Hp2; by apply list_elem_of_fmap_2.
Qed.

Lemma is_nr_other n m z : nr n = Some z -> m <> n -> is_nr m z = false.
Proof.
  intros Hn Hne; unfold is_nr; destruct (nr m) as [z'|] eqn:Hm; [|done].
  apply Z.eqb_neq; intros ->; apply Hne; eapply nr_inj; eauto.
Qed.

Lemma reg_put_eq n v regs : regs_wf abi_arch regs -> Arch.reg_arg abi_arch n (put abi_arch (ARG n) v regs) = uword abi_arch v.
Proof. apply get_put_eq. Qed.

Lemma reg_put_ne n m v regs :
  arg_ok n -> arg_ok m -> n <> m -> Arch.reg_arg abi_arch n (put abi_arch (ARG m) v regs) = Arch.reg_arg abi_arch n regs.
Proof. intros Hn Hm Hne; apply get_put_ne; intros E; apply Hne; symmetry; eapply role_index_arg_inj; eauto. Qed.

(** The identity handler commits harmless arguments. *)
Lemma wp_neutralize a args call P (s : engine W) :
  regs_wf abi_arch (e_regs s) -> store_accepted (W := W) (t_pid (e_t s)) -> id_change a args = Some call ->
  (forall regs w', regs_wf abi_arch regs ->
     harmless abi_arch (host_euid (e_world s)) (host_egid (e_world s)) a regs ->
     kernel_regs w' (t_pid (e_t s)) = Some regs -> P () (s <| e_regs := regs |> <| e_world := w' |>)) ->
  wp (neutralize_id_change (Some a)) P s.
Proof.
  intros Hregs Hacc Hcall HP; unfold neutralize_id_change.
  assert (Hdone : forall regs, regs_wf abi_arch regs ->
    harmless abi_arch (host_euid (e_world s)) (host_egid (e_world s)) a regs ->
    wp store_regs_now (fun _ => wp (mret ()) P) (s <| e_regs := regs |>)).
  { intros regs Hr Hh; apply wp_store_accepted; [done|exact Hr|]; intros b w' _ _ Hk; apply wp_ret; by apply HP. }
  destruct a; try done; wp_run; (apply (Hdone (put abi_arch _ _ _)); [by repeat apply put_wf|]);
    cbn [e_regs e_world update eta_engine harmless] in *; split_and?;
    repeat first [rewrite reg_put_eq by (by repeat apply put_wf) | rewrite reg_put_ne by (try split; lia)]; done.
Qed.

(** After the identity handler, nothing else happens to such a call. *)
Lemma redirect_call_other calloc n z P (s : engine W) :
  nr n = Some z -> (forall z, path_entry n z = None) -> n ∉ [NR_execve; NR_bind; NR_connect; NR_sendto; NR_execveat] ->
  P () s -> wp (redirect_call calloc z) P s.
Proof.
  intros Hn Hp Ho HP; unfold redirect_call.
  rewrite !(is_nr_other n) by (done || intros <-; apply Ho; repeat constructor).
  wp_run; cbv iota; rewrite (find_path_entry n z Hn), Hp; by apply wp_ret.
Qed.

Lemma mounts_other z a args call P (s : engine W) :
  id_change a args = Some call -> P false s -> wp (emuroot_emulate_mounts z (Some a)) P s.
Proof. intros Hc HP; unfold emuroot_emulate_mounts; wp_run; destruct (negb _); [by wp_run|]; destruct a; try done; by wp_run. Qed.

Lemma wp_entry_id_change calloc n z a args call P (s : engine W) :
  regs_wf abi_arch (e_regs s) -> store_accepted (W := W) (t_pid (e_t s)) -> has_fake_ids (e_ctx s) = true ->
  nr n = Some z -> slong abi_arch (Arch.get abi_arch SYSNO (e_regs s)) = z ->
  action_entry n = Some a -> id_change a args = Some call ->
  (forall t regs w', t_pid t = t_pid (e_t s) -> t_creds t = t_creds (e_t s) -> t_sysno t = z -> created t = [] ->
     t_args t = (fun i => Arch.reg_arg abi_arch i (e_regs s)) <$> [1; 2; 3; 4; 5; 6] ->
     regs_wf abi_arch regs ->
     harmless abi_arch (host_euid (e_world s)) (host_egid (e_world s)) a regs ->
     kernel_regs w' (t_pid (e_t s)) = Some regs ->
     P () (s <| e_t := t |> <| e_regs := regs |> <| e_world := w' |>)) ->
  wp (emuroot_on_entry calloc) P s.
Proof.
  intros Hregs Hacc Hids Hn Hz Ha Hc HP; destruct (id_change_name n a args call Ha Hc) as [Hp Ho].
  unfold emuroot_on_entry, start_call, emuroot_identity_entry; wp_run; cbn [e_ctx e_regs update eta_engine]; rewrite Hz, Hids.
  cbv iota; wp_run; rewrite (action_of_entry n z Hn), Ha.
  eapply wp_neutralize; try done; intros regs w' Hr Hh Hk.
  replace (bool_decide _) with false by (symmetry; apply bool_decide_eq_false; intros [= ->]; done).
  wp_run; eapply mounts_other; [done|]; cbv iota.
  apply (redirect_call_other calloc n); try done.
  by apply (HP _ regs w').
Qed.

Lemma fake_result_id_change calloc kstat a call ret P (s : engine W) :
  id_change a (t_args (e_t s)) = Some call ->
  (let '(c, r) := cred_step (t_creds (e_t s)) call in P r (s <| e_t := e_t s <| t_creds := c |> |>)) ->
  wp (fake_result calloc kstat a ret) P s.
Proof.
  intros Hc HP; unfold fake_result, set_creds, saved_arg; wp_run.
  destruct a; try done; cbn [id_change] in Hc; injection Hc as <-; cbn [cred_step] in HP; wp_run;
    match goal with |- context [let '(_, _) := ?x in _] => destruct x end; wp_run; exact HP.
Qed.

Lemma slong_uword z : uword abi_arch (slong abi_arch z) = uword abi_arch z.
Proof.
  unfold slong; pose proof (word_bits_ge abi_arch); assert (0 < 2 ^ word_bits abi_arch) by (apply Z.pow_pos_nonneg; lia).
  case_ifs; [apply uword_idem|].
  unfold uword; rewrite <- (Z.mod_add _ 1) by lia.
  replace (z mod 2 ^ word_bits abi_arch - 2 ^ word_bits abi_arch + 1 * 2 ^ word_bits abi_arch)
    with (z mod 2 ^ word_bits abi_arch) by lia; apply Z.mod_mod; lia.
Qed.

(** The actions that end in the switch of [fake_result]. *)
Definition plain (a : action) : bool :=
  match a with
  | A_GETCWD | A_EXECVE | A_CHROOT | A_MOUNT | A_UMOUNT | A_READLINK | A_UNAME => false
  | _ => true
  end.

Definition the_ret (s : engine W) : Z := slong abi_arch (Arch.get abi_arch RET (e_regs s)).
Definition unlogged (s : engine W) : engine W := s <| e_t := e_t s <| logged := false |> |>.

Lemma wp_exit_plain calloc kstat n z a P (s : engine W) :
  has_fake_ids (e_ctx s) = true -> nr n = Some z -> t_sysno (e_t s) = z -> created (e_t s) = [] ->
  action_entry n = Some a -> plain a = true ->
  wp (fake_result calloc kstat a (the_ret s))
     (fun r => wp (if negb (r =? the_ret s) then set_result r else mret ()) P) (unlogged s) ->
  wp (emuroot_on_exit calloc kstat) P s.
Proof.
  intros Hids Hn Hz Hcr Ha Hp HP; unfold emuroot_on_exit, record_created; wp_run.
  cbn [e_t created update eta_engine eta_tracee]; rewrite Hcr; change (bool_decide ([] = [])) with true; cbv iota; wp_run.
  cbn [e_t e_ctx t_sysno update eta_engine eta_tracee]; rewrite Hz, (action_of_entry n z Hn), Ha, Hids.
  apply wp_bind in HP; destruct a; try done; exact HP.
Qed.

(** The result as the guest sees it. *)
Lemma wp_set_result_if r P (s s0 : engine W) :
  regs_wf abi_arch (e_regs s) -> store_accepted (W := W) (t_pid (e_t s)) -> e_regs s = e_regs s0 ->
  (forall s', e_ctx s' = e_ctx s -> e_t s' = e_t s ->
     Arch.get abi_arch RET (e_regs s') = uword abi_arch r ->
     e_regs s' = e_regs s \/ kernel_regs (e_world s') (t_pid (e_t s)) = Some (e_regs s') -> P () s') ->
  wp (if negb (r =? the_ret s0) then set_result r else mret ()) P s.
Proof.
  intros Hregs Hacc Er HP; unfold the_ret; rewrite <- Er; set (ret := slong abi_arch _).
  destruct (Z.eqb_spec r ret) as [->|Hne]; cbn [negb].
  - wp_run; apply HP; [done|done| |by constructor].
    unfold ret; rewrite slong_uword; symmetry; apply uword_small, (get_range _ _ _ Hregs).
  - unfold set_result; wp_run; apply wp_store_accepted; [done|by apply put_wf|].
    intros b w' _ _ Hk; wp_run; apply HP; [done|done|by apply get_put_eq|by constructor 2].
Qed.

(** [emuroot_on_exit] makes the emulated call and reports its result. *)
Lemma wp_exit_id_change calloc kstat n z a call P (s : engine W) :
  regs_wf abi_arch (e_regs s) -> store_accepted (W := W) (t_pid (e_t s)) -> has_fake_ids (e_ctx s) = true ->
  nr n = Some z -> t_sysno (e_t s) = z -> created (e_t s) = [] ->
  action_entry n = Some a -> id_change a (t_args (e_t s)) = Some call ->
  (forall s', t_creds (e_t s') = (cred_step (t_creds (e_t s)) call).1 ->
     Arch.get abi_arch RET (e_regs s') = uword abi_arch (cred_step (t_creds (e_t s)) call).2 ->
     e_regs s' = e_regs s \/ kernel_regs (e_world s') (t_pid (e_t s)) = Some (e_regs s') -> P () s') ->
  wp (emuroot_on_exit calloc kstat) P s.
Proof.
  intros Hregs Hacc Hids Hn Hz Hcr Ha Hc HP; eapply wp_exit_plain; try done; [by destruct a|].
  apply fake_result_id_change with (call := call); [done|].
  change (t_creds (e_t (unlogged s))) with (t_creds (e_t s)).
  destruct (cred_step (t_creds (e_t s)) call) as [c r] eqn:E; cbn [fst snd] in HP.
  apply wp_set_result_if; try done; intros s' _ Et Hr Hk; apply HP; by rewrite ?Et.
Qed.
End facts.

(** ** Properties *)

(** C6: a credential call is emulated from entry to exit. When ids are faked and
    the guest calls setuid, setgid, setreuid, ..., setfsgid (whatever number the
    ABI has for it), the kernel is left to run a harmless version of the call:
    the registers it holds after the entry stop ask for the real user's own id or
    for no change. Whatever that call then answers, with whatever registers and
    world at the exit stop, the process's emulated credentials become those of
    the emulated call on the arguments the guest passed, its result is in the
    return register, and the kernel's registers agree unless none had to change. *)
Theorem cred_call_emulated {abi : ABI} `{!ABIOk abi} `{laws : GuestLaws abi_arch W} (calloc : Z -> Z -> bool) (kstat : stat_layout)
    (s : engine W) (n : sysname) (z : Z) (a : action) (call : cred_call) :
  let args := (fun i => Arch.reg_arg abi_arch i (e_regs s)) <$> [1; 2; 3; 4; 5; 6] in
  regs_wf abi_arch (e_regs s) -> store_accepted (W := W) (t_pid (e_t s)) -> has_fake_ids (e_ctx s) = true ->
  nr n = Some z -> slong abi_arch (Arch.get abi_arch SYSNO (e_regs s)) = z ->
  action_entry n = Some a -> id_change a args = Some call ->
  wp (emuroot_on_entry calloc) (fun _ s1 =>
    harmless abi_arch (host_euid (e_world s)) (host_egid (e_world s)) a (e_regs s1) /\
    kernel_regs (e_world s1) (t_pid (e_t s)) = Some (e_regs s1) /\
    forall regs w, regs_wf abi_arch regs ->
    wp (emuroot_on_exit calloc kstat) (fun _ s2 =>
      t_creds (e_t s2) = (cred_step (t_creds (e_t s)) call).1 /\
      Arch.get abi_arch RET (e_regs s2) = uword abi_arch (cred_step (t_creds (e_t s)) call).2 /\
      (e_regs s2 = regs \/ kernel_regs (e_world s2) (t_pid (e_t s)) = Some (e_regs s2)))
      (s1 <| e_regs := regs |> <| e_world := w |>)) s.
Proof.
  intros args Hregs Hacc Hids Hn Hz Ha Hc.
  eapply (wp_entry_id_change calloc n z a args call); try done.
  intros t regs1 w1 Hpid Hcreds Hsys Hcr Hargs Hr1 Hh Hk; split; [done|split; [done|]]; intros regs w Hr.
  apply (wp_exit_id_change calloc kstat n z a call); cbn [e_regs e_t e_ctx update eta_engine]; rewrite ?Hpid, ?Hcreds, ?Hargs; done.
Qed.

(** setresuid(1000, 1000, 0) by the fake root, which the sandbox refuses. *)
Lemma cred_call_emulated_witness :
  let s := toy_engine toy_example (lit "/r") 117 [1000; 1000; 0] in
  let call := SETRESUID 1000 1000 0 in
  cred_step (t_creds (e_t s)) call =
    (Creds (Ids3 1000 1000 0) (gid (creds_init 0 0)) 1000 (fsgid (creds_init 0 0)) (groups (creds_init 0 0)) (ngroups (creds_init 0 0)), 0) /\
  wp (emuroot_on_entry (abi := x86_64_abi) (fun _ _ => true)) (fun _ s1 =>
    harmless X86_64 1000 1000 A_SETRESUID (e_regs s1) /\
    kernel_regs (GuestLaws := toy_guest_laws) (e_world s1) 7 = Some (e_regs s1) /\
    forall regs w, regs_wf X86_64 regs ->
    wp (emuroot_on_exit (abi := x86_64_abi) (fun _ _ => true) x86_64_stat) (fun _ s2 =>
      t_creds (e_t s2) = (cred_step (t_creds (e_t s)) call).1 /\
      Arch.get X86_64 RET (e_regs s2) = uword X86_64 (cred_step (t_creds (e_t s)) call).2 /\
      (e_regs s2 = regs \/ kernel_regs (GuestLaws := toy_guest_laws) (e_world s2) 7 = Some (e_regs s2)))
      (s1 <| e_regs := regs |> <| e_world := w |>)) s.
Proof.
  intros s call; split; [vm_compute; reflexivity|].
  apply (cred_call_emulated (abi := x86_64_abi) (laws := toy_guest_laws) (fun _ _ => true) x86_64_stat s
           NR_setresuid 117 A_SETRESUID call).
  - exact (toy_regs_of_wf 117 [1000; 1000; 0]).
  - exact (toy_store_accepted 7).
  - reflexivity.
  - vm_compute; reflexivity.
  - vm_compute; reflexivity.
  - vm_compute; reflexivity.
  - vm_compute; reflexivity.
Defined.
