(* ===== verification/FakeFacts.v ===== *)
(** What the guest sees at syscall exit: stat reports the emulated owner, and a
    chown is remembered. *)

From Stdlib Require Import ZArith Lia Ascii String.
From stdpp Require Import base list numbers.
From S2P Require Import Prelude Stdio Arch Syscalls World Guest ToyKernel GuestFacts Live Creds Owners Config Path PathFacts.
From S2P Require Import Tracee PathArg Dac Identity Mounts Exec Rewrite Fake Safety Wp RewriteFacts IdentityFacts.
Local Open Scope Z_scope.
Local Open Scope emu_scope.

(** ** Numbers in guest memory *)

Section facts.
Context {abi : ABI} `{!ABIOk abi} `{live : GuestLive abi_arch W}.

(** The [n]-byte number [v] stands at [a]. *)
Definition num_at (w : W) (pid a n v : Z) : Prop := at_addr (mem w pid) a (bytes_of abi_arch (Z.to_nat n) v).

Lemma strlen_bytes_of n v : 0 <= n -> strlen (bytes_of abi_arch (Z.to_nat n) v) = n.
Proof. intros; unfold strlen; rewrite bytes_of_length; lia. Qed.

Lemma num_at_mapped w pid a n v : 0 <= n -> num_at w pid a n v -> all_of (fun x => is_Some (mem w pid x)) a n.
Proof.
  intros Hn Hv x Hx; destruct (at_addr_mapped _ _ _ x Hv) as [c Hc]; [|by exists c].
  by rewrite strlen_bytes_of.
Qed.

Lemma num_at_addr w pid a n v : 0 < n -> num_at w pid a n v -> is_addr abi_arch a.
Proof.
  intros Hn Hv; destruct (num_at_mapped w pid a n v ltac:(lia) Hv a) as [c Hc]; [lia|].
  apply mem_range in Hc; change (word_size abi_arch) with (wsize abi_arch) in Hc; pose proof (wsize_pos abi_arch).
  unfold is_addr; lia.
Qed.

(** [s'] is [s] after some reads of guest memory. *)
Definition quiet (s s' : engine W) : Prop :=
  exists w', s' = s <| e_world := w' |> /\ only_reads (e_world s) w' /\ guest_rw w' = guest_rw (e_world s).

Lemma quiet_trans s1 s2 s3 : quiet s1 s2 -> quiet s2 s3 -> quiet s1 s3.
Proof.
  intros (w2 & -> & Ho2 & Hr2) (w3 & -> & Ho3 & Hr3); fields; exists w3.
  split; [done|split; [by eapply only_reads_trans|congruence]].
Qed.

Lemma quiet_num s s' pid a n v : quiet s s' -> num_at (e_world s) pid a n v -> num_at (e_world s') pid a n v.
Proof. intros (w' & -> & (_ & Hm & _) & _); unfold num_at; fields; by rewrite Hm. Qed.

Lemma wp_mem_read_num a n v P (s : engine W) :
  0 < n -> num_at (e_world s) (t_pid (e_t s)) a n v ->
  (forall s', quiet s s' -> P (Some (bytes_of abi_arch (Z.to_nat n) v)) s') ->
  wp (mem_read a n) P s.
Proof.
  intros Hn Hv HP; pose proof (num_at_addr _ _ _ _ _ Hn Hv) as Ha; apply wp_mem_read; cbv zeta.
  destruct (read_live (e_world s) (t_pid (e_t s)) a n Ha ltac:(lia)) as (bs & Hbs & Hl);
    [eapply num_at_mapped; [lia|done]|].
  destruct (read_bytes _ _ _ _ _ Ha (Z.lt_le_incl _ _ Hn) Hbs) as [_ Hat]; rewrite Hbs.
  replace bs with (bytes_of abi_arch (Z.to_nat n) v).
  - apply HP; eexists; split; [done|split; [apply read_same|apply read_rw]].
  - rewrite (at_addr_agree _ _ _ _ Hat Hv) by (rewrite strlen_bytes_of; lia).
    symmetry; apply ztake_ge; rewrite strlen_bytes_of; lia.
Qed.

Lemma wp_read_num a n v P (s : engine W) :
  0 < n -> 0 <= v < 2 ^ (8 * n) -> num_at (e_world s) (t_pid (e_t s)) a n v ->
  (forall s', quiet s s' -> P (Some v) s') -> wp (read_num a n) P s.
Proof.
  intros Hn Hr Hv HP; unfold read_num; rewrite uword_small by (by eapply num_at_addr); apply wp_bind.
  eapply wp_mem_read_num; [done|done|]; intros s' Hs'; wp_run.
  rewrite strlen_bytes_of, Z.eqb_refl, value_bytes_of by lia; rewrite Z2Nat.id, Z.mod_small by lia; by apply HP.
Qed.

(** After a write of the four bytes at [a]. *)
Definition wrote (a v : Z) (s s' : engine W) : Prop :=
  exists w', s' = s <| e_world := w' |> /\ same_host (e_world s) w' /\ guest_rw w' = guest_rw (e_world s) /\
    agree_outside (mem (e_world s) (t_pid (e_t s))) (mem w' (t_pid (e_t s))) a 4 /\
    num_at w' (t_pid (e_t s)) a 4 v.

Lemma wp_write_u32 a v P (s : engine W) :
  is_addr abi_arch a -> all_of (guest_rw (e_world s) (t_pid (e_t s))) a 4 ->
  (forall s', wrote a v s s' -> P () s') -> wp (write_u32 a v) P s.
Proof.
  intros Ha Hrw HP; unfold write_u32; rewrite uword_small by done; wp_run; apply HP; fields.
  pose proof (strlen_bytes_of 4 v ltac:(lia)) as Hl; change (Z.to_nat 4) with 4%nat in Hl.
  destruct (write_same (e_world s) (t_pid (e_t s)) a (bytes_of abi_arch 4 v) Ha) as (Hh & _ & Hout); rewrite Hl in Hout.
  eexists; split; [done|split; [done|split; [apply write_rw|split; [exact Hout|]]]].
  unfold num_at; change (Z.to_nat 4) with 4%nat; intros i c Hi.
  apply write_bytes; [done| |done]; apply write_live; [done| |by rewrite Hl]; intros E; by rewrite E in Hl.
Qed.

Lemma wrote_num s s' a v a' n v' : 0 <= n ->
  wrote a v s s' -> a' + n <= a \/ a + 4 <= a' ->
  num_at (e_world s) (t_pid (e_t s)) a' n v' -> num_at (e_world s') (t_pid (e_t s)) a' n v'.
Proof.
  intros Hn (w' & -> & _ & _ & Hout & _) Hd Hv; fields; eapply at_addr_outside; [exact Hout| |exact Hv].
  by rewrite strlen_bytes_of.
Qed.

(** ** A stat buffer *)

(** The device field: one number, or the two halves of statx. *)
Definition dev_at (w : W) (pid buf : Z) (l : stat_layout) (dev : Z) : Prop :=
  if l_statx l then
    exists major minor, is_u32 major /\ is_u32 minor /\ dev = makedev major minor /\
      num_at w pid (buf + l_dev l) 4 major /\ num_at w pid (buf + l_dev l + 4) 4 minor
  else 0 <= dev < 2 ^ 64 /\ num_at w pid (buf + l_dev l) 8 dev.

(** The buffer describes a file with these ids, in memory the process can
    write. *)
Record stat_at (w : W) (pid buf : Z) (l : stat_layout) (u g dev ino : Z) : Prop := {
  sa_uid : num_at w pid (buf + l_uid l) 4 u;
  sa_gid : num_at w pid (buf + l_gid l) 4 g;
  sa_ino : num_at w pid (buf + l_ino l) 8 ino;
  sa_dev : dev_at w pid buf l dev;
  sa_range : is_u32 u /\ is_u32 g /\ 0 <= ino < 2 ^ 64;
  sa_rw : all_of (guest_rw w pid) (buf + l_uid l) 4 /\ all_of (guest_rw w pid) (buf + l_gid l) 4;
  sa_disjoint : l_uid l + 4 <= l_gid l \/ l_gid l + 4 <= l_uid l
}.

(** The ids the guest is to see. *)
Definition seen_owner (ctx : emuroot_ctx) (euid egid u g : Z) (owner : option (Z * Z)) : Z * Z :=
  match owner with
  | Some o => o
  | None => (if u =? euid then fake_uid ctx else u, if g =? egid then fake_gid ctx else g)
  end.

(** Memory but for the two fields is as it was. *)
Definition only_ids_changed (w w' : W) (pid buf : Z) (l : stat_layout) : Prop :=
  forall x, ~ (buf + l_uid l <= x < buf + l_uid l + 4) -> ~ (buf + l_gid l <= x < buf + l_gid l + 4) ->
    mem w' pid x = mem w pid x.

Definition ids_reported (s s' : engine W) (buf : Z) (l : stat_layout) (ids : Z * Z) : Prop :=
  e_regs s' = e_regs s /\ e_ctx s' = e_ctx s /\ e_t s' = e_t s /\
  num_at (e_world s') (t_pid (e_t s)) (buf + l_uid l) 4 ids.1 /\
  num_at (e_world s') (t_pid (e_t s)) (buf + l_gid l) 4 ids.2 /\
  only_ids_changed (e_world s) (e_world s') (t_pid (e_t s)) buf l.

Lemma quiet_fields s s' : quiet s s' -> e_regs s' = e_regs s /\ e_ctx s' = e_ctx s /\ e_t s' = e_t s.
Proof. by intros (w' & -> & _). Qed.

Lemma quiet_stat s s' pid buf l u g dev ino :
  quiet s s' -> stat_at (e_world s) pid buf l u g dev ino -> stat_at (e_world s') pid buf l u g dev ino.
Proof.
  intros Hq [Hu Hg Hi Hd Hr Hw Hdis]; pose proof Hq as (w' & E & (_ & Hm & _) & Hrw).
  split; try done; try (by eapply quiet_num); subst s'; unfold dev_at, num_at in *; fields; rewrite ?Hm, ?Hrw; done.
Qed.

Lemma wp_file_dev buf l u g dev ino P (s : engine W) :
  stat_at (e_world s) (t_pid (e_t s)) buf l u g dev ino ->
  (forall s', quiet s s' -> P (Some dev) s') -> wp (file_dev buf l) P s.
Proof.
  intros [_ _ _ Hd _ _ _] HP; unfold file_dev, dev_at in *; destruct (l_statx l).
  - destruct Hd as (major & minor & Hma & Hmi & -> & Hn1 & Hn2); apply wp_bind.
    eapply wp_read_num; [done|exact Hma|done|]; intros s1 Hs1; apply wp_bind.
    assert (Ht : e_t s1 = e_t s) by apply (quiet_fields _ _ Hs1).
    eapply wp_read_num; [done|exact Hmi|rewrite Ht; eapply quiet_num; [exact Hs1|exact Hn2]|]; intros s2 Hs2; wp_run.
    apply HP; by eapply quiet_trans.
  - destruct Hd as [Hr Hn]; rewrite uword_small by exact (num_at_addr _ _ _ 8 _ eq_refl Hn); apply wp_bind.
    eapply wp_mem_read_num; [done|exact Hn|]; intros s1 Hs1; wp_run.
    rewrite strlen_bytes_of by lia; change (8 <? 4) with false; cbv iota.
    replace (overlay _ _) with (bytes_of abi_arch (Z.to_nat 8) dev).
    + rewrite value_bytes_of; change (8 * Z.of_nat (Z.to_nat 8)) with 64; rewrite Z.mod_small by done; by apply HP.
    + unfold overlay; rewrite strlen_bytes_of by lia; unfold zdrop, zeros; rewrite drop_ge, app_nil_r; [done|].
      rewrite length_replicate; lia.
Qed.

Lemma wp_write_if (b : bool) a v old P (s : engine W) :
  all_of (guest_rw (e_world s) (t_pid (e_t s))) a 4 -> num_at (e_world s) (t_pid (e_t s)) a 4 old ->
  (forall s', wrote a (if b then v else old) s s' -> P () s') -> wp (if b then write_u32 a v else mret ()) P s.
Proof.
  intros Hrw Hold HP; destruct b; [apply wp_write_u32; [exact (num_at_addr _ _ _ 4 _ eq_refl Hold)|done|done]|].
  apply wp_ret, HP; exists (e_world s); split; [by destruct s|split; [apply same_host_refl|split; [done|split; [by intros ??|done]]]].
Qed.

(** The ids are written, one after the other, or left. *)
Lemma wp_write_both (b1 b2 : bool) buf l u g dev ino u' g' P (s s0 : engine W) :
  quiet s0 s -> stat_at (e_world s) (t_pid (e_t s)) buf l u g dev ino ->
  (forall s', ids_reported s0 s' buf l (if b1 then u' else u, if b2 then g' else g) -> P () s') ->
  wp (_ ← (if b1 then write_u32 (buf + l_uid l) u' else mret ());
      if b2 then write_u32 (buf + l_gid l) g' else mret ()) P s.
Proof.
  intros Hq [Hu Hg _ _ _ [Hwu Hwg] Hdis] HP; apply wp_bind.
  destruct (quiet_fields _ _ Hq) as (Er & Ec & Et); destruct Hq as (w0 & E0 & (_ & Hm0 & _) & _).
  eapply wp_write_if; [done|exact Hu|].
  intros s1 H1'; pose proof H1' as (w1 & -> & _ & Hrw1 & Hout1 & Hn1).
  eapply wp_write_if; [fields; by rewrite Hrw1|eapply (wrote_num s); [done|exact H1'|lia|exact Hg]|].
  intros s2 H2; pose proof H2 as (w2 & -> & _ & _ & Hout2 & Hn2); fields; apply HP.
  unfold ids_reported; fields; rewrite <- Et; split_and?; try done.
  - by eapply (wrote_num _ _ _ _ _ 4 _ ltac:(done) H2); [lia|].
  - intros x Hx1 Hx2; rewrite Hout2, Hout1 by done; subst s; fields; by rewrite Hm0.
Qed.

Lemma wp_fake_owner buf l u g dev ino owner P (s : engine W) :
  buf <> 0 -> stat_at (e_world s) (t_pid (e_t s)) buf l u g dev ino ->
  owner_lookup (owners (e_ctx s)) dev ino = Some owner ->
  (forall s', ids_reported s s' buf l
     (seen_owner (e_ctx s) (host_euid (e_world s)) (host_egid (e_world s)) u g owner) -> P () s') ->
  wp (fake_owner buf l) P s.
Proof.
  intros Hbuf Hst Hown HP; unfold fake_owner; rewrite (proj2 (Z.eqb_neq _ _) Hbuf).
  destruct (sa_range _ _ _ _ _ _ _ _ Hst) as (Hru & Hrg & Hri).
  assert (Hkeep : forall s', quiet s s' -> stat_at (e_world s') (t_pid (e_t s')) buf l u g dev ino).
  { intros s' Hq; destruct (quiet_fields _ _ Hq) as (_ & _ & ->); by eapply quiet_stat. }
  apply wp_bind; eapply wp_read_num; [done|exact Hru|apply Hst|]; intros s1 Hq1; apply wp_bind.
  eapply wp_read_num; [done|exact Hrg|apply (Hkeep s1 Hq1)|]; intros s2 Hq2.
  pose proof (quiet_trans _ _ _ Hq1 Hq2) as Hq; clear Hq2; apply wp_bind.
  eapply wp_read_num; [done|exact Hri|apply (Hkeep s2 Hq)|]; intros s3 Hq3; apply wp_bind.
  pose proof (quiet_trans _ _ _ Hq Hq3) as Hq'; clear Hq Hq3.
  eapply wp_file_dev; [exact (Hkeep s3 Hq')|]; intros s4 Hq4.
  pose proof (quiet_trans _ _ _ Hq' Hq4) as Hq; clear Hq' Hq4.
  destruct (quiet_fields _ _ Hq) as (Er & Ec & Et); pose proof (Hkeep s4 Hq) as Hst4; wp_run.
  apply wp_defined; exists owner; rewrite Ec; split; [done|].
  destruct owner as [[ou og]|]; [eapply (wp_write_both true true); [exact Hq|exact Hst4|exact HP]|].
  destruct Hq as (w4 & E4 & Ho4 & Hr4) eqn:EHq; clear EHq; pose proof Ho4 as (Hh4 & _).
  destruct Hh4 as (_ & _ & _ & _ & _ & _ & Heu & Heg).
  apply wp_bind, wp_ask, wp_bind, wp_ask; replace (e_world s4) with w4 by (by subst s4); rewrite Heu, Heg.
  eapply (wp_write_both (u =? host_euid (e_world s)) (g =? host_egid (e_world s)));
    [exists w4; by rewrite E4|exact Hst4|exact HP].
Qed.
End facts.

(** ** Properties *)

(** The calls that fill a stat buffer: the argument that points to it, and its
    layout. *)
Definition stat_call (a : action) (kstat : stat_layout) : option (nat * stat_layout) :=
  match a with
  | A_STAT_2 => Some (1%nat, kstat)
  | A_STAT_3 => Some (2%nat, kstat)
  | A_STATX => Some (4%nat, statx_layout)
  | _ => None
  end.

(** C7: stat reports the emulated owner. When a call of the stat family has
    succeeded and its buffer describes file (dev, ino), the guest finds in it the
    ids that the ownership table holds for that file, or else the fake ids in
    place of the tracer's own ones and any other id unchanged. No other byte of
    the guest's memory changes, and neither do its registers. *)
Theorem stat_reports_owner {abi : ABI} `{!ABIOk abi} `{live : GuestLive abi_arch W}
    (calloc : Z -> Z -> bool) (kstat l : stat_layout) (s : engine W) (n : sysname) (z : Z) (a : action) (i : nat)
    (u g dev ino : Z) :
  let buf := saved_arg (e_t s) i in
  let seen := seen_owner (e_ctx s) (host_euid (e_world s)) (host_egid (e_world s)) u g
                (owners_map (owners (e_ctx s)) !! (dev, ino)) in
  owners_wf (owners (e_ctx s)) -> has_fake_ids (e_ctx s) = true ->
  nr n = Some z -> t_sysno (e_t s) = z -> created (e_t s) = [] ->
  action_entry n = Some a -> stat_call a kstat = Some (i, l) ->
  slong abi_arch (Arch.get abi_arch RET (e_regs s)) = 0 -> buf <> 0 ->
  stat_at (e_world s) (t_pid (e_t s)) buf l u g dev ino ->
  wp (emuroot_on_exit calloc kstat) (fun _ s' =>
    num_at (e_world s') (t_pid (e_t s)) (buf + l_uid l) 4 seen.1 /\
    num_at (e_world s') (t_pid (e_t s)) (buf + l_gid l) 4 seen.2 /\
    only_ids_changed (e_world s) (e_world s') (t_pid (e_t s)) buf l /\ e_regs s' = e_regs s) s.
Proof.
  intros buf seen Hwf Hids Hn Hz Hcr Ha Hc Hret Hbuf Hst; eapply wp_exit_plain; try done; [by destruct a|].
  unfold the_ret; rewrite Hret; unfold fake_result; apply wp_bind, wp_the_t; cbv zeta.
  assert (Hgo : wp (_ ← fake_owner buf l; mret 0)
    (fun r => wp (if negb (r =? 0) then set_result r else mret ()) (fun _ s' =>
       num_at (e_world s') (t_pid (e_t s)) (buf + l_uid l) 4 seen.1 /\
       num_at (e_world s') (t_pid (e_t s)) (buf + l_gid l) 4 seen.2 /\
       only_ids_changed (e_world s) (e_world s') (t_pid (e_t s)) buf l /\ e_regs s' = e_regs s)) (unlogged s)).
  { apply wp_bind; eapply wp_fake_owner; [done|exact Hst|by apply owner_lookup_spec|].
    intros s' (Er & _ & _ & Hu & Hg & Hout); apply wp_ret; change (negb (0 =? 0)) with false; cbv iota; apply wp_ret; done. }
  destruct a; try done; injection Hc as <- <-; exact Hgo.
Qed.

(** A buffer for newfstatat at 4096: the tracer's file 42 on device 7. *)
Definition toy_stat (k : toy) : toy :=
  let put := fun k a n v => with_mem k (store_at (toy_mem k) a (bytes_of X86_64 n v)) in
  put (put (put (put k 4124 4%nat 1000) 4128 4%nat 1000) 4096 8%nat 7) 4104 8%nat 42.
Definition toy_stat_engine : engine (tracer toy) :=
  let s := toy_engine (toy_stat toy_example) (lit "/r") 4 [] in
  s <| e_t := e_t s <| t_sysno := 4 |> <| t_args := [0; 4096; 0; 0; 0; 0] |> |>.

Lemma toy_num_at k pid a n v :
  all_of (fun x => accessible k x = true) a n -> 0 <= n ->
  forallb (fun i => bool_decide (Some (toy_mem k (a + Z.of_nat i)) = bytes_of X86_64 (Z.to_nat n) v !! i)) (seq 0 (Z.to_nat n)) = true ->
  num_at (abi := x86_64_abi) (H1 := toy_guest_laws) (toy_tracer k) pid a n v.
Proof.
  intros Hacc Hn Hb i c Hi; pose proof (lookup_lt_Some _ _ _ Hi) as Hl.
  assert (Hl' : (i < Z.to_nat n)%nat) by (revert Hl; change (bytes_of abi_arch) with (bytes_of X86_64); by rewrite bytes_of_length).
  rewrite List.forallb_forall in Hb; specialize (Hb i (proj2 (in_seq _ _ _) (conj (Nat.le_0_l i) Hl'))).
  apply bool_decide_eq_true_1 in Hb; change (toy_view k (a + Z.of_nat i) = Some c); unfold toy_view.
  rewrite Hacc by lia; rewrite Hb; exact Hi.
Qed.

Lemma toy_page_num s a n v :
  toy_pages (toy_stat s) = Z.eqb 1 -> 4096 <= a -> a + n <= 8192 -> 0 <= n ->
  forallb (fun i => bool_decide (Some (toy_mem (toy_stat s) (a + Z.of_nat i)) = bytes_of X86_64 (Z.to_nat n) v !! i)) (seq 0 (Z.to_nat n)) = true ->
  num_at (abi := x86_64_abi) (H1 := toy_guest_laws) (toy_tracer (toy_stat s)) 7 a n v.
Proof. intros; apply toy_num_at; [by apply toy_page_accessible|done|done]. Qed.

Lemma stat_reports_owner_witness :
  wp (emuroot_on_exit (abi := x86_64_abi) calloc_64 x86_64_stat) (fun _ s' =>
    num_at (abi := x86_64_abi) (H1 := toy_guest_laws) (e_world s') 7 (4096 + 28) 4 0 /\
    num_at (abi := x86_64_abi) (H1 := toy_guest_laws) (e_world s') 7 (4096 + 32) 4 0 /\
    only_ids_changed (abi := x86_64_abi) (H1 := toy_guest_laws) (toy_tracer (toy_stat toy_example)) (e_world s') 7 4096 x86_64_stat /\
    e_regs s' = e_regs toy_stat_engine) toy_stat_engine.
Proof.
  apply (stat_reports_owner (abi := x86_64_abi) (live := toy_guest_live) calloc_64 x86_64_stat x86_64_stat toy_stat_engine
           NR_stat 4 A_STAT_2 1 1000 1000 7 42).
  1: exact I.
  1: reflexivity.
  1: vm_compute; reflexivity.
  1-2: reflexivity.
  1: vm_compute; reflexivity.
  1: reflexivity.
  1: vm_compute; reflexivity.
  1: discriminate.
  split.
  - apply (toy_page_num toy_example 4124 4 1000); try lia; vm_compute; reflexivity.
  - apply (toy_page_num toy_example 4128 4 1000); try lia; vm_compute; reflexivity.
  - apply (toy_page_num toy_example 4104 8 42); try lia; vm_compute; reflexivity.
  - split; [lia|]; apply (toy_page_num toy_example 4096 8 7); try lia; vm_compute; reflexivity.
  - unfold is_u32; lia.
  - split; [apply (toy_page_accessible (toy_stat toy_example) 4124 4)|apply (toy_page_accessible (toy_stat toy_example) 4128 4)];
      (reflexivity || lia).
  - constructor 1; vm_compute; discriminate.
Defined.

(** C8: a chown is remembered and never fails for lack of privilege. When the
    entry handler has noted the file and the real call succeeded or was refused
    with EPERM or EINVAL, the guest sees 0, and the ownership table gives that
    file the ids asked for - an id of -1 keeps the one it had - and every other
    file the ids it had. *)
Theorem chown_recorded {abi : ABI} `{!ABIOk abi} `{laws : GuestLaws abi_arch W}
    (calloc : Z -> Z -> bool) (kstat : stat_layout) (s : engine W) (n : sysname) (z : Z) :
  let t := e_t s in
  let ret := slong abi_arch (Arch.get abi_arch RET (e_regs s)) in
  regs_wf abi_arch (e_regs s) -> store_accepted (W := W) (t_pid t) ->
  owners_wf (owners (e_ctx s)) -> (forall n sz, calloc n sz = true -> n * sz < 2 ^ 64) ->
  owner_alloc_ok calloc (owners (e_ctx s)) = true -> has_fake_ids (e_ctx s) = true ->
  nr n = Some z -> t_sysno t = z -> created t = [] -> action_entry n = Some A_CHOWN ->
  chown_valid t = true -> ret = 0 \/ ret = - EPERM \/ ret = - EINVAL ->
  wp (emuroot_on_exit calloc kstat) (fun _ s' =>
    owners_map (owners (e_ctx s')) =
      <[(chown_dev t, chown_ino t) := (if chown_uid t =? NOID then chown_cur_uid t else chown_uid t,
                                       if chown_gid t =? NOID then chown_cur_gid t else chown_gid t)]>
        (owners_map (owners (e_ctx s))) /\
    Arch.get abi_arch RET (e_regs s') = 0 /\
    (e_regs s' = e_regs s \/ kernel_regs (e_world s') (t_pid t) = Some (e_regs s'))) s.
Proof.
  intros t ret Hregs Hacc Hwf Hcalloc Halloc Hids Hn Hz Hcr Ha Hv Hret; eapply wp_exit_plain; try done.
  fold ret; change (the_ret s) with ret; unfold fake_result; apply wp_bind, wp_the_t; cbv zeta; unfold fake_chown.
  change (chown_valid (e_t (unlogged s))) with (chown_valid t); rewrite Hv.
  replace ((ret =? 0) || ((ret =? - EPERM) || (ret =? - EINVAL))) with true
    by (symmetry; destruct Hret as [->|[->| ->]]; reflexivity).
  cbv zeta; cbn [andb]; apply wp_bind, wp_bind, wp_the_ctx, wp_bind, wp_defined.
  destruct (owner_set_spec calloc Hcalloc (owners (e_ctx s)) (chown_dev t) (chown_ino t)
    (if chown_uid t =? NOID then chown_cur_uid t else chown_uid t)
    (if chown_gid t =? NOID then chown_cur_gid t else chown_gid t) Hwf) as (o & Ho & _ & Hm).
  exists o; split; [exact Ho|]; apply wp_set_ctx, wp_ret; rewrite Halloc in Hm.
  replace (if _ || _ then 0 else ret) with 0 by (destruct Hret as [->|[->| ->]]; reflexivity).
  apply wp_set_result_if; try done; intros s' Ec Et Hr Hk; rewrite Ec; split_and?; [exact Hm| |exact Hk].
  rewrite Hr; by apply uword_small; split; [|apply Z.pow_pos_nonneg; pose proof (word_bits_ge abi_arch); lia].
Qed.

(** chown of file 42 of device 7 to 33:-1, refused by the host with EPERM. *)
Definition toy_chown_engine : engine (tracer toy) :=
  let s := toy_engine toy_example (lit "/r") 92 [] in
  s <| e_regs := put X86_64 RET (- EPERM) (e_regs s) |>
    <| e_t := e_t s <| t_sysno := 92 |> <| chown_valid := true |> <| chown_dev := 7 |> <| chown_ino := 42 |>
                    <| chown_uid := 33 |> <| chown_gid := NOID |> <| chown_cur_uid := 0 |> <| chown_cur_gid := 5 |> |>.

Lemma chown_recorded_witness :
  wp (emuroot_on_exit (abi := x86_64_abi) calloc_64 x86_64_stat) (fun _ s' =>
    owners_map (owners (e_ctx s')) = <[(7, 42) := (33, 5)]> ∅ /\ Arch.get X86_64 RET (e_regs s') = 0 /\
    (e_regs s' = e_regs toy_chown_engine \/
     kernel_regs (GuestLaws := toy_guest_laws) (e_world s') 7 = Some (e_regs s'))) toy_chown_engine.
Proof.
  apply (chown_recorded (abi := x86_64_abi) (laws := toy_guest_laws) calloc_64 x86_64_stat toy_chown_engine NR_chown 92).
  - apply put_wf, toy_regs_of_wf.
  - exact (toy_store_accepted 7).
  - exact I.
  - intros n sz; apply calloc_64_available.
  - reflexivity.
  - reflexivity.
  - vm_compute; reflexivity.
  - reflexivity.
  - reflexivity.
  - vm_compute; reflexivity.
  - reflexivity.
  - constructor 2; constructor 1; vm_compute; reflexivity.
Defined.
