(* ===== verification/MountFacts.v ===== *)
(** chroot and mount from entry to exit: the kernel runs a call that changes
    nothing, and the process's root or the bindings change instead. *)

From Stdlib Require Import ZArith Lia Ascii String.
From stdpp Require Import base list numbers.
From S2P Require Import Prelude Stdio Arch Syscalls World Guest ToyKernel GuestFacts Creds Owners Config Path PathFacts Live.
From S2P Require Import Tracee PathArg Dac Identity Mounts Exec Rewrite Fake Safety Wp RewriteFacts IdentityFacts.
Local Open Scope Z_scope.
Local Open Scope emu_scope.

Section facts.
Context {abi : ABI} `{!ABIOk abi} `{live : GuestLive abi_arch W}.

(** ** Path arguments *)

(** Argument [slot] points to the absolute path [given], in mapped memory. *)
Definition names_path (w : W) (pid : Z) (regs : list Z) (slot : Z) (given : cstr) : Prop :=
  let ptr := Arch.reg_arg abi_arch slot regs in
  ptr <> 0 /\ is_slash (chr_at given 0) = true /\ NUL ∉ given /\ strlen given < PATH_LEN /\
  guest_cstr w pid ptr given /\ all_of (fun y => is_Some (mem w pid y)) ptr (strlen given + CHUNK).

Lemma names_path_read w pid regs slot given :
  regs_wf abi_arch regs -> names_path w pid regs slot given ->
  (guest_read_str abi_arch w pid (Arch.reg_arg abi_arch slot regs) PATH_LEN).2 = Some given.
Proof.
  intros Hr (_ & Habs & Hnul & Hlen & [Hb Hz] & Hmap); unfold guest_read_str.
  apply (read_chunks_complete (ar := abi_arch) (Z.to_nat PATH_LEN) w pid _ PATH_LEN [] given); try done.
  - intros w' pid' x n Hx Hn Hm; apply read_live; try done.
  - apply (get_range _ (ARG slot) _ Hr).
  - apply at_addr_app; split; [exact Hb|]; intros [|i] c; [intros [= <-]; by rewrite Z.add_0_r|by destruct i].
  - intros y Hy; apply Hmap; cbn [app] in Hy; lia.
Qed.

Lemma names_path_same w w' pid regs slot given :
  only_reads w w' -> names_path w pid regs slot given -> names_path w' pid regs slot given.
Proof. intros (_ & Hm & _); unfold names_path, guest_cstr; by rewrite Hm. Qed.

Lemma wp_given_path slot given P (s : engine W) :
  regs_wf abi_arch (e_regs s) -> names_path (e_world s) (t_pid (e_t s)) (e_regs s) slot given ->
  (forall w', only_reads (e_world s) w' -> P (Some given) (s <| e_world := w' |>)) -> wp (given_path slot) P s.
Proof.
  intros Hr Hn HP; unfold given_path; wp_run; pose proof Hn as (Hptr & Habs & _).
  rewrite (proj2 (Z.eqb_neq _ _)) by done; apply wp_bind, wp_mem_read_str; cbv zeta; rewrite (names_path_read _ _ _ _ given) by done.
  apply wp_ret; destruct given as [|c given]; [done|]; apply HP, read_str_world, (get_range _ (ARG slot) _ Hr).
Qed.

Lemma snprintf_path given : strlen given < PATH_LEN -> snprintf (2 * PATH_LEN) given = given.
Proof. intros Hl; apply snprintf_fits; unfold PATH_LEN in *; lia. Qed.

Lemma wp_absolute fd given size P (s : engine W) :
  is_slash (chr_at given 0) = true -> P (Some (snprintf size given)) s -> wp (absolute_guest_path fd given size) P s.
Proof. intros Ha HP; unfold absolute_guest_path; rewrite Ha; by apply wp_ret. Qed.

(** The translation that a path argument gets. *)
Definition translates (s : engine W) (given : cstr) (guest_outsz : Z) (tr : translation) : Prop :=
  emuroot_translate_path_ex (fs_readlink (e_world s)) (e_ctx s) (t_root (e_t s)) given true PATH_LEN guest_outsz = Some tr.

Lemma wp_translate (s0 s : engine W) given gsz tr P :
  translates s0 given gsz tr -> e_ctx s = e_ctx s0 -> t_root (e_t s) = t_root (e_t s0) -> same_host (e_world s0) (e_world s) ->
  P tr s -> wp (translate given true PATH_LEN gsz) P s.
Proof.
  intros Ht Hc Hr Hh HP; unfold translate; wp_run; apply wp_defined; exists tr; split; [|exact HP].
  rewrite Hc, Hr, (same_host_readlink _ _ Hh); exact Ht.
Qed.

Lemma wp_host_path sysno slot given tr P (s : engine W) :
  regs_wf abi_arch (e_regs s) -> names_path (e_world s) (t_pid (e_t s)) (e_regs s) slot given -> translates s given 1 tr ->
  (forall w', only_reads (e_world s) w' -> P (Some (tr_host tr)) (s <| e_world := w' |>)) ->
  wp (emuroot_host_path_arg sysno slot true) P s.
Proof.
  intros Hr Hn Ht HP; unfold emuroot_host_path_arg; apply wp_bind; eapply wp_given_path; [done|done|]; intros w' Hw.
  destruct Hn as (_ & Habs & _ & Hl & _); apply wp_bind, wp_absolute; [done|]; rewrite snprintf_path by done.
  apply wp_bind; eapply wp_translate; [done|done|done|apply Hw|]; by apply wp_ret, HP.
Qed.

Lemma wp_guest_path sysno slot given tr P (s : engine W) :
  regs_wf abi_arch (e_regs s) -> names_path (e_world s) (t_pid (e_t s)) (e_regs s) slot given -> translates s given PATH_LEN tr ->
  (forall w', only_reads (e_world s) w' -> P (Some (tr_guest tr, tr_host tr)) (s <| e_world := w' |>)) ->
  wp (emuroot_guest_path_arg sysno slot) P s.
Proof.
  intros Hr Hn Ht HP; unfold emuroot_guest_path_arg; apply wp_bind; eapply wp_given_path; [done|done|]; intros w' Hw.
  destruct Hn as (_ & Habs & _ & Hl & _); apply wp_bind, wp_absolute; [done|]; rewrite snprintf_path by done.
  apply wp_bind; eapply wp_translate; [done|done|done|apply Hw|]; by apply wp_ret, HP.
Qed.

(** ** The call made harmless *)

(** The kernel's argument is null, or points to "/". *)
Definition neutral (w : W) (pid : Z) (regs regs' : list Z) (slot : Z) (to_root : bool) : Prop :=
  let v := Arch.reg_arg abi_arch slot regs' in
  regs' = put abi_arch (ARG slot) v regs /\ kernel_regs w pid = Some regs' /\
  (v = 0 \/ (to_root = true /\ guest_cstr w pid v [SLASH])).

Lemma wp_neutralize_path slot to_root P (s : engine W) :
  regs_wf abi_arch (e_regs s) -> is_addr abi_arch (scratch_top (e_t s)) -> store_accepted (W := W) (t_pid (e_t s)) ->
  (forall t regs' w', (exists a, t = e_t s <| scratch_top := a |>) \/ t = e_t s ->
     neutral w' (t_pid (e_t s)) (e_regs s) regs' slot to_root -> same_host (e_world s) w' ->
     P () (s <| e_t := t |> <| e_regs := regs' |> <| e_world := w' |>)) ->
  wp (Mounts.neutralize slot to_root) P s.
Proof.
  intros Hr Htop Hacc HP; unfold Mounts.neutralize; destruct s as [ctx t0 regs0 ld w0]; fields.
  assert (H0range : 0 <= 0 < 2 ^ word_bits abi_arch) by (split; [done|apply Z.pow_pos_nonneg; pose proof (word_bits_ge abi_arch); lia]).
  assert (forall t w1 (v : Z), (exists a, t = t0 <| scratch_top := a |>) \/ t = t0 -> t_pid t = t_pid t0 ->
    same_host w0 w1 -> 0 <= v < 2 ^ word_bits abi_arch ->
    (v = 0 \/ (to_root = true /\ guest_cstr w1 (t_pid t0) v [SLASH])) ->
    wp store_regs_now (fun _ => wp (mret ()) P) (Engine ctx t (put abi_arch (ARG slot) v regs0) ld w1)) as Hend.
  { intros t w1 v Ht Hp Hw Hv Hval; apply wp_store_accepted; fields; [by rewrite Hp|by apply put_wf|].
    intros b w' Hm Hw' Hk; wp_run; apply (HP t (put abi_arch (ARG slot) v regs0) w'); [done| |].
    - unfold neutral; rewrite put_self by done; rewrite Hp in Hk; split; [done|split; [done|]].
      destruct Hval as [?|[? Hc]]; [by constructor 1|constructor 2; split; [done|]]; unfold guest_cstr in *; by rewrite Hm.
    - unfold same_host in *; intuition congruence. }
  assert (same_host w0 w0) as Hsame by done.
  destruct to_root; wp_run.
  2: { apply (Hend t0 w0 0); [by constructor 2|done|done|done|by constructor 1]. }
  apply wp_scratch; [done|lia| |].
  - intros _; change (0 =? 0) with true; cbv iota; wp_run; apply (Hend t0 w0 0); [by constructor 2|done|done|done|by constructor 1].
  - intros a Ha Hm _ Hle; destruct (Z.eqb_spec a 0) as [->|Hne]; wp_run.
    + apply (Hend (t0 <| scratch_top := 0 |>) w0 0); [by constructor 1; eexists|done|done|done|by constructor 1].
    + pose proof (write_bytes w0 (t_pid t0) a [SLASH; NUL] Ha) as Hw.
      destruct (write_same w0 (t_pid t0) a [SLASH; NUL] Ha) as [Hh _].
      change (guest_write _ _ a _) with (guest_write w0 (t_pid t0) a [SLASH; NUL]).
      destruct (guest_write w0 (t_pid t0) a [SLASH; NUL]) as [w [|]]; cbn [fst snd] in *.
      * apply (Hend (t0 <| scratch_top := a |>) w a); [by constructor 1; eexists|done|done|exact Ha|constructor 2; split; [done|]].
        apply guest_cstr_at; exact (Hw eq_refl).
      * apply (Hend (t0 <| scratch_top := a |>) w 0); [by constructor 1; eexists|done|done|done|by constructor 1].
Qed.

(** ** Entry and exit *)

(** The state in which the mount handlers find a call. *)
Definition entered (s : engine W) (z : Z) : engine W :=
  s <| e_t := e_t s
    <| t_sysno := z |>
    <| scratch_top := align_down_16 (uword abi_arch (Arch.get abi_arch SP (e_regs s) - SCRATCH_MARGIN)) |>
    <| proc_link := false |> <| proc_link_exe := false |>
    <| pending_exe := [] |> <| chown_valid := false |> <| created := [] |>
    <| pending_root := [] |> <| mount_handled := false |>
    <| t_args := (fun i => Arch.reg_arg abi_arch i (e_regs s)) <$> [1; 2; 3; 4; 5; 6] |> |>.

Lemma entered_scratch s z : is_addr abi_arch (scratch_top (e_t (entered s z))).
Proof.
  cbn [e_t scratch_top entered update eta_engine eta_tracee]; set (x := uword abi_arch _).
  pose proof (uword_range abi_arch (Arch.get abi_arch SP (e_regs s) - SCRATCH_MARGIN)) as Hu; fold x in Hu.
  destruct (align_down_16_spec x (proj1 Hu)) as (Hle & _ & Hp); unfold is_addr; lia.
Qed.

(** What the mount handlers rely on. *)
Definition fresh_call (t0 t : tracee_t) (z : Z) : Prop :=
  t_pid t = t_pid t0 /\ t_root t = t_root t0 /\ t_creds t = t_creds t0 /\ t_sysno t = z /\ created t = [] /\
  is_addr abi_arch (scratch_top t).

Definition mount_action (a : action) : bool := match a with A_CHROOT | A_MOUNT | A_UMOUNT => true | _ => false end.

Lemma wp_entry_mount calloc n z a P (s : engine W) :
  has_fake_ids (e_ctx s) = true -> nr n = Some z -> slong abi_arch (Arch.get abi_arch SYSNO (e_regs s)) = z ->
  action_entry n = Some a -> mount_action a = true ->
  (forall t, fresh_call (e_t s) t z ->
     wp (emuroot_emulate_mounts z (Some a)) (fun handled s' => handled = true /\ P () s') (s <| e_t := t |>)) ->
  wp (emuroot_on_entry calloc) P s.
Proof.
  intros Hids Hn Hz Ha Hm HP; unfold emuroot_on_entry, start_call, emuroot_identity_entry; wp_run.
  cbn [e_ctx e_regs update eta_engine]; rewrite Hz, Hids; cbv iota; wp_run; rewrite (action_of_entry n z Hn), Ha.
  replace (neutralize_id_change (Some a)) with (mret () : M W ()) by (by destruct a); apply wp_ret.
  replace (bool_decide _) with false by (symmetry; apply bool_decide_eq_false; intros [= ->]; done); apply wp_ret.
  eapply wp_mono; [|apply (HP (e_t (entered s z)))]; [intros h s' [-> Hs']; by apply wp_ret|].
  pose proof (entered_scratch s z); by unfold fresh_call.
Qed.

Lemma wp_set_zero P (s : engine W) :
  regs_wf abi_arch (e_regs s) -> store_accepted (W := W) (t_pid (e_t s)) ->
  (forall regs w', kernel_regs w' (t_pid (e_t s)) = Some regs -> Arch.get abi_arch RET regs = 0 ->
     P () (s <| e_regs := regs |> <| e_world := w' |>)) ->
  wp (set_result 0) P s.
Proof.
  intros Hr Hacc HP; unfold set_result; wp_run; apply wp_store_accepted; fields; [done|by apply put_wf|].
  intros b w' _ _ Hk; wp_run; apply HP; [done|]; rewrite get_put_eq by done; apply uword_small.
  split; [done|apply Z.pow_pos_nonneg; pose proof (word_bits_ge abi_arch); lia].
Qed.

(** What an exit stop finds: other registers and another world. *)
Definition at_exit (s : engine W) (regs : list Z) (w : W) : engine W := s <| e_regs := regs |> <| e_world := w |>.

Lemma wp_exit_mount calloc kstat n z a P (s : engine W) :
  nr n = Some z -> t_sysno (e_t s) = z -> created (e_t s) = [] -> action_entry n = Some a ->
  regs_wf abi_arch (e_regs s) -> store_accepted (W := W) (t_pid (e_t s)) ->
  match a with A_CHROOT => pending_root (e_t s) <> [] | A_MOUNT | A_UMOUNT => mount_handled (e_t s) = true | _ => False end ->
  (forall t regs w', kernel_regs w' (t_pid (e_t s)) = Some regs -> Arch.get abi_arch RET regs = 0 ->
     t_root t = (if a is A_CHROOT then snprintf PATH_LEN (pending_root (e_t s)) else t_root (e_t s)) ->
     P () (s <| e_t := t |> <| e_regs := regs |> <| e_world := w' |>)) ->
  wp (emuroot_on_exit calloc kstat) P s.
Proof.
  intros Hn Hz Hcr Ha Hr Hacc Hm HP; unfold emuroot_on_exit, record_created; wp_run.
  cbn [e_t created update eta_engine eta_tracee]; rewrite Hcr; change (bool_decide ([] = [])) with true; cbv iota; wp_run.
  cbn [e_t e_ctx t_sysno update eta_engine eta_tracee]; rewrite Hz, (action_of_entry n z Hn), Ha.
  destruct s as [ctx t regs ld w]; fields; destruct a; try done; cbn [pending_root mount_handled update eta_tracee].
  - rewrite bool_decide_eq_false_2 by done; wp_run; apply wp_set_zero; fields; [done|done|].
    intros regs' w' Hk Hret; refine (HP _ regs' w' Hk Hret _); reflexivity.
  - rewrite Hm; apply wp_set_zero; fields; [done|done|]; intros regs' w' Hk Hret; refine (HP _ regs' w' Hk Hret _); reflexivity.
  - rewrite Hm; apply wp_set_zero; fields; [done|done|]; intros regs' w' Hk Hret; refine (HP _ regs' w' Hk Hret _); reflexivity.
Qed.
End facts.

(** ** A new binding *)

(** A binding that matches is preferred to the others if none is longer. *)
Lemma pick_longest_first m len b bs :
  m b = true -> (forall b', b' ∈ bs -> m b' = true -> len b' <= len b) -> pick_longest m len (b :: bs) = Some b.
Proof.
  intros Hb Hbs; unfold pick_longest; cbn [foldl]; rewrite Hb; cbn [andb].
  induction bs as [|b' bs IH]; [done|]; cbn [foldl].
  assert (m b' && (len b <? len b') = false) as ->.
  { destruct (m b') eqn:E; [|done]; apply Z.ltb_ge, Hbs; [by constructor|done]. }
  apply IH; intros x Hx; apply Hbs; by constructor 2.
Qed.

(** A guest path is at least as long as what it has as a prefix. *)
Lemma has_prefix_length s prefix : NUL ∉ s -> has_prefix s prefix (strlen prefix) = true -> strlen prefix <= strlen s.
Proof.
  intros Hn [Hp _]%andb_true_iff; apply bool_decide_eq_true in Hp; rewrite (ztake_ge _ prefix) in Hp by lia.
  rewrite <- Hp; apply strlen_ztake_le_all.
Qed.

Lemma has_prefix_self s : has_prefix s s (strlen s) = true.
Proof.
  unfold has_prefix, strncmp_eq; rewrite bool_decide_eq_true_2 by done; cbn [andb]; apply orb_true_iff; constructor 2.
  apply bool_decide_eq_true; unfold chr_at, strlen; rewrite Nat2Z.id; by apply nth_overflow.
Qed.

(** After a binding is made, its guest path is the host path. *)
Lemma bind_at_active ctx h g ht :
  ctx_wf ctx -> nbindings ctx < MAX_BINDINGS -> strlen h < PATH_LEN -> strlen g < PATH_LEN ->
  active (bind_at ctx h g ht) = active ctx ++ [Binding h g (strlen g) (snprintf PATH_LEN ht) (strlen (snprintf PATH_LEN ht))].
Proof.
  intros (_ & Hb & Hn & _) Hroom Hh Hg; unfold bind_at, emuroot_bind, copy_path; rewrite (proj2 (Z.leb_gt _ _)) by done.
  rewrite !(proj2 (Z.leb_gt _ _)) by done; cbv zeta; change (EMUROOT_OK =? EMUROOT_OK) with true; cbv iota.
  unfold set_binding, get_binding; cbn [with_bindings nbindings bindings]; replace (nbindings ctx + 1 - 1) with (nbindings ctx) by lia.
  set (n := Z.to_nat (nbindings ctx)); assert (n < length (bindings ctx))%nat as Hlt by (unfold strlen in Hb; lia).
  assert (forall b d, nth n (<[n := b]> (bindings ctx)) d = b) as Hnth
    by (intros b d; rewrite nth_lookup, list_lookup_insert_eq; done).
  rewrite !Hnth; cbn [host guest guest_len].
  rewrite list_insert_insert_eq; unfold active; cbn [with_bindings nbindings bindings].
  replace (ztake (nbindings ctx + 1)) with (@take binding_t (S n)) by (unfold ztake; f_equal; lia).
  erewrite take_S_r by (by rewrite list_lookup_insert_eq); by rewrite take_insert_ge by lia.
Qed.

Lemma bind_at_maps ctx h g ht root :
  ctx_wf ctx -> nbindings ctx < MAX_BINDINGS -> strlen h < PATH_LEN -> h <> [] -> strlen g < PATH_LEN ->
  NUL ∉ g -> g <> [] -> g <> [SLASH] -> map_to_host (bind_at ctx h g ht) root g PATH_LEN = h.
Proof.
  intros Hwf Hroom Hh Hne Hg Hnul Hg0 Hslash; unfold map_to_host, best_binding; rewrite bind_at_active, rev_unit by done.
  rewrite pick_longest_first.
  - cbn [guest host guest_len]; unfold strcmp_eq; rewrite bool_decide_eq_false_2 by done; unfold zdrop, strlen; rewrite Nat2Z.id, drop_all, app_nil_r.
    unfold unless_slash, strcmp_eq; destruct (decide (h = [SLASH])) as [->|Hs]; [reflexivity|].
    rewrite (bool_decide_eq_false_2 (h = _)) by done; unfold slash_if_empty.
    rewrite snprintf_fits by done; by rewrite bool_decide_eq_false_2.
  - cbn [guest guest_len]; rewrite has_prefix_self; apply orb_true_r.
  - intros b Hb; rewrite <- in_rev in Hb || apply list_elem_of_In, in_rev, list_elem_of_In in Hb.
    assert (binding_wf b) as (_ & _ & Hl & _).
    { destruct Hwf as (_ & _ & _ & Hf & _); rewrite list.Forall_forall in Hf; apply Hf.
      unfold active, ztake in Hb; by apply elem_of_take in Hb as (i & Hi & _); eapply list_elem_of_lookup_2. }
    cbn [guest_len]; rewrite Hl; intros [Hr|Hp]%orb_true_iff; [|by apply has_prefix_length].
    apply bool_decide_eq_true in Hr; rewrite Hr; destruct g; [done|]; rewrite !strlen_cons; pose proof (strlen_nonneg g).
    change (strlen (@nil ascii)) with 0; lia.
Qed.

(** ** Properties *)

Section theorems.
Context {abi : ABI} `{!ABIOk abi} `{live : GuestLive abi_arch W}.

Lemma chroot_action : action_entry NR_chroot = Some A_CHROOT.
Proof. unfold action_entry, keep_action; by destruct (lp64 abi_arch). Qed.
Lemma mount_action_entry : action_entry NR_mount = Some A_MOUNT.
Proof. unfold action_entry, keep_action; by destruct (lp64 abi_arch). Qed.

(** A call that a fake root makes with its faked ids. *)
Definition root_call (s : engine W) (n : sysname) (z : Z) : Prop :=
  regs_wf abi_arch (e_regs s) /\ store_accepted (W := W) (t_pid (e_t s)) /\ has_fake_ids (e_ctx s) = true /\
  effective (uid (t_creds (e_t s))) = 0 /\ nr n = Some z /\ slong abi_arch (Arch.get abi_arch SYSNO (e_regs s)) = z.

(** The handler's result at the exit stop, whatever the registers and the world
    are by then: 0, in the engine's registers and in the kernel's. *)
Definition exits_with_0 (calloc : Z -> Z -> bool) (kstat : stat_layout) (s1 : engine W) (Q : engine W -> Prop) : Prop :=
  forall regs w, regs_wf abi_arch regs ->
  wp (emuroot_on_exit calloc kstat) (fun _ s2 =>
    Arch.get abi_arch RET (e_regs s2) = 0 /\ kernel_regs (e_world s2) (t_pid (e_t s1)) = Some (e_regs s2) /\ Q s2)
    (at_exit s1 regs w).

(** C9: chroot re-roots the process and nothing else. When a fake root calls
    chroot on an absolute path that is a directory in its root, the kernel runs
    chroot of a null pointer or of "/", which change nothing; at the exit stop
    the call has succeeded and the process's root is the canonical host path of
    that directory. Until then the old root is in force. *)
Theorem chroot_emulated (calloc : Z -> Z -> bool) (kstat : stat_layout) (s : engine W) (z : Z) (given : cstr) (tr : translation) :
  let root := snprintf PATH_LEN (canonical (e_world s) (tr_host tr)) in
  root_call s NR_chroot z -> names_path (e_world s) (t_pid (e_t s)) (e_regs s) 1 given -> translates s given 1 tr ->
  guest_dir_exists (e_world s) (tr_host tr) = true -> root <> [] ->
  wp (emuroot_on_entry calloc) (fun _ s1 =>
    neutral (e_world s1) (t_pid (e_t s)) (e_regs s) (e_regs s1) 1 true /\ t_root (e_t s1) = t_root (e_t s) /\
    exits_with_0 calloc kstat s1 (fun s2 => t_root (e_t s2) = root)) s.
Proof.
  intros root (Hr & Hacc & Hids & Hroot & Hn & Hz) Hpath Htr Hdir Hne.
  apply (wp_entry_mount calloc NR_chroot z A_CHROOT); [done|done|done|apply chroot_action|reflexivity|].
  intros t0 (Hpid0 & Hroot0 & Hcreds0 & Hsys0 & Hcr0 & Hsc); unfold emuroot_emulate_mounts; wp_run; fields.
  rewrite Hcreds0, Hroot; cbn [negb Z.eqb]; apply wp_bind; unfold emulate_chroot.
  rewrite (find_path_entry NR_chroot z Hn); apply wp_bind, wp_defined; eexists; split; [reflexivity|].
  apply wp_bind; eapply (wp_host_path z 1 given tr); fields;
    [exact Hr|by rewrite Hpid0|unfold translates in *; fields; by rewrite Hroot0|]; intros w1 Hw1; wp_run.
  destruct Hw1 as (Hh & Hmem & Hk); fields.
  assert (guest_dir_exists w1 (tr_host tr) = true) as ->.
  { unfold guest_dir_exists in *; by rewrite (proj1 (proj2 Hh)). }
  assert (canonical w1 (tr_host tr) = canonical (e_world s) (tr_host tr)) as Hcan.
  { unfold canonical; by rewrite (proj1 (proj2 (proj2 (proj2 Hh)))). }
  cbv iota; wp_run; fields; rewrite Hcan; fold root; apply wp_neutralize_path; fields; [done|done|by rewrite Hpid0|].
  intros t regs' w' Ht Hneu Hh'; wp_run; fields.
  assert (pending_root t = root /\ t_root t = t_root (e_t s) /\ t_pid t = t_pid (e_t s) /\ t_sysno t = z /\ created t = []) as
    (Hp & Ho & Hpid & Hsys & Hcr) by (by destruct Ht as [[a ->]| ->]).
  rewrite Hpid0 in Hneu.
  rewrite Hp, bool_decide_eq_false_2 by done; split; [done|]; split; [exact Hneu|split; [exact Ho|]].
  intros regs w Hrw; unfold at_exit; fields; rewrite Hpid; apply (wp_exit_mount calloc kstat NR_chroot z A_CHROOT); fields;
    [done|done|done|apply chroot_action|done|by rewrite Hpid|by rewrite Hp|].
  intros t2 regs2 w2 Hk2 Hret Hroot2; rewrite Hpid in Hk2; rewrite Hp in Hroot2; fields; split; [done|split; [done|]].
  rewrite Hroot2; unfold root; rewrite snprintf_fits; [done|]; by apply strlen_snprintf.
Qed.

(** C10: a bind mount takes effect for the guest and not for the host. When a
    fake root bind-mounts a source on a target (both absolute paths of its) and
    a binding is free, the kernel runs mount with a null target, which fails
    without an effect; the context has one more binding, attached at the host
    path of the target, and the target's guest path now maps to the canonical
    host path of the source, whatever the process's root; the guest sees 0. *)
Theorem bind_mount_emulated (calloc : Z -> Z -> bool) (kstat : stat_layout) (s : engine W) (z : Z)
    (source target : cstr) (src tgt : translation) :
  let flags := Arch.reg_arg abi_arch 4 (e_regs s) in
  let from := canonical (e_world s) (tr_host src) in
  root_call s NR_mount z -> ctx_wf (e_ctx s) -> nbindings (e_ctx s) < MAX_BINDINGS ->
  has flags MS_BIND = true -> has flags (Z.lor MS_REMOUNT MS_MOVE) = false ->
  names_path (e_world s) (t_pid (e_t s)) (e_regs s) 2 target -> translates s target PATH_LEN tgt ->
  names_path (e_world s) (t_pid (e_t s)) (e_regs s) 1 source -> translates s source 1 src ->
  from <> [] -> strlen from < PATH_LEN ->
  tr_guest tgt <> [] -> tr_guest tgt <> [SLASH] -> NUL ∉ tr_guest tgt ->
  wp (emuroot_on_entry calloc) (fun _ s1 =>
    neutral (e_world s1) (t_pid (e_t s)) (e_regs s) (e_regs s1) 2 false /\
    active (e_ctx s1) = active (e_ctx s) ++ [Binding from (tr_guest tgt) (strlen (tr_guest tgt)) (tr_host tgt) (strlen (tr_host tgt))] /\
    (forall root, map_to_host (e_ctx s1) root (tr_guest tgt) PATH_LEN = from) /\
    exits_with_0 calloc kstat s1 (fun s2 => e_ctx s2 = e_ctx s1)) s.
Proof.
  intros flags from (Hr & Hacc & Hids & Hroot & Hn & Hz) Hctx Hroom Hbind Hno Hpt Htt Hps Hts Hf Hfl Hg Hg1 Hgn.
  destruct (translate_fits _ _ _ _ _ PATH_LEN PATH_LEN _ ltac:(done) ltac:(done) Htt) as [Hhl Hgl].
  apply (wp_entry_mount calloc NR_mount z A_MOUNT); [done|done|done|apply mount_action_entry|reflexivity|].
  intros t0 (Hpid0 & Hroot0 & Hcreds0 & Hsys0 & Hcr0 & Hsc); unfold emuroot_emulate_mounts; wp_run; fields.
  rewrite Hcreds0, Hroot; cbn [negb Z.eqb]; apply wp_bind; unfold emulate_mount; wp_run; fields; fold flags.
  eapply (wp_guest_path z 2 target tgt); fields; [exact Hr|by rewrite Hpid0|unfold translates in *; fields; by rewrite Hroot0|].
  intros w1 Hw1; apply wp_bind; fields; unfold mount_source; rewrite Hno, Hbind.
  eapply (wp_host_path z 1 source src); fields;
    [exact Hr|rewrite Hpid0; by eapply names_path_same|unfold translates in *; fields; rewrite Hroot0, (same_host_readlink _ _ (proj1 Hw1)); exact Hts|].
  intros w2 Hw2; wp_run; fields; destruct Hw1 as (Hh1 & _), Hw2 as (Hh2 & _).
  assert (canonical w2 (tr_host src) = from) as ->.
  { unfold from, canonical; destruct Hh1 as (_ & _ & _ & E1 & _), Hh2 as (_ & _ & _ & E2 & _); congruence. }
  apply wp_neutralize_path; fields; [done|exact Hsc|by rewrite Hpid0|].
  intros t regs' w' Ht Hneu Hh'; wp_run; fields; rewrite Hpid0 in Hneu.
  assert (t_pid t = t_pid (e_t s) /\ t_sysno t = z /\ created t = [] /\ mount_handled t = true) as
    (Hpid & Hsys & Hcr & Hmh) by (by destruct Ht as [[a ->]| ->]).
  split; [done|split; [exact Hneu|split; [|split]]].
  - rewrite bind_at_active by done; by rewrite snprintf_fits.
  - intros root; by apply bind_at_maps.
  - intros regs w Hrw; unfold at_exit; fields; rewrite Hpid.
    apply (wp_exit_mount calloc kstat NR_mount z A_MOUNT); fields; [done|done|done|apply mount_action_entry|done|by rewrite Hpid|done|].
    intros t2 regs2 w3 Hk2 Hret _; rewrite Hpid in Hk2; fields; done.
Qed.
End theorems.

(** ** On the toy kernel *)

Lemma toy_names_path k regs slot given :
  let ptr := Arch.reg_arg X86_64 slot regs in
  toy_pages k = Z.eqb 1 -> 4096 <= ptr -> ptr + strlen given + CHUNK <= 8192 ->
  is_slash (chr_at given 0) = true -> bool_decide (NUL ∉ given) = true -> strlen given < PATH_LEN ->
  forallb (fun i => bool_decide (toy_mem k (ptr + Z.of_nat i) = nth i given NUL)) (seq 0 (S (length given))) = true ->
  names_path (abi := x86_64_abi) (H1 := toy_guest_laws) (toy_tracer k) 7 regs slot given.
Proof.
  intros ptr Hp Hlo Hhi Habs Hnul%bool_decide_eq_true Hlen Hb; unfold names_path; change abi_arch with X86_64; fold ptr.
  assert (forall x, ptr <= x < ptr + strlen given + CHUNK -> accessible k x = true) as Hacc.
  { intros x Hx; apply (toy_page_accessible k ptr (strlen given + CHUNK)); try done; lia. }
  assert (forall i, (i <= length given)%nat -> mem (toy_tracer k) 7 (ptr + Z.of_nat i) = Some (nth i given NUL)) as Hat.
  { intros i Hi; change (toy_view k (ptr + Z.of_nat i) = Some (nth i given NUL)); unfold toy_view.
    rewrite Hacc by (unfold strlen, CHUNK; lia); rewrite List.forallb_forall in Hb.
    specialize (Hb i (proj2 (in_seq _ _ _) (conj (Nat.le_0_l i) (proj2 (Nat.lt_succ_r _ _) Hi)))); by apply bool_decide_eq_true in Hb as ->. }
  split; [lia|split; [done|split; [done|split; [done|split; [split|]]]]].
  - intros i c Hi; rewrite Hat by (apply Nat.lt_le_incl; by eapply lookup_lt_Some); f_equal; by apply nth_lookup_Some.
  - unfold strlen; rewrite Hat by done; f_equal; by apply nth_overflow.
  - intros x Hx; change (is_Some (toy_view k x)); unfold toy_view; rewrite Hacc by lia; by eexists.
Qed.

(** chroot("/jail"), a directory of the root "/r". *)
Definition toy_jail : toy :=
  Toy (toy_page (lit "/jail")) (Z.eqb 1) (zero_regs X86_64) true [] [(lit "/r/jail", FileStat 1 2 0 0 16877)] [] 1000.

Lemma chroot_emulated_witness :
  let s := toy_engine toy_jail (lit "/r") 161 [4096] in
  let tr := Translation (lit "/r/jail") [] true in
  snprintf PATH_LEN (canonical (e_world s) (tr_host tr)) = lit "/r/jail" /\
  wp (emuroot_on_entry (abi := x86_64_abi) calloc_64) (fun _ s1 =>
    neutral (abi := x86_64_abi) (H1 := toy_guest_laws) (e_world s1) 7 (e_regs s) (e_regs s1) 1 true /\ t_root (e_t s1) = lit "/r" /\
    exits_with_0 (abi := x86_64_abi) (H1 := toy_guest_laws) calloc_64 x86_64_stat s1 (fun s2 =>
      t_root (e_t s2) = snprintf PATH_LEN (canonical (e_world s) (tr_host tr)))) s.
Proof.
  cbv zeta; split; [vm_compute; reflexivity|].
  apply (chroot_emulated (abi := x86_64_abi) (live := toy_guest_live) calloc_64 x86_64_stat
    (toy_engine toy_jail (lit "/r") 161 [4096]) 161 (lit "/jail") (Translation (lit "/r/jail") [] true)).
  - split; [apply toy_regs_of_wf|split; [apply toy_store_accepted|]]; vm_compute; auto.
  - apply (toy_names_path toy_jail (toy_regs_of 161 [4096]) 1 (lit "/jail"));
      [reflexivity|vm_compute; discriminate|vm_compute; discriminate|reflexivity|reflexivity|reflexivity|vm_compute; reflexivity].
  - vm_compute; reflexivity.
  - vm_compute; reflexivity.
  - vm_compute; discriminate.
Defined.

(** mount("/src", "/mnt", NULL, MS_BIND, NULL). *)
Definition toy_mounts : toy :=
  Toy (fun x => if x <? 4200 then toy_page (lit "/src") x else nth (Z.to_nat (x - 4200)) (lit "/mnt") NUL)
    (Z.eqb 1) (zero_regs X86_64) true [] [(lit "/r/src", FileStat 1 2 0 0 16877)] [] 1000.

Lemma bind_mount_emulated_witness :
  let s := toy_engine toy_mounts (lit "/r") 165 [4096; 4200; 0; MS_BIND; 0] in
  let tgt := Translation (lit "/r/mnt") (lit "/mnt") true in
  wp (emuroot_on_entry (abi := x86_64_abi) calloc_64) (fun _ s1 =>
    neutral (abi := x86_64_abi) (H1 := toy_guest_laws) (e_world s1) 7 (e_regs s) (e_regs s1) 2 false /\
    active (e_ctx s1) = active (e_ctx s) ++
      [Binding (canonical (e_world s) (lit "/r/src")) (tr_guest tgt) (strlen (tr_guest tgt)) (tr_host tgt) (strlen (tr_host tgt))] /\
    (forall root, map_to_host (e_ctx s1) root (tr_guest tgt) PATH_LEN = canonical (e_world s) (lit "/r/src")) /\
    exits_with_0 (abi := x86_64_abi) (H1 := toy_guest_laws) calloc_64 x86_64_stat s1 (fun s2 => e_ctx s2 = e_ctx s1)) s.
Proof.
  cbv zeta.
  apply (bind_mount_emulated (abi := x86_64_abi) (live := toy_guest_live) calloc_64 x86_64_stat
    (toy_engine toy_mounts (lit "/r") 165 [4096; 4200; 0; MS_BIND; 0]) 165 (lit "/src") (lit "/mnt")
    (Translation (lit "/r/src") [] true) (Translation (lit "/r/mnt") (lit "/mnt") true)).
  - split; [apply toy_regs_of_wf|split; [apply toy_store_accepted|]]; vm_compute; auto.
  - apply toy_ctx_wf; reflexivity.
  - reflexivity.
  - vm_compute; reflexivity.
  - vm_compute; reflexivity.
  - apply (toy_names_path toy_mounts (toy_regs_of 165 [4096; 4200; 0; MS_BIND; 0]) 2 (lit "/mnt"));
      [reflexivity|vm_compute; discriminate|vm_compute; discriminate|reflexivity|reflexivity|reflexivity|vm_compute; reflexivity].
  - vm_compute; reflexivity.
  - apply (toy_names_path toy_mounts (toy_regs_of 165 [4096; 4200; 0; MS_BIND; 0]) 1 (lit "/src"));
      [reflexivity|vm_compute; discriminate|vm_compute; discriminate|reflexivity|reflexivity|reflexivity|vm_compute; reflexivity].
  - vm_compute; reflexivity.
  - vm_compute; discriminate.
  - vm_compute; reflexivity.
  - discriminate.
  - discriminate.
  - cbn [tr_guest]; apply (bool_decide_eq_true_1 (NUL ∉ lit "/mnt")); reflexivity.
Defined.
