(* ===== verification/ExecFacts.v ===== *)
(** execve from the guest's memory and back: what a program started inside the
    root runs as (an inductive relation over the files of the host), and the
    theorem that the rewritten call names that program with those arguments. *)

From Stdlib Require Import ZArith Lia Ascii String.
From stdpp Require Import base list numbers.
From S2P Require Import Prelude Stdio Arch Syscalls World Guest ToyKernel GuestFacts Creds Owners Config Path PathFacts Live.
From S2P Require Import Tracee PathArg Dac Identity Mounts Exec Rewrite Fake Safety Wp RewriteFacts IdentityFacts FakeFacts MountFacts.
Local Open Scope Z_scope.
Local Open Scope emu_scope.

(** ** The arguments in memory *)

Section memory.
Context {abi : ABI} `{!ABIOk abi} `{live : GuestLive abi_arch W}.
Notation wsz := (word_size abi_arch).

(** The array of the pointers [ps] and a null pointer. *)
Definition argv_at (w : W) (pid a : Z) (ps : list Z) : Prop := at_addr (mem w pid) a (word_bytes (ps ++ [0])).

(** What an argv entry is in memory: the string, or the guest's own pointer. *)
Definition shows (w : W) (pid : Z) (x : earg_t) (p : Z) : Prop :=
  match x with Made s => guest_cstr w pid p s | Ptr q => p = q end.

Lemma word_bytes_cons p ps : word_bytes (p :: ps) = bytes_of abi_arch (Z.to_nat wsz) p ++ word_bytes ps.
Proof. done. Qed.

Lemma value_of_word p : 0 <= p < 2 ^ word_bits abi_arch -> value_of abi_arch (bytes_of abi_arch (Z.to_nat wsz) p) = p.
Proof.
  intros Hp; destruct word_size_bits as [Hb Hw]; rewrite value_bytes_of, Z2Nat.id by lia; rewrite <- Hb; by apply Z.mod_small.
Qed.

Lemma wp_read_argv n : forall a ps P (s : engine W),
  argv_at (e_world s) (t_pid (e_t s)) a ps -> Forall (fun p => 0 < p < 2 ^ word_bits abi_arch) ps -> (length ps <= n)%nat ->
  (forall s', quiet s s' -> P (Ptr <$> ps) s') -> wp (read_argv n a) P s.
Proof.
  induction n as [|n IH]; intros a ps P s Hat Hps Hlen HP; cbn [read_argv].
  { destruct ps as [|p ps]; [|cbn [length] in Hlen; lia]; apply wp_ret, HP; exists (e_world s).
    split; [by destruct s|split; [apply only_reads_refl|done]]. }
  destruct word_size_bits as [Hb Hw].
  assert (exists p tl, ps ++ [0] = p :: tl /\ 0 <= p < 2 ^ word_bits abi_arch /\
    (p = 0 -> ps = []) /\ (p <> 0 -> exists qs, ps = p :: qs /\ tl = qs ++ [0])) as (p & tl & Hcons & Hp & Hz & Hnz).
  { assert (0 < 2 ^ word_bits abi_arch) by (apply Z.pow_pos_nonneg; lia).
    destruct ps as [|p ps]; [exists 0, []|exists p, (ps ++ [0]); apply list.Forall_cons in Hps as [? _]]; split_and?; try done; try lia; eauto. }
  unfold argv_at in Hat; rewrite Hcons, word_bytes_cons, at_addr_app in Hat; destruct Hat as [Hh Ht].
  apply wp_bind, (wp_mem_read_num a wsz p); [lia|exact Hh|]; intros s1 Hs1; cbv iota beta.
  assert (strlen (bytes_of abi_arch (Z.to_nat wsz) p) = wsz) as Hl by (apply strlen_bytes_of; lia); rewrite Hl, Z.eqb_refl, value_of_word by done.
  destruct (Z.eqb_spec p 0) as [->|Hne]; cbn [negb andb].
  { rewrite (Hz eq_refl) in *; apply wp_ret, HP; done. }
  destruct (Hnz Hne) as (qs & -> & ->); apply list.Forall_cons in Hps as [_ Hqs]; cbn [length] in Hlen.
  assert (is_addr abi_arch a) as Ha by (by eapply (num_at_addr _ _ a wsz p); [lia|]).
  rewrite Hl in Ht; destruct (next_addr (e_world s) (t_pid (e_t s)) a _ Ha Hh) as [Hnext _]; rewrite Hl in Hnext; rewrite Hnext.
  pose proof Hs1 as (w1 & -> & (Hhost & Hmem & Hk) & Hrw); apply wp_bind; apply (IH _ qs).
  - unfold argv_at; fields; by rewrite Hmem.
  - done.
  - lia.
  - intros s2 Hs2; apply wp_ret, HP; by eapply quiet_trans.
Qed.

(** ** The block laid out for the new call *)

Lemma made_bytes_cons x args : made_bytes (x :: args) = (match x with Made s => s ++ [NUL] | Ptr _ => [] end) ++ made_bytes args.
Proof. done. Qed.

Lemma arg_pointers_show w pid base args : forall off,
  0 <= base + off -> base + off + strlen (made_bytes args) < 2 ^ word_bits abi_arch ->
  at_addr (mem w pid) (base + off) (made_bytes args) ->
  exists ps, arg_pointers base off args = ps ++ [0] /\ Forall2 (shows w pid) args ps.
Proof.
  induction args as [|x args IH]; intros off Hlo Hhi Hat; [by exists []|]; rewrite made_bytes_cons in Hhi, Hat.
  pose proof (strlen_nonneg (made_bytes args)); destruct x as [str|p]; cbn [arg_pointers].
  - rewrite strlen_app, strlen_app in Hhi; change (strlen [NUL]) with 1 in Hhi; pose proof (strlen_nonneg str).
    apply at_addr_app in Hat as [Hs Hr]; rewrite strlen_app in Hr; change (strlen [NUL]) with 1 in Hr.
    destruct (IH (off + strlen str + 1)) as (ps & -> & Hps); [lia|lia|by replace (base + (off + strlen str + 1)) with (base + off + (strlen str + 1)) by lia|].
    exists (uword abi_arch (base + off) :: ps); split; [done|constructor; [|done]].
    rewrite uword_small by lia; by apply guest_cstr_at.
  - destruct (IH off) as (ps & -> & Hps); [done|done|done|]; exists (p :: ps); split; [done|by constructor].
Qed.

(** The block holds the program's path, the arguments and the array of them. *)
Lemma blob_shows w pid base host args :
  is_addr abi_arch base -> base + blob_total host args < 2 ^ word_bits abi_arch ->
  at_addr (mem w pid) base (blob_of base host args) ->
  guest_cstr w pid base host /\
  exists ps, argv_at w pid (base + blob_off host args) ps /\ Forall2 (shows w pid) args ps.
Proof.
  intros Hb Hhi Hat; pose proof (blob_fits base host args); destruct (blob_parts base host args) as (Hs & Ho & Hl).
  unfold blob_of in Hat; apply at_addr_app in Hat as [Hstr Hrest]; apply at_addr_app in Hrest as [_ Hptr].
  unfold is_addr in Hb; pose proof (strlen_nonneg host); pose proof (strlen_nonneg args); destruct word_size_bits as [_ Hw].
  assert (0 <= (strlen args + 1) * wsz) by nia.
  unfold blob_strings in Hstr; rewrite app_assoc in Hstr; apply at_addr_app in Hstr as [Hhost Hmade].
  rewrite strlen_app in Hmade; change (strlen [NUL]) with 1 in Hmade.
  split; [by apply guest_cstr_at|].
  destruct (arg_pointers_show w pid base args (strlen host + 1)) as (ps & Hps & Hsh); [lia|lia|by replace (base + (strlen host + 1)) with (base + (strlen host + 1)) by lia|].
  exists ps; split; [|done]; unfold argv_at; rewrite <- Hps.
  replace (base + blob_off host args) with (base + strlen (blob_strings host args) + strlen (zeros (blob_off host args - strlen (blob_strings host args)))); [done|].
  unfold zeros, strlen at 2; rewrite length_replicate; lia.
Qed.
End memory.

(** ** The call committed *)

Section commit.
Context {abi : ABI} `{!ABIOk abi} `{live : GuestLive abi_arch W}.
Notation wsz := (word_size abi_arch).
Variable calloc : Z -> Z -> bool.

(** The kernel's registers: [slot] and [argv_slot] name a program and its
    arguments, the others are as they were. *)
Definition laid_out (w : W) (pid : Z) (regs regs' : list Z) (slot argv_slot : Z) (host : cstr) (args : list earg_t) : Prop :=
  let path := Arch.reg_arg abi_arch slot regs' in let argv := Arch.reg_arg abi_arch argv_slot regs' in
  regs' = put abi_arch (ARG argv_slot) argv (put abi_arch (ARG slot) path regs) /\ kernel_regs w pid = Some regs' /\
  guest_cstr w pid path host /\ exists ps, argv_at w pid argv ps /\ Forall2 (shows w pid) args ps.

(** The call is made to fail: its path is null. *)
Definition refused (w : W) (pid : Z) (regs regs' : list Z) (slot : Z) : Prop :=
  regs' = put abi_arch (ARG slot) 0 regs /\ kernel_regs w pid = Some regs'.

(** There is memory for the new call: the engine's, and the guest's below its stack. *)
Definition room (s : engine W) (host : cstr) (args : list earg_t) : Prop :=
  let total := blob_total host args in
  calloc 1 total = true /\ calloc (strlen args + 1) wsz = true /\ scratch_room s total.

Lemma zero_word : 0 <= 0 < 2 ^ word_bits abi_arch.
Proof. split; [done|apply Z.pow_pos_nonneg; pose proof (word_bits_ge abi_arch); lia]. Qed.

(** Storing the registers of a call whose block has been written. *)
Lemma wp_commit_regs slot argv_slot base host args P (s : engine W) :
  arg_ok slot -> arg_ok argv_slot -> slot <> argv_slot -> regs_wf abi_arch (e_regs s) ->
  store_accepted (W := W) (t_pid (e_t s)) -> is_addr abi_arch base -> base + blob_total host args < 2 ^ word_bits abi_arch ->
  at_addr (mem (e_world s) (t_pid (e_t s))) base (blob_of base host args) ->
  (forall s', laid_out (e_world s') (t_pid (e_t s)) (e_regs s) (e_regs s') slot argv_slot host args -> P 1 s') ->
  wp (_ ← set_arg slot base; _ ← set_arg argv_slot (base + blob_off host args); _ ← store_regs_now; mret 1) P s.
Proof.
  intros Hp Ha Hne Hr Hacc Hb Hhi Hat HP; wp_run; apply wp_store_accepted; fields; [done|by do 2 apply put_wf|].
  intros b w' Hm _ Hk; wp_run; fields; apply HP; fields; unfold laid_out.
  destruct (blob_parts base host args) as (Hs & Ho & Hl); pose proof (blob_fits base host args); unfold is_addr in Hb.
  pose proof (strlen_nonneg args); destruct word_size_bits as [_ Hw]; pose proof (strlen_nonneg (blob_strings host args)).
  assert (0 <= (strlen args + 1) * wsz) by nia.
  rewrite (reg_put_ne slot argv_slot) by done; rewrite (put_self _ slot base) by done; rewrite put_self by (lia || by apply put_wf); cbv zeta; split; [done|split; [done|]].
  apply blob_shows; [done|done|by rewrite Hm].
Qed.

Lemma wp_refuse slot P (s : engine W) :
  regs_wf abi_arch (e_regs s) -> store_accepted (W := W) (t_pid (e_t s)) ->
  (forall s', refused (e_world s') (t_pid (e_t s)) (e_regs s) (e_regs s') slot -> P (-1) s') ->
  wp (_ ← set_arg slot 0; _ ← store_regs_now; mret (-1)) P s.
Proof.
  intros Hr Hacc HP; wp_run; apply wp_store_accepted; fields; [done|by apply put_wf|].
  intros b w' Hm _ Hk; wp_run; fields; apply HP; fields; by split.
Qed.

(** The outcome of committing: the new call in place, or a call that fails, and
    that only when memory runs out. *)
Definition committed (s0 : engine W) (slot argv_slot : Z) (host : cstr) (args : list earg_t) (r : Z) (s' : engine W) : Prop :=
  r = 1 /\ laid_out (e_world s') (t_pid (e_t s0)) (e_regs s0) (e_regs s') slot argv_slot host args \/
  r = -1 /\ refused (e_world s') (t_pid (e_t s0)) (e_regs s0) (e_regs s') slot /\ ~ room s0 host args.

Lemma wp_commit slot argv_slot host args (s : engine W) :
  arg_ok slot -> arg_ok argv_slot -> slot <> argv_slot -> regs_wf abi_arch (e_regs s) ->
  store_accepted (W := W) (t_pid (e_t s)) -> is_addr abi_arch (scratch_top (e_t s)) -> blob_total host args < 2 ^ 31 ->
  wp (commit_exec calloc slot argv_slot host args) (committed s slot argv_slot host args) s.
Proof.
  intros Hp Ha Hne Hr Hacc Ht Hlen; unfold commit_exec; pose proof (blob_fits 0 host args) as Hpos.
  assert (forall s1 : engine W, e_regs s1 = e_regs s -> t_pid (e_t s1) = t_pid (e_t s) -> ~ room s host args ->
    wp (_ ← set_arg slot 0; _ ← store_regs_now; mret (-1)) (committed s slot argv_slot host args) s1) as Hno.
  { intros s1 Hr1 Hp1 Hroom; apply wp_refuse; [by rewrite Hr1|by rewrite Hp1|]; intros s2 Hs2; rewrite Hr1, Hp1 in Hs2; constructor 2; done. }
  destruct (calloc 1 _ && calloc _ wsz) eqn:Hc; [apply andb_true_iff in Hc as [Hc1 Hc2]|].
  2: { apply wp_bind, wp_ret; change (0 =? 0) with true; cbv iota; apply wp_bind, wp_ret; cbv iota; apply Hno; [done|done|].
       intros (Hc1 & Hc2 & _); rewrite Hc1, Hc2 in Hc; done. }
  apply wp_bind, wp_scratch; [done|lia| |].
  { intros Hlow; change (0 =? 0) with true; cbv iota; apply wp_bind, wp_ret; cbv iota; apply Hno; [done|done|]; intros (_ & _ & ? & _); lia. }
  intros a Haddr _ Hlo Hhi; destruct (Z.eqb_spec a 0) as [->|Hnz].
  { apply wp_bind, wp_ret; cbv iota; apply Hno; [done|done|]; intros (_ & _ & ? & _); unfold is_addr in *; lia. }
  pose proof (blob_fits a host args) as Hfit; apply wp_bind, wp_bind; unfold blob_in; apply wp_into; [lia|].
  apply wp_mem_write; fields; cbv zeta; pose proof (write_bytes (e_world s) (t_pid (e_t s)) a (blob_of a host args) Haddr) as Hw.
  pose proof (write_live (e_world s) (t_pid (e_t s)) a (blob_of a host args) Haddr) as Hlive.
  destruct (guest_write _ _ a _) as [w [|]]; cbn [fst snd] in *; [|apply Hno; [done|done|]].
  - apply wp_commit_regs; fields; try done; [unfold is_addr in *; lia|exact (Hw eq_refl)|]; intros s' Hs'; by constructor 1.
  - intros (_ & _ & _ & Hall); discriminate Hlive; [intros E; rewrite E in Hfit; unfold strlen in Hfit; simpl in Hfit; lia|].
    eapply all_of_le; [exact Hall|lia|lia].
Qed.
End commit.

(** ** What runs when a program is started *)

Section launch.
Context {abi : ABI} `{!ABIOk abi} `{live : GuestLive abi_arch W}.
(** The engine when the call is entered. *)
Variable s0 : engine W.
Notation w0 := (e_world s0).
Notation pid := (t_pid (e_t s0)).

(** Where an absolute path leads: its resolution inside the root. *)
Definition host_of (path : cstr) : option cstr :=
  if is_slash (chr_at path 0) then
    tr_host <$> emuroot_translate_path_ex (fs_readlink w0) (e_ctx s0) (t_root (e_t s0)) path true PATH_LEN 1
  else None.

(** What a host file is to execve. *)
Inductive program := Plain | Script (interp : cstr) (arg : option cstr) | Dynamic (interp : cstr).

Definition program_at (h : cstr) : program :=
  if fs_open w0 h then
    match parse_shebang (default [] (fs_pread w0 h 0 256)) with
    | Some (Some (interp, arg)) => Script interp arg
    | _ => match elf_interp w0 h PATH_LEN with Some (Some interp) => Dynamic interp | _ => Plain end
    end
  else Plain.

(** The loader's text mentions --argv0. *)
Definition takes_argv0 (w : W) (loader : cstr) : Prop :=
  fs_open w loader = true /\ exists a b, fs_pread w loader 0 LOADER_BUF = Some (a ++ lit "--argv0" ++ b).

(** A C string in mapped memory, a chunk beyond it included. *)
Definition text_at (w : W) (a : Z) (s : cstr) : Prop :=
  is_addr abi_arch a /\ NUL ∉ s /\ strlen s < PATH_LEN /\ guest_cstr w pid a s /\
  all_of (fun y => is_Some (mem w pid y)) a (strlen s + CHUNK).

(** The text of an argument. *)
Definition arg_text (x : earg_t) (s : cstr) : Prop :=
  match x with Made m => s = m /\ strlen m < PATH_LEN | Ptr p => text_at w0 p s end.

Definition made (o : option cstr) : list earg_t := match o with Some s => [Made s] | None => [] end.

(** [launch n path args host args']: started as [path] with the arguments
    [args], through [n] scripts, the file [host] runs with [args']. *)
Inductive launch : nat -> cstr -> list earg_t -> cstr -> list earg_t -> Prop :=
| launch_plain path args h : host_of path = Some h -> program_at h = Plain -> launch 0 path args h args
| launch_shared path args h interp l :
    host_of path = Some h -> program_at h = Dynamic interp ->
    host_of interp = Some l ->
    same_file w0 interp l = true -> launch 0 path args h args
| launch_loader path x args h interp l :
    host_of path = Some h -> program_at h = Dynamic interp ->
    host_of interp = Some l ->
    same_file w0 interp l = false -> ~ takes_argv0 w0 l ->
    launch 0 path (x :: args) l (Made interp :: Made path :: args)
| launch_loader_argv0 path x a0 args h interp l :
    host_of path = Some h -> program_at h = Dynamic interp ->
    host_of interp = Some l ->
    same_file w0 interp l = false -> takes_argv0 w0 l -> arg_text x a0 ->
    launch 0 path (x :: args) l (Made interp :: Made (lit "--argv0") :: Made a0 :: Made path :: args)
| launch_script n path x args h interp arg host args' :
    host_of path = Some h -> program_at h = Script interp arg ->
    launch n interp (Made interp :: made arg ++ Made path :: args) host args' ->
    launch (S n) path (x :: args) host args'.

(** The cached answers are right. *)
Definition cache_ok (w : W) (cache : list (cstr * bool)) : Prop :=
  Forall (fun e => e.2 = true <-> takes_argv0 w e.1) cache.

(** The engine while the call is being expanded. *)
Definition looking (s : engine W) : Prop :=
  e_ctx s = e_ctx s0 /\ e_regs s = e_regs s0 /\ t_pid (e_t s) = pid /\ t_root (e_t s) = t_root (e_t s0) /\
  scratch_top (e_t s) = scratch_top (e_t s0) /\ only_reads w0 (e_world s) /\ guest_rw (e_world s) = guest_rw w0 /\
  cache_ok w0 (e_loaders s).

(** ** Lemmas about the parts of the expansion *)

Lemma contains_spec hay needle : contains hay needle = true <-> exists a b, hay = a ++ needle ++ b.
Proof.
  assert (forall h, starts_with needle h = true <-> exists b, h = needle ++ b) as Hs.
  { intros h; unfold starts_with; rewrite bool_decide_eq_true; split.
    - intros <-; exists (drop (length needle) h); by rewrite take_drop.
    - intros [b ->]; by rewrite take_app_length. }
  induction hay as [|c hay IH]; cbn [contains]; rewrite orb_true_iff, Hs.
  - split; [intros [[b ->]|?]; [by exists [], b|done]|intros ([|] & b & Hab); [constructor 1; by exists b|done]].
  - rewrite IH; split.
    + intros [[b ->]|(a & b & ->)]; [by exists [], b|by exists (c :: a), b].
    + intros ([|d a] & b & Hab); [constructor 1; by exists b|]; constructor 2; exists a, b; by injection Hab as _ ->.
Qed.

Lemma host_of_fits path h : host_of path = Some h -> strlen h < PATH_LEN.
Proof.
  unfold host_of; destruct (is_slash _); [|done].
  intros (tr & Htr & ->)%fmap_Some; by destruct (translate_fits _ _ _ _ _ PATH_LEN 1 _ ltac:(done) ltac:(done) Htr).
Qed.

Lemma same_host_fields w w' : same_host w w' ->
  fs_readlink w' = fs_readlink w /\ fs_stat w' = fs_stat w /\ fs_open w' = fs_open w /\ fs_pread w' = fs_pread w.
Proof. unfold same_host; tauto. Qed.

Lemma wp_host_path_of path h P s :
  looking s -> host_of path = Some h -> P h s -> wp (host_path_of path PATH_LEN) P s.
Proof.
  intros (Hc & _ & Hp & Hr & _ & ((Hl & _) & _) & _) Hh HP; unfold host_path_of, host_of in *.
  destruct (is_slash _); [|done].
  unfold translate; wp_run; apply fmap_Some in Hh as (tr & Htr & ->); apply wp_defined; exists tr.
  rewrite Hc, Hr, Hl; split; [done|]; by wp_run.
Qed.

Lemma looking_cache s ld : looking s -> cache_ok w0 ld -> looking (s <| e_loaders := ld |>).
Proof. unfold looking; fields; tauto. Qed.

Lemma wp_loader_has_argv0 l P s :
  looking s -> strlen l < PATH_LEN ->
  (forall b s', looking s' -> (b = true <-> takes_argv0 w0 l) -> P b s') -> wp (loader_has_argv0 l) P s.
Proof.
  intros Hs Hl HP; pose proof Hs as (_ & _ & _ & _ & _ & (Hh & _) & _ & Hcache); unfold loader_has_argv0; wp_run.
  apply same_host_fields in Hh as (_ & _ & Ho & Hp).
  destruct (List.find _ _) as [e|] eqn:Hf.
  { apply find_some in Hf as [Hin He]; apply strcmp_eq_spec in He; apply wp_ret, HP; [done|]; rewrite <- He.
    unfold cache_ok in Hcache; rewrite list.Forall_forall in Hcache; by apply Hcache, list_elem_of_In. }
  wp_run; set (ok := if fs_open _ _ then _ else _).
  assert (ok = true <-> takes_argv0 w0 l) as Hok.
  { unfold ok, takes_argv0; rewrite Ho, Hp; destruct (fs_open w0 l); [|split; [done|by intros [? _]]].
    destruct (fs_pread w0 l 0 LOADER_BUF) as [buf|]; [|split; [done|by intros (_ & a & b & ?)]].
    rewrite andb_true_iff, contains_spec; split; [intros [_ (a & b & ->)]; split; [done|by exists a, b]|].
    intros [_ (a & b & Hbuf)]; assert (buf = a ++ lit "--argv0" ++ b) as -> by congruence; split; [|by exists a, b]; apply Z.ltb_lt.
    rewrite !strlen_app; change (strlen (lit "--argv0")) with 7; pose proof (strlen_nonneg a); pose proof (strlen_nonneg b); lia. }
  destruct (strlen _ <? 8) eqn:Hroom; wp_run; [apply wp_require; [exact Hroom|]; wp_run|by apply HP].
  apply HP; [|done]; apply looking_cache; [done|].
  unfold cache_ok; apply Forall_app; split; [done|]; constructor; [|done]; cbn [fst snd]; by rewrite snprintf_fits.
Qed.

Lemma looking_reads s w' : looking s -> only_reads (e_world s) w' -> guest_rw w' = guest_rw (e_world s) -> looking (s <| e_world := w' |>).
Proof.
  unfold looking; fields; intros (?&?&?&?&?& Hw & Hrw & ?) ? Hrw'; split_and?; try done; [by eapply only_reads_trans|congruence].
Qed.

Lemma wp_text a str P (s : engine W) :
  text_at (e_world s) a str -> t_pid (e_t s) = pid ->
  (forall w', only_reads (e_world s) w' -> guest_rw w' = guest_rw (e_world s) -> P (Some str) (s <| e_world := w' |>)) ->
  wp (mem_read_str a PATH_LEN) P s.
Proof.
  intros (Ha & Hnul & Hlen & [Hb Hz] & Hmap) Hp HP; apply wp_mem_read_str; cbv zeta; rewrite Hp.
  replace (guest_read_str abi_arch (e_world s) pid a PATH_LEN).2 with (Some str).
  - apply HP; [by apply read_str_world|by apply read_chunks_rw].
  - symmetry; unfold guest_read_str; apply (read_chunks_complete (ar := abi_arch) (Z.to_nat PATH_LEN) (e_world s) pid a PATH_LEN [] str); try done.
    + intros w' p' x n Hx Hn Hm; by apply read_live.
    + apply at_addr_app; split; [exact Hb|]; intros [|i] c; [intros [= <-]; by rewrite Z.add_0_r|by destruct i].
    + intros y Hy; apply Hmap; cbn [app] in Hy; lia.
Qed.

Lemma text_at_reads w w' a str : only_reads w w' -> text_at w a str -> text_at w' a str.
Proof. intros (_ & Hm & _); unfold text_at, guest_cstr; by rewrite Hm. Qed.

Lemma wp_argv0_of x args a0 P s :
  looking s -> arg_text x a0 -> (forall s', looking s' -> P a0 s') -> wp (argv0_of (x :: args)) P s.
Proof.
  intros Hs Ha HP; unfold argv0_of; destruct x as [m|p]; unfold arg_text in Ha.
  - destruct Ha as [-> Hm]; apply wp_ret; rewrite snprintf_fits by done; by apply HP.
  - pose proof Hs as (_ & _ & Hp & _ & _ & Hw & _); apply wp_bind; eapply wp_text; [by eapply text_at_reads|done|].
    intros w' Hw' Hrw; apply wp_ret, HP; by apply looking_reads.
Qed.

Lemma wp_guest_absolute p size P (s : engine W) : (forall g, P g s) -> wp (guest_absolute p size) P s.
Proof.
  intros HP; unfold guest_absolute; case_ifs; wp_run; [apply HP|]; unfold read_cwd; wp_run; apply wp_into; [|wp_run; apply HP].
  pose proof (strlen_ztake_le (PATH_LEN - 1) (default [] (fs_readlink (e_world s) (cwd_link (t_pid (e_t s)))))); unfold PATH_LEN in *; lia.
Qed.

Lemma wp_replace_head x args strs P (s : engine W) :
  strlen args + strlen strs <= EARGS -> P ((Made <$> strs) ++ args) s -> wp (replace_head (x :: args) 1 strs) P s.
Proof.
  intros Hlen HP; unfold replace_head; cbv zeta; apply wp_bind, wp_require; [|by apply wp_ret].
  apply andb_true_iff; split; [done|]; apply Z.leb_le; rewrite strlen_app; change (drop 1 (x :: args)) with args.
  unfold strlen in *; rewrite length_fmap; lia.
Qed.

Lemma wp_translate_loader interp l P s :
  looking s ->
  host_of interp = Some l ->
  (forall tr, tr_host tr = l -> strlen l < PATH_LEN -> P tr s) -> wp (translate interp true PATH_LEN 1) P s.
Proof.
  intros (Hc & _ & _ & Hr & _ & ((Hl & _) & _) & _); unfold host_of; destruct (is_slash _); [|done].
  intros (tr & Htr & ->)%fmap_Some HP; unfold translate; wp_run.
  apply wp_defined; exists tr; rewrite Hc, Hr, Hl; split; [done|]; apply HP; [done|].
  by destruct (translate_fits _ _ _ _ _ PATH_LEN 1 _ ltac:(done) ltac:(done) Htr).
Qed.

(** The expansion found: [changed] if the call must be rewritten. *)
Definition expands (path : cstr) (args0 : list earg_t) (host : cstr) (args : list earg_t) (before : bool) (e : expansion) (s : engine W) : Prop :=
  looking s /\ ex_host e = host /\ ex_args e = args /\ (ex_rewritten e = false -> before = false /\ args = args0 /\ host_of path = Some host).

(** Memory for the copies of strings is there. *)
Hypothesis strdup_ok : ~ strdup_fails W.

(** Replacing argv[0] by the loader's arguments. *)
Lemma wp_expand_elf path x args interp l lead h b s :
  looking s -> strlen interp < PATH_LEN -> host_of interp = Some l -> same_file w0 interp l = false -> strlen args + 4 <= EARGS ->
  (~ takes_argv0 w0 l /\ lead = [] \/ takes_argv0 w0 l /\ exists a0, arg_text x a0 /\ lead = [Made (lit "--argv0"); Made a0]) ->
  wp (expand_elf interp (Expansion path h (x :: args) b))
     (expands path (x :: args) l (Made interp :: lead ++ Made path :: args) b) s.
Proof.
  intros Hs Hi Hl Hsame Hcap Hlead; unfold expand_elf; apply wp_bind; eapply wp_translate_loader; [done|done|].
  intros tr Htr Hll; cbv zeta; rewrite Htr; apply wp_bind, wp_ask.
  pose proof Hs as (_ & _ & _ & _ & _ & (Hh & _) & _); apply same_host_fields in Hh as (_ & Hst & _).
  replace (same_file (e_world s) interp l) with false by (symmetry; rewrite <- Hsame; unfold same_file; by rewrite Hst).
  cbv iota; apply wp_bind, wp_dupstr; [done|].
  apply wp_bind, wp_loader_has_argv0; [done|done|]; intros c s1 Hs1 Hc; cbn [ex_args ex_path].
  assert (forall strs s2, Made <$> strs = lead -> strlen strs <= 2 -> looking s2 ->
    wp (path' ← dupstr path; args' ← replace_head (x :: args) 1 ([interp] ++ strs ++ [path']);
        pending ← guest_absolute path PATH_LEN; _ ← modify_t (fun t => t <| pending_exe := pending |>);
        mret (Expansion (snprintf PATH_LEN interp) (snprintf PATH_LEN l) args' true))
       (expands path (x :: args) l (Made interp :: lead ++ Made path :: args) b) s2) as Hend.
  { intros strs s2 Hstrs Hn Hs2; apply wp_bind, wp_dupstr; [done|]; apply wp_bind, wp_replace_head.
    { rewrite !strlen_app; unfold strlen at 2 4; cbn [length]; lia. }
    apply wp_bind, wp_guest_absolute; intros g; wp_run; unfold expands; fields.
    split; [done|split; [by apply snprintf_fits|split; [|done]]]; cbn [ex_args].
    by rewrite !fmap_app, Hstrs, <- !app_assoc. }
  apply wp_bind; destruct c.
  - destruct Hlead as [[Hno _]|(Hyes & a0 & Ha & ->)]; [by destruct Hno; apply Hc|].
    apply wp_bind, (wp_argv0_of x args a0); [done|done|]; intros s2 Hs2.
    do 2 (apply wp_bind, wp_dupstr; [done|]); apply wp_ret; by apply Hend.
  - destruct Hlead as [[_ ->]|(Hyes & _)]; [|by apply Hc in Hyes]; apply wp_ret; by apply (Hend []).
Qed.

(** ** The expansion *)

Lemma parse_shebang_fits head interp arg :
  parse_shebang head = Some (Some (interp, arg)) -> strlen interp <= 255 /\ forall a, arg = Some a -> strlen a <= 255.
Proof.
  unfold parse_shebang; destruct head as [|x [|y [|z head]]]; try done; destruct (_ && _); [|done].
  unfold into; case_ifs; try done; cbn [mbind option_bind]; bool_cases.
  cbv zeta; case_ifs; try done; intros [= <- <-].
  all: set (line := c_str _) in *; assert (strlen line <= 255) as Hline by
    (unfold line, c_str; etrans; [apply take_while_le|unfold LINE_BUF in *; lia]).
  all: pose proof (drop_while_le is_blank line) as H1'.
  all: split; [etrans; [apply take_while_le|lia]|].
  - intros a Ha; discriminate Ha.
  - intros a [= <-]; unfold strip_end, strlen; rewrite length_rev.
    set (p := drop_while is_blank line) in *; set (q := drop_while (fun c => negb (is_blank c)) p).
    pose proof (drop_while_le (fun c => negb (is_blank c)) p) as H2'; fold q in H2'.
    pose proof (drop_while_le is_blank q) as H3'; set (r := drop_while is_blank q) in *.
    pose proof (drop_while_le is_blank_cr (rev r)) as H4'; unfold strlen in *; rewrite length_rev in H4'; lia.
Qed.

Lemma find_interp_same w p c64 po ps size n : fs_pread w = fs_pread w0 ->
  forall i, find_interp w p c64 po ps n i size = find_interp w0 p c64 po ps n i size.
Proof.
  intros Hp; induction n as [|n IH]; intros i; cbn [find_interp]; [done|]; unfold pread_exact; rewrite Hp.
  destruct (if _ : bool then _ else _ : option cstr) as [ph|]; [|done]; by rewrite IH.
Qed.

Lemma elf_interp_same w p size : fs_pread w = fs_pread w0 -> elf_interp w p size = elf_interp w0 p size.
Proof.
  intros Hp; assert (forall off len, pread_exact w p off len = pread_exact w0 p off len) as He by (intros; unfold pread_exact; by rewrite Hp).
  unfold elf_interp; rewrite !He; destruct (pread_exact w0 p 0 16) as [id|]; [|done].
  case_ifs; try done; destruct (pread_exact w0 p 0 _); try done; by apply find_interp_same.
Qed.

(** One round of the loop. *)
Lemma wp_expand_round depth path args h0 h b Q s :
  looking s -> host_of path = Some h ->
  match program_at h with
  | Plain => Q (Expansion path h args b) s
  | Script i a => exists x tl, args = x :: tl /\ strlen tl + 3 <= EARGS /\
      wp (expand depth (Expansion (snprintf PATH_LEN i) h (Made i :: made a ++ Made path :: tl) true)) Q s
  | Dynamic i => wp (expand_elf i (Expansion path h args b)) Q s
  end -> wp (expand (S depth) (Expansion path h0 args b)) Q s.
Proof.
  intros Hs Hh; pose proof Hs as (_ & _ & _ & _ & _ & (Hw & _) & _); apply same_host_fields in Hw as (_ & _ & Ho & Hp).
  unfold program_at; intros HQ; cbn [expand]; apply wp_bind; eapply wp_host_path_of; [done|exact Hh|]; cbv zeta; cbn [ex_path ex_args ex_rewritten].
  apply wp_bind, wp_ask; rewrite Ho; destruct (fs_open w0 h); cbn [negb]; [|by apply wp_ret].
  apply wp_bind, wp_ask; rewrite Hp; destruct (parse_shebang_defined (default [] (fs_pread w0 h 0 256))) as [o E]; rewrite E in HQ |- *.
  apply wp_bind, wp_defined; exists o; split; [done|]; destruct o as [[i a]|].
  - destruct HQ as (x & tl & -> & Hcap & HQ); apply wp_bind, wp_dupstr; [done|]; apply wp_bind.
    assert (forall strs, Made <$> strs = made a -> strlen strs <= 1 ->
      wp (path' ← dupstr path; args' ← replace_head (x :: tl) 1 ([i] ++ strs ++ [path']);
          expand depth (Expansion (snprintf PATH_LEN i) h args' true)) Q s) as Hend.
    { intros strs Hstrs Hn; apply wp_bind, wp_dupstr; [done|]; apply wp_bind, wp_replace_head.
      - rewrite !strlen_app; unfold strlen at 2 4; cbn [length]; lia.
      - by rewrite !fmap_app, Hstrs, <- !app_assoc. }
    destruct a as [a|]; [apply wp_bind, wp_dupstr; [done|]|]; apply wp_ret; by apply Hend.
  - apply wp_bind, wp_the_world; rewrite (elf_interp_same (e_world s)) by done.
    destruct (elf_interp_fits w0 h) as (o & Eo & _); rewrite Eo in HQ |- *.
    apply wp_bind, wp_defined; exists o; split; [done|]; destruct o; [exact HQ|by apply wp_ret].
Qed.

Lemma program_script_fits h i a : program_at h = Script i a -> strlen i <= 255 /\ forall s, a = Some s -> strlen s <= 255.
Proof.
  unfold program_at; destruct (fs_open w0 h); [|done]; destruct (parse_shebang _) as [[[i' a']|]|] eqn:E.
  - intros [= -> ->]; by eapply parse_shebang_fits.
  - by destruct (elf_interp _ _ _) as [[?|]|].
  - by destruct (elf_interp _ _ _) as [[?|]|].
Qed.

Lemma program_dynamic_fits h i : program_at h = Dynamic i -> strlen i < PATH_LEN.
Proof.
  unfold program_at; destruct (fs_open w0 h); [|done]; destruct (elf_interp_fits w0 h) as (o & -> & Ho).
  destruct (parse_shebang _) as [[[i' a']|]|]; [done|..]; (destruct o as [i'|]; [|done]); intros [= ->]; by apply Ho.
Qed.

Lemma wp_expand_loader depth path x args h0 h b interp l lead s :
  looking s -> host_of path = Some h -> program_at h = Dynamic interp ->
  host_of interp = Some l ->
  same_file w0 interp l = false -> strlen args + 4 <= EARGS ->
  (~ takes_argv0 w0 l /\ lead = [] \/ takes_argv0 w0 l /\ exists a0, arg_text x a0 /\ lead = [Made (lit "--argv0"); Made a0]) ->
  wp (expand (S depth) (Expansion path h0 (x :: args) b))
     (expands path (x :: args) l (Made interp :: lead ++ Made path :: args) b) s.
Proof.
  intros Hs Hh Hprog Hl Hsame Hcap Hlead; eapply wp_expand_round; [done|exact Hh|]; rewrite Hprog.
  eapply wp_expand_elf; try done; by eapply program_dynamic_fits.
Qed.

Lemma wp_expand n path args host args' : launch n path args host args' -> forall depth h0 b s,
  (n < depth)%nat -> strlen args + 3 * Z.of_nat depth <= EARGS -> looking s ->
  wp (expand depth (Expansion path h0 args b)) (expands path args host args' b) s.
Proof.
  induction 1 as [path args h Hh Hprog|path args h interp l Hh Hprog Hl Hsame|path x args h interp l Hh Hprog Hl Hsame Hno
    |path x a0 args h interp l Hh Hprog Hl Hsame Hyes Ha|n path x args h interp arg host args' Hh Hprog Hrest IH];
    intros [|depth] h0 b s Hd Hcap Hs; try lia; rewrite ?strlen_cons in Hcap.
  - eapply wp_expand_round; [done|exact Hh|]; rewrite Hprog; by split.
  - eapply wp_expand_round; [done|exact Hh|]; rewrite Hprog; unfold expand_elf; apply wp_bind; eapply wp_translate_loader; [done|done|].
    intros tr Htr _; rewrite Htr; apply wp_bind, wp_ask; pose proof Hs as (_ & _ & _ & _ & _ & (Hw & _) & _).
    apply same_host_fields in Hw as (_ & Hst & _); replace (same_file (e_world s) interp l) with true by (symmetry; rewrite <- Hsame; unfold same_file; by rewrite Hst).
    apply wp_ret; by split.
  - eapply (wp_expand_loader _ _ _ _ _ h _ _ _ []); try done; [lia|by constructor 1].
  - eapply (wp_expand_loader _ _ _ _ _ h _ _ _ [_; _]); try done; [lia|constructor 2; eauto].
  - destruct (program_script_fits h interp arg Hprog) as [Hi _]; eapply wp_expand_round; [done|exact Hh|]; rewrite Hprog.
    rewrite snprintf_fits by (unfold PATH_LEN; lia); exists x, args; split; [done|split; [lia|]].
    eapply wp_mono; [|apply (IH depth h true s); [lia| |done]]; [intros e s' (Hs' & Hhost & Hargs & Hrew); split; [done|split; [done|split; [done|]]]|].
    + intros Hf; destruct (Hrew Hf) as [? _]; done.
    + destruct arg; cbn [made app]; rewrite !strlen_cons; lia.
Qed.

(** ** Its size *)

Definition made_total (args : list earg_t) : Z := strlen (made_bytes args).

Lemma launch_size n path args host args' : launch n path args host args' -> strlen path < PATH_LEN ->
  strlen host < PATH_LEN /\ strlen args' <= strlen args + 2 * Z.of_nat n + 3 /\
  made_total args' <= made_total args + (Z.of_nat n + 1) * (4 * PATH_LEN).
Proof.
  unfold made_total; intros Hlaunch.
  assert (forall x args, strlen (made_bytes args) <= strlen (made_bytes (x :: args))) as Htail.
  { intros x l; rewrite made_bytes_cons, strlen_app; set (y := match x with Made _ => _ | _ => _ end); pose proof (strlen_nonneg y); lia. }
  assert (forall s l, strlen (made_bytes (Made s :: l)) = strlen s + 1 + strlen (made_bytes l)) as Hmade.
  { intros s l; rewrite made_bytes_cons, !strlen_app; change (strlen [NUL]) with 1; lia. }
  assert (forall interp l, host_of interp = Some l ->
    strlen l < PATH_LEN) as Hloader.
  { intros interp l; apply host_of_fits. }
  induction Hlaunch as [path args h Hh Hprog|path args h interp l Hh Hprog Hl Hsame|path x args h interp l Hh Hprog Hl Hsame Hno
    |path x a0 args h interp l Hh Hprog Hl Hsame Hyes Ha|n path x args h interp arg host args' Hh Hprog Hrest IH]; intros Hp.
  - split_and?; [by eapply host_of_fits|lia|unfold PATH_LEN; lia].
  - split_and?; [by eapply host_of_fits|lia|unfold PATH_LEN; lia].
  - pose proof (program_dynamic_fits h interp Hprog); specialize (Htail x args); rewrite !Hmade, !strlen_cons; split_and?; [by eapply Hloader|lia|unfold PATH_LEN in *; lia].
  - pose proof (program_dynamic_fits h interp Hprog); specialize (Htail x args); rewrite !Hmade; change (strlen (lit "--argv0")) with 7; rewrite !strlen_cons.
    assert (strlen a0 < PATH_LEN) by (destruct x; [by destruct Ha as [-> ?]|by destruct Ha as (_ & _ & ? & _)]).
    split_and?; [by eapply Hloader|lia|unfold PATH_LEN in *; lia].
  - destruct (program_script_fits h interp arg Hprog) as [Hi Ha]; destruct IH as (Hhost & Hn & Hm); [unfold PATH_LEN; lia|].
    specialize (Htail x args); rewrite Hmade, strlen_cons in *; unfold PATH_LEN in *; split; [done|].
    destruct arg as [a|]; cbn [made app] in *; rewrite ?Hmade, ?strlen_cons in *; [specialize (Ha a eq_refl)|]; split; lia.
Qed.
End launch.

(** ** Properties *)

Section theorems.
Context {abi : ABI} `{!ABIOk abi} `{live : GuestLive abi_arch W}.

Lemma room_looking calloc (s s1 : engine W) host args : looking s s1 -> room calloc s host args -> room calloc s1 host args.
Proof. unfold looking, room, scratch_room; intros (_ & _ & -> & _ & -> & _ & -> & _); tauto. Qed.

(** A call within the limits of the code fits the scratch area's arithmetic. *)
Lemma launch_total (s : engine W) n path ps host args :
  launch s n path (Ptr <$> ps) host args -> (n < MAX_SHEBANG_DEPTH)%nat -> strlen path < PATH_LEN -> strlen ps <= MAX_EXEC_ARGS ->
  blob_total host args < 2 ^ 31.
Proof.
  intros Hl Hn Hp Hps; destruct (launch_size s _ _ _ _ _ Hl Hp) as (Hh & Ha & Hm); unfold blob_total, made_total in *.
  replace (strlen (made_bytes (Ptr <$> ps))) with 0 in Hm by (clear; by induction ps).
  assert (strlen (Ptr <$> ps) = strlen ps) as Hlen by (unfold strlen; by rewrite length_fmap).
  rewrite Hlen in Ha; destruct word_size_bits; pose proof (strlen_nonneg args); unfold PATH_LEN, MAX_EXEC_ARGS, MAX_SHEBANG_DEPTH in *; nia.
Qed.

(** C4: exec inside the root. When a guest calls execve on an absolute path and
    an argument array in its memory, and that path, resolved inside the root,
    through fewer than five #! scripts (their interpreters' paths absolute and
    resolved inside the root too) and with the root's own loader where the
    program needs one, comes to run a host file with certain arguments, then
    either the call needs no change, or its registers end, in the engine and in
    the kernel, naming exactly that file and an array of pointers to exactly
    those arguments (the guest's own pointers for those it gave itself), or the
    call is made to fail, which happens only when memory for the new call is
    missing. The engine has memory for its copies of strings and for the array
    of arguments (without the first it aborts). *)
Theorem exec_launches (calloc : Z -> Z -> bool) (slot argv_slot : Z) (s : engine W) (path : cstr) (ps : list Z)
    (n : nat) (host : cstr) (args : list earg_t) :
  let argv := Arch.reg_arg abi_arch argv_slot (e_regs s) in let ptr := Arch.reg_arg abi_arch slot (e_regs s) in
  arg_ok slot -> arg_ok argv_slot -> slot <> argv_slot -> regs_wf abi_arch (e_regs s) ->
  store_accepted (W := W) (t_pid (e_t s)) -> is_addr abi_arch (scratch_top (e_t s)) -> cache_ok (e_world s) (e_loaders s) ->
  ~ strdup_fails W -> calloc EARGS (2 * word_size abi_arch) = true ->
  ptr <> 0 -> text_at s (e_world s) ptr path ->
  argv <> 0 -> argv_at (e_world s) (t_pid (e_t s)) argv ps -> ps <> [] -> strlen ps <= MAX_EXEC_ARGS ->
  Forall (fun p => 0 < p < 2 ^ word_bits abi_arch) ps ->
  launch s n path (Ptr <$> ps) host args -> (n < MAX_SHEBANG_DEPTH)%nat ->
  wp (emuroot_rewrite_exec calloc slot argv_slot) (fun r s' =>
    r = 0 /\ e_regs s' = e_regs s /\ args = Ptr <$> ps /\ host_of s path = Some host \/
    committed calloc s slot argv_slot host args r s') s.
Proof.
  intros argv ptr Hslot Haslot Hne Hr Hacc Htop Hcache Hdup Hcalloc Hptr Hpath Hargv Hat Hps Hlen Hrange Hlaunch Hn.
  assert (looking s s) as Hs by (unfold looking; split_and?; try done; apply only_reads_refl).
  pose proof (launch_total s _ _ _ _ _ Hlaunch Hn ltac:(apply Hpath) Hlen) as Htotal.
  unfold emuroot_rewrite_exec; wp_run; fold argv ptr; rewrite (proj2 (Z.eqb_neq _ _) Hptr), (proj2 (Z.eqb_neq _ _) Hargv); cbn [orb].
  apply wp_bind, (wp_text s ptr path); [done|done|]; intros w1 Hw1 Hrw1; rewrite Hcalloc; cbn [negb].
  pose proof (looking_reads s s w1 Hs Hw1 Hrw1) as Hs1; apply wp_bind; apply (wp_read_argv _ argv ps); fields; [|done| |].
  - unfold argv_at in *; destruct Hw1 as (_ & -> & _); done.
  - unfold strlen in Hlen; lia.
  - intros s2 (w2 & -> & Hw2 & Hrw2); fields; assert (strlen (Ptr <$> ps) = strlen ps) as Hcount by (unfold strlen; by rewrite length_fmap).
    apply wp_bind, wp_require; [apply Z.leb_le; rewrite Hcount; unfold EARGS; lia|]; rewrite bool_decide_eq_false_2 by (by destruct ps).
    pose proof (looking_reads s _ w2 Hs1 Hw2 Hrw2) as Hs2; apply wp_bind.
    eapply wp_mono; [|apply (wp_expand s Hdup n _ _ _ _ Hlaunch); [done|rewrite Hcount; unfold EARGS, MAX_SHEBANG_DEPTH; lia|done]]; intros e s3 (Hs3 & Hhost & Hargs & Hrew).
    destruct (ex_rewritten e).
    + rewrite Hhost, Hargs; pose proof Hs3 as (_ & Hregs & Hpid & _ & Hscr & _).
      eapply wp_mono; [|apply wp_commit; rewrite ?Hregs, ?Hpid, ?Hscr; done]; intros r s4; unfold committed; rewrite Hregs, Hpid.
      intros [?|(? & ? & Hroom)]; constructor 2; [by constructor 1|constructor 2; split; [done|split; [done|]]].
      intros Hrm; by eapply Hroom, room_looking.
    + apply wp_ret; constructor 1; destruct (Hrew eq_refl) as (_ & ? & ?); destruct Hs3 as (_ & ? & _); done.
Qed.
End theorems.

Lemma strip_end_spec f s t :
  Forall (fun c => f c = true) t -> (forall c, list.last s = Some c -> f c = false) -> strip_end f (s ++ t) = s.
Proof.
  intros Ht Hs; unfold strip_end; rewrite rev_app_distr, drop_while_app by (by apply Forall_rev).
  destruct s as [|c s] using rev_ind; [done|]; rewrite rev_app_distr; cbn [rev app drop_while].
  rewrite (Hs c) by apply last_snoc; cbn [rev]; by rewrite rev_involutive.
Qed.

(** A text without newlines and NULs. *)
Definition in_line (s : cstr) : Prop := Forall (fun c => not_newline c && not_nul c = true) s.

(** The line of a script's head. *)
Lemma line_spec line rest :
  in_line line -> strlen line <= 255 -> rest = [] \/ (exists r, rest = "010"%char :: r) ->
  c_str (ztake 255 (take_while not_newline (line ++ rest))) = line.
Proof.
  intros Hl Hlen Hr; assert (take_while not_newline (line ++ rest) = line) as ->.
  { assert (Forall (fun c => not_newline c = true) line) by (revert Hl; apply List.Forall_impl; by intros c [? _]%andb_true_iff).
    destruct Hr as [->|[r ->]]; [rewrite app_nil_r; by apply take_while_all|by apply take_while_all_app]. }
  rewrite ztake_ge by done; apply take_while_all; revert Hl; apply List.Forall_impl; by intros c [_ ?]%andb_true_iff.
Qed.

(** C25: #! lines. Blanks, the interpreter, blanks, an argument that may contain
    blanks, then blanks and carriage returns, all on one line of at most 255
    characters: this is read as that interpreter and that argument, or no
    argument if there is none, whatever follows the line. *)
Theorem shebang_line (b1 interp b2 arg b3 rest : cstr) :
  let blank s := Forall (fun c => is_blank c = true) s in
  blank b1 -> blank b2 -> Forall (fun c => is_blank_cr c = true) b3 ->
  interp <> [] -> Forall (fun c => is_blank c = false) interp ->
  (forall c, head arg = Some c -> is_blank c = false) -> (forall c, list.last arg = Some c -> is_blank_cr c = false) ->
  (b2 = [] -> arg = [] /\ b3 = []) ->
  let line := b1 ++ interp ++ b2 ++ arg ++ b3 in
  in_line line -> strlen line <= 255 -> rest = [] \/ (exists r, rest = "010"%char :: r) ->
  parse_shebang (lit "#!" ++ line ++ rest) = Some (Some (interp, if bool_decide (arg = []) then None else Some arg)).
Proof.
  intros blank Hb1 Hb2 Hb3 Hi Hib Hhead Hlast Hsep line Hline Hlen Hrest.
  pose proof (line_spec line rest Hline Hlen Hrest) as Hl; destruct interp as [|x interp]; [done|].
  assert (exists y more, line ++ rest = y :: more) as (y & more & Hym).
  { unfold line; destruct b1; cbn [app]; by eexists _, _. }
  unfold parse_shebang; rewrite Hym; cbn [lit list_ascii_of_string app drop Ascii.eqb eqb andb]; rewrite <- Hym.
  rewrite into_fits by (pose proof (strlen_ztake_le (LINE_BUF - 1) (take_while not_newline (line ++ rest))); unfold LINE_BUF in *; lia).
  cbn [mbind option_bind]; change (LINE_BUF - 1) with 255; cbv zeta; rewrite Hl.
  apply list.Forall_cons in Hib as [Hx Hib]; unfold line; rewrite drop_while_app by done; cbn [app drop_while]; rewrite Hx.
  rewrite bool_decide_eq_false_2 by done.
  assert (Forall (fun c => negb (is_blank c) = true) (x :: interp)) as Htok.
  { constructor; [by rewrite Hx|]; revert Hib; apply List.Forall_impl; by intros c ->. }
  rewrite !(app_comm_cons interp); destruct b2 as [|c b2].
  - destruct (Hsep eq_refl) as [-> ->]; cbn [app]; rewrite !app_nil_r.
    by rewrite take_while_all, (drop_while_Forall (fun c => negb (is_blank c))).
  - pose proof Hb2 as [Hc Hb2']%list.Forall_cons; change ((c :: b2) ++ arg ++ b3) with (c :: b2 ++ arg ++ b3).
    rewrite take_while_all_app, drop_while_all_app by (done || by rewrite Hc); rewrite app_comm_cons, drop_while_app by done.
    assert (drop_while is_blank (arg ++ b3) = arg ++ b3 \/ arg = [] /\ strip_end is_blank_cr (drop_while is_blank b3) = []) as Hrd.
    { destruct arg as [|a arg]; [constructor 2; split; [done|]|constructor 1; cbn [app drop_while]; by rewrite (Hhead a)].
      unfold strip_end; rewrite drop_while_Forall; [done|]; apply Forall_rev.
      pose proof (take_drop_while is_blank b3) as E; rewrite <- E in Hb3; by apply Forall_app in Hb3 as [_ ?]. }
    destruct Hrd as [->|[-> Hnil]].
    + by rewrite strip_end_spec.
    + cbn [app]; by rewrite Hnil.
Qed.

Lemma shebang_line_witness :
  parse_shebang (lit "#! /bin/awk -f x " ++ "010"%char :: lit "BEGIN") = Some (Some (lit "/bin/awk", Some (lit "-f x"))).
Proof.
  apply (shebang_line [" "%char] (lit "/bin/awk") [" "%char] (lit "-f x") [" "%char] ("010"%char :: lit "BEGIN")).
  all: try (repeat constructor; fail).
  all: try discriminate.
  - intros c [= <-]; reflexivity.
  - intros c [= <-]; reflexivity.
  - constructor 2; eexists; reflexivity.
Defined.

(** ** On the toy kernel *)

Lemma toy_at k pid a bs :
  all_of (fun x => accessible k x = true) a (strlen bs) ->
  forallb (fun i => bool_decide (Some (toy_mem k (a + Z.of_nat i)) = bs !! i)) (seq 0 (length bs)) = true ->
  at_addr (mem (GuestLaws := toy_guest_laws) (toy_tracer k) pid) a bs.
Proof.
  intros Hacc Hb i c Hi; pose proof (lookup_lt_Some _ _ _ Hi) as Hl; rewrite List.forallb_forall in Hb.
  specialize (Hb i (proj2 (in_seq _ _ _) (conj (Nat.le_0_l i) Hl))); apply bool_decide_eq_true_1 in Hb.
  change (toy_view k (a + Z.of_nat i) = Some c); unfold toy_view; rewrite Hacc by (unfold strlen; lia); congruence.
Qed.

Lemma names_path_text {abi : ABI} `{laws : GuestLaws abi_arch W} (s : engine W) w regs slot given :
  regs_wf abi_arch regs -> names_path w (t_pid (e_t s)) regs slot given -> text_at s w (Arch.reg_arg abi_arch slot regs) given.
Proof. intros Hr (_ & _ & ? & ? & ? & ?); split; [apply (get_range _ (ARG slot) _ Hr)|done]. Qed.

(** execve("/s", {"/s", NULL}) of a script for the static program "/i". *)
Definition toy_script : toy :=
  Toy (fun x => if x <? 4200 then toy_page (lit "/s") x
                else nth (Z.to_nat (x - 4200)) (word_bytes (abi := x86_64_abi) [4096; 0]) NUL)
    (Z.eqb 1) (zero_regs X86_64) true [] []
    [(lit "/r/s", lit "#!/i -x" ++ ["010"%char]); (lit "/r/i", lit "static")] 1000.
Definition toy_exec : engine (tracer toy) := toy_engine_at toy_script (lit "/r") 59 [4096; 4200].
Definition toy_exec_args : list earg_t := [Made (lit "/i"); Made (lit "-x"); Made (lit "/s")].

Lemma toy_exec_launch : launch (abi := x86_64_abi) (H1 := toy_guest_laws) toy_exec 1 (lit "/s") [Ptr 4096] (lit "/r/i") toy_exec_args.
Proof.
  apply (launch_script toy_exec 0 (lit "/s") (Ptr 4096) [] (lit "/r/s") (lit "/i") (Some (lit "-x"))).
  - vm_compute; reflexivity.
  - vm_compute; reflexivity.
  - apply launch_plain; vm_compute; reflexivity.
Defined.

Lemma exec_launches_witness :
  wp (emuroot_rewrite_exec (abi := x86_64_abi) calloc_64 1 2) (fun r s' =>
    r = 0 /\ e_regs s' = e_regs toy_exec /\ toy_exec_args = Ptr <$> [4096] /\
      host_of toy_exec (lit "/s") = Some (lit "/r/i") \/
    committed (abi := x86_64_abi) (live := toy_guest_live) calloc_64 toy_exec 1 2 (lit "/r/i") toy_exec_args r s') toy_exec.
Proof.
  apply (exec_launches (abi := x86_64_abi) (live := toy_guest_live) calloc_64 1 2 toy_exec (lit "/s") [4096] 1).
  - split; discriminate.
  - split; discriminate.
  - discriminate.
  - apply toy_regs_of_wf.
  - apply toy_store_accepted.
  - split; [discriminate|reflexivity].
  - constructor.
  - by intros (w & x & ?).
  - reflexivity.
  - vm_compute; discriminate.
  - apply (names_path_text (abi := x86_64_abi) (laws := toy_guest_laws) toy_exec); [apply toy_regs_of_wf|].
    apply (toy_names_path toy_script (toy_regs_of 59 [4096; 4200]) 1 (lit "/s"));
      [reflexivity|vm_compute; discriminate|vm_compute; discriminate|reflexivity|reflexivity|reflexivity|vm_compute; reflexivity].
  - vm_compute; discriminate.
  - apply (toy_at toy_script 7 4200 (word_bytes (abi := x86_64_abi) [4096; 0])).
    + intros x Hx; change (strlen _) with 16 in Hx; apply (toy_page_accessible toy_script 4200 16); try done; lia.
    + vm_compute; reflexivity.
  - discriminate.
  - vm_compute; discriminate.
  - constructor; [split; reflexivity|constructor].
  - exact toy_exec_launch.
  - vm_compute; auto.
Defined.

(** The memory suffices there, and the call is rewritten. *)
Example toy_exec_rewritten :
  fst <$> emuroot_rewrite_exec (abi := x86_64_abi) calloc_64 1 2 toy_exec = Done 1.
Proof. vm_compute; reflexivity. Qed.
