(* ===== verification/CwdFacts.v ===== *)
(** The working directory the guest is told: where its place on the host is
    inside the root, and what getcwd leaves in its buffer on the architectures
    that keep the first argument's register, and on the others. *)

From Stdlib Require Import ZArith Lia Ascii String.
From stdpp Require Import base list numbers.
From S2P Require Import Prelude Stdio Arch Syscalls World Guest ToyKernel GuestFacts Creds Owners Config Path PathFacts Live.
From S2P Require Import Tracee PathArg Dac Identity Mounts Exec Rewrite Fake Safety Wp RewriteFacts IdentityFacts FakeFacts MountFacts ExecFacts.
Local Open Scope Z_scope.
Local Open Scope emu_scope.

(** ** From the host's paths to the guest's *)

(** A path below a directory, in one piece or with what follows its slash. *)
Definition below (dir path : cstr) : Prop := path = dir \/ exists rest, path = dir ++ SLASH :: rest.

Lemma has_prefix_below path dir : NUL ∉ path -> has_prefix path dir (strlen dir) = true -> below dir path.
Proof.
  unfold has_prefix, strncmp_eq; intros Hn [Ht%bool_decide_eq_true Hc]%andb_true_iff.
  rewrite (ztake_ge _ dir) in Ht by lia; pose proof (ztake_zdrop (strlen dir) path) as Hp; rewrite Ht in Hp.
  destruct (zdrop (strlen dir) path) as [|c rest]; [constructor 1; by rewrite <- Hp, app_nil_r|constructor 2; exists rest].
  assert (chr_at path (strlen dir) = c) as Hat.
  { rewrite <- Hp; unfold chr_at, strlen; by rewrite Nat2Z.id, nth_middle. }
  rewrite Hat in Hc; apply orb_true_iff in Hc as [Hs|Hz%bool_decide_eq_true]; [apply is_slash_spec in Hs; by subst c|].
  destruct Hn; rewrite <- Hp, Hz; apply elem_of_app; constructor 2; constructor.
Qed.

(** Without bindings: the guest path of a host path is what follows the root. *)
Lemma host_to_guest_root ctx root host g :
  nbindings ctx = 0 -> NUL ∉ host -> strlen host < PATH_LEN -> emuroot_host_to_guest ctx root host PATH_LEN = Some g ->
  root <> [] /\ (host = root /\ g = [SLASH] \/ exists rest, host = root ++ SLASH :: rest /\ g = SLASH :: rest).
Proof.
  intros Hb Hn Hl; unfold emuroot_host_to_guest; rewrite active_none by done; cbn [pick_longest foldl].
  destruct (negb _ && _) eqn:E; [|done]; intros [= <-]; apply andb_true_iff in E as [Hr Hp]; split.
  { intros ->; by rewrite bool_decide_eq_true_2 in Hr. }
  apply has_prefix_below in Hp as [->|(rest & ->)]; [constructor 1|constructor 2; exists rest|done].
  - split; [done|]; replace (zdrop (strlen root) root) with (@nil ascii) by (unfold zdrop, strlen; rewrite Nat2Z.id; by rewrite drop_all).
    by unfold slash_if_empty, snprintf, ztake; rewrite !take_nil.
  - split; [done|]; rewrite zdrop_app_strlen; rewrite strlen_app in Hl; pose proof (strlen_nonneg root).
    by rewrite snprintf_fits by lia.
Qed.

(** The guest's path leads back to where it came from, but for a slash at the
    root itself. *)
Lemma host_to_guest_back ctx root host g :
  nbindings ctx = 0 -> NUL ∉ host -> strlen host < PATH_LEN -> emuroot_host_to_guest ctx root host PATH_LEN = Some g ->
  strlen g <= Z.max 1 (strlen host) /\
  (map_to_host ctx root g PATH_LEN = host \/ host = root /\ map_to_host ctx root g PATH_LEN = snprintf PATH_LEN (root ++ [SLASH])).
Proof.
  intros Hb Hn Hl Hg; rewrite map_to_host_no_bindings by (by apply active_none).
  destruct (host_to_guest_root _ _ _ _ Hb Hn Hl Hg) as [_ [[-> ->]|(rest & -> & ->)]]; split.
  - change (strlen [SLASH]) with 1; lia.
  - by constructor 2.
  - rewrite strlen_app; pose proof (strlen_nonneg root); lia.
  - constructor 1; by apply snprintf_fits.
Qed.

(** ** getcwd *)

Section theorems.
Context {abi : ABI} `{!ABIOk abi} `{live : GuestLive abi_arch W}.

Lemma getcwd_action : action_entry NR_getcwd = Some A_GETCWD.
Proof. unfold action_entry, keep_action; by destruct (lp64 abi_arch). Qed.

(** A path of the guest written to its memory. *)
Lemma wp_write_text a str P (s : engine W) :
  is_addr abi_arch a -> all_of (guest_rw (e_world s) (t_pid (e_t s))) a (strlen str + 1) ->
  (forall w', guest_cstr w' (t_pid (e_t s)) a str ->
     agree_outside (mem (e_world s) (t_pid (e_t s))) (mem w' (t_pid (e_t s))) a (strlen str + 1) ->
     P true (s <| e_world := w' |>)) -> wp (mem_write a (str ++ [NUL])) P s.
Proof.
  intros Ha Hrw HP; apply wp_mem_write; cbv zeta; assert (strlen (str ++ [NUL]) = strlen str + 1) as Hl by (by rewrite strlen_app).
  assert (str ++ [NUL] <> []) as Hne by (by destruct str).
  pose proof (write_live (e_world s) (t_pid (e_t s)) a (str ++ [NUL]) Ha Hne) as Hok; rewrite Hl in Hok; specialize (Hok Hrw); rewrite Hok.
  destruct (write_same (e_world s) (t_pid (e_t s)) a (str ++ [NUL]) Ha) as (_ & _ & Hout); rewrite Hl in Hout.
  apply HP; [|exact Hout]; apply guest_cstr_at; exact (write_bytes (e_world s) (t_pid (e_t s)) a (str ++ [NUL]) Ha Hok).
Qed.

(** Nothing is read at an address that is not mapped. *)
Lemma read_str_unmapped (w : W) pid a : is_addr abi_arch a -> mem w pid a = None ->
  (guest_read_str abi_arch w pid a PATH_LEN).2 = None.
Proof.
  intros Ha Hno; unfold guest_read_str; destruct (Z.to_nat PATH_LEN) as [|fuel] eqn:Hf; [discriminate Hf|].
  cbn [read_chunks]; change (strlen []) with 0; change (0 + 1 <? PATH_LEN) with true; cbv iota zeta; rewrite Z.add_0_r, uword_small by exact Ha.
  set (want := if _ <? CHUNK then _ else _); pose proof (read_bytes w pid a want) as Hb.
  destruct (guest_read w pid a want) as [w1 [[|c bs]|]]; cbn [snd] in *; [done| |done].
  destruct (Hb (c :: bs) Ha ltac:(done) eq_refl) as [_ Hat]; specialize (Hat 0%nat c eq_refl).
  rewrite Z.add_0_r in Hat; congruence.
Qed.

(** The handler's work, once it has found [buf] in the first argument's register. *)
Lemma wp_getcwd_patched (s : engine W) buf cwd guest ret :
  let pid := t_pid (e_t s) in
  regs_wf abi_arch (e_regs s) -> store_accepted (W := W) pid -> 0 < ret -> Arch.reg_arg abi_arch 1 (e_regs s) = buf ->
  text_at s (e_world s) buf cwd -> emuroot_host_to_guest (e_ctx s) (t_root (e_t s)) cwd PATH_LEN = Some guest ->
  strlen guest < PATH_LEN -> all_of (guest_rw (e_world s) pid) buf (strlen guest + 1) ->
  wp (fake_getcwd ret) (fun _ s' =>
    guest_cstr (e_world s') pid buf guest /\ agree_outside (mem (e_world s) pid) (mem (e_world s') pid) buf (strlen guest + 1) /\
    Arch.get abi_arch RET (e_regs s') = strlen guest + 1 /\ kernel_regs (e_world s') pid = Some (e_regs s')) s.
Proof.
  intros pid Hr Hacc Hret Hbuf Htext Hg Hgl Hrw; pose proof Htext as (Haddr & _).
  destruct s as [ctx t regs ld w]; fields; unfold fake_getcwd; rewrite (proj2 (Z.leb_gt _ _)) by exact Hret.
  apply wp_bind, wp_arg; fields; rewrite Hbuf; apply wp_bind.
  apply (wp_text (Engine ctx t regs ld w) buf cwd); [exact Htext|reflexivity|]; intros w1 (_ & Hm1 & _) Hrw1; wp_run; fields.
  cbn [mbind option_bind]; rewrite Hg.
  apply wp_bind, wp_write_text; fields; [exact Haddr|rewrite Hrw1; exact Hrw|]; intros w2 Hc2 Hout; cbv iota.
  unfold set_result; wp_run; fields; apply wp_store_accepted; fields; [exact Hacc|by apply put_wf|].
  intros b w3 Hm3 _ Hk; wp_run; fields; split; [|split; [|split; [|exact Hk]]].
  - unfold guest_cstr in *; by rewrite Hm3.
  - rewrite Hm3, <- Hm1; exact Hout.
  - rewrite get_put_eq by done; apply uword_small; pose proof (strlen_nonneg guest); pose proof (word_bits_ge abi_arch).
    assert (2 ^ 32 <= 2 ^ word_bits abi_arch) by (apply Z.pow_le_mono_r; lia); unfold PATH_LEN in *; lia.
Qed.

(** The result is what the first argument's register holds, where the two share one. *)
Lemma result_in_arg1 (s : engine W) :
  regs_wf abi_arch (e_regs s) -> ret_is_arg1 abi_arch = true -> 0 < the_ret s -> Arch.reg_arg abi_arch 1 (e_regs s) = the_ret s.
Proof.
  intros Hr Hshare%ret_is_arg1_spec; unfold the_ret, slong, Arch.reg_arg, Arch.get; rewrite Hshare.
  pose proof (get_range abi_arch (ARG 1) _ Hr) as Hrange; unfold is_addr, Arch.get in Hrange.
  rewrite uword_small by exact Hrange; case_ifs; lia.
Qed.

(** C11: what getcwd tells the guest. The real call has left a host directory in
    the guest's buffer (its first argument, as saved at entry), and that
    directory lies under the root or a bound directory. On x86 and x86-64, where
    the argument's register outlives the call, the buffer then holds the
    directory's guest path, the result is its length with the NUL, and no other
    byte of memory changes. On the other architectures the result has taken the
    register's place: the handler looks for the path at the address given by the
    result, a small number where nothing is mapped, and leaves the registers and
    the memory as they are, with the host's path in the buffer. When nothing is
    bound, the guest path is no longer than the host path, so it fits the buffer
    the kernel has filled, and the engine translates it back to the host
    directory (with a slash after it if that is the root itself). *)
Theorem getcwd_reported (calloc : Z -> Z -> bool) (kstat : stat_layout) (s : engine W) (z : Z) (cwd guest : cstr) :
  let buf := saved_arg (e_t s) 0 in let pid := t_pid (e_t s) in let root := t_root (e_t s) in
  regs_wf abi_arch (e_regs s) -> store_accepted (W := W) pid ->
  nr NR_getcwd = Some z -> t_sysno (e_t s) = z -> created (e_t s) = [] -> 0 < the_ret s ->
  (ret_is_arg1 abi_arch = false -> Arch.reg_arg abi_arch 1 (e_regs s) = buf) ->
  (ret_is_arg1 abi_arch = true -> mem (e_world s) pid (the_ret s) = None) ->
  text_at s (e_world s) buf cwd -> emuroot_host_to_guest (e_ctx s) root cwd PATH_LEN = Some guest ->
  all_of (guest_rw (e_world s) pid) buf (strlen guest + 1) ->
  wp (emuroot_on_exit calloc kstat) (fun _ s' =>
    if ret_is_arg1 abi_arch then
      e_regs s' = e_regs s /\ mem (e_world s') = mem (e_world s) /\ kernel_regs (e_world s') = kernel_regs (e_world s)
    else
      guest_cstr (e_world s') pid buf guest /\ agree_outside (mem (e_world s) pid) (mem (e_world s') pid) buf (strlen guest + 1) /\
      Arch.get abi_arch RET (e_regs s') = strlen guest + 1 /\ kernel_regs (e_world s') pid = Some (e_regs s')) s /\
  (nbindings (e_ctx s) = 0 ->
    strlen guest <= Z.max 1 (strlen cwd) /\
    (map_to_host (e_ctx s) root guest PATH_LEN = cwd \/
     cwd = root /\ map_to_host (e_ctx s) root guest PATH_LEN = snprintf PATH_LEN (root ++ [SLASH]))).
Proof.
  intros buf pid root Hr Hacc Hn Hz Hcr Hret Hkeep Hlost Htext Hg Hrw; pose proof Htext as (Haddr & Hnul & Hlen & _).
  split; [|intros Hb; by apply host_to_guest_back].
  assert (strlen guest < PATH_LEN) as Hgl by (by eapply host_to_guest_fits; [|exact Hg]).
  unfold emuroot_on_exit, record_created; wp_run.
  cbn [e_t created update eta_engine eta_tracee]; rewrite Hcr; change (bool_decide ([] = [])) with true; cbv iota; wp_run.
  cbn [e_t e_ctx t_sysno update eta_engine eta_tracee]; rewrite Hz, (action_of_entry _ z Hn), getcwd_action.
  pose proof (result_in_arg1 s Hr) as Hsame; fold (the_ret s).
  destruct s as [ctx t regs ld w]; fields; destruct (ret_is_arg1 abi_arch).
  - specialize (Hsame eq_refl Hret); specialize (Hlost eq_refl).
    unfold fake_getcwd; rewrite (proj2 (Z.leb_gt _ _)) by exact Hret; apply wp_bind, wp_arg; fields; rewrite Hsame.
    assert (is_addr abi_arch (the_ret (Engine ctx t regs ld w))) as Ha by (rewrite <- Hsame; apply (get_range _ (ARG 1) _ Hr)).
    destruct (read_str_world w pid _ PATH_LEN Ha) as (_ & Hm & Hk); apply wp_bind, wp_mem_read_str; cbv zeta; fields.
    rewrite (read_str_unmapped w (t_pid t) _ Ha Hlost); cbn [mbind option_bind]; wp_run; fields; by split.
  - eapply wp_mono; [|apply (wp_getcwd_patched (Engine ctx (t <| logged := false |>) regs ld w) buf cwd guest); fields; try done; by apply Hkeep].
    intros ? s1 H3; exact H3.
Qed.
End theorems.

(** getcwd has left "/r/home" in the guest's buffer; its root is "/r". *)
Definition toy_cwd : toy := Toy (toy_page (lit "/r/home")) (Z.eqb 1) (zero_regs X86_64) true [] [] [] 1000.
Definition toy_cwd_engine : engine (tracer toy) :=
  let s := toy_engine toy_cwd (lit "/r") 79 [4096; 100] in
  s <| e_regs := put X86_64 RET 8 (e_regs s) |> <| e_t := e_t s <| t_sysno := 79 |> <| t_args := [4096; 100] |> |>.

Lemma getcwd_reported_witness :
  wp (emuroot_on_exit (abi := x86_64_abi) calloc_64 x86_64_stat) (fun _ s' =>
    guest_cstr (H1 := toy_guest_laws) (e_world s') 7 4096 (lit "/home") /\
    agree_outside (mem (GuestLaws := toy_guest_laws) (e_world toy_cwd_engine) 7) (mem (GuestLaws := toy_guest_laws) (e_world s') 7) 4096 6 /\
    Arch.get X86_64 RET (e_regs s') = 6 /\ kernel_regs (GuestLaws := toy_guest_laws) (e_world s') 7 = Some (e_regs s')) toy_cwd_engine.
Proof.
  apply (getcwd_reported (abi := x86_64_abi) (live := toy_guest_live) calloc_64 x86_64_stat toy_cwd_engine 79 (lit "/r/home") (lit "/home")).
  - apply put_wf, toy_regs_of_wf.
  - apply toy_store_accepted.
  - reflexivity.
  - reflexivity.
  - reflexivity.
  - vm_compute; reflexivity.
  - intros _; vm_compute; reflexivity.
  - discriminate.
  - refine (names_path_text (abi := x86_64_abi) (laws := toy_guest_laws) toy_cwd_engine (e_world toy_cwd_engine) (e_regs toy_cwd_engine) 1 (lit "/r/home") _ _); [apply put_wf, toy_regs_of_wf|].
    apply (toy_names_path toy_cwd (e_regs toy_cwd_engine) 1 (lit "/r/home"));
      [reflexivity|vm_compute; discriminate|vm_compute; discriminate|reflexivity|reflexivity|reflexivity|vm_compute; reflexivity].
  - vm_compute; reflexivity.
  - intros x Hx; change (strlen (lit "/home")) with 5 in Hx; apply (toy_page_accessible toy_cwd 4096 6); try done; exact Hx.
Defined.
