(* ===== verification/Ptrace.v ===== *)
(** The tracing backend ([src/ptrace.c]): the table of tracees, the handling of
    one stop, and the event loop.  The kernel's [waitpid] is the sequence of
    results it returns; what the tracer does to its tracees besides changing
    registers and memory is recorded as a sequence of actions. *)

From Stdlib Require Import ZArith Lia Ascii String.
From stdpp Require Import base list numbers.
From S2P Require Import Prelude Arch Syscalls World Guest Creds Owners OwnersFile Config Tracee PathArg Exec Rewrite.
From S2P Require Import Fake.
Local Open Scope Z_scope.
Local Open Scope emu_scope.

(** ** Wait statuses (<sys/wait.h>, <sys/ptrace.h>, <signal.h>) *)

Definition WTERMSIG (status : Z) : Z := Z.land status 0x7f.
Definition WIFEXITED (status : Z) : bool := WTERMSIG status =? 0.
Definition WEXITSTATUS (status : Z) : Z := Z.land (Z.shiftr status 8) 0xff.
Definition WIFSTOPPED (status : Z) : bool := Z.land status 0xff =? 0x7f.
Definition WSTOPSIG (status : Z) : Z := WEXITSTATUS status.
Definition WIFSIGNALED (status : Z) : bool := negb (WTERMSIG status =? 0) && negb (WTERMSIG status =? 0x7f).

Definition SIGTRAP : Z := 5.
Definition SIGKILL : Z := 9.
Definition SIGSTOP : Z := 19.
Definition SYSCALL_STOP : Z := Z.lor SIGTRAP 0x80.

Definition PTRACE_EVENT_FORK : Z := 1.
Definition PTRACE_EVENT_VFORK : Z := 2.
Definition PTRACE_EVENT_CLONE : Z := 3.
Definition PTRACE_EVENT_SECCOMP : Z := 7.

(** PTRACE_GETEVENTMSG: the new process, 0 if the request fails. *)
Class EventMsg (W : Type) := event_msg : W -> Z -> Z.

(** ** The table *)

(** The tracees in the order of [v]; [cap] is the size of the array. *)
Record tracee_table_t := Table { v : list tracee_t; tcap : Z }.
Definition no_tracees : tracee_table_t := Table [] 0.      (* { 0 } *)

Section ptrace.
Context {abi : ABI} `{HostFS W, GuestMem W, EventMsg W}.
Variable calloc : Z -> Z -> bool.
(** Does [realloc] to this many bytes succeed? *)
Variable realloc : Z -> bool.
Variable sizeof_tracee : Z.
Variable kstat : stat_layout.

(** The index of the tracee with this pid. *)
Definition tracee_find (tab : tracee_table_t) (pid : Z) : option nat :=
  fst <$> list_find (fun t => t_pid t = pid) (v tab).

Definition tracee_inherit (child parent : tracee_t) : tracee_t :=
  child <| t_creds := t_creds parent |> <| t_exe := t_exe parent |> <| t_root := t_root parent |>.

(** A new tracee: [calloc], then the fields that are set. *)
Definition new_tracee (ctx : emuroot_ctx) (pid : Z) (parent : option tracee_t) : tracee_t :=
  let t := Tracee pid (snprintf PATH_LEN (root ctx)) false false true false 0 0 [0; 0; 0; 0; 0; 0]
             (Creds (Ids3 0 0 0) (Ids3 0 0 0) 0 0 (replicate (Z.to_nat CREDS_MAX_GROUPS) 0) 0)
             0 [] [] false 0 0 0 0 0 0 [] [] false false false in
  match parent with
  | Some p => tracee_inherit t p
  | None => t <| t_creds := creds_init (fake_uid ctx) (fake_gid ctx) |>
  end.

(** [None]: no memory. *)
Definition tracee_add (tab : tracee_table_t) (ctx : emuroot_ctx) (pid : Z) (parent : option tracee_t)
    : tracee_table_t * option nat :=
  let n := strlen (v tab) in
  let grown :=
    if n =? tcap tab then
      let cap := if tcap tab =? 0 then 64 else tcap tab * 2 in
      if realloc (cap * word_size abi_arch) then Some (Table (v tab) cap) else None
    else Some tab in
  match grown with
  | None => (tab, None)
  | Some tab =>
      if calloc 1 sizeof_tracee
      then (Table (v tab ++ [new_tracee ctx pid parent]) (tcap tab), Some (length (v tab)))
      else (tab, None)
  end.

(** The last element takes the place of the one removed. *)
Definition tracee_remove (tab : tracee_table_t) (i : nat) : tracee_table_t :=
  match v tab !! (length (v tab) - 1)%nat with
  | Some t => Table (take (length (v tab) - 1) (<[i := t]> (v tab))) (tcap tab)
  | None => tab
  end.

(** ** Stops *)

(** What the tracer works on. *)
Record tracer_t := TracerState {
  ts_ctx : emuroot_ctx;
  ts_tab : tracee_table_t;
  ts_loaders : list (cstr * bool);
  ts_world : W
}.

Definition set_tracee (i : nat) (t : tracee_t) (s : tracer_t) : tracer_t :=
  TracerState (ts_ctx s) (Table (<[i := t]> (v (ts_tab s))) (tcap (ts_tab s))) (ts_loaders s) (ts_world s).

(** [regs_get(pid, &regs) == 0 ? handler(t, &regs) : nothing]. *)
Definition with_regs (i : nat) (handler : M W ()) (s : tracer_t) : result tracer_t :=
  t ← defined_result (v (ts_tab s) !! i);
  let '(w, r) := regs_fetch (ts_world s) (t_pid t) in
  match r with
  | None => Done (TracerState (ts_ctx s) (ts_tab s) (ts_loaders s) w)
  | Some regs =>
      '(_, e) ← handler (Engine (ts_ctx s) t regs (ts_loaders s) w);
      Done (TracerState (e_ctx e) (Table (<[i := e_t e]> (v (ts_tab s))) (tcap (ts_tab s))) (e_loaders e) (e_world e))
  end.

Definition modify_tracee (i : nat) (f : tracee_t -> tracee_t) (s : tracer_t) : tracer_t :=
  match v (ts_tab s) !! i with Some t => set_tracee i (f t) s | None => s end.

(** The entry handler in full tracing, which also notes the number. *)
Definition noted_entry : M W () :=
  regs ← the_regs;
  _ ← modify_t (fun t => t <| last_entry := slong abi_arch (Arch.get abi_arch SYSNO regs) |>);
  emuroot_on_entry calloc.

(** A fork event: the child, if it has been seen, gets the parent's identity. *)
Definition on_fork (t : tracee_t) (s : tracer_t) : tracer_t :=
  let child := s32 (event_msg (ts_world s) (t_pid t)) in
  match tracee_find (ts_tab s) child with
  | Some j => modify_tracee j (fun c => tracee_inherit c t) s
  | None => TracerState (ts_ctx s) (tracee_add (ts_tab s) (ts_ctx s) child (Some t)).1 (ts_loaders s) (ts_world s)
  end.

(** One stop of tracee [i]: the new state and the signal to deliver. *)
Definition handle_stop (seccomp_mode : bool) (i : nat) (status : Z) (s : tracer_t) : result (tracer_t * Z) :=
  t ← defined_result (v (ts_tab s) !! i);
  let sig := WSTOPSIG status in
  let event := Z.shiftr status 16 in
  if sig =? SYSCALL_STOP then
    if negb seccomp_mode then
      s ← with_regs i (if in_syscall t then emuroot_on_exit calloc kstat else noted_entry) s;
      Done (modify_tracee i (fun t => t <| in_syscall := negb (in_syscall t) |>) s, 0)
    else if awaiting_exit t then
      s ← with_regs i (emuroot_on_exit calloc kstat) s;
      Done (modify_tracee i (fun t => t <| awaiting_exit := false |>) s, 0)
    else Done (s, 0)
  else if event =? PTRACE_EVENT_SECCOMP then
    s ← with_regs i (emuroot_on_entry calloc) s;
    Done (modify_tracee i (fun t => t <| awaiting_exit := true |>) s, 0)
  else if (event =? PTRACE_EVENT_FORK) || (event =? PTRACE_EVENT_VFORK) || (event =? PTRACE_EVENT_CLONE) then
    Done (on_fork t s, 0)
  else if (sig =? SIGSTOP) && fresh t then
    Done (modify_tracee i (fun t => t <| fresh := false |>) s, 0)
  else if negb (sig =? SIGTRAP) then Done (s, sig)
  else Done (s, 0).

(** ** The event loop *)

(** What the tracer does to the outside. *)
Inductive act :=
| RESUME (pid : Z) (to_next_syscall : bool) (signal : Z)   (* PTRACE_SYSCALL or PTRACE_CONT *)
| KILL (pid : Z).

(** One return of [waitpid(-1, &status, __WALL)]: [wpid] is negative when it
    fails, with [werrno]; [wstop] is the value of [stop_signal] by then. *)
Record wait_result := Wait { wpid : Z; wstatus : Z; werrno : Z; wstop : Z }.

Inductive outcome :=
| CONTINUE (s : tracer_t) (acts : list act)
| BREAK (s : tracer_t) (rc : Z).

Definition with_tab (s : tracer_t) (tab : tracee_table_t) : tracer_t :=
  TracerState (ts_ctx s) tab (ts_loaders s) (ts_world s).

(** [tracee_find], else a new tracee: a child seen before its parent's event. *)
Definition find_or_add (s : tracer_t) (pid : Z) : tracer_t * option nat :=
  match tracee_find (ts_tab s) pid with
  | Some i => (s, Some i)
  | None => let '(tab, r) := tracee_add (ts_tab s) (ts_ctx s) pid None in (with_tab s tab, r)
  end.

Definition iteration (seccomp_mode : bool) (root_pid : Z) (r : wait_result) (s : tracer_t) : result outcome :=
  if negb (wstop r =? 0) then Done (BREAK s (128 + wstop r))
  else if wpid r <? 0 then
    if werrno r =? EINTR then Done (CONTINUE s []) else Done (BREAK s EMUROOT_ERR_SYSTEM)
  else
    match find_or_add s (wpid r) with
    | (s, None) => Done (CONTINUE s [])
    | (s, Some i) =>
        let status := wstatus r in
        if WIFEXITED status || WIFSIGNALED status then
          if wpid r =? root_pid then
            Done (BREAK s (if WIFEXITED status then WEXITSTATUS status else 128 + WTERMSIG status))
          else Done (CONTINUE (with_tab s (tracee_remove (ts_tab s) i)) [])
        else if negb (WIFSTOPPED status) then Done (CONTINUE s [])
        else
          '(s, forward) ← handle_stop seccomp_mode i status s;
          t ← defined_result (v (ts_tab s) !! i);
          Done (CONTINUE s [RESUME (wpid r) (negb (seccomp_mode && negb (awaiting_exit t))) forward])
    end.

(** The loop over the results of [waitpid]; [inl]: still running when they end. *)
Fixpoint event_loop (seccomp_mode : bool) (root_pid : Z) (rs : list wait_result) (s : tracer_t) (acts : list act)
    : result (tracer_t * list act * option Z) :=
  match rs with
  | [] => Done (s, acts, None)
  | r :: rs =>
      o ← iteration seccomp_mode root_pid r s;
      match o with
      | CONTINUE s more => event_loop seccomp_mode root_pid rs s (acts ++ more)
      | BREAK s rc => Done (s, acts, Some rc)
      end
  end.

(** After the loop: every tracee left is killed; what goes to the ids file. *)
Definition end_of_run (s : tracer_t) : list act := (fun t => KILL (t_pid t)) <$> v (ts_tab s).
Definition saved_ids (s : tracer_t) : option cstr :=
  if bool_decide (ids_file (ts_ctx s) = []) then None else owners_save (owners (ts_ctx s)).

(** ** The whole run *)

(** [realpath(p, canon) ? canon : p] into a buffer of [PATH_LEN]. *)
Definition canonical_copy (w : W) (p : cstr) : cstr :=
  match fs_realpath w p with Some c => snprintf PATH_LEN c | None => p end.

(** The kernel reports canonical paths, so the root and the bindings' host
    paths become canonical; then each binding's place in the root is known. *)
Definition canonical_root (w : W) (r : cstr) : cstr :=
  let r := if bool_decide (r = []) then r else canonical_copy w r in
  if strcmp_eq r [SLASH] then [] else r.

Definition attach (w : W) (r : cstr) (b : binding_t) : binding_t :=
  let m := snprintf PATH_LEN (r ++ if strcmp_eq (guest b) [SLASH] then [] else guest b) in
  Binding (canonical_copy w (host b)) (guest b) (guest_len b) m (strlen m).

Definition prepare_ctx (w : W) (ctx : emuroot_ctx) : emuroot_ctx :=
  let r := canonical_root w (root ctx) in
  let n := nbindings ctx in
  with_bindings (with_root ctx r) ((attach w r <$> ztake n (bindings ctx)) ++ zdrop n (bindings ctx)) n.

(** The ids file's text, if it can be opened. *)
Variable ids_text : W -> cstr -> option cstr.

Definition load_ids (w : W) (ctx : emuroot_ctx) : option emuroot_ctx :=
  if bool_decide (ids_file ctx = []) then Some ctx
  else with_owners ctx <$> owners_load calloc (ids_text w (ids_file ctx)) (owners ctx).

(** How the start goes: [fork]'s result, whether the child answered 'Y' (its
    filter is installed), and which PTRACE_SETOPTIONS the kernel accepts. *)
Record launch := Launch {
  pipe_ok : bool;
  forked : Z;
  answered_Y : bool;
  exitkill_ok : bool;
  options_ok : bool
}.

(** The exit status ([None]: the results of [waitpid] end before the guest),
    what was done to tracees, the text saved in the ids file, the context, and the
    tracees left when the loop ended. *)
Record run_result := Run {
  run_rc : option Z;
  run_acts : list act;
  run_ids : option cstr;
  run_ctx : emuroot_ctx;
  run_tab : tracee_table_t
}.

Definition emuroot_run_ptrace (l : launch) (rs : list wait_result) (ctx : emuroot_ctx) (w : W) : result run_result :=
  ctx ← defined_result (load_ids w (prepare_ctx w ctx));
  if negb (pipe_ok l) || (forked l <? 0) then Done (Run (Some EMUROOT_ERR_SYSTEM) [] None ctx no_tracees)
  else
    let pid := forked l in
    if negb (exitkill_ok l) && negb (options_ok l) then Done (Run (Some EMUROOT_ERR_UNSUPPORTED) [KILL pid] None ctx no_tracees)
    else
      match tracee_add no_tracees ctx pid None with
      | (tab, None) => Done (Run (Some EMUROOT_ERR_SYSTEM) [] None ctx tab)
      | (tab, Some i) =>
          let s := modify_tracee i (fun t => t <| fresh := false |>) (TracerState ctx tab [] w) in
          '(s, acts, rc) ← event_loop (answered_Y l) pid rs s [RESUME pid (negb (answered_Y l)) 0];
          Done (match rc with
                | Some rc => Run (Some rc) (acts ++ end_of_run s) (saved_ids s) (ts_ctx s) (ts_tab s)
                | None => Run None acts None (ts_ctx s) (ts_tab s)
                end)
      end.
End ptrace.
