(* ===== verification/PtraceFacts.v ===== *)
(** The tracing backend keeps its table sound, whatever the order in which the
    kernel reports stops, forks and exits; what a whole run does and ends with. *)

From Stdlib Require Import ZArith Lia Ascii String.
From stdpp Require Import base list numbers.
From S2P Require Import Prelude Stdio Arch Syscalls World Guest ToyKernel GuestFacts Creds Owners OwnersFile Config.
From S2P Require Import Path PathFacts Tracee PathArg Exec Rewrite Fake Safety Ptrace.
Local Open Scope Z_scope.
Local Open Scope emu_scope.

(** ** The table *)

Section table.
Context {abi : ABI}.
Variable calloc : Z -> Z -> bool.
Variable realloc : Z -> bool.
Variable sizeof_tracee : Z.

Definition pids (tab : tracee_table_t) : list Z := t_pid <$> v tab.

(** Every tracee is well formed and none is listed twice. *)
Definition table_wf (tab : tracee_table_t) : Prop := Forall (tracee_wf abi_arch) (v tab) /\ NoDup (pids tab).

Lemma tracee_find_Some tab pid i :
  tracee_find tab pid = Some i -> exists t, v tab !! i = Some t /\ t_pid t = pid.
Proof.
  unfold tracee_find; intros ([j t] & Hf & ->)%fmap_Some; apply list_find_Some in Hf as (Ht & Hp & _); eauto.
Qed.

Lemma tracee_find_None tab pid : tracee_find tab pid = None -> pid ∉ pids tab.
Proof.
  unfold tracee_find, pids; intros Hf%fmap_None; apply list_find_None in Hf.
  intros (t & -> & Ht)%list_elem_of_fmap; rewrite List.Forall_forall in Hf; eapply Hf; [by apply list_elem_of_In|done].
Qed.

Lemma tracee_find_unique tab pid i t :
  NoDup (pids tab) -> v tab !! i = Some t -> t_pid t = pid -> tracee_find tab pid = Some i.
Proof.
  intros Hnd Ht Hp; destruct (tracee_find tab pid) as [j|] eqn:Hf.
  - apply tracee_find_Some in Hf as (t' & Ht' & Hp'); f_equal.
    apply (NoDup_lookup (pids tab) _ _ pid); [done|unfold pids; rewrite list_lookup_fmap, Ht'; simpl; by rewrite Hp'|].
    unfold pids; rewrite list_lookup_fmap, Ht; simpl; by rewrite Hp.
  - exfalso; apply tracee_find_None in Hf; apply Hf; rewrite <- Hp; by eapply list_elem_of_fmap_2, list_elem_of_lookup_2.
Qed.

Lemma new_tracee_wf ctx pid parent :
  ctx_wf ctx -> (forall p, parent = Some p -> tracee_wf abi_arch p) -> tracee_wf abi_arch (new_tracee ctx pid parent).
Proof.
  intros (Hr & _ & _ & _ & _ & _ & _ & _ & _ & Hu & Hg) Hp; unfold new_tracee, tracee_wf.
  assert (0 <= 0 < 2 ^ word_bits abi_arch) by (split; [done|apply Z.pow_pos_nonneg; pose proof (word_bits_ge abi_arch); lia]).
  destruct parent as [p|].
  - destruct (Hp p eq_refl) as (H1&H2&_&_&_&_&H3); simpl; split_and?; done.
  - simpl; split_and?; try done; [by apply strlen_snprintf|by apply creds_init_wf].
Qed.

(** A successful add appends the tracee; a failed one changes no tracee. *)
Lemma tracee_add_spec tab ctx pid parent :
  let '(tab', r) := tracee_add calloc realloc sizeof_tracee tab ctx pid parent in
  match r with
  | Some i => i = length (v tab) /\ v tab' = v tab ++ [new_tracee ctx pid parent]
  | None => v tab' = v tab
  end.
Proof. unfold tracee_add; case_ifs; done. Qed.

Lemma table_add_wf tab ctx pid parent :
  ctx_wf ctx -> table_wf tab -> pid ∉ pids tab -> (forall p, parent = Some p -> tracee_wf abi_arch p) ->
  table_wf (tracee_add calloc realloc sizeof_tracee tab ctx pid parent).1.
Proof.
  intros Hc [Hf Hn] Hp Hpar; pose proof (tracee_add_spec tab ctx pid parent) as Ha.
  destruct (tracee_add _ _ _ _ _ _ _) as [tab' [i|]]; cbn [fst]; [destruct Ha as [_ Ha]|]; split; unfold pids in *; rewrite Ha; try done.
  - apply Forall_app_2; [done|]; constructor; [by apply new_tracee_wf|constructor].
  - rewrite fmap_app; apply list.NoDup_app; split_and?; [done| |apply list.NoDup_singleton].
    intros x Hx Hx'; apply list_elem_of_singleton in Hx'; subst x.
    assert (t_pid (new_tracee ctx pid parent) = pid) as E by (by destruct parent).
    by rewrite E in Hx.
Qed.

(** Removal takes out that tracee and keeps the others. *)
Lemma tracee_remove_perm tab i t :
  v tab !! i = Some t -> v tab ≡ₚ t :: v (tracee_remove tab i).
Proof.
  intros Ht; unfold tracee_remove; destruct tab as [l cap]; cbn [v] in *.
  destruct l as [|x l _] using rev_ind; [done|].
  rewrite length_app; simpl; rewrite lookup_app_r, Nat.add_sub, Nat.sub_diag by lia; simpl.
  destruct (decide (i < length l)%nat) as [Hi|Hi].
  - rewrite insert_app_l, take_app_length' by (done || rewrite length_insert; lia).
    rewrite lookup_app_l in Ht by done; apply list_elem_of_split_length in Ht as (l1 & l2 & -> & ->).
    rewrite insert_app_r_alt, Nat.sub_diag by lia; simpl.
    rewrite <- Permutation_cons_append; rewrite <- !Permutation_middle; apply perm_swap.
  - assert (i = length l) as -> by (apply lookup_lt_Some in Ht; rewrite length_app in Ht; simpl in Ht; lia).
    rewrite lookup_app_r, Nat.sub_diag in Ht by lia; injection Ht as ->.
    rewrite insert_app_r_alt, Nat.sub_diag, take_app_length' by lia; by rewrite <- Permutation_cons_append.
Qed.

Lemma table_remove_wf tab i t : table_wf tab -> v tab !! i = Some t -> table_wf (tracee_remove tab i).
Proof.
  intros [Hf Hn] Ht; pose proof (tracee_remove_perm tab i t Ht) as Hp; split.
  - rewrite Hp in Hf; by apply list.Forall_cons in Hf as [_ ?].
  - unfold pids in *; rewrite Hp in Hn; by apply list.NoDup_cons in Hn as [_ ?].
Qed.
End table.

(** ** Stops *)

Section stops.
Context {abi : ABI} `{laws : GuestLaws abi_arch W, EventMsg W}.
Variable calloc : Z -> Z -> bool.
Variable realloc : Z -> bool.
Variable sizeof_tracee : Z.
Variable kstat : stat_layout.
Hypothesis links_nonempty : forall w p, fs_readlink w p <> Some [].
Hypothesis calloc_sane : forall n sz, calloc n sz = true -> n * sz < 2 ^ 64.
Hypothesis fetch_wf : forall w pid r, (regs_fetch w pid).2 = Some r -> regs_wf abi_arch r.

Definition tracer_wf (s : tracer_t (W := W)) : Prop := ctx_wf (ts_ctx s) /\ table_wf (ts_tab s).

Lemma table_set_wf tab i t t' :
  table_wf tab -> v tab !! i = Some t -> tracee_wf abi_arch t' -> t_pid t' = t_pid t ->
  table_wf (Table (<[i := t']> (v tab)) (tcap tab)) /\ pids (Table (<[i := t']> (v tab)) (tcap tab)) = pids tab.
Proof.
  intros [Hf Hn] Ht Hw Hp; assert (E : pids (Table (<[i := t']> (v tab)) (tcap tab)) = pids tab).
  { unfold pids; cbn [v]; rewrite list_fmap_insert, list_insert_id; [done|].
    rewrite list_lookup_fmap, Ht; simpl; by rewrite Hp. }
  split; [|done]; split; [by apply Forall_insert|by rewrite E].
Qed.

Lemma modify_tracee_wf i f (s : tracer_t) :
  tracer_wf s -> (forall t, tracee_wf abi_arch t -> tracee_wf abi_arch (f t) /\ t_pid (f t) = t_pid t) ->
  tracer_wf (modify_tracee i f s) /\ pids (ts_tab (modify_tracee i f s)) = pids (ts_tab s).
Proof.
  intros [Hc Ht] Hf; unfold modify_tracee, tracer_wf; destruct (v (ts_tab s) !! i) as [t|] eqn:E; [|done].
  destruct (Hf t) as [Hw Hp]; [by apply (Forall_lookup_1 _ _ _ _ (proj1 Ht) E)|].
  destruct (table_set_wf (ts_tab s) i t (f t) Ht E Hw Hp); done.
Qed.

(** A tracee's program name fills its buffer, without a NUL. *)
Definition unterminated (tab : tracee_table_t) : Prop := exists t, t ∈ v tab /\ strlen (t_exe t) = PATH_LEN.

(** What a handler does from a well-formed state. *)
Definition handler_ends (h : M W ()) : Prop := forall s, engine_wf abi_arch s ->
  match h s with
  | Done (_, s') => engine_wf abi_arch s' /\ t_pid (e_t s') = t_pid (e_t s)
  | Aborted => strdup_fails W
  | Undefined => strlen (t_exe (e_t s)) = PATH_LEN
  end.

Lemma entry_ends : handler_ends (emuroot_on_entry calloc) /\ handler_ends (noted_entry calloc).
Proof.
  set (e := {| may_abort := strdup_fails W; may_overrun := False |} : Endings).
  assert (Habort : forall (w : W) str, strdup w str = false -> may_abort (Endings := e)) by (intros w str ?; by exists w, str).
  assert (Hends : forall h : M W (), (forall proc : Proc, safe (endings := e) h any) -> handler_ends h).
  { intros h Hh s Hs; specialize (Hh (proc_of (e_t s)) s (engine_wf_at _ _ Hs)); destruct (h s) as [[x s']| |]; [|done|done].
    by destruct Hh as [_ ?%engine_at_wf]. }
  split; apply Hends; intros proc; [by apply safe_on_entry|].
  pose proof (safe_on_entry (proc := proc) (endings := e) links_nonempty calloc Habort); unfold noted_entry; safe_auto; tracee_fields.
Qed.

Lemma exit_ends : handler_ends (emuroot_on_exit calloc kstat).
Proof.
  intros s Hs; pose proof (engine_wf_at _ _ Hs) as Hat.
  set (e := {| may_abort := strdup_fails W; may_overrun := strlen (t_exe (e_t s)) = PATH_LEN |} : Endings).
  assert (PATH_LEN <= strlen (t_exe (e_t s)) -> strlen (t_exe (e_t s)) = PATH_LEN) as Hover by (destruct Hs as (_ & (_ & ? & _) & _); lia).
  exact (on_exit_ends (proc := proc_of (e_t s)) (endings := e) calloc kstat Hover calloc_sane s Hat).
Qed.

Lemma with_regs_wf i (h : M W ()) (s : tracer_t) :
  handler_ends h -> (i < length (v (ts_tab s)))%nat -> tracer_wf s ->
  match with_regs i h s with
  | Done s' => tracer_wf s' /\ pids (ts_tab s') = pids (ts_tab s)
  | Aborted => strdup_fails W
  | Undefined => unterminated (ts_tab s)
  end.
Proof.
  intros Hh Hi [Hc Ht]; unfold with_regs; destruct (lookup_lt_is_Some_2 _ _ Hi) as [t Et]; rewrite Et; cbn [defined_result mbind result_bind].
  pose proof (fetch_wf (ts_world s) (t_pid t)) as Hfw; destruct (regs_fetch _ _) as [w [regs|]]; [|done].
  specialize (Hh (Engine (ts_ctx s) t regs (ts_loaders s) w)); cbn [e_t] in Hh.
  destruct (h _) as [[x e]| |]; cbn [mbind result_bind].
  - destruct Hh as [(Hce & Hte & _) Hp].
    { split; [done|split; [by apply (Forall_lookup_1 _ _ _ _ (proj1 Ht) Et)|by apply Hfw]]. }
    destruct (table_set_wf (ts_tab s) i t (e_t e) Ht Et Hte Hp); by split.
  - apply Hh; split; [done|split; [by apply (Forall_lookup_1 _ _ _ _ (proj1 Ht) Et)|by apply Hfw]].
  - exists t; split; [by eapply list_elem_of_lookup_2|]; apply Hh.
    split; [done|split; [by apply (Forall_lookup_1 _ _ _ _ (proj1 Ht) Et)|by apply Hfw]].
Qed.

Lemma on_fork_wf t (s : tracer_t) :
  tracer_wf s -> tracee_wf abi_arch t ->
  tracer_wf (on_fork calloc realloc sizeof_tracee t s) /\
  pids (ts_tab s) `prefix_of` pids (ts_tab (on_fork calloc realloc sizeof_tracee t s)).
Proof.
  intros Hs Ht; unfold on_fork; set (child := s32 _).
  destruct (tracee_find (ts_tab s) child) as [j|] eqn:Hf.
  - destruct (modify_tracee_wf j (fun c => tracee_inherit c t) s Hs) as [Hw ->]; [|done].
    intros c (Hc1&Hc2&Hc3&Hc4&Hc5&Hc6&Hc7); destruct Ht as (Ht1&Ht2&Ht3&Ht4&Ht5&Ht6&Ht7).
    split; [|done]; unfold tracee_wf, tracee_inherit; simpl; split_and?; done.
  - apply tracee_find_None in Hf; destruct Hs as [Hc Htab]; split.
    + split; [done|]; cbn [ts_tab]; apply table_add_wf; [done|done|done|]; by intros p [= <-].
    + cbn [ts_tab]; pose proof (tracee_add_spec calloc realloc sizeof_tracee (ts_tab s) (ts_ctx s) child (Some t)) as Ha.
      destruct (tracee_add _ _ _ _ _ _ _) as [tab' [i|]]; cbn [fst]; unfold pids; [destruct Ha as [_ ->]|by rewrite Ha].
      rewrite fmap_app; by apply prefix_app_r.
Qed.

Lemma handle_stop_wf mode i status (s : tracer_t) :
  (i < length (v (ts_tab s)))%nat -> tracer_wf s ->
  match handle_stop calloc realloc sizeof_tracee kstat mode i status s with
  | Done (s', _) => tracer_wf s' /\ pids (ts_tab s) `prefix_of` pids (ts_tab s')
  | Aborted => strdup_fails W
  | Undefined => unterminated (ts_tab s)
  end.
Proof.
  intros Hi Hs; unfold handle_stop; destruct (lookup_lt_is_Some_2 _ _ Hi) as [t Et]; rewrite Et; cbn [defined_result mbind result_bind].
  set (good := fun r : result (tracer_t * Z) => match r with
    | Done (s', _) => tracer_wf s' /\ pids (ts_tab s) `prefix_of` pids (ts_tab s')
    | Aborted => strdup_fails W | Undefined => unterminated (ts_tab s) end).
  assert (Hflag : forall f s1, tracer_wf s1 -> pids (ts_tab s1) = pids (ts_tab s) ->
    (forall t, tracee_wf abi_arch t -> tracee_wf abi_arch (f t) /\ t_pid (f t) = t_pid t) -> good (Done (modify_tracee i f s1, 0))).
  { intros f s1 Hs1 Hp Hf; destruct (modify_tracee_wf i f s1 Hs1 Hf) as [Hw Hp']; split; [done|by rewrite Hp', Hp]. }
  assert (Hrun : forall h f, handler_ends h ->
    (forall t, tracee_wf abi_arch t -> tracee_wf abi_arch (f t) /\ t_pid (f t) = t_pid t) ->
    good (s' ← with_regs i h s; Done (modify_tracee i f s', 0))).
  { intros h f Hh Hf; pose proof (with_regs_wf i h s Hh Hi Hs) as Hw; destruct (with_regs i h s) as [s1| |]; [|done|done].
    destruct Hw as [Hs1 Hp1]; cbn [mbind result_bind]; by apply Hflag. }
  destruct entry_ends as [Hentry Hnoted]; pose proof exit_ends as Hexit.
  assert (Hkeep : forall sig, good (Done (s, sig))) by done.
  match goal with |- match ?r with _ => _ end => change (good r) end.
  case_ifs; try (by apply Hrun); try (by apply Hflag); try (by apply Hkeep).
  apply on_fork_wf; [done|by apply (Forall_lookup_1 _ _ _ _ (proj1 (proj2 Hs)) Et)].
Qed.

(** ** The loop *)

Lemma prefix_elem {A} (l l' : list A) : l `prefix_of` l' -> forall x, x ∈ l -> x ∈ l'.
Proof. intros [k ->] x Hx; apply elem_of_app; by constructor 1. Qed.

Notation iteration := (iteration calloc realloc sizeof_tracee kstat).
Notation event_loop := (event_loop calloc realloc sizeof_tracee kstat).
Notation find_or_add := (find_or_add calloc realloc sizeof_tracee).

(** There is memory for every tracee. *)
Definition memory : Prop := (forall n, realloc n = true) /\ calloc 1 sizeof_tracee = true.

Lemma find_or_add_wf pid (s : tracer_t) :
  tracer_wf s -> let '(s', r) := find_or_add s pid in tracer_wf s' /\ pids (ts_tab s) `prefix_of` pids (ts_tab s') /\
    (unterminated (ts_tab s') -> unterminated (ts_tab s)) /\ (memory \/ pid ∈ pids (ts_tab s) -> is_Some r) /\
    forall i, r = Some i -> exists t, v (ts_tab s') !! i = Some t /\ t_pid t = pid.
Proof.
  intros [Hc Ht]; unfold find_or_add; destruct (tracee_find (ts_tab s) pid) as [i|] eqn:Hf.
  - split; [done|split; [done|split; [done|split; [done|]]]]; intros ? [= <-]; by apply tracee_find_Some.
  - pose proof (table_add_wf calloc realloc sizeof_tracee (ts_tab s) (ts_ctx s) pid None Hc Ht (tracee_find_None _ _ Hf)) as Hw.
    pose proof (tracee_add_spec calloc realloc sizeof_tracee (ts_tab s) (ts_ctx s) pid None) as Ha.
    assert (memory \/ pid ∈ pids (ts_tab s) -> is_Some (tracee_add calloc realloc sizeof_tracee (ts_tab s) (ts_ctx s) pid None).2) as Hmem.
    { intros [[Hre Hca]|Hin]; [|by apply tracee_find_None in Hf]; unfold tracee_add; rewrite Hca; case_ifs; try done; by rewrite Hre in *. }
    destruct (tracee_add _ _ _ _ _ _ _) as [tab' [i|]]; cbn [fst snd] in *; specialize (Hw ltac:(done)).
    + destruct Ha as [-> Ha]; split; [done|split; [unfold pids; simpl; rewrite Ha, fmap_app; by apply prefix_app_r|split; [|split; [done|]]]].
      * unfold unterminated; cbn [ts_tab with_tab]; rewrite Ha; intros (t & [Hin| ->%list_elem_of_singleton]%elem_of_app & Hl); [by exists t|done].
      * intros ? [= <-]; exists (new_tracee (ts_ctx s) pid None); cbn [ts_tab with_tab].
        by rewrite Ha, lookup_app_r, Nat.sub_diag by lia.
    + split; [done|split; [unfold pids; simpl; by rewrite Ha|split; [|split; [exact Hmem|done]]]].
      unfold unterminated; cbn [ts_tab with_tab]; by rewrite Ha.
Qed.

(** The process a result is about has ended. *)
Definition ended (r : wait_result) : bool := WIFEXITED (wstatus r) || WIFSIGNALED (wstatus r).
(** The result is the last one: the tracer was told to stop, [waitpid] failed,
    or the guest's first process has ended. *)
Definition ends_loop (root_pid : Z) (r : wait_result) : bool :=
  negb (wstop r =? 0) || ((wpid r <? 0) && negb (werrno r =? EINTR)) || ((wpid r =? root_pid) && ended r).
(** The status it gives. *)
Definition rc_of (r : wait_result) : Z :=
  if negb (wstop r =? 0) then 128 + wstop r
  else if wpid r <? 0 then EMUROOT_ERR_SYSTEM
  else if WIFEXITED (wstatus r) then WEXITSTATUS (wstatus r) else 128 + WTERMSIG (wstatus r).

(** A process has stopped, and waits to be let run. *)
Definition reports_stop (r : wait_result) : bool := (0 <=? wpid r) && negb (ended r) && WIFSTOPPED (wstatus r).
(** The processes reported as stopped before the last result, in order. *)
Fixpoint stops_of (root_pid : Z) (rs : list wait_result) : list Z :=
  match rs with
  | [] => []
  | r :: rs => if ends_loop root_pid r then [] else (if reports_stop r then [wpid r] else []) ++ stops_of root_pid rs
  end.

(** The processes that were let run, and those that were killed, in order. *)
Definition resumed (acts : list act) : list Z := omap (fun a => match a with RESUME pid _ _ => Some pid | KILL _ => None end) acts.
Definition killed (acts : list act) : list Z := omap (fun a => match a with KILL pid => Some pid | RESUME _ _ _ => None end) acts.

Lemma resumed_app a b : resumed (a ++ b) = resumed a ++ resumed b.
Proof. apply omap_app. Qed.
Lemma killed_app a b : killed (a ++ b) = killed a ++ killed b.
Proof. apply omap_app. Qed.

(** The processes let run are those [expected], or some of them if memory for
    tracees is missing. *)
Definition runs_only (expected ran : list Z) : Prop := sublist ran expected /\ (memory -> ran = expected).

Lemma runs_only_refl l : runs_only l l.
Proof. by split. Qed.

Lemma runs_only_app l1 l2 k1 k2 : runs_only l1 k1 -> runs_only l2 k2 -> runs_only (l1 ++ l2) (k1 ++ k2).
Proof.
  intros [Hs1 E1] [Hs2 E2]; split; [by apply sublist_app|intros Hm; by rewrite E1, E2].
Qed.

(** One turn: what becomes of the table, and how the loop ends. *)
Lemma iteration_wf mode root_pid r (s : tracer_t) :
  tracer_wf s -> 0 <= root_pid -> root_pid ∈ pids (ts_tab s) ->
  match iteration mode root_pid r s with
  | Done (CONTINUE s' acts) =>
      tracer_wf s' /\ ends_loop root_pid r = false /\ killed acts = [] /\
      runs_only (if reports_stop r then [wpid r] else []) (resumed acts) /\ (forall pid, pid ∈ resumed acts -> pid ∈ pids (ts_tab s')) /\
      forall pid, pid ∈ pids (ts_tab s) -> pid ∈ pids (ts_tab s') \/ (pid = wpid r /\ ended r = true /\ pid <> root_pid)
  | Done (BREAK s' rc) =>
      tracer_wf s' /\ ends_loop root_pid r = true /\ rc = rc_of r /\ (forall pid, pid ∈ pids (ts_tab s) -> pid ∈ pids (ts_tab s'))
  | Aborted => strdup_fails W
  | Undefined => unterminated (ts_tab s)
  end.
Proof.
  intros Hs Hroot0 Hrootin; unfold Ptrace.iteration, rc_of, ends_loop, reports_stop.
  destruct (Z.eqb_spec (wstop r) 0) as [Hst|Hst]; cbn [negb orb]; [|done].
  destruct (Z.ltb_spec (wpid r) 0) as [Hw|Hw].
  { rewrite (proj2 (Z.eqb_neq (wpid r) root_pid)), (proj2 (Z.leb_gt _ _)) by lia; cbn [andb].
    destruct (Z.eqb_spec (werrno r) EINTR); cbn [negb orb]; split_and?; try done; [by intros ? ?%not_elem_of_nil|by intros; constructor 1]. }
  rewrite (proj2 (Z.leb_le _ _)) by done; cbn [andb orb].
  pose proof (find_or_add_wf (wpid r) s Hs) as Hf; destruct (find_or_add s (wpid r)) as [s1 [i|]];
    destruct Hf as (Hs1 & Hp & Hund & Hmem & Hi); pose proof (prefix_elem _ _ Hp) as Hin.
  2: { destruct (Z.eqb_spec (wpid r) root_pid) as [E|Hne]; [rewrite E in Hmem; by destruct (Hmem (or_intror Hrootin))|].
    cbn [andb]; split_and?; try done; [|by intros ? ?%not_elem_of_nil|intros pid Hpid; constructor 1; by apply Hin].
    split; [apply sublist_nil_l|intros Hm; by destruct (Hmem (or_introl Hm))]. }
  destruct (Hi i eq_refl) as (t & Ht & Hpid); clear Hi Hmem.
  destruct (ended r) eqn:He; [rewrite andb_true_r|rewrite andb_false_r]; unfold ended in He; rewrite He; cbn [negb andb].
  { destruct (Z.eqb_spec (wpid r) root_pid) as [Hroot|Hroot]; [done|].
    destruct Hs1 as [Hc1 Ht1]; pose proof (table_remove_wf _ _ _ Ht1 Ht) as Hrem.
    pose proof (tracee_remove_perm _ _ _ Ht) as Hperm; split_and?; try done; [by intros ? ?%not_elem_of_nil|].
    intros pid Hx%Hin; unfold pids in Hx; rewrite Hperm in Hx.
    apply list.elem_of_cons in Hx as [->|?]; [constructor 2; by rewrite Hpid|by constructor 1]. }
  destruct (WIFSTOPPED (wstatus r)); cbn [negb].
  2: { split_and?; try done; [by intros ? ?%not_elem_of_nil|]; intros pid Hx; constructor 1; by apply Hin. }
  pose proof (handle_stop_wf mode i (wstatus r) s1 ltac:(by eapply lookup_lt_Some) Hs1) as Hstop.
  destruct (handle_stop _ _ _ _ _ _ _ _) as [[s2 sig]| |]; [|exact Hstop|by apply Hund].
  destruct Hstop as [Hs2 Hp2]; cbn [mbind result_bind]; pose proof (prefix_elem _ _ Hp2) as Hin2.
  assert (Hi2 : pids (ts_tab s2) !! i = Some (wpid r)).
  { eapply prefix_lookup_Some; [|exact Hp2]; unfold pids; rewrite list_lookup_fmap, Ht; simpl; by rewrite Hpid. }
  pose proof (list_elem_of_lookup_2 _ _ _ Hi2) as Hthere; unfold pids in Hi2; rewrite list_lookup_fmap in Hi2.
  destruct (v (ts_tab s2) !! i) as [t2|]; [|done]; cbn [defined_result mbind result_bind].
  split_and?; try done; [by intros pid ->%list_elem_of_singleton|]; intros pid Hx; constructor 1; by apply Hin2, Hin.
Qed.

(** Processes that were in the table or let run are still in the table, or
    have been reported as ended. *)
Definition accounted (rs : list wait_result) (tab : tracee_table_t) (pid : Z) : Prop :=
  pid ∈ pids tab \/ exists r, r ∈ rs /\ wpid r = pid /\ ended r = true.

Lemma accounted_app rs rs' tab pid : accounted rs tab pid -> accounted (rs ++ rs') tab pid.
Proof. intros [?|(r & Hr & ?)]; [by constructor 1|constructor 2; exists r; split; [apply elem_of_app; by constructor 1|done]]. Qed.

(** Keeping account over one more result. *)
Lemma accounted_step before r tab tab' pid :
  (forall pid, pid ∈ pids tab -> pid ∈ pids tab' \/ (pid = wpid r /\ ended r = true)) ->
  accounted before tab pid -> accounted (before ++ [r]) tab' pid.
Proof.
  intros Hkeep [Hin|(r0 & Hr0 & ?)].
  - destruct (Hkeep pid Hin) as [?|[-> ?]]; [by constructor 1|constructor 2; exists r; split; [|done]].
    apply elem_of_app; constructor 2; by apply list_elem_of_singleton.
  - constructor 2; exists r0; split; [apply elem_of_app; by constructor 1|done].
Qed.

Lemma event_loop_wf mode root_pid rs : forall (s : tracer_t) acts before,
  tracer_wf s -> 0 <= root_pid -> root_pid ∈ pids (ts_tab s) -> (forall pid, pid ∈ resumed acts -> accounted before (ts_tab s) pid) ->
  match event_loop mode root_pid rs s acts with
  | Done (s', acts', rc) =>
      tracer_wf s' /\ rc = rc_of <$> List.find (ends_loop root_pid) rs /\
      (exists more, acts' = acts ++ more /\ killed more = [] /\ runs_only (stops_of root_pid rs) (resumed more)) /\
      (forall pid, pid ∈ resumed acts' -> accounted (before ++ rs) (ts_tab s') pid)
  | Aborted => strdup_fails W
  | Undefined => exists rs' s' acts', rs' `prefix_of` rs /\ event_loop mode root_pid rs' s acts = Done (s', acts', None) /\
      unterminated (ts_tab s')
  end.
Proof.
  induction rs as [|r rs IH]; intros s acts before Hs Hroot0 Hroot Hacts; cbn [Ptrace.event_loop List.find stops_of].
  { rewrite app_nil_r; split_and?; try done; exists []; rewrite app_nil_r; split_and?; try done; apply runs_only_refl. }
  pose proof (iteration_wf mode root_pid r s Hs Hroot0 Hroot) as Hit.
  destruct (iteration mode root_pid r s) as [[s1 more|s1 rc]| |] eqn:Er; cbn [mbind result_bind].
  - destruct Hit as (Hs1 & Hends & Hkill & Hruns & Hin & Hkeep); rewrite Hends.
    assert (forall pid, pid ∈ pids (ts_tab s) -> pid ∈ pids (ts_tab s1) \/ (pid = wpid r /\ ended r = true)) as Hkeep'.
    { intros pid Hp; destruct (Hkeep pid Hp) as [?|(? & ? & _)]; [by constructor 1|by constructor 2]. }
    specialize (IH s1 (acts ++ more) (before ++ [r]) Hs1 Hroot0 ltac:(by destruct (Hkeep _ Hroot) as [?|(_ & _ & ?)])).
    destruct (event_loop mode root_pid rs s1 (acts ++ more)) as [[[s' acts'] rc]| |].
    + destruct IH as (Hs' & Hrc & (more' & -> & Hk' & Hruns') & Hacc).
      { intros pid; rewrite resumed_app; intros [Hp|Hp]%elem_of_app; [by eapply accounted_step, Hacts|constructor 1; by apply Hin]. }
      change (r :: rs) with ([r] ++ rs); rewrite (app_assoc before [r] rs); split_and?; try done.
      exists (more ++ more'); rewrite app_assoc, killed_app, Hkill, Hk', resumed_app; split_and?; try done; by apply runs_only_app.
    + apply IH; intros pid; rewrite resumed_app; intros [Hp|Hp]%elem_of_app; [by eapply accounted_step, Hacts|constructor 1; by apply Hin].
    + destruct IH as (rs' & s' & acts' & Hpre & He & Hu).
      { intros pid; rewrite resumed_app; intros [Hp|Hp]%elem_of_app; [by eapply accounted_step, Hacts|constructor 1; by apply Hin]. }
      exists (r :: rs'), s', acts'; split; [by apply prefix_cons|split; [|done]]; cbn [Ptrace.event_loop]; by rewrite Er.
  - destruct Hit as (Hs1 & Hends & -> & Hkeep); rewrite Hends; split_and?; try done.
    + exists []; rewrite app_nil_r; split_and?; try done; apply runs_only_refl.
    + intros pid Hp; destruct (Hacts pid Hp) as [Hin|?]; [constructor 1; by apply Hkeep|].
      apply accounted_app; by constructor 2.
  - exact Hit.
  - exists [], s, acts; split; [apply prefix_nil|done].
Qed.

(** ** The run *)

Lemma canonical_copy_len (w : W) p : strlen p < PATH_LEN -> strlen (canonical_copy w p) < PATH_LEN.
Proof. intros Hp; unfold canonical_copy; destruct (fs_realpath w p); [by apply strlen_snprintf|done]. Qed.

Lemma prepare_ctx_wf (w : W) ctx : ctx_wf ctx -> ctx_wf (prepare_ctx w ctx).
Proof.
  intros (Hr & Hb & Hn & Hf & ?&?&?&?&?&?&?); unfold prepare_ctx, ctx_wf; simpl.
  assert (Hroot : strlen (canonical_root w (root ctx)) < PATH_LEN).
  { unfold canonical_root; case_ifs; try done; by apply canonical_copy_len. }
  assert (strlen ((attach w (canonical_root w (root ctx)) <$> ztake (nbindings ctx) (bindings ctx)) ++
                  zdrop (nbindings ctx) (bindings ctx)) = MAX_BINDINGS).
  { rewrite <- Hb; unfold strlen, ztake, zdrop; rewrite length_app, length_fmap, length_take, length_drop; lia. }
  split_and?; try done; try lia; apply Forall_app_2; [|by apply Forall_drop].
  apply Forall_fmap; eapply list.Forall_impl; [apply Forall_take, Hf|]; intros b (Hh & Hg & Hgl & Hm & Hml).
  unfold binding_wf, attach; simpl; split_and?; try done; [by apply canonical_copy_len|by apply strlen_snprintf].
Qed.
End stops.

(** No process has been let run. *)
Definition not_started (acts : list act) : Prop := resumed acts = [].

(** Every process that was let run has ended or is killed. *)
Definition none_left (rs : list wait_result) (acts : list act) : Prop :=
  forall pid, pid ∈ resumed acts -> pid ∈ killed acts \/ exists r, r ∈ rs /\ wpid r = pid /\ ended r = true.

(** What a run does once the guest's first process is traced: its status is the
    one of the first result that ends the loop, the processes let run are that
    first one and then those reported as stopped, those killed are the ones in
    the table at the end, and none is left. *)
Definition followed (calloc : Z -> Z -> bool) (realloc : Z -> bool) (sizeof_tracee : Z) (l : launch) (rs : list wait_result)
    (res : run_result) : Prop :=
  run_rc res = rc_of <$> List.find (ends_loop (forked l)) rs /\
  runs_only calloc realloc sizeof_tracee (forked l :: stops_of (forked l) rs) (resumed (run_acts res)) /\
  killed (run_acts res) = match run_rc res with Some _ => pids (run_tab res) | None => [] end /\
  (is_Some (run_rc res) -> none_left rs (run_acts res)).

(** A run, however it starts. *)
Definition run_ok {abi : ABI} (calloc : Z -> Z -> bool) (realloc : Z -> bool) (sizeof_tracee : Z) (l : launch)
    (rs : list wait_result) (res : run_result) : Prop :=
  ctx_wf (run_ctx res) /\ table_wf (run_tab res) /\
  if negb (pipe_ok l) || (forked l <? 0) then run_rc res = Some EMUROOT_ERR_SYSTEM /\ run_acts res = []
  else if negb (exitkill_ok l) && negb (options_ok l) then
    run_rc res = Some EMUROOT_ERR_UNSUPPORTED /\ run_acts res = [KILL (forked l)]
  else
    ~ memory calloc realloc sizeof_tracee /\ run_rc res = Some EMUROOT_ERR_SYSTEM /\ run_acts res = [] \/
    followed calloc realloc sizeof_tracee l rs res.

(** The tracer reads past a program's name, after the results [rs'] have been
    handled: one of its tracees then has a name without a NUL. *)
Definition overruns {abi : ABI} `{HostFS W, GuestMem W, EventMsg W} calloc realloc sizeof_tracee kstat ids_text
    (l : launch) (rs : list wait_result) (ctx : emuroot_ctx) (w : W) : Prop :=
  exists rs' res, rs' `prefix_of` rs /\
    emuroot_run_ptrace calloc realloc sizeof_tracee kstat ids_text l rs' ctx w = Done res /\ unterminated (run_tab res).

Lemma load_ids_wf {W} calloc (ids_text : W -> cstr -> option cstr) (w : W) ctx :
  (forall n sz, calloc n sz = true -> n * sz < 2 ^ 64) -> ctx_wf ctx ->
  exists ctx', load_ids calloc ids_text w ctx = Some ctx' /\ ctx_wf ctx'.
Proof.
  intros Hcalloc Hc; unfold load_ids; case_ifs; [by exists ctx|].
  destruct (owners_load_total calloc (ids_text w (ids_file ctx)) (owners ctx) Hcalloc) as (o & -> & Ho); [apply Hc|].
  eexists; split; [done|by apply with_owners_wf].
Qed.

Lemma no_tracees_wf {abi : ABI} : table_wf no_tracees.
Proof. split; constructor. Qed.

Lemma kill_all ts : resumed ((fun t => KILL (t_pid t)) <$> ts) = [] /\ killed ((fun t => KILL (t_pid t)) <$> ts) = t_pid <$> ts.
Proof. induction ts as [|t ts [IH1 IH2]]; [done|split; [exact IH1|]]; exact (f_equal (cons (t_pid t)) IH2). Qed.

(** The end of the loop. *)
Lemma followed_end calloc realloc sizeof_tracee l rs (acts more : list act) b ids ctx tab rc :
  acts = RESUME (forked l) b 0 :: more -> killed more = [] ->
  runs_only calloc realloc sizeof_tracee (stops_of (forked l) rs) (resumed more) ->
  (forall pid, pid ∈ resumed acts -> accounted rs tab pid) -> rc = rc_of <$> List.find (ends_loop (forked l)) rs ->
  followed calloc realloc sizeof_tracee l rs
    (match rc with
     | Some rc => Run (Some rc) (acts ++ ((fun t => KILL (t_pid t)) <$> v tab)) ids ctx tab
     | None => Run None acts None ctx tab
     end).
Proof.
  intros -> Hkill Hruns Hacc Hrc; destruct (kill_all (v tab)) as [Hr0 Hk0]; fold (pids tab) in Hk0.
  pose proof (runs_only_app calloc realloc sizeof_tracee _ _ _ _ (runs_only_refl calloc realloc sizeof_tracee [forked l]) Hruns) as Hall.
  destruct rc as [c|]; unfold followed; cbn [run_rc run_acts run_tab].
  - split; [done|]; unfold none_left; rewrite resumed_app, killed_app, Hr0, Hk0, app_nil_r.
    split; [exact Hall|]; cbn [killed omap list_omap]; fold (killed more); rewrite Hkill; split; [done|].
    intros _ pid Hpid; destruct (Hacc pid Hpid) as [?|?]; [by constructor 1|by constructor 2].
  - split; [done|split; [exact Hall|split; [exact Hkill|by intros [? ?]]]].
Qed.

Lemma run_ptrace_ok {abi : ABI} `{laws : GuestLaws abi_arch W, EventMsg W} (calloc : Z -> Z -> bool) (realloc : Z -> bool)
    (sizeof_tracee : Z) (kstat : stat_layout) (ids_text : W -> cstr -> option cstr)
    (l : launch) (rs : list wait_result) (ctx : emuroot_ctx) (w : W) :
  (forall w p, fs_readlink w p <> Some []) -> (forall n sz, calloc n sz = true -> n * sz < 2 ^ 64) ->
  (forall w pid r, (regs_fetch w pid).2 = Some r -> regs_wf abi_arch r) -> ctx_wf ctx ->
  match emuroot_run_ptrace calloc realloc sizeof_tracee kstat ids_text l rs ctx w with
  | Done res => run_ok calloc realloc sizeof_tracee l rs res
  | Aborted => strdup_fails W
  | Undefined => overruns calloc realloc sizeof_tracee kstat ids_text l rs ctx w
  end.
Proof.
  intros Hlinks Hcalloc Hfetch Hctx; unfold overruns, emuroot_run_ptrace, run_ok.
  destruct (load_ids_wf calloc ids_text w _ Hcalloc (prepare_ctx_wf w ctx Hctx)) as (ctx2 & -> & Hc2); cbn [defined_result mbind result_bind].
  pose proof no_tracees_wf as Hnone; destruct (negb (pipe_ok l) || (forked l <? 0)) eqn:Hfork; [by split_and?|].
  destruct (negb _ && _); [by split_and?|]; apply orb_false_iff in Hfork as [_ Hfork%Z.ltb_ge].
  pose proof (tracee_add_spec calloc realloc sizeof_tracee no_tracees ctx2 (forked l) None) as Hadd.
  pose proof (table_add_wf calloc realloc sizeof_tracee no_tracees ctx2 (forked l) None Hc2 Hnone (not_elem_of_nil _) ltac:(done)) as Hwf.
  assert (~ is_Some (tracee_add calloc realloc sizeof_tracee no_tracees ctx2 (forked l) None).2 -> ~ memory calloc realloc sizeof_tracee) as Hmem.
  { intros Hno [Hre Hca]; apply Hno; unfold tracee_add; by rewrite Hca, Hre. }
  destruct (tracee_add _ _ _ _ _ _ _) as [tab [i|]]; cbn [fst snd] in *.
  2: { split_and?; try done; constructor 1; split_and?; try done; apply Hmem; by intros [? ?]. }
  destruct Hadd as [_ Htab]; cbn [v no_tracees app] in Htab; set (s0 := TracerState ctx2 tab [] w).
  destruct (modify_tracee_wf i (fun t => t <| fresh := false |>) s0) as [Hs0 Hp0]; [done|intros t Ht; split; [exact Ht|done]|].
  assert (forked l ∈ pids (ts_tab (modify_tracee i (fun t => t <| fresh := false |>) s0))) as Hroot.
  { rewrite Hp0; unfold pids, s0; cbn [ts_tab]; rewrite Htab; by constructor. }
  set (first := RESUME (forked l) (negb (answered_Y l)) 0).
  assert (forall pid, pid ∈ resumed [first] -> accounted [] (ts_tab (modify_tracee i (fun t => t <| fresh := false |>) s0)) pid) as Hfirst.
  { intros pid ->%list_elem_of_singleton; by constructor 1. }
  pose proof (event_loop_wf calloc realloc sizeof_tracee kstat Hlinks Hcalloc Hfetch (answered_Y l) (forked l) rs _ [first] [] Hs0 Hfork Hroot Hfirst) as Hloop.
  destruct (event_loop _ _ _ _ _ _ rs _ _) as [[[s' acts] rc]| |] eqn:Eloop; cbn [mbind result_bind]; [|exact Hloop|].
  - destruct Hloop as (Hs' & Hrc & (more & Eacts & Hkill & Hruns) & Hacc).
    split; [|split]; [by destruct rc; apply Hs'|by destruct rc; apply Hs'|constructor 2]; by eapply followed_end.
  - destruct Hloop as (rs' & s' & acts' & Hpre & He & Hu); exists rs'; eexists; split; [done|]; by rewrite He.
Qed.

(** ** A fork and the child's first stop *)

Definition stop_status (sig event : Z) : Z := Z.lor (Z.shiftl event 16) (Z.lor (Z.shiftl sig 8) 0x7f).
Definition fork_event (event : Z) : Prop :=
  event = PTRACE_EVENT_FORK \/ event = PTRACE_EVENT_VFORK \/ event = PTRACE_EVENT_CLONE.

Section forks.
Context {abi : ABI} `{HostFS W, GuestMem W, EventMsg W}.
Variable calloc : Z -> Z -> bool.
Variable realloc : Z -> bool.
Variable sizeof_tracee : Z.
Variable kstat : stat_layout.
Notation iteration := (iteration calloc realloc sizeof_tracee kstat).
Notation tracee_add := (tracee_add calloc realloc sizeof_tracee).

(** The parent's event. *)
Lemma iteration_fork mode root_pid event (s : tracer_t (W := W)) i t :
  NoDup (pids (ts_tab s)) -> v (ts_tab s) !! i = Some t -> 0 <= t_pid t -> fork_event event ->
  iteration mode root_pid (Wait (t_pid t) (stop_status SIGTRAP event) 0 0) s =
    (t' ← defined_result (v (ts_tab (on_fork calloc realloc sizeof_tracee t s)) !! i);
     Done (CONTINUE (on_fork calloc realloc sizeof_tracee t s)
             [RESUME (t_pid t) (negb (mode && negb (awaiting_exit t'))) 0])).
Proof.
  intros Hnd Ht Hp Hev; unfold Ptrace.iteration, find_or_add; cbn [wpid wstatus wstop werrno].
  rewrite (proj2 (Z.ltb_ge _ _) Hp), (tracee_find_unique _ _ _ _ Hnd Ht eq_refl).
  unfold handle_stop; rewrite Ht; by destruct Hev as [->|[->| ->]].
Qed.

(** The first stop of a process that is in the table, or is not yet. *)
Lemma iteration_first_stop mode root_pid (s s0 : tracer_t (W := W)) i t pid :
  find_or_add calloc realloc sizeof_tracee s pid = (s0, Some i) -> 0 <= pid ->
  v (ts_tab s0) !! i = Some t -> fresh t = true ->
  iteration mode root_pid (Wait pid (stop_status SIGSTOP 0) 0 0) s =
    Done (CONTINUE (set_tracee i (t <| fresh := false |>) s0)
            [RESUME pid (negb (mode && negb (awaiting_exit t))) 0]).
Proof.
  intros Hf Hp Ht Hfr; unfold Ptrace.iteration; cbn [wpid wstatus wstop werrno].
  rewrite (proj2 (Z.ltb_ge _ _) Hp), Hf; unfold handle_stop; rewrite Ht; simpl; rewrite Hfr; simpl.
  unfold modify_tracee; rewrite Ht; simpl; rewrite list_lookup_insert_eq; [done|by eapply lookup_lt_Some].
Qed.

Lemma tracee_add_any tab ctx pid tab' j :
  tracee_add tab ctx pid None = (tab', Some j) ->
  j = length (v tab) /\ exists cap, forall parent,
    tracee_add tab ctx pid parent = (Table (v tab ++ [new_tracee ctx pid parent]) cap, Some j).
Proof. unfold Ptrace.tracee_add; case_ifs; try done; intros [= <- <-]; (split; [done|by eexists]). Qed.

Lemma insert_last {A} (l : list A) x y : <[length l := y]> (l ++ [x]) = l ++ [y].
Proof. by rewrite insert_app_r_alt, Nat.sub_diag by lia. Qed.

Lemma lookup_last {A} (l : list A) x : (l ++ [x]) !! length l = Some x.
Proof. by rewrite lookup_app_r, Nat.sub_diag by lia. Qed.

(** A table with a new last element. *)
Lemma table_last_find (tab : tracee_table_t) cap t :
  NoDup (pids tab) -> t_pid t ∉ pids tab ->
  NoDup (pids (Table (v tab ++ [t]) cap)) /\ tracee_find (Table (v tab ++ [t]) cap) (t_pid t) = Some (length (v tab)).
Proof.
  intros Hnd Hp; assert (Hnd' : NoDup (pids (Table (v tab ++ [t]) cap))).
  { unfold pids in *; cbn [v]; rewrite fmap_app; apply list.NoDup_app; split_and?; [done| |apply list.NoDup_singleton].
    intros x Hx Hx'; apply list_elem_of_singleton in Hx'; by subst x. }
  split; [done|]; eapply tracee_find_unique; [done|apply lookup_last|done].
Qed.
End forks.

(** ** Properties *)

(** C5: the whole run. Whatever the kernel reports - stops, forks, exits, errors,
    signals to the tracer, in any order and for any processes - and however memory
    is refused, the tracer either aborts because a string could not be copied,
    or reads past the end of a program's name that fills its buffer (the
    tracees it had by then show one), or it reaches its next [waitpid] or its end
    with its context and its table well formed. Its status is then
    EMUROOT_ERR_SYSTEM if there is no pipe or no process or no memory for the
    first tracee, EMUROOT_ERR_UNSUPPORTED if the kernel refuses the options, and
    otherwise exactly that of the first result that ends the loop: 128 + the
    signal the tracer was stopped by, EMUROOT_ERR_SYSTEM for a failing [waitpid],
    the first process's exit status or 128 + the signal that killed it. The
    processes it lets run are that first one and then, in order and once each
    time, those just reported as stopped (none is left out unless memory for its
    tracee is missing); at the end it kills exactly the tracees in its table, and
    every process it ever let run is among them or was reported as ended. *)
Theorem run_safe {abi : ABI} `{laws : GuestLaws abi_arch W, EventMsg W} (calloc : Z -> Z -> bool) (realloc : Z -> bool)
    (sizeof_tracee : Z) (kstat : stat_layout) (ids_text : W -> cstr -> option cstr)
    (l : launch) (rs : list wait_result) (ctx : emuroot_ctx) (w : W) :
  (forall w p, fs_readlink w p <> Some []) -> (forall n sz, calloc n sz = true -> n * sz < 2 ^ 64) ->
  (forall w pid r, (regs_fetch w pid).2 = Some r -> regs_wf abi_arch r) -> ctx_wf ctx ->
  match emuroot_run_ptrace calloc realloc sizeof_tracee kstat ids_text l rs ctx w with
  | Done res => run_ok calloc realloc sizeof_tracee l rs res
  | Aborted => strdup_fails W
  | Undefined => overruns calloc realloc sizeof_tracee kstat ids_text l rs ctx w
  end.
Proof. apply run_ptrace_ok. Qed.

(** C35: a fork is followed whichever stop comes first. The fork, vfork or clone
    event of a parent and the initial SIGSTOP of its child may be reported in
    either order; both leave the tracer in the same state, with the same two
    processes let run: the child is in the table once, with the parent's
    credentials, root and program, and no longer waiting for its first stop. *)
Theorem fork_orders_agree {abi : ABI} `{HostFS W, GuestMem W, EventMsg W} (calloc : Z -> Z -> bool) (realloc : Z -> bool)
    (sizeof_tracee : Z) (kstat : stat_layout) (mode : bool) (root_pid event : Z) (s : tracer_t (W := W))
    (i : nat) (t : tracee_t) (tab : tracee_table_t) (j : nat) :
  let child := s32 (event_msg (ts_world s) (t_pid t)) in
  let fork := Wait (t_pid t) (stop_status SIGTRAP event) 0 0 in
  let first_stop := Wait child (stop_status SIGSTOP 0) 0 0 in
  let loop rs := event_loop calloc realloc sizeof_tracee kstat mode root_pid rs s [] in
  NoDup (pids (ts_tab s)) -> v (ts_tab s) !! i = Some t -> 0 <= t_pid t -> fork_event event ->
  0 <= child -> child ∉ pids (ts_tab s) ->
  tracee_add calloc realloc sizeof_tracee (ts_tab s) (ts_ctx s) child None = (tab, Some j) ->
  exists s' c parent_act child_act,
    loop [fork; first_stop] = Done (s', [parent_act; child_act], None) /\
    loop [first_stop; fork] = Done (s', [child_act; parent_act], None) /\
    v (ts_tab s') = v (ts_tab s) ++ [c] /\ t_pid c = child /\ fresh c = false /\
    t_creds c = t_creds t /\ t_root c = t_root t /\ t_exe c = t_exe t.
Proof.
  intros child fork first_stop loop Hnd Ht Hp Hev Hc Hnew Hadd.
  destruct (tracee_add_any calloc realloc sizeof_tracee _ _ _ _ _ Hadd) as (-> & cap & Hany); clear Hadd.
  set (l := v (ts_tab s)) in *; set (made := fun par => new_tracee (ts_ctx s) child par) in *.
  assert (Hpid : forall par, t_pid (made par) = child) by (by intros [p|]).
  assert (Hfind : forall c, t_pid c = child -> NoDup (pids (Table (l ++ [c]) cap)) /\
                      tracee_find (Table (l ++ [c]) cap) child = Some (length l)).
  { intros c <-; by apply table_last_find. }
  assert (Hnone : tracee_find (ts_tab s) child = None).
  { destruct (tracee_find _ _) as [k|] eqn:E; [|done]; apply tracee_find_Some in E as (c & Hk & Ec).
    exfalso; apply Hnew; rewrite <- Ec; by eapply list_elem_of_fmap_2, list_elem_of_lookup_2. }
  assert (Hi : forall c, (l ++ [c]) !! i = Some t) by (intros c; by apply lookup_app_l_Some).
  set (c1 := made (Some t) <| fresh := false |>).
  exists (TracerState (ts_ctx s) (Table (l ++ [c1]) cap) (ts_loaders s) (ts_world s)), c1,
    (RESUME (t_pid t) (negb (mode && negb (awaiting_exit t))) 0), (RESUME child (negb (mode && true)) 0).
  split_and?; try done; unfold loop, fork, first_stop; cbn [event_loop].
  - rewrite (iteration_fork calloc realloc sizeof_tracee kstat mode root_pid event s i t Hnd Ht Hp Hev).
    unfold on_fork; fold child; rewrite Hnone, Hany; cbn [fst ts_tab v]; rewrite Hi; cbn [defined_result mbind result_bind].
    erewrite iteration_first_stop with (i := length l) (t := made (Some t));
      [|unfold find_or_add; cbn [ts_tab]; by rewrite (proj2 (Hfind (made (Some t)) (Hpid _)))|done|apply lookup_last|done].
    cbn [defined_result mbind result_bind app]; unfold set_tracee; cbn [ts_tab ts_ctx ts_loaders ts_world v tcap]; by rewrite insert_last.
  - erewrite iteration_first_stop with (i := length l) (t := made None);
      [|unfold find_or_add; rewrite Hnone, Hany; done|done|apply lookup_last|done].
    cbn [defined_result mbind result_bind app]; unfold set_tracee, with_tab; cbn [ts_tab ts_ctx ts_loaders ts_world v tcap]; rewrite insert_last.
    set (c0 := made None <| fresh := false |>); set (s1 := TracerState _ _ _ _).
    destruct (Hfind c0) as [Hnd1 Hf1]; [exact (Hpid None)|].
    rewrite (iteration_fork calloc realloc sizeof_tracee kstat mode root_pid event s1 i t Hnd1 (Hi _) Hp Hev).
    unfold on_fork; change (s32 (event_msg (ts_world s1) (t_pid t))) with child; cbn [ts_tab s1]; rewrite Hf1.
    unfold modify_tracee; cbn [ts_tab s1 v]; rewrite lookup_last; unfold set_tracee; cbn [ts_tab ts_ctx ts_loaders ts_world v tcap s1].
    rewrite insert_last, Hi; done.
Qed.

(** *** A run on the toy kernel *)

#[export] Instance toy_event_msg : EventMsg (tracer toy) := fun _ _ => 8.

Lemma toy_fetch_wf (w : tracer toy) pid r : (regs_fetch w pid).2 = Some r -> regs_wf X86_64 r.
Proof.
  assert (Hw : forall k, regs_wf X86_64 (ztake (nwords X86_64) (words k))).
  { intros k; destruct (words_wf k) as [Hl Hf]; split; [|by apply Forall_take].
    unfold ztake, nwords, strlen; rewrite length_take; lia. }
  destruct w as [k ? [| |] ?]; cbn [regs_fetch toy_guest tracer_guest]; unfold regs_get, mode_now, get_whole; simpl;
    intros [= <-]; apply Hw.
Qed.

(** open("/etc/passwd"): entry and exit, a fork in between, a signal, and the
    end of the guest with status 3. *)
Definition toy_run : list wait_result :=
  let stop := fun sig event => Z.lor (Z.shiftl event 16) (Z.lor (Z.shiftl sig 8) 0x7f) in
  [Wait 7 (stop SYSCALL_STOP 0) 0 0; Wait 7 (stop SIGTRAP PTRACE_EVENT_FORK) 0 0; Wait 8 (stop SIGSTOP 0) 0 0;
   Wait (-1) 0 EINTR 0; Wait 7 (stop SYSCALL_STOP 0) 0 0; Wait 7 (stop 10 0) 0 0; Wait 7 (Z.shiftl 3 8) 0 0].
Definition toy_kernel : toy :=
  Toy (toy_page (lit "/etc/passwd")) (Z.eqb 1) (toy_regs_of 2 [4096]) true [] [] [] 1000.

Lemma run_safe_witness :
  let run := emuroot_run_ptrace (abi := x86_64_abi) calloc_64 (fun _ => true) 20000 x86_64_stat (fun _ _ => None)
               (Launch true 7 false true true) toy_run (toy_ctx (lit "/r")) (toy_tracer toy_kernel) in
  run_rc <$> run = Done (Some 3) /\
  run_acts <$> run = Done [RESUME 7 true 0; RESUME 7 true 0; RESUME 7 true 0; RESUME 8 true 0; RESUME 7 true 0;
                           RESUME 7 true 10; KILL 7; KILL 8] /\
  match run with
  | Done res => run_ok (abi := x86_64_abi) calloc_64 (fun _ => true) 20000 (Launch true 7 false true true) toy_run res
  | Aborted => strdup_fails (tracer toy)
  | Undefined => overruns (abi := x86_64_abi) calloc_64 (fun _ => true) 20000 x86_64_stat (fun _ _ => None)
                   (Launch true 7 false true true) toy_run (toy_ctx (lit "/r")) (toy_tracer toy_kernel)
  end.
Proof.
  cbv zeta; split; [vm_compute; reflexivity|split; [vm_compute; reflexivity|]].
  apply (run_safe (abi := x86_64_abi) (laws := toy_guest_laws) calloc_64 (fun _ => true) 20000 x86_64_stat (fun _ _ => None)
    (Launch true 7 false true true) toy_run (toy_ctx (lit "/r")) (toy_tracer toy_kernel)).
  - intros w p; apply toy_links_nonempty.
  - intros n sz; apply calloc_64_available.
  - exact toy_fetch_wf.
  - apply toy_ctx_wf; reflexivity.
Defined.

(** A parent that dropped its privileges forks process 8. *)
Definition toy_parent : tracee_t := new_tracee (toy_ctx (lit "/r")) 7 None <| t_creds := creds_init 1000 1000 |>.
Definition toy_tracer_state : tracer_t (W := tracer toy) :=
  TracerState (toy_ctx (lit "/r")) (Table [toy_parent] 64) [] (toy_tracer toy_kernel).

Lemma fork_orders_agree_witness :
  let s := toy_tracer_state in
  let child := s32 (event_msg (ts_world s) (t_pid toy_parent)) in
  let loop rs := event_loop (abi := x86_64_abi) calloc_64 (fun _ => true) 20000 x86_64_stat true 7 rs s [] in
  let fork := Wait (t_pid toy_parent) (stop_status SIGTRAP PTRACE_EVENT_CLONE) 0 0 in
  let first_stop := Wait child (stop_status SIGSTOP 0) 0 0 in
  child = 8 /\
  exists s' c parent_act child_act,
    loop [fork; first_stop] = Done (s', [parent_act; child_act], None) /\
    loop [first_stop; fork] = Done (s', [child_act; parent_act], None) /\
    v (ts_tab s') = v (ts_tab s) ++ [c] /\ t_pid c = child /\ fresh c = false /\
    t_creds c = t_creds toy_parent /\ t_root c = t_root toy_parent /\ t_exe c = t_exe toy_parent.
Proof.
  cbv zeta; split; [reflexivity|].
  apply (fork_orders_agree (abi := x86_64_abi) calloc_64 (fun _ => true) 20000 x86_64_stat true 7 PTRACE_EVENT_CLONE
    toy_tracer_state 0 toy_parent (Table [toy_parent; new_tracee (toy_ctx (lit "/r")) 8 None] 64) 1).
  - repeat constructor; by intros ?%not_elem_of_nil.
  - reflexivity.
  - discriminate.
  - constructor 2; constructor 2; reflexivity.
  - discriminate.
  - intros Hx; apply list_elem_of_singleton in Hx; discriminate Hx.
  - reflexivity.
Defined.

(** Until the parent's event arrives, a child that stopped first is let run with
    the identity of the start: the fake ids and root of the configuration, not
    the ones its parent has by now. *)
Lemma early_child_identity {abi : ABI} `{HostFS W, GuestMem W, EventMsg W} calloc realloc sizeof_tracee kstat mode root_pid
    (s : tracer_t (W := W)) child tab j :
  0 <= child -> tracee_find (ts_tab s) child = None ->
  tracee_add calloc realloc sizeof_tracee (ts_tab s) (ts_ctx s) child None = (tab, Some j) ->
  exists s' c b, event_loop calloc realloc sizeof_tracee kstat mode root_pid [Wait child (stop_status SIGSTOP 0) 0 0] s [] =
      Done (s', [RESUME child b 0], None) /\
    v (ts_tab s') = v (ts_tab s) ++ [c] /\ t_pid c = child /\
    t_creds c = creds_init (fake_uid (ts_ctx s)) (fake_gid (ts_ctx s)) /\ t_root c = snprintf PATH_LEN (root (ts_ctx s)).
Proof.
  intros Hc Hnone Hadd; destruct (tracee_add_any calloc realloc sizeof_tracee _ _ _ _ _ Hadd) as (-> & cap & Hany); clear Hadd.
  set (made := new_tracee (ts_ctx s) child None) in *; eexists _, (made <| fresh := false |>), _; cbn [event_loop].
  erewrite iteration_first_stop with (i := length (v (ts_tab s))) (t := made);
    [|unfold find_or_add; rewrite Hnone, Hany; done|done|apply lookup_last|done].
  cbn [defined_result mbind result_bind app]; split; [done|]; cbn [set_tracee with_tab ts_tab v]; by rewrite insert_last.
Qed.
