(* ===== verification/Run.v ===== *)
(** Starting a guest: the choice of a backend and [emuroot_run]
    ([src/emuroot.c]), and the backend that only sets the environment
    ([src/envonly.c]).  What [fork], [waitpid] and [getenv] answer are inputs. *)

From Stdlib Require Import ZArith Lia Ascii String.
From stdpp Require Import base list numbers.
From S2P Require Import Prelude Stdio Arch Syscalls World Guest Owners Config Tracee Fake Ptrace PtraceFacts Live ToyKernel.
From S2P Require Import GuestFacts Safety OwnersFile Syscalls.
Local Open Scope Z_scope.
Local Open Scope emu_scope.

(** ** Wait statuses *)

(** What the kernel reports of a child, and its encoding in a status. *)
Inductive fate := EXITED (code : Z) | KILLED (sig : Z) (core : bool) | STOPPED (sig : Z).
Definition wait_status (f : fate) : Z :=
  match f with
  | EXITED code => Z.shiftl (Z.land code 0xff) 8
  | KILLED sig core => Z.lor sig (if core then 0x80 else 0)
  | STOPPED sig => Z.lor (Z.shiftl sig 8) 0x7f
  end.
Definition fate_ok (f : fate) : Prop :=
  match f with EXITED _ => True | KILLED sig _ => 0 < sig < 0x7f | STOPPED sig => 0 < sig < 0x80 end.

(** [WIFEXITED(status) ? WEXITSTATUS(status) : WIFSIGNALED(status) ? 128 + WTERMSIG(status) : otherwise] *)
Definition exit_code (otherwise status : Z) : Z :=
  if WIFEXITED status then WEXITSTATUS status
  else if WIFSIGNALED status then 128 + WTERMSIG status
  else otherwise.

(** ** The backend *)

(** EMUROOT_BACKEND in the environment, [fork]'s result and the child's status. *)
Record probing := Probing { probe_env : option cstr; probe_fork : Z; probe_status : Z }.

(** The child of the probe: [PTRACE_TRACEME], then it stops itself. *)
Definition probe_child (traceme_ok : bool) : fate := if traceme_ok then STOPPED SIGSTOP else EXITED 1.

(** [no_ptrace]: compiled with EMUROOT_NO_PTRACE. *)
Definition emuroot_probe_backend (no_ptrace : bool) (p : probing) : emuroot_backend_t :=
  if no_ptrace then EMUROOT_BACKEND_ENVONLY
  else if bool_decide (probe_env p = Some (lit "envonly")) then EMUROOT_BACKEND_ENVONLY
  else if probe_fork p <? 0 then EMUROOT_BACKEND_ENVONLY
  else if WIFSTOPPED (probe_status p) then EMUROOT_BACKEND_PTRACE
  else EMUROOT_BACKEND_ENVONLY.

(** ** The environment-only backend *)

(** An environment: names and values in order. *)
Definition env := list (cstr * cstr).

(** [setenv(name, value, 1)] *)
Fixpoint setenv (name value : cstr) (e : env) : env :=
  match e with
  | [] => [(name, value)]
  | (n, x) :: e => if strcmp_eq n name then (n, value) :: e else (n, x) :: setenv name value e
  end.
Fixpoint getenv (name : cstr) (e : env) : option cstr :=
  match e with
  | [] => None
  | (n, x) :: e => if strcmp_eq n name then Some x else getenv name e
  end.

(** [static char bindings[...]] *)
Definition BINDINGS_SIZE : Z := MAX_BINDINGS * (2 * PATH_LEN + 2).

(** The loop that prints the bindings: [buf] holds the text so far, [pos] its
    length as [snprintf] counts it. *)
Fixpoint print_bindings (bs : list binding_t) (buf : cstr) (pos : Z) : cstr * Z :=
  match bs with
  | [] => (buf, pos)
  | b :: bs =>
      if pos <? BINDINGS_SIZE then
        let text := (if pos =? 0 then [] else lit ";") ++ host b ++ lit ":" ++ guest b in
        print_bindings bs (ztake pos buf ++ snprintf (BINDINGS_SIZE - pos) text) (pos + strlen text)
      else (buf, pos)
  end.

(** The variables that describe the root to a cooperating guest. *)
Definition export (ctx : emuroot_ctx) (environ : env) : env :=
  let '(bindings, pos) := print_bindings (active ctx) [] 0 in
  let environ := if bool_decide (root ctx = []) then environ else setenv (lit "EMUROOT_ROOT") (root ctx) environ in
  let environ := if pos =? 0 then environ else setenv (lit "EMUROOT_BINDINGS") bindings environ in
  if has_fake_ids ctx
  then setenv (lit "EMUROOT_FAKE_IDS") (snprintf 32 (print_u (fake_uid ctx) ++ lit ":" ++ print_u (fake_gid ctx))) environ
  else environ.

(** What the guest starts with: the program, its environment, and the directory
    entered first ([None]: the current one, also when it cannot be entered). *)
Record start := Start { st_argv : list cstr; st_env : env; st_dir : option cstr }.

Definition emuroot_run_envonly (ctx : emuroot_ctx) (argv : list cstr) (envp : option env)
    (environ : env) (chdir : cstr -> bool) (forked status : Z) : option start * Z :=
  let environ := export ctx environ in
  let dir := if negb (bool_decide (root ctx = [])) && chdir (root ctx) then Some (root ctx) else None in
  if forked <? 0 then (None, EMUROOT_ERR_SYSTEM)
  else (Some (Start argv (default environ envp) dir), exit_code EMUROOT_ERR_SYSTEM status).

(** ** [emuroot_run] *)

Section run.
Context {abi : ABI} `{HostFS W, GuestMem W, EventMsg W}.
Variable calloc : Z -> Z -> bool.
Variable realloc : Z -> bool.
Variable sizeof_tracee : Z.
Variable kstat : stat_layout.
Variable ids_text : W -> cstr -> option cstr.

(** What the kernel answers to a whole run. *)
Record answers := Answers {
  a_probe : probing;
  a_launch : launch;
  a_waits : list wait_result;
  a_environ : env;
  a_chdir : cstr -> bool;
  a_fork : Z;                  (* the environment-only backend's fork *)
  a_status : Z                 (* and its guest's status *)
}.

(** The result ([None] while the guest runs), what the tracer did, and the
    start of an untraced guest. *)
Record ran := Ran { ran_rc : option Z; ran_acts : list act; ran_start : option start }.

(** A missing context or program is [None]. *)
Definition emuroot_run (no_ptrace : bool) (ctx : option emuroot_ctx) (argv : option (list cstr)) (envp : option env)
    (a : answers) (w : W) : result ran :=
  match ctx, argv with
  | Some ctx, Some (prog :: args) =>
      let envonly ctx acts :=
        let '(st, rc) := emuroot_run_envonly ctx (prog :: args) envp (a_environ a) (a_chdir a) (a_fork a) (a_status a) in
        Done (Ran (Some rc) acts st) in
      match emuroot_probe_backend no_ptrace (a_probe a) with
      | EMUROOT_BACKEND_PTRACE =>
          r ← emuroot_run_ptrace calloc realloc sizeof_tracee kstat ids_text (a_launch a) (a_waits a) ctx w;
          if bool_decide (run_rc r = Some EMUROOT_ERR_UNSUPPORTED) then envonly (run_ctx r) (run_acts r)
          else Done (Ran (run_rc r) (run_acts r) None)
      | _ => envonly ctx []
      end
  | _, _ => Done (Ran (Some EMUROOT_ERR_INVAL) [] None)
  end.
End run.
