(* ===== verification/RunFacts.v ===== *)
(** Starting a guest, its facts: wait statuses, the variables the fallback
    exports, and [emuroot_run] with both backends. *)

From Stdlib Require Import ZArith Lia Ascii String.
From stdpp Require Import base list numbers.
From S2P Require Import Prelude Stdio Arch Syscalls World Guest Config Fake Ptrace PtraceFacts Run.
From S2P Require Import Live ToyKernel GuestFacts Safety OwnersFile Owners.
Local Open Scope Z_scope.
Local Open Scope emu_scope.

(** ** Wait statuses *)

(** A statement about a number below [n], checked for each. *)
Lemma check_below (n : nat) (f : Z -> bool) :
  forallb (fun i => f (Z.of_nat i)) (seq 0 n) = true -> forall x, 0 <= x < Z.of_nat n -> f x = true.
Proof.
  intros Hall x Hx; rewrite forallb_forall in Hall; rewrite <- (Z2Nat.id x) by lia.
  apply Hall, in_seq; lia.
Qed.

Lemma code_range code : 0 <= Z.land code 0xff < 256.
Proof. change 0xff with (Z.ones 8); rewrite Z.land_ones by lia; apply Z.mod_pos_bound; reflexivity. Qed.

Lemma exited_status code :
  WIFEXITED (wait_status (EXITED code)) = true /\ WEXITSTATUS (wait_status (EXITED code)) = Z.land code 0xff.
Proof.
  cbn [wait_status]; generalize (Z.land code 0xff) (code_range code); intros c Hc.
  pose proof (check_below 256 (fun c => WIFEXITED (Z.shiftl c 8) && (WEXITSTATUS (Z.shiftl c 8) =? c)) eq_refl c Hc) as H.
  apply andb_true_iff in H as [? ?%Z.eqb_eq]; done.
Qed.

Lemma killed_status sig core :
  0 < sig < 0x7f ->
  let s := wait_status (KILLED sig core) in WIFEXITED s = false /\ WIFSIGNALED s = true /\ WTERMSIG s = sig.
Proof.
  intros Hs; cbn [wait_status].
  pose proof (check_below 127 (fun x => let s := Z.lor x (if core then 0x80 else 0) in
    (x =? 0) || (negb (WIFEXITED s) && WIFSIGNALED s && (WTERMSIG s =? x))) ltac:(by destruct core) sig ltac:(lia)) as H.
  cbv beta zeta in H; rewrite (proj2 (Z.eqb_neq sig 0)) in H by lia; cbn [orb] in H.
  apply andb_true_iff in H as [[Hx%negb_true_iff Hy]%andb_true_iff Hz%Z.eqb_eq]; done.
Qed.

Lemma stopped_status sig : 0 < sig < 0x80 -> WIFSTOPPED (wait_status (STOPPED sig)) = true.
Proof. intros Hs; apply (check_below 128 (fun x => WIFSTOPPED (wait_status (STOPPED x))) eq_refl); lia. Qed.

Lemma exit_code_exited other code : exit_code other (wait_status (EXITED code)) = Z.land code 0xff.
Proof. unfold exit_code; destruct (exited_status code) as [-> ->]; done. Qed.

Lemma exit_code_killed other sig core : 0 < sig < 0x7f -> exit_code other (wait_status (KILLED sig core)) = 128 + sig.
Proof. intros Hs; unfold exit_code; destruct (killed_status sig core Hs) as (-> & -> & ->); done. Qed.

Lemma exit_code_range other status : exit_code other status = other \/ 0 <= exit_code other status < 256.
Proof.
  unfold exit_code, WEXITSTATUS, WTERMSIG; case_ifs; [constructor 2; apply code_range|constructor 2|by constructor 1].
  change 0x7f with (Z.ones 7); rewrite Z.land_ones by lia; pose proof (Z.mod_pos_bound status (2 ^ 7) ltac:(lia)); lia.
Qed.

(** The probe finds tracing usable exactly when its child can ask to be traced. *)
Lemma probe_backend_spec p traceme_ok :
  probe_env p <> Some (lit "envonly") -> 0 <= probe_fork p -> probe_status p = wait_status (probe_child traceme_ok) ->
  emuroot_probe_backend false p = if traceme_ok then EMUROOT_BACKEND_PTRACE else EMUROOT_BACKEND_ENVONLY.
Proof.
  intros He Hf Hs; unfold emuroot_probe_backend; rewrite bool_decide_eq_false_2 by done.
  rewrite (proj2 (Z.ltb_ge _ _)) by done; rewrite Hs; by destruct traceme_ok.
Qed.

(** ** The exported variables *)

Definition binding_text (b : binding_t) : cstr := host b ++ lit ":" ++ guest b.
(** host:guest of every binding, separated by semicolons. *)
Fixpoint bindings_text (bs : list binding_t) : cstr :=
  match bs with
  | [] => []
  | [b] => binding_text b
  | b :: bs => binding_text b ++ lit ";" ++ bindings_text bs
  end.

(** The bindings after the first one, each after a semicolon. *)
Fixpoint more_bindings (bs : list binding_t) : cstr :=
  match bs with [] => [] | b :: bs => lit ";" ++ binding_text b ++ more_bindings bs end.

Lemma bindings_text_cons b bs : bindings_text (b :: bs) = binding_text b ++ more_bindings bs.
Proof.
  revert b; induction bs as [|b' bs IH]; intros b; [by rewrite app_nil_r|].
  change (bindings_text (b :: b' :: bs)) with (binding_text b ++ lit ";" ++ bindings_text (b' :: bs)); by rewrite IH.
Qed.

Lemma binding_text_bound b : binding_wf b -> 0 < strlen (binding_text b) <= 2 * PATH_LEN - 1.
Proof.
  intros (Hh & Hg & _); unfold binding_text; rewrite !strlen_app.
  change (strlen (lit ":")) with 1; pose proof (strlen_nonneg (host b)); pose proof (strlen_nonneg (guest b)); lia.
Qed.

Lemma print_bindings_more bs : forall buf,
  Forall binding_wf bs -> 0 < strlen buf -> strlen buf + strlen bs * (2 * PATH_LEN) < BINDINGS_SIZE ->
  print_bindings bs buf (strlen buf) = (buf ++ more_bindings bs, strlen (buf ++ more_bindings bs)).
Proof.
  induction bs as [|b bs IH]; intros buf Hf Hb Hs; cbn [print_bindings more_bindings]; [by rewrite app_nil_r|].
  apply list.Forall_cons in Hf as [Hw Hf]; pose proof (binding_text_bound b Hw) as Hl.
  rewrite strlen_cons in Hs; pose proof (strlen_nonneg bs).
  rewrite (proj2 (Z.ltb_lt _ _)) by (unfold PATH_LEN in *; lia); rewrite (proj2 (Z.eqb_neq _ _)) by lia.
  change (lit ";" ++ host b ++ lit ":" ++ guest b) with (lit ";" ++ binding_text b).
  assert (strlen (lit ";" ++ binding_text b) = 1 + strlen (binding_text b)) as Hsl by (by rewrite strlen_app).
  rewrite ztake_ge by lia; rewrite snprintf_fits by (rewrite Hsl; unfold PATH_LEN in *; lia).
  cbv zeta; rewrite <- strlen_app; rewrite IH; [by rewrite <- !app_assoc|done|rewrite strlen_app, Hsl; lia|].
  rewrite strlen_app, Hsl; unfold PATH_LEN in *; lia.
Qed.

(** The text of all bindings fits the buffer, whatever they are. *)
Lemma print_bindings_fit bs :
  Forall binding_wf bs -> strlen bs <= MAX_BINDINGS -> print_bindings bs [] 0 = (bindings_text bs, strlen (bindings_text bs)).
Proof.
  intros Hf Hn; destruct bs as [|b bs]; [done|]; apply list.Forall_cons in Hf as [Hw Hf].
  pose proof (binding_text_bound b Hw) as Hl; rewrite strlen_cons in Hn; cbn [print_bindings].
  unfold BINDINGS_SIZE, MAX_BINDINGS, PATH_LEN in *; change (0 <? _) with true; change (0 =? 0) with true; cbv iota zeta; cbn [app].
  change (host b ++ lit ":" ++ guest b) with (binding_text b); rewrite snprintf_fits by lia; cbn [ztake app].
  change (ztake 0 [] ++ binding_text b) with (binding_text b); rewrite Z.add_0_l, print_bindings_more, bindings_text_cons; try done; [lia|].
  unfold BINDINGS_SIZE, MAX_BINDINGS, PATH_LEN; lia.
Qed.

(** Environments. *)
Lemma getenv_setenv name value e : getenv name (setenv name value e) = Some value.
Proof.
  induction e as [|[n x] e IH]; cbn [setenv getenv]; [unfold strcmp_eq; by rewrite bool_decide_eq_true_2|].
  destruct (strcmp_eq n name) eqn:E; cbn [getenv]; by rewrite E.
Qed.

Lemma getenv_setenv_ne name name' value e : name' <> name -> getenv name' (setenv name value e) = getenv name' e.
Proof.
  intros Hn; induction e as [|[n x] e IH]; cbn [setenv getenv]; [unfold strcmp_eq; by rewrite bool_decide_eq_false_2|].
  destruct (strcmp_eq n name) eqn:E; cbn [getenv]; [|by rewrite IH].
  apply bool_decide_eq_true in E as ->; unfold strcmp_eq; by rewrite bool_decide_eq_false_2.
Qed.

(** What the exported environment holds for a variable. *)
Definition exported (ctx : emuroot_ctx) (name : cstr) : option cstr :=
  if strcmp_eq name (lit "EMUROOT_ROOT") then if bool_decide (root ctx = []) then None else Some (root ctx)
  else if strcmp_eq name (lit "EMUROOT_BINDINGS") then
    if nbindings ctx =? 0 then None else Some (bindings_text (active ctx))
  else if strcmp_eq name (lit "EMUROOT_FAKE_IDS") then
    if has_fake_ids ctx then Some (print_u (fake_uid ctx) ++ lit ":" ++ print_u (fake_gid ctx)) else None
  else None.

Lemma fake_ids_text uid gid :
  is_u32 uid -> is_u32 gid -> strlen (print_u uid ++ lit ":" ++ print_u gid) < 32.
Proof.
  unfold is_u32; intros Hu Hg; rewrite !strlen_app; change (strlen (lit ":")) with 1.
  pose proof (print_u_length 10 uid ltac:(lia) ltac:(lia)); pose proof (print_u_length 10 gid ltac:(lia) ltac:(lia)); lia.
Qed.

(** Setting a variable or not. *)
Lemma getenv_setenv_if (b : bool) name value e x :
  getenv x (if b then e else setenv name value e) =
  if negb b && strcmp_eq x name then Some value else getenv x e.
Proof.
  destruct b; [done|]; unfold strcmp_eq; case_bool_decide; subst; cbn [negb andb]; [apply getenv_setenv|by apply getenv_setenv_ne].
Qed.

Lemma bindings_text_pos ctx : ctx_wf ctx -> (strlen (bindings_text (active ctx)) =? 0) = (nbindings ctx =? 0).
Proof.
  intros (_ & Hl & Hn & Hf & _); unfold active; destruct (Z.eqb_spec (nbindings ctx) 0) as [->|Hne]; [done|].
  apply Z.eqb_neq; destruct (bindings ctx) as [|b bs]; [by unfold strlen in Hl|].
  apply list.Forall_cons in Hf as [Hw _]; pose proof (binding_text_bound b Hw).
  unfold ztake; destruct (Z.to_nat (nbindings ctx)) eqn:E; [lia|]; cbn [take].
  rewrite bindings_text_cons, strlen_app; pose proof (strlen_nonneg (more_bindings (take n bs))); lia.
Qed.

(** How a run can end, and what it leaves. *)
Definition rc_explained (argv : list cstr) (a : answers) (r : ran) (rc : Z) : Prop :=
  rc = EMUROOT_ERR_INVAL \/ rc = EMUROOT_ERR_SYSTEM \/
  (ran_start r = None /\ exists x, x ∈ a_waits a /\ ends_loop (forked (a_launch a)) x = true /\ rc = rc_of x) \/
  (exists st, ran_start r = Some st /\ st_argv st = argv /\ rc = exit_code EMUROOT_ERR_SYSTEM (a_status a)).

Definition ran_ok (argv : list cstr) (a : answers) (r : ran) : Prop :=
  (ran_start r <> None -> not_started (ran_acts r)) /\
  (forall rc, ran_rc r = Some rc -> rc_explained argv a r rc) /\
  (is_Some (ran_rc r) -> none_left (a_waits a) (ran_acts r)).

Lemma rc_of_supported x : 0 <= wstop x -> rc_of x <> EMUROOT_ERR_UNSUPPORTED.
Proof.
  intros Hx; unfold rc_of, EMUROOT_ERR_UNSUPPORTED, EMUROOT_ERR_SYSTEM, WEXITSTATUS, WTERMSIG.
  pose proof (code_range (Z.shiftr (wstatus x) 8)); case_ifs; try lia.
  change 0x7f with (Z.ones 7); rewrite Z.land_ones by lia; pose proof (Z.mod_pos_bound (wstatus x) (2 ^ 7) ltac:(lia)); lia.
Qed.

(** The fallback by itself. *)
Lemma envonly_explained ctx argv envp a acts :
  not_started acts ->
  let '(st, rc) := emuroot_run_envonly ctx argv envp (a_environ a) (a_chdir a) (a_fork a) (a_status a) in
  ran_ok argv a (Ran (Some rc) acts st).
Proof.
  intros Hn; unfold ran_ok, emuroot_run_envonly; destruct (a_fork a <? 0); cbn [ran_start ran_rc ran_acts]; split_and?; try done;
    try (intros _ pid Hin; unfold not_started in Hn; rewrite Hn in Hin; by apply not_elem_of_nil in Hin); intros ? [= <-].
  - by constructor 2; constructor 1.
  - do 3 constructor 2; eexists; split; [done|]; done.
Qed.

(** The traced run, with its way out to the fallback. *)
Lemma traced_explained {abi : ABI} calloc realloc sizeof_tracee argv a res (good : result ran -> Prop) (env_run : emuroot_ctx -> list act -> result ran) :
  run_ok calloc realloc sizeof_tracee (a_launch a) (a_waits a) res -> (forall x, x ∈ a_waits a -> 0 <= wstop x) ->
  (forall c acts, not_started acts -> good (env_run c acts)) -> (forall r, ran_ok argv a r -> good (Done r)) ->
  good (if bool_decide (run_rc res = Some EMUROOT_ERR_UNSUPPORTED) then env_run (run_ctx res) (run_acts res)
        else Done (Ran (run_rc res) (run_acts res) None)).
Proof.
  intros (_ & _ & Hok) Hstop Henv Hdone.
  assert (run_rc res = Some EMUROOT_ERR_SYSTEM /\ run_acts res = [] \/ run_rc res = Some EMUROOT_ERR_UNSUPPORTED /\ not_started (run_acts res) \/
    followed calloc realloc sizeof_tracee (a_launch a) (a_waits a) res) as Hcases.
  { destruct (_ || _); [by constructor 1|]; destruct (_ && _); [|destruct Hok as [(_ & ?)|?]; tauto].
    destruct Hok as [? ->]; by constructor 2; constructor 1. }
  clear Hok; destruct Hcases as [[Hrc Hacts]|[[Hrc Hns]|(Hrc & _ & _ & Hleft)]].
  - rewrite Hrc, Hacts; apply Hdone; unfold ran_ok; cbn [ran_start ran_rc ran_acts]; split_and?; [done|intros ? [= <-]; by constructor 2; constructor 1|].
    intros _ pid Hin; by apply not_elem_of_nil in Hin.
  - rewrite Hrc, bool_decide_eq_true_2 by done; by apply Henv.
  - assert (forall rc, run_rc res = Some rc -> exists x, x ∈ a_waits a /\ ends_loop (forked (a_launch a)) x = true /\ rc = rc_of x) as Hx.
    { rewrite Hrc; intros rc (x & Hf & ->)%fmap_Some; apply find_some in Hf as [Hin He]; exists x; split; [by apply list_elem_of_In|done]. }
    rewrite bool_decide_eq_false_2.
    + apply Hdone; unfold ran_ok; cbn [ran_start ran_rc ran_acts]; split_and?; [done| |exact Hleft].
      intros rc Hr; do 2 constructor 2; constructor 1; split; [done|by apply Hx].
    + intros Hu; destruct (Hx _ Hu) as (x & Hin & _ & He); by apply (rc_of_supported x (Hstop x Hin)).
Qed.

(** ** Properties *)

(** C39: the fallback tells a cooperating guest everything. For any context,
    EMUROOT_ROOT, EMUROOT_BINDINGS and EMUROOT_FAKE_IDS are exported exactly when
    a root, a binding and fake ids are configured, with the root, all bindings
    in order and both ids complete: neither buffer is ever too small. Every
    other variable keeps its value. *)
Theorem envonly_exports (ctx : emuroot_ctx) (environ : env) (name : cstr) :
  ctx_wf ctx ->
  getenv name (export ctx environ) = match exported ctx name with Some x => Some x | None => getenv name environ end.
Proof.
  intros Hctx; pose proof Hctx as (_ & Hl & Hn & Hf & _ & _ & _ & _ & _ & Hu & Hg); unfold export.
  rewrite print_bindings_fit; [|by apply Forall_take|unfold active; rewrite strlen_ztake by lia; lia].
  rewrite bindings_text_pos, snprintf_fits by (done || by apply fake_ids_text); unfold exported.
  assert (lit "EMUROOT_ROOT" <> lit "EMUROOT_BINDINGS" /\ lit "EMUROOT_ROOT" <> lit "EMUROOT_FAKE_IDS" /\
          lit "EMUROOT_BINDINGS" <> lit "EMUROOT_FAKE_IDS") as (H12 & H13 & H23) by (split_and?; discriminate).
  destruct (has_fake_ids ctx); rewrite ?(getenv_setenv_if false), ?getenv_setenv_if; unfold strcmp_eq;
    repeat case_bool_decide; subst; try congruence; cbn [negb andb]; try done; by destruct (nbindings ctx =? 0).
Qed.

(** Two bindings and fake ids. *)
Definition bound_ctx : emuroot_ctx :=
  config_run (toy_ctx (lit "/r")) [BIND (Some (lit "/dev")) (Some (lit "/dev")); BIND (Some (lit "/home/u")) (Some (lit "/root"))].

Lemma envonly_exports_witness :
  getenv (lit "EMUROOT_BINDINGS") (export bound_ctx [(lit "HOME", lit "/")]) = Some (lit "/dev:/dev;/home/u:/root").
Proof.
  exact (envonly_exports bound_ctx [(lit "HOME", lit "/")] (lit "EMUROOT_BINDINGS")
           (config_run_inv _ _ (toy_ctx_wf (lit "/r") eq_refl))).
Defined.

(** C19: one guest, one status. Given a context and a program, whatever the kernel
    answers, [emuroot_run] ends (or runs on with its guest) unless the tracer
    aborts for want of memory for a string or reads past an unterminated program
    name (C5). A guest without interception is only started when the tracer has
    let no process run, so the program never runs twice; the result is
    EMUROOT_ERR_INVAL, EMUROOT_ERR_SYSTEM, the status of the traced run that
    ended, or that of the untraced guest, which runs the given program; and once
    it returns no traced process is left running. *)
Theorem run_starts_one_guest {abi : ABI} `{laws : GuestLaws abi_arch W, EventMsg W} (calloc : Z -> Z -> bool)
    (realloc : Z -> bool) (sizeof_tracee : Z) (kstat : stat_layout) (ids_text : W -> cstr -> option cstr) (no_ptrace : bool)
    (ctx : option emuroot_ctx) (argv : option (list cstr)) (envp : option env) (a : answers) (w : W) :
  (forall w p, fs_readlink w p <> Some []) -> (forall n sz, calloc n sz = true -> n * sz < 2 ^ 64) ->
  (forall w pid r, (regs_fetch w pid).2 = Some r -> regs_wf abi_arch r) -> (forall c, ctx = Some c -> ctx_wf c) ->
  (forall x, x ∈ a_waits a -> 0 <= wstop x) ->
  match emuroot_run calloc realloc sizeof_tracee kstat ids_text no_ptrace ctx argv envp a w with
  | Done r => ran_ok (default [] argv) a r
  | Aborted => strdup_fails W
  | Undefined => exists c, ctx = Some c /\ overruns calloc realloc sizeof_tracee kstat ids_text (a_launch a) (a_waits a) c w
  end.
Proof.
  intros Hlinks Hcalloc Hfetch Hctx Hstop; unfold emuroot_run.
  assert (forall c, ran_ok c a (Ran (Some EMUROOT_ERR_INVAL) [] None)) as Hinval.
  { intros c; unfold ran_ok; split_and?; [done|intros ? [= <-]; by constructor 1|].
    intros _ pid Hin; by apply not_elem_of_nil in Hin. }
  destruct ctx as [ctx|]; [|apply Hinval]; destruct argv as [[|prog args]|]; try apply Hinval; clear Hinval.
  set (env_run := fun c acts => let '(st, rc) := emuroot_run_envonly c (prog :: args) envp (a_environ a) (a_chdir a) (a_fork a) (a_status a) in
     Done (Ran (Some rc) acts st)); cbv zeta.
  set (good := fun r : result ran => match r with Done r => ran_ok (default [] (Some (prog :: args))) a r | Aborted => strdup_fails W
    | Undefined => exists c, Some ctx = Some c /\ overruns calloc realloc sizeof_tracee kstat ids_text (a_launch a) (a_waits a) c w end).
  assert (forall c acts, not_started acts -> good (env_run c acts)) as Henv.
  { intros c acts Hn; pose proof (envonly_explained c (prog :: args) envp a acts Hn) as H2; unfold env_run.
    destruct (emuroot_run_envonly _ _ _ _ _ _ _) as [st rc]; exact H2. }
  match goal with |- match ?r with _ => _ end => change (good r) end.
  destruct (emuroot_probe_backend no_ptrace (a_probe a)); try by apply Henv.
  pose proof (run_ptrace_ok calloc realloc sizeof_tracee kstat ids_text (a_launch a) (a_waits a) ctx w Hlinks Hcalloc Hfetch (Hctx _ eq_refl)) as Hrun.
  destruct (emuroot_run_ptrace _ _ _ _ _ _ _ _ _) as [res| |]; cbn [mbind result_bind]; [|exact Hrun|by exists ctx].
  by eapply (traced_explained calloc realloc sizeof_tracee (prog :: args) a res good env_run).
Qed.

(** A kernel too old to follow forks: the guest runs untraced, and is killed. *)
Definition old_kernel : answers :=
  Answers (Probing None 6 (wait_status (probe_child true))) (Launch true 7 false false false) []
    [] (fun _ => true) 8 (wait_status (KILLED 11 true)).

Lemma run_starts_one_guest_witness :
  let r := emuroot_run (abi := x86_64_abi) calloc_64 (fun _ => true) 20000 x86_64_stat (fun _ _ => None) false
             (Some (toy_ctx (lit "/r"))) (Some [lit "sh"]) None old_kernel (toy_tracer toy_kernel) in
  ran_rc <$> r = Done (Some 139) /\ ran_acts <$> r = Done [KILL 7] /\
  match r with
  | Done x => ran_ok [lit "sh"] old_kernel x
  | Aborted => strdup_fails (tracer toy)
  | Undefined => exists c, Some (toy_ctx (lit "/r")) = Some c /\
      overruns (abi := x86_64_abi) calloc_64 (fun _ => true) 20000 x86_64_stat (fun _ _ => None) (a_launch old_kernel)
        (a_waits old_kernel) c (toy_tracer toy_kernel)
  end.
Proof.
  cbv zeta; split; [vm_compute; reflexivity|split; [vm_compute; reflexivity|]].
  apply (run_starts_one_guest (abi := x86_64_abi) (laws := toy_guest_laws) calloc_64 (fun _ => true) 20000 x86_64_stat
    (fun _ _ => None) false (Some (toy_ctx (lit "/r"))) (Some [lit "sh"]) None old_kernel (toy_tracer toy_kernel)).
  - intros w p; apply toy_links_nonempty.
  - intros n sz; apply calloc_64_available.
  - exact toy_fetch_wf.
  - intros c [= <-]; apply toy_ctx_wf; reflexivity.
  - intros x Hx; by apply not_elem_of_nil in Hx.
Defined.

(** *** A finding *)

(** With an environment of its own the guest gets none of the variables. *)
Lemma envp_hides_exports ctx argv e environ chdir forked status :
  0 <= forked -> st_env <$> (emuroot_run_envonly ctx argv (Some e) environ chdir forked status).1 = Some e.
Proof. intros Hf; unfold emuroot_run_envonly; by rewrite (proj2 (Z.ltb_ge _ _)) by done. Qed.
