(* ===== verification/Spawn.v ===== *)
(** Running a guest under a supervisor process ([src/spawn.c]): the
    descriptors and signals it starts with, and the status it hands back. *)

From Stdlib Require Import ZArith Lia Ascii String.
From stdpp Require Import base list numbers gmap.
From S2P Require Import Prelude Stdio Config Ptrace PtraceFacts Run RunFacts.
Local Open Scope Z_scope.

(** ** Descriptors *)

(** A table of descriptors; [F] is what a descriptor refers to. *)
Notation fds F := (gmap Z F).

Section fds.
Context {F : Type}.

Definition dup2 (from to : Z) (t : fds F) : option (fds F) := f ← t !! from; Some (<[to := f]> t).

(** [atoi] *)
Definition atoi (s : cstr) : Z := default 0 (fst <$> scan_d s).

(** sizeof fds / sizeof *fds *)
Definition ROUND : nat := 1024.

(** One reading of the directory: the descriptors to close, and is an entry left? *)
Fixpoint collect (entries : list cstr) (self : Z) (found : list Z) : list Z * bool :=
  match entries with
  | [] => (found, false)
  | e :: entries =>
      if (length found <? ROUND)%nat then
        let fd := atoi e in
        collect entries self (if (2 <? fd) && negb (fd =? self) then found ++ [fd] else found)
      else (found, true)
  end.

Definition close_all (l : list Z) (t : fds F) : fds F := foldr delete t l.

(** The entries of /proc/self/fd in the order of the directory. *)
Variable listing : fds F -> list cstr.

(** [None]: the fuel is used up. *)
Fixpoint close_rounds (fuel : nat) (self : Z) (t : fds F) : option (fds F) :=
  match fuel with
  | O => None
  | S f =>
      let '(found, more) := collect (listing t) self [] in
      let t := close_all found t in
      if more : bool then close_rounds f self t else Some t
  end.

(** [opened]: the directory's descriptor and file, unless it cannot be opened;
    [open_max]: sysconf(_SC_OPEN_MAX). *)
Definition close_inherited_fds (opened : option (Z * F)) (open_max : Z) (t : fds F) : option (fds F) :=
  match opened with
  | Some (self, d) =>
      let t := <[self := d]> t in
      t ← close_rounds (S (size t)) self t;
      Some (delete self t)
  | None =>
      let max := if (open_max <? 0) || (65536 <? open_max) then 65536 else open_max in
      Some (filter (fun '(fd, _) => ~ (3 <= fd < max)) t)
  end.

(** ** The supervisor *)

Record emuroot_spawn_opts_t := SpawnOpts {
  stdin_fd : Z; stdout_fd : Z; stderr_fd : Z;
  die_with_parent : bool
}.
Definition default_opts : emuroot_spawn_opts_t := SpawnOpts (-1) (-1) (-1) true.

(** [fd >= 0 && dup2(fd, to) < 0]: [None] exits with 127. *)
Definition place (fd to : Z) (t : fds F) : option (fds F) := if 0 <=? fd then dup2 fd to t else Some t.
Definition stdio (o : emuroot_spawn_opts_t) (t : fds F) : option (fds F) :=
  t ← place (stdin_fd o) 0 t; t ← place (stdout_fd o) 1 t; place (stderr_fd o) 2 t.

(** Signals: the blocked ones, and what each does. *)
Inductive disposition := SIG_DFL | SIG_IGN | SIG_HANDLER.
Record signals := Signals { blocked : list Z; on_signal : Z -> disposition }.

Definition reset_signals (s : signals) : signals :=
  Signals [] (fun sig =>
    if (1 <=? sig) && (sig <? 32) && negb (sig =? SIGKILL) && negb (sig =? SIGSTOP) then SIG_DFL else on_signal s sig).

(** What the supervisor is when it calls [emuroot_run]. *)
Record supervisor := Supervisor { sv_fds : fds F; sv_signals : signals; sv_pdeathsig : option Z; sv_leader : bool }.

(** The supervisor's exit code, with the guest run by [run]. *)
Definition supervise (opts : option emuroot_spawn_opts_t) (opened : option (Z * F)) (open_max : Z)
    (t : fds F) (s : signals) (run : supervisor -> Z) : option Z :=
  let o := default default_opts opts in
  match stdio o t with
  | None => Some 127
  | Some t =>
      t ← close_inherited_fds opened open_max t;
      let rc := run (Supervisor t (reset_signals s) (if die_with_parent o then Some SIGKILL else None) true) in
      Some (if rc <? 0 then 127 else Z.land rc 0xff)
  end.
End fds.

(** The caller's side: -1 with EINVAL, or what [fork] returned. *)
Definition emuroot_spawn (ctx : option emuroot_ctx) (argv : option (list cstr)) (forked : Z) : Z * option Z :=
  match ctx, argv with
  | Some _, Some (_ :: _) => (forked, None)
  | _, _ => (-1, Some EINVAL)
  end.

(** [waitpid]'s results one after the other: an errno or a status. *)
Fixpoint emuroot_wait (rs : list (Z + Z)) : option Z :=
  match rs with
  | [] => None
  | inl e :: rs => if e =? EINTR then emuroot_wait rs else Some (-1)
  | inr status :: _ => Some (exit_code (-1) status)
  end.

Definition SIGTERM : Z := 15.
(** The signal sent. *)
Definition emuroot_terminate (supervisor : Z) : Z * Z := (supervisor, SIGTERM).
