(* ===== verification/SpawnFacts.v ===== *)
(** The supervisor, its facts: which descriptors the guest starts with, and the
    way of its status back to the caller. *)

From Stdlib Require Import ZArith Lia Ascii String.
From stdpp Require Import base list numbers gmap.
From S2P Require Import Prelude Stdio Config Ptrace PtraceFacts Run RunFacts Spawn.
Local Open Scope Z_scope.

Lemma atoi_print fd : 0 <= fd < 2 ^ 31 -> atoi (print_u fd) = fd.
Proof. intros Hfd; unfold atoi; pose proof (scan_d_print fd [] Hfd I) as H; rewrite app_nil_r in H; by rewrite H. Qed.

Section fds.
Context {F : Type} (listing : fds F -> list cstr).
Implicit Types t : fds F.

(** Descriptors are non-negative ints. *)
Definition fds_ok t : Prop := forall fd, is_Some (t !! fd) -> 0 <= fd < 2 ^ 31.

(** What /proc/self/fd lists: "." and "..", and the open descriptors. *)
Definition lists_fds : Prop := forall t,
  (forall fd, is_Some (t !! fd) -> print_u fd ∈ listing t) /\
  (forall e, e ∈ listing t -> e = lit "." \/ e = lit ".." \/ exists fd, is_Some (t !! fd) /\ e = print_u fd).

(** The descriptors to close among some entries. *)
Definition picks (self : Z) (entries : list cstr) : list Z :=
  base.filter (fun fd => 2 < fd /\ fd <> self) (atoi <$> entries).

Lemma collect_spec self entries : forall found,
  exists pre suf, entries = pre ++ suf /\
    let '(l, more) := collect entries self found in
    l = found ++ picks self pre /\ (if more : bool then (ROUND <= length l)%nat else suf = []).
Proof.
  induction entries as [|e entries IH]; intros found; cbn [collect].
  { exists [], []; split; [done|]; by rewrite app_nil_r. }
  destruct (Nat.ltb_spec (length found) ROUND) as [Hlt|Hge].
  2: { exists [], (e :: entries); split; [done|]; by rewrite app_nil_r. }
  destruct (IH (if (2 <? atoi e) && negb (atoi e =? self) then found ++ [atoi e] else found)) as (pre & suf & -> & Hc).
  exists (e :: pre), suf; split; [done|]; cbv zeta in *; destruct (collect _ _ _) as [l more]; destruct Hc as [-> Hm]; split; [|done].
  unfold picks; cbn [fmap list_fmap]; rewrite filter_cons; case_decide as Hd.
  - rewrite (proj2 (Z.ltb_lt _ _)), (proj2 (Z.eqb_neq _ _)) by tauto; cbn [negb andb]; by rewrite <- app_assoc.
  - destruct (Z.ltb_spec 2 (atoi e)), (Z.eqb_spec (atoi e) self); try done; cbn [negb andb]; tauto.
Qed.

Lemma close_all_lookup l t fd : close_all l t !! fd = if decide (fd ∈ l) then None else t !! fd.
Proof.
  unfold close_all; induction l as [|x l IH]; cbn [foldr]; [done|].
  destruct (decide (x = fd)) as [->|Hne]; [rewrite lookup_delete_eq, decide_True by constructor; done|].
  rewrite lookup_delete_ne by done; rewrite IH; apply decide_ext; rewrite list.elem_of_cons; naive_solver.
Qed.

Lemma close_all_shrinks l t fd : fd ∈ l -> is_Some (t !! fd) -> (size (close_all l t) < size t)%nat.
Proof.
  intros Hl Ht; rewrite <- !size_dom; apply subset_size; split.
  - intros x Hx; apply elem_of_dom in Hx as [y Hy]; rewrite close_all_lookup in Hy; case_decide; [done|]; apply elem_of_dom; eauto.
  - intros Hsub; apply elem_of_dom, Hsub, elem_of_dom in Ht as [y Hy]; rewrite close_all_lookup in Hy; by case_decide.
Qed.

Lemma picks_open self t pre suf fd :
  lists_fds -> fds_ok t -> listing t = pre ++ suf -> fd ∈ picks self pre -> is_Some (t !! fd) /\ 2 < fd /\ fd <> self.
Proof.
  intros Hls Hok Heq [Hfd He]%list_elem_of_filter; split; [|done]; apply list_elem_of_fmap in He as (e & -> & He).
  destruct (proj2 (Hls t) e) as [->|[->|(fd & Ho & ->)]]; [rewrite Heq; apply elem_of_app; by constructor 1| | |].
  - exfalso; change (atoi (lit ".")) with 0 in Hfd; lia.
  - exfalso; change (atoi (lit "..")) with 0 in Hfd; lia.
  - by rewrite atoi_print by auto.
Qed.

Lemma close_rounds_spec self fuel : forall t,
  lists_fds -> fds_ok t -> (size t < fuel)%nat ->
  exists t', close_rounds listing fuel self t = Some t' /\
    forall fd, t' !! fd = if decide (2 < fd /\ fd <> self) then None else t !! fd.
Proof.
  induction fuel as [|fuel IH]; intros t Hls Hok Hf; [lia|]; cbn [close_rounds].
  destruct (collect_spec self (listing t) []) as (pre & suf & Heq & Hc); destruct (collect _ _ _) as [l more].
  destruct Hc as [-> Hm]; cbn [app] in *; pose proof (fun fd => picks_open self t pre suf fd Hls Hok Heq) as Hp.
  destruct more; cbn [app] in *.
  - destruct (picks self pre) as [|x l] eqn:El; [unfold ROUND in Hm; simpl in Hm; lia|].
    destruct (IH (close_all (x :: l) t)) as (t' & -> & Ht'); [done| | |].
    + intros fd; rewrite close_all_lookup; case_decide; [by intros [? ?]|apply Hok].
    + pose proof (close_all_shrinks (x :: l) t x ltac:(constructor) (proj1 (Hp x ltac:(constructor)))); lia.
    + exists t'; split; [done|]; intros fd; rewrite Ht', close_all_lookup; case_decide; [done|].
      case_decide as Hin; [|done]; apply Hp in Hin; tauto.
  - subst suf; rewrite app_nil_r in Heq; eexists; split; [done|]; intros fd; rewrite close_all_lookup.
    destruct (decide (2 < fd /\ fd <> self)) as [Hd|Hd]; case_decide as Hin; try done.
    + destruct (t !! fd) as [f|] eqn:Ef; [|done]; exfalso; apply Hin; apply list_elem_of_filter; split; [done|].
      apply list_elem_of_fmap; exists (print_u fd); split; [by rewrite atoi_print by eauto|].
      rewrite <- Heq; apply (proj1 (Hls t)); eauto.
    + by apply Hp in Hin as (_ & Hin).
Qed.

(** The descriptors that are looked at: all of them, or those below the limit. *)
Definition reached (opened : option (Z * F)) (open_max fd : Z) : bool :=
  match opened with
  | Some _ => true
  | None => fd <? (if (open_max <? 0) || (65536 <? open_max) then 65536 else open_max)
  end.

(** Of those only 0, 1 and 2 stay open. *)
Lemma close_inherited_spec opened open_max t :
  lists_fds -> fds_ok t -> (forall self d, opened = Some (self, d) -> 0 <= self < 2 ^ 31 /\ t !! self = None) ->
  exists t', close_inherited_fds listing opened open_max t = Some t' /\
    forall fd, t' !! fd = if (2 <? fd) && reached opened open_max fd then None else t !! fd.
Proof.
  intros Hls Hok Hop; unfold close_inherited_fds, reached; destruct opened as [[self d]|].
  - destruct (Hop self d eq_refl) as [Hself Hnew].
    destruct (close_rounds_spec self (S (size (<[self := d]> t))) (<[self := d]> t)) as (t' & -> & Ht'); [done| |lia|].
    + intros fd; destruct (decide (self = fd)) as [->|Hne]; [lia|rewrite lookup_insert_ne by done; apply Hok].
    + eexists; split; [done|]; intros fd; rewrite andb_true_r; destruct (decide (self = fd)) as [->|Hne].
      * rewrite lookup_delete_eq, Hnew; by case_ifs.
      * rewrite lookup_delete_ne, Ht', lookup_insert_ne by done; case_decide; destruct (Z.ltb_spec 2 fd); try done; lia.
  - eexists; split; [done|]; intros fd; set (max := if _ : bool then _ else _); destruct (t !! fd) as [f|] eqn:Ef.
    + destruct (Z.ltb_spec 2 fd); destruct (Z.ltb_spec fd max); cbn [andb].
      * apply map_lookup_filter_None; constructor 2; intros x _ Hx; apply Hx; lia.
      * apply map_lookup_filter_Some; split; [done|lia].
      * apply map_lookup_filter_Some; split; [done|lia].
      * apply map_lookup_filter_Some; split; [done|lia].
    + rewrite (proj2 (map_lookup_filter_None _ _ _)) by (by constructor 1); by case_ifs.
Qed.
End fds.

(** ** Standard input, output and error *)

(** A given descriptor is not one of 0, 1 and 2; a negative one keeps what the
    caller has. *)
Definition given_ok (fd : Z) : Prop := fd < 0 \/ 2 < fd.
Definition opts_ok (o : emuroot_spawn_opts_t) : Prop :=
  given_ok (stdin_fd o) /\ given_ok (stdout_fd o) /\ given_ok (stderr_fd o).

(** The given descriptors are open. *)
Definition given_open {F} (t : fds F) (fd : Z) : bool := (fd <? 0) || bool_decide (is_Some (t !! fd)).
Definition all_open {F} (t : fds F) (o : emuroot_spawn_opts_t) : bool :=
  given_open t (stdin_fd o) && given_open t (stdout_fd o) && given_open t (stderr_fd o).

(** What is at [fd] once they are in place. *)
Definition given {F} (t : fds F) (fd to : Z) : option F := if fd <? 0 then t !! to else t !! fd.
Definition guest_fd {F} (t : fds F) (o : emuroot_spawn_opts_t) (fd : Z) : option F :=
  if fd =? 0 then given t (stdin_fd o) 0
  else if fd =? 1 then given t (stdout_fd o) 1
  else if fd =? 2 then given t (stderr_fd o) 2
  else t !! fd.

Lemma place_spec {F} (t0 t : fds F) fd to :
  0 <= to <= 2 -> given_ok fd -> (forall x, 2 < x -> t !! x = t0 !! x) -> t !! to = t0 !! to ->
  if given_open t0 fd then exists t', place fd to t = Some t' /\ t' !! to = given t0 fd to /\ forall x, x <> to -> t' !! x = t !! x
  else place fd to t = None.
Proof.
  intros Hto Hg Hhigh Hlow; unfold given_open, place, given, dup2; destruct Hg as [Hneg|Hpos].
  - rewrite (proj2 (Z.leb_gt _ _)), (proj2 (Z.ltb_lt _ _)) by lia; eexists; split; [done|]; done.
  - rewrite (proj2 (Z.leb_le _ _)), (proj2 (Z.ltb_ge _ _)) by lia; rewrite Hhigh by lia; cbn [orb].
    destruct (t0 !! fd) as [f|]; [rewrite bool_decide_eq_true_2 by eauto|by rewrite bool_decide_eq_false_2 by (by intros [? ?])].
    cbn [mbind option_bind]; eexists; split; [done|]; rewrite lookup_insert_eq; split; [done|]; intros x Hx; by rewrite lookup_insert_ne.
Qed.

Lemma stdio_spec {F} (t : fds F) o :
  opts_ok o -> if all_open t o then exists t', stdio o t = Some t' /\ forall fd, t' !! fd = guest_fd t o fd else stdio o t = None.
Proof.
  intros (H0 & H1 & H2); unfold stdio, all_open.
  pose proof (place_spec t t (stdin_fd o) 0 ltac:(lia) H0 ltac:(done) eq_refl) as P0.
  destruct (given_open t (stdin_fd o)); [destruct P0 as (t1 & -> & E1 & K1)|by rewrite P0]; cbn [mbind option_bind andb].
  pose proof (place_spec t t1 (stdout_fd o) 1 ltac:(lia) H1 ltac:(intros; apply K1; lia) ltac:(apply K1; lia)) as P1.
  destruct (given_open t (stdout_fd o)); [destruct P1 as (t2 & -> & E2 & K2)|by rewrite P1]; cbn [mbind option_bind andb].
  pose proof (place_spec t t2 (stderr_fd o) 2 ltac:(lia) H2 ltac:(intros; rewrite K2, K1 by lia; done) ltac:(rewrite K2, K1 by lia; done)) as P2.
  destruct (given_open t (stderr_fd o)); [destruct P2 as (t3 & -> & E3 & K3)|exact P2].
  exists t3; split; [done|]; intros fd; unfold guest_fd.
  destruct (Z.eqb_spec fd 0) as [->|]; [by rewrite K3, K2, E1 by lia|].
  destruct (Z.eqb_spec fd 1) as [->|]; [by rewrite K3, E2 by lia|].
  destruct (Z.eqb_spec fd 2) as [->|]; [exact E3|]; by rewrite K3, K2, K1 by lia.
Qed.

(** ** The way back *)

Lemma wait_interrupted n rest : emuroot_wait (repeat (inl EINTR) n ++ rest) = emuroot_wait rest.
Proof. by induction n. Qed.

(** What the caller learns of a result. *)
Definition reported (rc : Z) : Z := if rc <? 0 then 127 else rc.

Lemma wait_reported n rest rc :
  rc < 256 ->
  emuroot_wait (repeat (inl EINTR) n ++ inr (wait_status (EXITED (if rc <? 0 then 127 else Z.land rc 0xff))) :: rest) =
  Some (reported rc).
Proof.
  intros Hrc; rewrite wait_interrupted; cbn [emuroot_wait]; rewrite exit_code_exited; unfold reported.
  destruct (Z.ltb_spec rc 0); [done|]; change 0xff with (Z.ones 8); rewrite !Z.land_ones by lia.
  rewrite Zmod_mod, Z.mod_small by lia; done.
Qed.

(** ** Properties *)

(** C20: what a supervised guest starts with, and how its status comes back. Let
    the given descriptors be other ones than 0, 1 and 2. If one of them is not
    open, the supervisor ends with 127 and runs nothing. Otherwise it always gets
    to [emuroot_run], whatever else the host program has open and in whatever
    order /proc lists it: 0, 1 and 2 are then the given descriptors, or the
    caller's, and no other is open - except, when /proc/self/fd cannot be read,
    those from the limit (sysconf, at most 65536) on. No signal is blocked;
    signals 1 to 31 have their default action, those from 32 on the caller's.
    [emuroot_wait] returns the result of [emuroot_run], interrupted or not, or
    127 if that failed. *)
Theorem supervised_run {F} (listing : fds F -> list cstr) (opts : option emuroot_spawn_opts_t)
    (opened : option (Z * F)) (open_max : Z) (t : fds F) (s : signals) (run : supervisor -> Z) :
  let o := default default_opts opts in
  lists_fds listing -> fds_ok t -> opts_ok o ->
  (forall self d, opened = Some (self, d) -> 0 <= self < 2 ^ 31 /\ guest_fd t o self = None) ->
  if all_open t o then
    exists sv code, supervise listing opts opened open_max t s run = Some code /\
      (forall fd, sv_fds sv !! fd = if (2 <? fd) && reached opened open_max fd then None else guest_fd t o fd) /\
      blocked (sv_signals sv) = [] /\
      (forall sig, sig <> SIGKILL -> sig <> SIGSTOP -> 1 <= sig ->
         on_signal (sv_signals sv) sig = if sig <? 32 then SIG_DFL else on_signal s sig) /\
      (sv_pdeathsig sv = Some SIGKILL <-> die_with_parent o = true) /\
      forall n rest, run sv < 256 ->
        emuroot_wait (repeat (inl EINTR) n ++ inr (wait_status (EXITED code)) :: rest) = Some (reported (run sv))
  else supervise listing opts opened open_max t s run = Some 127.
Proof.
  intros o Hls Hok Ho Hopen; unfold supervise; fold o; pose proof (stdio_spec t o Ho) as Hstdio.
  destruct (all_open t o); [destruct Hstdio as (t1 & -> & Hplaced)|by rewrite Hstdio].
  assert (fds_ok t1) as Hok1.
  { intros fd; rewrite Hplaced; unfold guest_fd; destruct (Z.eqb_spec fd 0), (Z.eqb_spec fd 1), (Z.eqb_spec fd 2); try lia; apply Hok. }
  destruct (close_inherited_spec listing opened open_max t1 Hls Hok1) as (t2 & -> & Ht2).
  { intros self d E; rewrite Hplaced; by eapply Hopen. }
  cbn [mbind option_bind]; eexists (Supervisor t2 (reset_signals s) (if die_with_parent o then Some SIGKILL else None) true), _.
  split; [reflexivity|]; cbn [sv_fds sv_signals sv_pdeathsig reset_signals blocked on_signal].
  split; [|split; [done|split; [|split; [by destruct (die_with_parent o)|intros n rest Hrc; by apply wait_reported]]]].
  - intros fd; by rewrite Ht2, Hplaced.
  - intros sig Hk Hst Hs; rewrite (proj2 (Z.leb_le _ _)), !(proj2 (Z.eqb_neq _ _)) by done; cbn [negb andb].
    by rewrite !andb_true_r.
Qed.

(** A JVM's descriptors: a pipe to become the guest's input, and a socket. *)
Definition proc_listing (t : fds nat) : list cstr := [lit "."; lit ".."] ++ (print_u <$> (map_to_list t).*1).
Definition jvm_fds : fds nat := list_to_map [(0, 10%nat); (1, 11%nat); (2, 12%nat); (5, 15%nat); (9, 19%nat)].
Definition jvm_opts : emuroot_spawn_opts_t := SpawnOpts 5 (-1) (-1) true.

Lemma proc_lists_fds : lists_fds proc_listing.
Proof.
  intros t; unfold proc_listing; split.
  - intros fd [f Hf]; apply elem_of_app; constructor 2; apply list_elem_of_fmap_2.
    apply list_elem_of_fmap; exists (fd, f); split; [done|by apply elem_of_map_to_list].
  - intros e [He|He]%elem_of_app.
    + apply list.elem_of_cons in He as [->|He]; [by constructor 1|apply list_elem_of_singleton in He as ->; by constructor 2; constructor 1].
    + constructor 2; constructor 2; apply list_elem_of_fmap in He as (fd & -> & He); exists fd; split; [|done].
      apply list_elem_of_fmap in He as ([x f] & -> & Hx); apply elem_of_map_to_list in Hx; by exists f.
Defined.

Lemma jvm_fds_ok : fds_ok jvm_fds.
Proof.
  intros fd [f Hf]; apply elem_of_list_to_map_2, list_elem_of_In in Hf.
  cbn [In] in Hf; destruct_or! Hf; try done; injection Hf as <- _; lia.
Defined.

Lemma supervised_run_witness :
  supervise proc_listing (Some jvm_opts) (Some (10, 20%nat)) 1024 jvm_fds (Signals [17] (fun _ => SIG_IGN)) (fun sv => 130) = Some 130 /\
  exists sv code,
    supervise proc_listing (Some jvm_opts) (Some (10, 20%nat)) 1024 jvm_fds (Signals [17] (fun _ => SIG_IGN)) (fun sv => 130) = Some code /\
    (forall fd, sv_fds sv !! fd = if (2 <? fd) && true then None else guest_fd jvm_fds jvm_opts fd) /\
    blocked (sv_signals sv) = [] /\
    (forall sig, sig <> SIGKILL -> sig <> SIGSTOP -> 1 <= sig ->
       on_signal (sv_signals sv) sig = if sig <? 32 then SIG_DFL else SIG_IGN) /\
    (sv_pdeathsig sv = Some SIGKILL <-> die_with_parent jvm_opts = true) /\
    forall n rest, 130 < 256 ->
      emuroot_wait (repeat (inl EINTR) n ++ inr (wait_status (EXITED code)) :: rest) = Some (reported 130).
Proof.
  split; [vm_compute; reflexivity|].
  apply (supervised_run proc_listing (Some jvm_opts) (Some (10, 20%nat)) 1024 jvm_fds (Signals [17] (fun _ => SIG_IGN)) (fun sv => 130)).
  - exact proc_lists_fds.
  - exact jvm_fds_ok.
  - split; [constructor 2; reflexivity|split; constructor 1; reflexivity].
  - intros self d [= <- _]; split; [lia|reflexivity].
Defined.

(** *** A finding *)

(** The descriptors are put in place one after the other: asked to exchange 0
    and 1, both become what 1 was. *)
Lemma exchanged_stdio {F} (a b c : F) :
  let t := list_to_map [(0, a); (1, b); (2, c)] : fds F in
  exists t', stdio (SpawnOpts 1 0 (-1) true) t = Some t' /\ t' !! 0 = Some b /\ t' !! 1 = Some b.
Proof. eexists; split; [reflexivity|split; reflexivity]. Qed.
