(* ===== verification/Probe.v ===== *)
(** The diagnosis ([src/probe.c]): what is tried in a throwaway child, and the
    report.  What the kernel answers to each attempt is an input. *)

From Stdlib Require Import ZArith Lia Ascii String.
From stdpp Require Import base list numbers.
From S2P Require Import Prelude Stdio Config Arch Seccomp Ptrace Run.
Local Open Scope Z_scope.

Definition EMUROOT_VERSION_MAJOR : Z := 0.
Definition EMUROOT_VERSION_MINOR : Z := 1.
Definition EMUROOT_VERSION_PATCH : Z := 0.

Definition version : cstr :=
  print_d EMUROOT_VERSION_MAJOR ++ lit "." ++ print_d EMUROOT_VERSION_MINOR ++ lit "." ++ print_d EMUROOT_VERSION_PATCH.
Definition emuroot_version_string (len : Z) : cstr := snprintf len (lit "emuroot " ++ version).

(** ** The attempts *)

(** What works. *)
Record mechanisms := Mechanisms {
  m_traced : bool; m_regset : bool; m_getregs : bool;
  m_vm : bool; m_procmem : bool; m_peek : bool;
  m_follow : bool; m_exitkill : bool
}.
Definition nothing : mechanisms := Mechanisms false false false false false false false false.

(** The value the probe reads out of its child. *)
Definition probe_value : Z := 0x5a5a1234.

(** The kernel's answers for a stopped child: whether a request succeeds, and
    what a read of [probe_value]'s address gives. *)
Record child_answers := ChildAnswers {
  c_regset : bool; c_getregs : bool;
  c_vm : option Z; c_procmem : option Z; c_peek : option Z;
  c_options : bool; c_exitkill : bool
}.

Definition reads_probe (r : option Z) : bool := bool_decide (r = Some probe_value).

(** [pid]: fork's result; [waited]: waitpid's result and the status. *)
Definition try_tracing (pid : Z) (waited status : Z) (c : child_answers) : mechanisms :=
  if (0 <? pid) && (waited =? pid) && WIFSTOPPED status then
    Mechanisms true (c_regset c) (c_getregs c) (reads_probe (c_vm c)) (reads_probe (c_procmem c)) (reads_probe (c_peek c))
      (c_options c) (c_exitkill c)
  else nothing.

(** The second child exits with 0 if the filter can be installed. *)
Definition seccomp_child (no_new_privs : bool) (set_filter : list sock_filter -> bool) : fate :=
  EXITED (if emuroot_seccomp_installable no_new_privs set_filter then 0 else 1).
Definition try_seccomp (pid waited status : Z) : bool :=
  (0 <? pid) && (waited =? pid) && (WIFEXITED status && (WEXITSTATUS status =? 0)).

(** ** The report *)

(** %-28s *)
Definition pad (n : Z) (s : cstr) : cstr := s ++ repeat " "%char (Z.to_nat (n - strlen s)).

(** The buffer and how much of it is used; [None]: a write outside of it. *)
Definition REPORT_SIZE : Z := 2048.
Definition SAY (text : cstr) (r : cstr * Z) : option (cstr * Z) :=
  let '(out, n) := r in
  if n <=? REPORT_SIZE then Some (ztake n out ++ snprintf (REPORT_SIZE - n) text, n + strlen text) else None.

Definition row (name : cstr) (ok : bool) (note : cstr) : cstr :=
  lit "  " ++ pad 28 name ++ lit " " ++ (if ok then lit "yes" else lit "no ") ++
  (if bool_decide (note = []) then [] else lit "  - ") ++ note ++ ["010"%char].

Definition title (a : arch) (release : cstr) : cstr :=
  lit "emuroot " ++ version ++ lit " on " ++ EMU_ARCH_NAME a ++ lit ", Linux " ++ release ++ ["010"%char].

Definition rows (m : mechanisms) (seccomp supported : bool) : list cstr := [
  row (lit "trace a child (ptrace)") (m_traced m)
    (if m_traced m then [] else lit "full emulation unavailable; env-only fallback is used");
  row (lit "follow fork/clone") (m_follow m) [];
  row (lit "registers: GETREGSET") (m_regset m)
    (if m_regset m then [] else if m_getregs m then lit "older kernel; PTRACE_GETREGS is used" else []);
  row (lit "registers: GETREGS") (m_getregs m) [];
  row (lit "guest memory: process_vm") (m_vm m) (if m_vm m then [] else lit "denied here; the next method is used");
  row (lit "guest memory: /proc/PID/mem") (m_procmem m) [];
  row (lit "guest memory: PEEK/POKE") (m_peek m) (lit "always allowed for a tracer");
  row (lit "kill guests if we die") (m_exitkill m) (if m_exitkill m then [] else lit "kernel before 3.8; emuroot does it itself");
  row (lit "seccomp fast path") (seccomp && supported)
    (if seccomp then if supported then [] else lit "kernel before 4.8; every syscall is traced"
     else lit "not permitted here; every syscall is traced")
].

Definition usable (m : mechanisms) : bool :=
  m_traced m && m_follow m && (m_regset m || m_getregs m) && (m_vm m || m_procmem m || m_peek m).

Definition verdict (m : mechanisms) : cstr :=
  lit "=> " ++ (if usable m then lit "full emulation available" else lit "degraded: env-only fallback") ++ ["010"%char].

Fixpoint say_all (texts : list cstr) (r : cstr * Z) : option (cstr * Z) :=
  match texts with
  | [] => Some r
  | t :: texts => r ← SAY t r; say_all texts r
  end.

(** What the system answers. *)
Record system := System {
  s_release : cstr;
  s_pid : Z; s_waited : Z; s_status : Z;             (* the traced child *)
  s_child : child_answers;
  s_pid2 : Z; s_waited2 : Z; s_status2 : Z           (* the one that tries seccomp *)
}.

(** The report as it is stored in [buf[len]], and the result. *)
Definition emuroot_diagnose (a : arch) (s : system) (len : Z) : option (cstr * Z) :=
  let m := try_tracing (s_pid s) (s_waited s) (s_status s) (s_child s) in
  let seccomp := try_seccomp (s_pid2 s) (s_waited2 s) (s_status2 s) in
  let supported := emuroot_seccomp_supported (Some (s_release s)) in
  '(out, _) ← say_all (title a (s_release s) :: rows m seccomp supported ++ [verdict m]) ([], 0);
  Some (snprintf len out, if usable m then 0 else 1).

(** Built without the engine ([src/emuroot.c]). *)
Definition emuroot_diagnose_no_ptrace (len : Z) : cstr * Z :=
  (snprintf len (lit "emuroot built without the ptrace engine (non-Linux): env-only mode" ++ ["010"%char]), 1).

(** ** Lemmas *)

Lemma say_all_fits texts : forall out,
  strlen out + strlen (concat texts) < REPORT_SIZE ->
  say_all texts (out, strlen out) = Some (out ++ concat texts, strlen (out ++ concat texts)).
Proof.
  induction texts as [|t texts IH]; intros out Hl; cbn [say_all concat]; [by rewrite app_nil_r|].
  cbn [concat] in Hl; rewrite strlen_app in Hl; pose proof (strlen_nonneg (concat texts)); pose proof (strlen_nonneg t).
  unfold SAY at 1; rewrite (proj2 (Z.leb_le _ _)) by lia; cbn [mbind option_bind].
  rewrite ztake_ge, snprintf_fits by lia; rewrite <- strlen_app, IH by (rewrite strlen_app; lia); by rewrite app_assoc.
Qed.

Lemma strlen_pad n s : strlen s <= n -> strlen (pad n s) = n.
Proof.
  intros Hs; unfold pad; rewrite strlen_app; unfold strlen at 2; rewrite repeat_length; pose proof (strlen_nonneg s); lia.
Qed.

Lemma row_length name ok note : strlen name <= 28 -> strlen note <= 56 -> strlen (row name ok note) <= 95.
Proof.
  intros Hn Ho; unfold row; rewrite !strlen_app, strlen_pad by done.
  change (strlen (lit "  ")) with 2; change (strlen (lit " ")) with 1; change (strlen ["010"%char]) with 1.
  replace (strlen (if ok then lit "yes" else lit "no ")) with 3 by (by destruct ok).
  case_bool_decide; [change (strlen []) with 0|change (strlen (lit "  - ")) with 4]; lia.
Qed.

Lemma rows_length m seccomp supported : strlen (concat (rows m seccomp supported)) <= 9 * 95.
Proof.
  unfold rows; cbn [concat]; rewrite !strlen_app; change (strlen []) with 0.
  assert (forall name ok note, (strlen name <=? 28) && (strlen note <=? 56) = true -> strlen (row name ok note) <= 95) as Hr.
  { intros name ok note [? ?]%andb_true_iff; by apply row_length; apply Z.leb_le. }
  repeat match goal with |- context [strlen (row ?n ?o ?x)] =>
    let H := fresh in
    assert (strlen (row n o x) <= 95) as H
      by (apply Hr; destruct m as [[] ? [] [] ? ? ? []], seccomp, supported; first [reflexivity|case_ifs; reflexivity]);
    revert H; generalize (strlen (row n o x)); intros ? H
  end; lia.
Qed.

Lemma title_length a release : strlen (title a release) <= 60 + strlen release.
Proof.
  unfold title; rewrite !strlen_app; replace (strlen version) with 5 by reflexivity.
  change (strlen (lit "emuroot ")) with 8; change (strlen (lit " on ")) with 4; change (strlen (lit ", Linux ")) with 8.
  change (strlen ["010"%char]) with 1; assert (strlen (EMU_ARCH_NAME a) <= 12) by (by destruct a); lia.
Qed.

Lemma verdict_length m : strlen (verdict m) <= 40.
Proof. unfold verdict; by destruct (usable m). Qed.

(** ** Properties *)

(** The text of a report. *)
Definition report (a : arch) (s : system) : cstr :=
  let m := try_tracing (s_pid s) (s_waited s) (s_status s) (s_child s) in
  title a (s_release s) ++
  concat (rows m (try_seccomp (s_pid2 s) (s_waited2 s) (s_status2 s)) (emuroot_seccomp_supported (Some (s_release s)))) ++ verdict m.

(** C38: the diagnosis never writes outside its buffer. Whatever the system
    answers, the report fits the 2048 bytes it is put together in and is
    complete, so a caller with 2048 bytes gets all of it and one with less a
    prefix; and full emulation is reported (0) exactly when the child could be
    traced and followed, one way to reach registers works and one way to reach
    memory reads the right value - in which case a run chooses tracing too. *)
Theorem diagnose_report (a : arch) (s : system) (len : Z) :
  strlen (s_release s) <= 64 ->
  exists text rc, emuroot_diagnose a s len = Some (text, rc) /\ text = snprintf len (report a s) /\
    strlen (report a s) < REPORT_SIZE /\ (len = REPORT_SIZE -> text = report a s) /\
    let c := s_child s in
    (rc = 0 <-> (0 < s_pid s /\ s_waited s = s_pid s /\ WIFSTOPPED (s_status s) = true) /\ c_options c = true /\
                (c_regset c = true \/ c_getregs c = true) /\
                (c_vm c = Some probe_value \/ c_procmem c = Some probe_value \/ c_peek c = Some probe_value)) /\
    (rc = 0 -> emuroot_probe_backend false (Probing None (s_pid s) (s_status s)) = EMUROOT_BACKEND_PTRACE).
Proof.
  intros Hrel; unfold emuroot_diagnose; set (m := try_tracing _ _ _ _); set (sc := try_seccomp _ _ _).
  set (sup := emuroot_seccomp_supported _).
  pose proof (title_length a (s_release s)); pose proof (rows_length m sc sup); pose proof (verdict_length m).
  assert (concat (title a (s_release s) :: rows m sc sup ++ [verdict m]) = report a s) as Hcat.
  { cbn [concat]; rewrite concat_app; cbn [concat]; by rewrite app_nil_r. }
  assert (strlen (report a s) < REPORT_SIZE) as Hlen.
  { unfold report, REPORT_SIZE; fold m sc sup; rewrite !strlen_app; lia. }
  pose proof (say_all_fits (title a (s_release s) :: rows m sc sup ++ [verdict m]) []) as Hsay.
  change (strlen (@nil ascii)) with 0 in Hsay; rewrite Hcat in Hsay; rewrite Hsay by done; cbn [mbind option_bind app].
  assert (usable m = true <-> (0 < s_pid s /\ s_waited s = s_pid s /\ WIFSTOPPED (s_status s) = true) /\ c_options (s_child s) = true /\
    (c_regset (s_child s) = true \/ c_getregs (s_child s) = true) /\
    (c_vm (s_child s) = Some probe_value \/ c_procmem (s_child s) = Some probe_value \/ c_peek (s_child s) = Some probe_value)) as Hu.
  { unfold usable, m, try_tracing.
    destruct ((0 <? s_pid s) && (s_waited s =? s_pid s) && WIFSTOPPED (s_status s)) eqn:E; cbn [m_traced m_follow m_regset m_getregs m_vm m_procmem m_peek nothing];
      rewrite ?andb_true_iff, ?orb_true_iff; unfold reads_probe; rewrite ?bool_decide_eq_true.
    - rewrite !andb_true_iff, Z.ltb_lt, Z.eqb_eq in E; tauto.
    - split; [intros (((Hx & _) & _) & _); done|intros [(Hp & Hw & Hst) _]; exfalso].
      apply Z.ltb_lt in Hp; apply Z.eqb_eq in Hw; by rewrite Hp, Hw, Hst in E. }
  eexists _, _; split; [reflexivity|split; [reflexivity|split; [done|split; [|split]]]].
  - intros ->; by apply snprintf_fits.
  - rewrite <- Hu; by destruct (usable m).
  - destruct (usable m) eqn:Eu; [intros _|done]; destruct (proj1 Hu eq_refl) as [(Hp & _ & Hst) _].
    unfold emuroot_probe_backend; cbn [probe_env probe_fork probe_status]; rewrite bool_decide_eq_false_2 by done.
    by rewrite (proj2 (Z.ltb_ge _ _)), Hst by lia.
Qed.

(** An old Android kernel in a sandbox: no GETREGSET, no process_vm_readv. *)
Definition android_system : system :=
  System (lit "3.10.54") 40 40 (wait_status (STOPPED SIGSTOP))
    (ChildAnswers false true None (Some probe_value) (Some probe_value) true true) 41 41 (wait_status (EXITED 1)).

Lemma diagnose_report_witness :
  exists text rc, emuroot_diagnose ARM android_system 2048 = Some (text, rc) /\ text = snprintf 2048 (report ARM android_system) /\
    strlen (report ARM android_system) < REPORT_SIZE /\ (2048 = REPORT_SIZE -> text = report ARM android_system) /\
    let c := s_child android_system in
    (rc = 0 <-> (0 < s_pid android_system /\ s_waited android_system = s_pid android_system /\
                 WIFSTOPPED (s_status android_system) = true) /\ c_options c = true /\
                (c_regset c = true \/ c_getregs c = true) /\
                (c_vm c = Some probe_value \/ c_procmem c = Some probe_value \/ c_peek c = Some probe_value)) /\
    (rc = 0 -> emuroot_probe_backend false (Probing None (s_pid android_system) (s_status android_system)) = EMUROOT_BACKEND_PTRACE).
Proof. apply (diagnose_report ARM android_system 2048); discriminate. Defined.

Example android_report : snd <$> emuroot_diagnose ARM android_system 2048 = Some 0.
Proof. vm_compute. reflexivity. Qed.
