(* ===== verification/Cli.v ===== *)
(** The command line ([src/main.c]): the options, as [getopt] delivers them,
    turned into a context, and the run of the command. *)

From Stdlib Require Import ZArith Lia Ascii String.
From stdpp Require Import base list numbers.
From S2P Require Import Prelude Stdio Owners Config Arch Probe.
Local Open Scope char_scope.
Local Open Scope Z_scope.

(** ** [getopt] *)

(** The options of "+r:b:u:n:s:vVhD": does one take an argument?  The "+" makes
    [getopt] stop at the first argument that is not an option. *)
Definition takes_argument (c : ascii) : option bool :=
  if existsb (Ascii.eqb c) ["r"; "b"; "u"; "n"; "s"] then Some true
  else if existsb (Ascii.eqb c) ["v"; "V"; "h"; "D"] then Some false
  else None.

(** Where [getopt] is: the rest of a cluster such as "-vr", and argv[optind..]. *)
Record scan := Scan { nextchar : cstr; args : list cstr }.

(** An option and its argument ("?" for a wrong one), or -1. *)
Inductive opt := OPT (c : ascii) (optarg : cstr) | DONE.

(** The next option in the cluster [c :: next]. *)
Definition take_option (c : ascii) (next : cstr) (args : list cstr) : opt * scan :=
  match takes_argument c with
  | None => (OPT "?" [], Scan next args)
  | Some false => (OPT c [], Scan next args)
  | Some true =>
      match next, args with
      | _ :: _, _ => (OPT c next, Scan [] args)
      | [], a :: args => (OPT c a, Scan [] args)
      | [], [] => (OPT "?" [], Scan [] [])
      end
  end.

Definition getopt (s : scan) : opt * scan :=
  match nextchar s with
  | c :: next => take_option c next (args s)
  | [] =>
      match args s with
      | ("-" :: c :: cs) :: rest =>
          if Ascii.eqb c "-" && bool_decide (cs = []) then (DONE, Scan [] rest) else take_option c cs rest
      | _ => (DONE, s)
      end
  end.

(** ** Arguments *)

(** [strchr(optarg, ':')]: what is before and after it. *)
Fixpoint split_colon (s : cstr) : option (cstr * cstr) :=
  match s with
  | [] => None
  | c :: s => if Ascii.eqb c ":" then Some ([], s) else '(a, b) ← split_colon s; Some (c :: a, b)
  end.

(** sscanf(optarg, "%u:%u", ...) == 2 *)
Definition scan_ids (s : cstr) : option (Z * Z) :=
  '(u, rest) ← scan_u s;
  match rest with
  | ":" :: rest => '(g, _) ← scan_u rest; Some (u, g)
  | _ => None
  end.

(** %64[^:]: at least one character, at most 64. *)
Definition scan_field (s : cstr) : option (cstr * cstr) :=
  let x := ztake 64 (take_while (fun c => negb (Ascii.eqb c ":")) s) in
  match x with [] => None | _ => Some (x, zdrop (strlen x) s) end.

(** sscanf(optarg, "%64[^:]:%64[^:]:%64[^:]", ...): the fields not read stay empty. *)
Definition scan_uname (s : cstr) : cstr * cstr * cstr :=
  match scan_field s with
  | Some (sysname, ":" :: s) =>
      match scan_field s with
      | Some (release, ":" :: s) =>
          match scan_field s with
          | Some (machine, _) => (sysname, release, machine)
          | None => (sysname, release, [])
          end
      | Some (release, _) => (sysname, release, [])
      | None => (sysname, [], [])
      end
  | Some (sysname, _) => (sysname, [], [])
  | None => ([], [], [])
  end.

(** ** [main] *)

(** How the options end: an exit status and standard output, or a command. *)
Inductive parsed := EXIT (status : Z) (out : cstr) | COMMAND (ctx : emuroot_ctx) (argv : list cstr).

Section main.
(** [emuroot_diagnose(report, 2048)] *)
Variable diagnose : option (cstr * Z).

(** One option: a new context, or the end. *)
Definition on_option (c : ascii) (optarg : cstr) (ctx : emuroot_ctx) : option (emuroot_ctx + parsed) :=
  match c with
  | "r" => Some (inl (emuroot_set_root ctx (Some optarg)).1)
  | "b" =>
      Some (match split_colon optarg with
            | None => inr (EXIT 2 [])
            | Some (host, guest) => inl (emuroot_bind ctx (Some host) (Some guest)).1
            end)
  | "u" =>
      Some (match scan_ids optarg with
            | None => inr (EXIT 2 [])
            | Some (uid, gid) => inl (emuroot_set_fake_ids ctx uid gid).1
            end)
  | "n" =>
      let '(sysname, release, machine) := scan_uname optarg in
      Some (inl (emuroot_set_fake_uname ctx (Some sysname) (Some release) (Some machine)).1)
  | "s" => Some (inl (emuroot_set_ids_file ctx (Some optarg)).1)
  | "D" => '(report, rc) ← diagnose; Some (inr (EXIT rc report))
  | "v" => Some (inl (emuroot_set_verbose ctx 1).1)
  | "V" => Some (inr (EXIT 0 (emuroot_version_string 64 ++ ["010"])))
  | "h" => Some (inr (EXIT 0 []))
  | _ => Some (inr (EXIT 2 []))
  end%char.

(** The loop over the options; [None]: out of fuel, or no report. *)
Fixpoint options (fuel : nat) (s : scan) (ctx : emuroot_ctx) : option parsed :=
  match fuel with
  | O => None
  | S f =>
      match getopt s with
      | (DONE, s) => Some (match args s with [] => EXIT 2 [] | cmd => COMMAND ctx cmd end)
      | (OPT c optarg, s) =>
          r ← on_option c optarg ctx;
          match r with inl ctx => options f s ctx | inr p => Some p end
      end
  end.

(** Every call of [getopt] but the last consumes a character. *)
Definition scan_size (s : scan) : nat := length (nextchar s) + sum_list (S ∘ length <$> args s).
Definition parse_args (ctx : emuroot_ctx) (argv : list cstr) : option parsed :=
  options (S (scan_size (Scan [] argv))) (Scan [] argv) ctx.

(** [main] with the arguments after the program's name: the exit status and
    standard output.  [run] is [emuroot_run] with the environment inherited,
    [None] while the guest runs. *)
Definition main (created : option emuroot_ctx) (argv : list cstr) (run : emuroot_ctx -> list cstr -> option Z) : option (Z * cstr) :=
  match created with
  | None => Some (1, [])
  | Some ctx =>
      p ← parse_args ctx argv;
      match p with
      | EXIT status out => Some (status, out)
      | COMMAND ctx cmd => rc ← run ctx cmd; Some (if rc <? 0 then 1 else Z.land rc 0xff, [])
      end
  end.
End main.

(** ** Lemmas *)

Lemma split_colon_app a b : ":" ∉ a -> split_colon (a ++ ":" :: b) = Some (a, b).
Proof.
  induction a as [|c a IH]; intros Ha; [done|]; cbn [app split_colon].
  apply not_elem_of_cons in Ha as [Hc Ha]; rewrite (proj2 (Ascii.eqb_neq _ _)) by congruence; by rewrite IH.
Qed.

Lemma scan_ids_print u g : is_u32 u -> is_u32 g -> scan_ids (print_u u ++ ":" :: print_u g) = Some (u, g).
Proof.
  unfold is_u32; intros Hu Hg; unfold scan_ids, scan_u.
  pose proof (scan_print_u [] u (":" :: print_u g)) as H1; cbn [app] in H1; rewrite H1 by (done || (unfold is_u64; lia)).
  cbn [mbind option_bind]; pose proof (scan_print_u [] g []) as H2; cbn [app] in H2; rewrite app_nil_r in H2.
  rewrite H2 by (done || (unfold is_u64; lia)); cbn [mbind option_bind]; unfold w32; by rewrite !Z.mod_small by lia.
Qed.

(** A field %64[^:] can read. *)
Definition field_ok (x : cstr) : Prop := ":" ∉ x /\ 0 < strlen x <= 64.

Lemma take_while_colon x rest :
  ":" ∉ x -> rest = [] \/ head rest = Some ":" ->
  take_while (fun c => negb (Ascii.eqb c ":")) (x ++ rest) = x.
Proof.
  intros Hx Hr; induction x as [|c x IH]; cbn [app].
  - destruct Hr as [->|Hr]; [done|]; destruct rest as [|c rest]; [done|]; injection Hr as ->; done.
  - apply not_elem_of_cons in Hx as [Hc Hx]; cbn [take_while]; rewrite (proj2 (Ascii.eqb_neq _ _)) by congruence.
    cbn [negb]; by rewrite IH.
Qed.

Lemma scan_field_app x rest : field_ok x -> rest = [] \/ head rest = Some ":" -> scan_field (x ++ rest) = Some (x, rest).
Proof.
  intros [Hx Hl] Hr; unfold scan_field; rewrite take_while_colon by done; rewrite ztake_ge by lia.
  destruct x as [|c x]; [unfold strlen in Hl; simpl in Hl; lia|].
  f_equal; f_equal; unfold zdrop, strlen; rewrite Nat2Z.id; by rewrite drop_app_length.
Qed.

Lemma scan_uname_print s r m :
  field_ok s -> field_ok r -> field_ok m -> scan_uname (s ++ ":" :: r ++ ":" :: m) = (s, r, m).
Proof.
  intros Hs Hr Hm; unfold scan_uname; rewrite scan_field_app by (done || by constructor 2).
  rewrite scan_field_app by (done || by constructor 2).
  pose proof (scan_field_app m [] Hm) as H; rewrite app_nil_r in H; by rewrite H by (by constructor 1).
Qed.

(** ** Options and configuration calls *)

(** What a configuration call looks like on the command line, and which can be
    written there. *)
Definition to_args (k : config_call) : list cstr :=
  match k with
  | SET_ROOT (Some p) => [lit "-r"; p]
  | BIND (Some h) (Some g) => [lit "-b"; h ++ ":" :: g]
  | SET_FAKE_IDS u g => [lit "-u"; print_u u ++ ":" :: print_u g]
  | SET_FAKE_UNAME (Some s) (Some r) (Some m) => [lit "-n"; s ++ ":" :: r ++ ":" :: m]
  | SET_IDS_FILE (Some f) => [lit "-s"; f]
  | SET_VERBOSE _ => [lit "-v"]
  | _ => []
  end.
Definition expressible (k : config_call) : Prop :=
  match k with
  | SET_ROOT (Some _) | SET_IDS_FILE (Some _) => True
  | BIND (Some h) (Some _) => ":" ∉ h
  | SET_FAKE_IDS u g => is_u32 u /\ is_u32 g
  | SET_FAKE_UNAME (Some s) (Some r) (Some m) => field_ok s /\ field_ok r /\ field_ok m
  | SET_VERBOSE v => v = 1
  | _ => False
  end.

Lemma options_step diagnose k f rest ctx :
  expressible k -> options diagnose (S f) (Scan [] (to_args k ++ rest)) ctx = options diagnose f (Scan [] rest) (config_step ctx k).1.
Proof.
  destruct k as [[p|]|[h|] [g|]|g|u g|[s|] [r|] [m|]|[p|]|v]; cbn [expressible]; try done; intros Hk; try reflexivity.
  - cbn [to_args app options getopt take_option]; cbn -[split_colon emuroot_bind options]; by rewrite split_colon_app.
  - cbn [to_args app options getopt take_option]; cbn -[scan_ids print_u emuroot_set_fake_ids options]; by rewrite scan_ids_print by tauto.
  - cbn [to_args app options getopt take_option]; cbn -[scan_uname emuroot_set_fake_uname options]; by rewrite scan_uname_print by tauto.
  - by subst v.
Qed.

Lemma options_run diagnose ks : forall f rest ctx,
  Forall expressible ks ->
  options diagnose (length ks + f) (Scan [] (concat (to_args <$> ks) ++ rest)) ctx = options diagnose f (Scan [] rest) (config_run ctx ks).
Proof.
  induction ks as [|k ks IH]; intros f rest ctx Hf; [done|]; apply list.Forall_cons in Hf as [Hk Hf].
  cbn [length plus fmap list_fmap concat]; rewrite <- app_assoc, options_step by done; by apply IH.
Qed.

(** ** The loop ends *)

Lemma take_option_size c next l :
  match take_option c next l with
  | (OPT _ _, s) => (scan_size s < S (length next) + sum_list (S ∘ length <$> l))%nat
  | (DONE, _) => False
  end.
Proof.
  unfold take_option, scan_size; destruct (takes_argument c) as [[]|]; cbn [nextchar args]; [|lia|lia].
  destruct next as [|x next]; [destruct l as [|a l]|]; cbn; lia.
Qed.

Lemma getopt_size s : match getopt s with (OPT _ _, s') => (scan_size s' < scan_size s)%nat | (DONE, _) => True end.
Proof.
  destruct s as [[|c next] l]; unfold getopt; cbn [nextchar args].
  2: { pose proof (take_option_size c next l); destruct (take_option c next l) as [[]]; [exact H|done]. }
  destruct l as [|a rest]; [done|].
  assert (forall c cs, match take_option c cs rest with (OPT _ _, s') => (scan_size s' < S (S (S (length cs))) + sum_list (S ∘ length <$> rest))%nat
                                                      | (DONE, _) => True end) as Hto.
  { intros c cs; pose proof (take_option_size c cs rest); destruct (take_option c cs rest) as [[]]; [lia|done]. }
  destruct a as [|d [|c cs]]; [done|by destruct d as [[] [] [] [] [] [] [] []]|].
  destruct (decide (d = "-")) as [->|Hd]; [|by destruct d as [[] [] [] [] [] [] [] []]].
  destruct (_ && _); [done|exact (Hto c cs)].
Qed.

Lemma options_total diagnose fuel : forall s ctx,
  is_Some diagnose -> (scan_size s < fuel)%nat -> is_Some (options diagnose fuel s ctx).
Proof.
  induction fuel as [|fuel IH]; intros s ctx [[report rc] Hd] Hf; [lia|]; cbn [options].
  pose proof (getopt_size s) as Hs; destruct (getopt s) as [[c a|] s']; [|by destruct (args s'); eexists].
  assert (is_Some (on_option diagnose c a ctx)) as [r Hr].
  { unfold on_option; rewrite Hd; cbn [mbind option_bind]; destruct (scan_uname a) as [[? ?] ?];
      destruct c as [[] [] [] [] [] [] [] []]; by eexists. }
  rewrite Hr; cbn [mbind option_bind]; destruct r as [ctx'|p]; [apply IH; [by eexists|lia]|by eexists].
Qed.

Lemma parse_args_total diagnose ctx argv : is_Some diagnose -> is_Some (parse_args diagnose ctx argv).
Proof. intros Hd; by apply options_total; [|lia]. Qed.

(** Where the command starts: after "--", or with a word that is no option. *)
Definition command_at (rest cmd : list cstr) : Prop :=
  cmd <> [] /\ (rest = lit "--" :: cmd \/ (rest = cmd /\ forall c cs, head cmd <> Some ("-" :: c :: cs))).

Lemma getopt_done rest cmd : command_at rest cmd -> getopt (Scan [] rest) = (DONE, Scan [] cmd).
Proof.
  intros [Hne [->|[-> Hc]]]; [done|]; unfold getopt; cbn [nextchar args]; destruct cmd as [|[|d [|c cs]] l]; [done|done| |].
  - by destruct d as [[] [] [] [] [] [] [] []].
  - destruct (decide (d = "-")) as [->|Hd]; [by elim (Hc c cs)|by destruct d as [[] [] [] [] [] [] [] []]].
Qed.

Lemma to_args_length ks : Forall expressible ks -> (length ks <= length (concat (to_args <$> ks)))%nat.
Proof.
  induction ks as [|k ks IH]; intros Hf; [done|]; apply list.Forall_cons in Hf as [Hk Hf]; cbn [fmap list_fmap concat length].
  rewrite length_app; assert (1 <= length (to_args k))%nat; [|specialize (IH Hf); lia].
  destruct k as [[]|[] []|?|? ?|[] [] []|[]|?]; cbn in *; try done; lia.
Qed.

Lemma args_size l : (length l <= scan_size (Scan [] l))%nat.
Proof. unfold scan_size; induction l as [|a l IH]; cbn in *; lia. Qed.

(** ** Properties *)

(** C22: the command line says what it configures. For any sequence of
    configuration calls the options can express - a binding's host path without
    a colon, 32-bit ids, uname fields of 1 to 64 characters without a colon -
    written as options in that order, and then the command, directly or after
    "--", the program is run with the command's words unchanged in exactly the
    context those calls build, and its result is the exit status. *)
Theorem command_line_means (diagnose : option (cstr * Z)) (run : emuroot_ctx -> list cstr -> option Z)
    (ctx : emuroot_ctx) (ks : list config_call) (rest cmd : list cstr) (rc : Z) :
  Forall expressible ks -> command_at rest cmd -> run (config_run ctx ks) cmd = Some rc -> 0 <= rc < 256 ->
  main diagnose (Some ctx) (concat (to_args <$> ks) ++ rest) run = Some (rc, []).
Proof.
  intros Hks Hcmd Hrun Hrc; unfold main, parse_args; set (argv := concat (to_args <$> ks) ++ rest).
  assert (exists f, S (scan_size (Scan [] argv)) = (length ks + S f)%nat) as [f ->].
  { exists (scan_size (Scan [] argv) - length ks)%nat; pose proof (args_size argv); pose proof (to_args_length ks Hks).
    unfold argv in *; rewrite length_app in *; lia. }
  unfold argv; rewrite options_run by done; cbn [options]; rewrite (getopt_done rest cmd) by done; cbn [args].
  destruct Hcmd as [Hne _]; destruct cmd as [|x cmd]; [done|]; cbn [mbind option_bind]; rewrite Hrun; cbn [mbind option_bind].
  rewrite (proj2 (Z.ltb_ge _ _)) by lia; change 0xff with (Z.ones 8); rewrite Z.land_ones, Z.mod_small by lia; done.
Qed.

Lemma command_line_means_witness :
  main None (emuroot_create true)
    [lit "-r"; lit "/srv/ubuntu/"; lit "-b"; lit "/proc:/proc"; lit "-u"; lit "0:1000"; lit "-v"; lit "--"; lit "sh"; lit "-c"; lit "id"]
    (fun ctx cmd => Some (if bool_decide (root ctx = lit "/srv/ubuntu" /\ cmd = [lit "sh"; lit "-c"; lit "id"]) then 42 else 0)) = Some (42, []).
Proof.
  apply (command_line_means None
    (fun ctx cmd => Some (if bool_decide (root ctx = lit "/srv/ubuntu" /\ cmd = [lit "sh"; lit "-c"; lit "id"]) then 42 else 0))
    (default (Ctx [] [] 0 false 0 0 false [] [] [] [] None false) (emuroot_create true))
    [SET_ROOT (Some (lit "/srv/ubuntu/")); BIND (Some (lit "/proc")) (Some (lit "/proc")); SET_FAKE_IDS 0 1000; SET_VERBOSE 1]
    [lit "--"; lit "sh"; lit "-c"; lit "id"] [lit "sh"; lit "-c"; lit "id"] 42).
  - constructor; [exact I|constructor; [vm_compute; intros Hx; inversion Hx as [|? ? ? Hy]; repeat (inversion Hy as [|? ? ? Hz]; subst; clear Hy; rename Hz into Hy)|]].
    constructor; [split; split; reflexivity || discriminate|constructor; [reflexivity|constructor]].
  - split; [discriminate|constructor 1; reflexivity].
  - vm_compute; reflexivity.
  - lia.
Defined.
