(* ===== verification/Jni.v ===== *)
(** The Java binding ([src/android/.../emuroot_jni.c]): Java strings and arrays
    as C ones, the configuration calls, and the start of a guest whose standard
    streams are pipes. *)

From Stdlib Require Import ZArith Lia Ascii String.
From stdpp Require Import base list numbers gmap.
From S2P Require Import Prelude Stdio Config Arch Spawn Probe.
Local Open Scope Z_scope.

(** ** Strings and arrays *)

(** A Java string: [None] for null, and for one that GetStringUTFChars cannot
    convert. *)
Abbreviation jstring := (option cstr).

(** The strings of [to_strv] up to its first NULL, which is where a C array of
    strings ends: [dup i] tells whether strdup has memory for element [i]. *)
Fixpoint dup_until (dup : nat -> bool) (i : nat) (array : list jstring) : list cstr :=
  match array with
  | [] => []
  | s :: array => if dup i then default [] s :: dup_until dup (S i) array else []
  end.
Definition to_strv (calloc : bool) (dup : nat -> bool) (array : option (list jstring)) : option (list cstr) :=
  l ← array; if calloc then Some (dup_until dup 0 l) else None.

(** [WITH_UTF]: the body with a string that converts, else [rc] as it was. *)
Definition with_utf {A} (s : jstring) (rc : A) (body : cstr -> A) : A :=
  match s with Some p => body p | None => rc end.

(** ** Configuration *)

Definition nativeSetRoot (ctx : emuroot_ctx) (path : jstring) : emuroot_ctx * Z :=
  with_utf path (ctx, EMUROOT_ERR_INVAL) (fun p => emuroot_set_root ctx (Some p)).
Definition nativeBind (ctx : emuroot_ctx) (host guest : jstring) : emuroot_ctx * Z :=
  with_utf host (ctx, EMUROOT_ERR_INVAL) (fun h =>
  with_utf guest (ctx, EMUROOT_ERR_INVAL) (fun g => emuroot_bind ctx (Some h) (Some g))).
(** The parameters are [jint], converted to [unsigned]. *)
Definition nativeSetFakeIds (ctx : emuroot_ctx) (uid gid : Z) : emuroot_ctx * Z := emuroot_set_fake_ids ctx uid gid.
Definition nativeSetFakeUname (ctx : emuroot_ctx) (sys rel machine : jstring) : emuroot_ctx * Z :=
  with_utf sys (ctx, EMUROOT_ERR_INVAL) (fun s =>
  with_utf rel (ctx, EMUROOT_ERR_INVAL) (fun r =>
  with_utf machine (ctx, EMUROOT_ERR_INVAL) (fun m => emuroot_set_fake_uname ctx (Some s) (Some r) (Some m)))).
Definition nativeSetIdsFile (ctx : emuroot_ctx) (path : jstring) : emuroot_ctx * Z :=
  with_utf path (ctx, EMUROOT_ERR_INVAL) (fun p => emuroot_set_ids_file ctx (Some p)).
Definition nativeSetVerbose (ctx : emuroot_ctx) (on : bool) : emuroot_ctx * Z :=
  emuroot_set_verbose ctx (if on then 1 else 0).

(** ** The other calls *)

Definition nativeCreate (allocated : bool) : option emuroot_ctx := emuroot_create allocated.
Definition nativeWait (rs : list (Z + Z)) : option Z := emuroot_wait rs.
Definition nativeTerminate (pid : Z) : Z * Z := emuroot_terminate pid.
(** [char report[2048]], [char v[64]]. *)
Definition nativeDiagnose (a : arch) (s : system) : option cstr := fst <$> emuroot_diagnose a s 2048.
Definition nativeVersion : cstr := emuroot_version_string 64.

(** ** Starting a guest *)

Inductive stream := STDIN | STDOUT | STDERR.
(** What a descriptor refers to: an end of one of the pipes, or something else. *)
Inductive file := End_ (s : stream) (write : bool) | Other (n : Z).
Notation fds := (gmap Z file).

(** [pipe2] picks a pair of descriptors, or fails. *)
Definition allocator : Type := stream -> fds -> option (Z * Z).
Definition alloc_fresh (alloc : allocator) : Prop :=
  forall s t r w, alloc s t = Some (r, w) -> 0 <= r /\ 0 <= w /\ r <> w /\ t !! r = None /\ t !! w = None.

(** The array of the pipe's ends, the table, and whether the call succeeded. *)
Definition no_pipe : Z * Z := (-1, -1).
Definition pipe2 (alloc : allocator) (s : stream) (t : fds) : (Z * Z) * fds * bool :=
  match alloc s t with
  | Some (r, w) => ((r, w), <[w := End_ s true]> (<[r := End_ s false]> t), true)
  | None => (no_pipe, t, false)
  end.

(** [if (fd >= 0) close(fd)], and the loop at [done]. *)
Definition close_fd (t : fds) (fd : Z) : fds := if 0 <=? fd then delete fd t else t.
Definition close_ends (i o e : Z * Z) (t : fds) : fds := foldl close_fd t [i.1; o.1; e.1; i.2; o.2; e.2].

Record started := Started {
  js_fds : fds;
  js_result : option (list Z);                          (* the array for the caller *)
  js_spawned : option (emuroot_spawn_opts_t * fds)      (* the call of emuroot_spawn *)
}.

(** [forked]: what fork returns; [array]: can the Java array be made? *)
Definition nativeStart (alloc : allocator) (ctx : option emuroot_ctx) (argv : option (list cstr))
    (forked : Z) (array : bool) (t : fds) : started :=
  let ready := match argv with Some (_ :: _) => true | _ => false end in
  let '(i, t, ok) := if ready then pipe2 alloc STDIN t else (no_pipe, t, false) in
  let '(o, t, ok) := if ok : bool then pipe2 alloc STDOUT t else (no_pipe, t, false) in
  let '(e, t, ok) := if ok : bool then pipe2 alloc STDERR t else (no_pipe, t, false) in
  if negb ok then Started (close_ends i o e t) None None
  else
    let opts := SpawnOpts i.1 o.2 e.2 true in
    let pid := (emuroot_spawn ctx argv forked).1 in
    if pid <? 0 then Started (close_ends i o e t) None (Some (opts, t))
    else
      let mine := foldl close_fd t [i.1; o.2; e.2] in
      let result := if array then Some [pid; i.2; o.1; e.1] else None in
      (* every entry of the arrays is now -1 *)
      Started (close_ends no_pipe no_pipe no_pipe mine) result (Some (opts, t)).

(** ** Lemmas *)

Lemma pipe2_ok alloc s t p t' :
  alloc_fresh alloc -> pipe2 alloc s t = (p, t', true) ->
  0 <= p.1 /\ 0 <= p.2 /\ p.1 <> p.2 /\ t !! p.1 = None /\ t !! p.2 = None /\ t' = <[p.2 := End_ s true]> (<[p.1 := End_ s false]> t).
Proof.
  unfold pipe2; intros Hf; destruct (alloc s t) as [[r w]|] eqn:E; [|done]; intros [= <- <-].
  apply Hf in E; cbn [fst snd]; tauto.
Qed.

Lemma pipe2_failed alloc s t p t' : pipe2 alloc s t = (p, t', false) -> p = no_pipe /\ t' = t.
Proof. unfold pipe2; destruct (alloc s t) as [[r w]|]; [done|]; by intros [= <- <-]. Qed.

(** Opening a pipe and closing its ends. *)
Lemma close_pipe (p : Z * Z) s (t : fds) :
  0 <= p.1 -> 0 <= p.2 -> t !! p.1 = None -> t !! p.2 = None ->
  close_fd (close_fd (<[p.2 := End_ s true]> (<[p.1 := End_ s false]> t)) p.1) p.2 = t.
Proof.
  intros H1 H2 Ht1 Ht2; unfold close_fd; rewrite !(proj2 (Z.leb_le _ _)) by done; apply map_eq; intros k.
  destruct (decide (k = p.2)) as [->|]; [by rewrite lookup_delete_eq|]; rewrite lookup_delete_ne by done.
  destruct (decide (k = p.1)) as [->|]; [by rewrite lookup_delete_eq|]; by rewrite lookup_delete_ne, !lookup_insert_ne.
Qed.

(** The table after the three pipes are open. *)
Definition with_pipes (i o e : Z * Z) (t : fds) : fds :=
  let put s p t := <[p.2 := End_ s true]> (<[p.1 := End_ s false]> t) in
  put STDERR e (put STDOUT o (put STDIN i t)).

(** Six descriptors, all new and all different. *)
Definition new_ends (i o e : Z * Z) (t : fds) : Prop :=
  let l := [i.1; i.2; o.1; o.2; e.1; e.2] in NoDup l /\ Forall (fun x => 0 <= x /\ t !! x = None) l.

Ltac at_fd k x := destruct (decide (k = x)) as [->|]; [by simplify_map_eq|].

Lemma new_ends_facts i o e t : new_ends i o e t ->
  (0 <= i.1 /\ 0 <= i.2 /\ 0 <= o.1 /\ 0 <= o.2 /\ 0 <= e.1 /\ 0 <= e.2) /\
  (t !! i.1 = None /\ t !! i.2 = None /\ t !! o.1 = None /\ t !! o.2 = None /\ t !! e.1 = None /\ t !! e.2 = None) /\
  NoDup [i.1; i.2; o.1; o.2; e.1; e.2].
Proof.
  intros [Hn Hf]; repeat match goal with H : Forall _ (_ :: _) |- _ => apply list.Forall_cons in H as [[? ?] ?] end; done.
Qed.

Lemma distinct6 (a b c d e f : Z) : NoDup [a; b; c; d; e; f] ->
  (a <> b /\ a <> c /\ a <> d /\ a <> e /\ a <> f) /\ (b <> c /\ b <> d /\ b <> e /\ b <> f) /\
  (c <> d /\ c <> e /\ c <> f) /\ (d <> e /\ d <> f) /\ e <> f.
Proof. intros H; repeat (apply list.NoDup_cons in H as [?%not_elem_of_cons H]); repeat setoid_rewrite not_elem_of_cons in H; set_solver. Qed.

Lemma close_all_ends i o e t : new_ends i o e t -> close_ends i o e (with_pipes i o e t) = t.
Proof.
  intros (H0 & Ht & Hd%distinct6)%new_ends_facts; unfold close_ends, close_fd, with_pipes; cbn [foldl].
  rewrite !(proj2 (Z.leb_le _ _)) by tauto; apply map_eq; intros k; destruct_and!.
  at_fd k (i.1); at_fd k (i.2); at_fd k (o.1); at_fd k (o.2); at_fd k (e.1); at_fd k (e.2); by simplify_map_eq.
Qed.

(** The ends the caller is left with: the outer ones. *)
Definition with_outer_ends (i o e : Z * Z) (t : fds) : fds :=
  <[i.2 := End_ STDIN true]> (<[o.1 := End_ STDOUT false]> (<[e.1 := End_ STDERR false]> t)).

Lemma close_supervisor_ends i o e t : new_ends i o e t ->
  foldl close_fd (with_pipes i o e t) [i.1; o.2; e.2] = with_outer_ends i o e t.
Proof.
  intros (H0 & Ht & Hd%distinct6)%new_ends_facts; unfold close_fd, with_pipes, with_outer_ends; cbn [foldl].
  rewrite !(proj2 (Z.leb_le _ _)) by tauto; apply map_eq; intros k; destruct_and!.
  at_fd k (i.1); at_fd k (i.2); at_fd k (o.1); at_fd k (o.2); at_fd k (e.1); at_fd k (e.2); by simplify_map_eq.
Qed.

Lemma close_one_pipe i t :
  0 <= i.1 -> 0 <= i.2 -> t !! i.1 = None -> t !! i.2 = None ->
  close_ends i no_pipe no_pipe (<[i.2 := End_ STDIN true]> (<[i.1 := End_ STDIN false]> t)) = t.
Proof. intros; by apply (close_pipe i STDIN t). Qed.

(** Closing what is open of the second pipe leaves the first. *)
Lemma close_two_pipes i o t :
  0 <= i.1 -> 0 <= i.2 -> i.1 <> i.2 -> t !! i.1 = None -> t !! i.2 = None ->
  let t1 := <[i.2 := End_ STDIN true]> (<[i.1 := End_ STDIN false]> t) in
  0 <= o.1 -> 0 <= o.2 -> o.1 <> o.2 -> t1 !! o.1 = None -> t1 !! o.2 = None ->
  close_ends i o no_pipe (<[o.2 := End_ STDOUT true]> (<[o.1 := End_ STDOUT false]> t1)) = t.
Proof.
  intros Hi1 Hi2 Hi Ht1 Ht2 t1 Ho1 Ho2 Ho [[Ha ?]%lookup_insert_None ?]%lookup_insert_None [[Hb ?]%lookup_insert_None ?]%lookup_insert_None.
  unfold close_ends, close_fd, t1; cbn [foldl no_pipe fst snd]; change (0 <=? -1) with false; cbv iota.
  rewrite !(proj2 (Z.leb_le _ _)) by done; apply map_eq; intros k.
  at_fd k (i.1); at_fd k (i.2); at_fd k (o.1); at_fd k (o.2); by simplify_map_eq.
Qed.

Lemma three_pipes alloc i o e (t t1 t2 t3 : fds) :
  alloc_fresh alloc -> pipe2 alloc STDIN t = (i, t1, true) -> pipe2 alloc STDOUT t1 = (o, t2, true) ->
  pipe2 alloc STDERR t2 = (e, t3, true) -> new_ends i o e t /\ t3 = with_pipes i o e t.
Proof.
  intros Hf (?&?&?&Hi1&Hi2& ->)%pipe2_ok (?&?&?&Ho1&Ho2& ->)%pipe2_ok (?&?&?&He1&He2& ->)%pipe2_ok; try done.
  split; [|done]; repeat match goal with H : <[_ := _]> _ !! _ = None |- _ => apply lookup_insert_None in H as [? ?] end.
  split; [|by repeat constructor]; repeat (apply list.NoDup_cons; split; [rewrite ?not_elem_of_cons; split_and?; try done; apply not_elem_of_nil|]).
  constructor.
Qed.

(** The guest's standard streams, when no pipe is among them already. *)
Lemma stdio_pipes i o e t :
  new_ends i o e t -> is_Some (t !! 0) -> is_Some (t !! 1) -> is_Some (t !! 2) ->
  stdio (SpawnOpts i.1 o.2 e.2 true) (with_pipes i o e t) =
  Some (<[2 := End_ STDERR true]> (<[1 := End_ STDOUT true]> (<[0 := End_ STDIN false]> (with_pipes i o e t)))).
Proof.
  intros (H0 & Ht & Hd%distinct6)%new_ends_facts Hin Hout Herr.
  assert (forall x y, t !! x = None -> is_Some (t !! y) -> y <> x) as Hne by (intros x y Hx [c Hy] ->; congruence).
  destruct_and!; pose proof (Hne o.2 0 ltac:(done) Hin); pose proof (Hne e.2 0 ltac:(done) Hin); pose proof (Hne e.2 1 ltac:(done) Hout).
  assert (with_pipes i o e t !! i.1 = Some (End_ STDIN false) /\ with_pipes i o e t !! o.2 = Some (End_ STDOUT true) /\
          with_pipes i o e t !! e.2 = Some (End_ STDERR true)) as (Hi & Ho & He).
  { unfold with_pipes; split_and?; by simplify_map_eq. }
  revert Hi Ho He; generalize (with_pipes i o e t); intros w Hi Ho He; unfold stdio, place, dup2; cbn [stdin_fd stdout_fd stderr_fd].
  rewrite !(proj2 (Z.leb_le _ _)) by done; rewrite Hi; cbn [mbind option_bind].
  rewrite lookup_insert_ne, Ho by done; cbn [mbind option_bind].
  by rewrite !lookup_insert_ne, He by done.
Qed.

(** ** Properties *)

(** C21: which descriptors a start from Java leaves open. Whatever the kernel's
    choice of new descriptors and wherever a step fails: when the caller gets an
    array, it holds the process and the outer ends of the three pipes, and these
    ends are all that has been added to the open descriptors. When it gets null,
    either nothing has been added and no guest runs; or the guest runs, its
    array could not be made, and the three outer ends stay open with nobody to
    close them (a finding). The supervisor is started with the inner ends: if the
    caller's descriptors 0, 1 and 2 are in use, so that no pipe gets them, the
    guest's stdin, stdout and stderr are these. *)
Theorem start_hands_over (alloc : allocator) (ctx : option emuroot_ctx) (argv : option (list cstr))
    (forked : Z) (array : bool) (t : fds) :
  alloc_fresh alloc ->
  let r := nativeStart alloc ctx argv forked array t in
  match js_result r with
  | Some handed => array = true /\ exists i o e, new_ends i o e t /\ 0 <= forked /\ handed = [forked; i.2; o.1; e.1] /\
      js_fds r = with_outer_ends i o e t
  | None =>
      js_fds r = t /\ (js_spawned r = None \/ (emuroot_spawn ctx argv forked).1 < 0) \/
      array = false /\ is_Some (js_spawned r) /\ (emuroot_spawn ctx argv forked).1 = forked /\ 0 <= forked /\
        exists i o e, new_ends i o e t /\ js_fds r = with_outer_ends i o e t
  end /\
  forall opts ts, js_spawned r = Some (opts, ts) -> is_Some (t !! 0) -> is_Some (t !! 1) -> is_Some (t !! 2) ->
    exists tg, stdio opts ts = Some tg /\ tg !! 0 = Some (End_ STDIN false) /\ tg !! 1 = Some (End_ STDOUT true) /\ tg !! 2 = Some (End_ STDERR true).
Proof.
  intros Hf; unfold nativeStart; destruct (match argv with Some (_ :: _) => true | _ => false end) eqn:Hargv; [|split; [constructor 1; split; [done|by constructor 1]|done]].
  destruct (pipe2 alloc STDIN t) as [[i t1] ok1] eqn:E1; destruct ok1;
    [|apply pipe2_failed in E1 as [-> ->]; split; [constructor 1; split; [done|by constructor 1]|done]].
  pose proof (pipe2_ok _ _ _ _ _ Hf E1) as (Hi1 & Hi2 & Hi & Hin1 & Hin2 & Ht1).
  destruct (pipe2 alloc STDOUT t1) as [[o t2] ok2] eqn:E2; destruct ok2.
  2: { apply pipe2_failed in E2 as [-> ->]; cbn [negb js_result js_fds js_spawned]; split; [|done].
       constructor 1; split; [rewrite Ht1; by apply close_one_pipe|by constructor 1]. }
  pose proof (pipe2_ok _ _ _ _ _ Hf E2) as (Ho1 & Ho2 & Ho & Hon1 & Hon2 & Ht2).
  destruct (pipe2 alloc STDERR t2) as [[e t3] ok3] eqn:E3; destruct ok3.
  2: { apply pipe2_failed in E3 as [-> ->]; cbn [negb js_result js_fds js_spawned]; split; [|done].
       constructor 1; split; [|by constructor 1]; rewrite Ht2, Ht1; apply close_two_pipes; by rewrite <- ?Ht1. }
  destruct (three_pipes _ _ _ _ _ _ _ _ Hf E1 E2 E3) as [Hnew ->]; clear E1 E2 E3; cbn [negb]; split.
  - assert (0 <= (emuroot_spawn ctx argv forked).1 -> (emuroot_spawn ctx argv forked).1 = forked) as Hpid.
    { unfold emuroot_spawn; destruct ctx; [|done]; destruct argv as [[|? ?]|]; done. }
    destruct (Z.ltb_spec (emuroot_spawn ctx argv forked).1 0) as [Hneg|Hpos]; cbn [js_result js_fds js_spawned].
    + constructor 1; split; [by apply close_all_ends|by constructor 2].
    + pose proof (close_supervisor_ends i o e t Hnew) as Hclosed; destruct array.
      * split; [done|]; exists i, o, e; rewrite Hpid in * by done; done.
      * constructor 2; rewrite Hpid in * by done; split; [done|split; [by eexists|split; [done|split; [done|]]]]; by exists i, o, e.
  - intros opts ts Hs Hin Hout Herr; assert (opts = SpawnOpts i.1 o.2 e.2 true /\ ts = with_pipes i o e t) as [-> ->].
    { destruct (_ <? 0); cbn [js_spawned] in Hs; by injection Hs as <- <-. }
    rewrite (stdio_pipes i o e t) by done; eexists; split; [done|]; by simplify_map_eq.
Qed.

(** An allocator: the two descriptors above all that are open. *)
Definition above (t : fds) : Z := map_fold (fun k _ m => Z.max (k + 1) m) 0 t.
Definition next_fds : allocator := fun _ t => Some (above t, above t + 1).

Lemma above_spec (t : fds) : 0 <= above t /\ forall k, above t <= k -> t !! k = None.
Proof.
  unfold above; apply (map_fold_weak_ind (fun m (t : fds) => 0 <= m /\ forall k, m <= k -> t !! k = None)).
  - split; [done|]; intros k _; apply lookup_empty.
  - intros k x u m _ [Hm Hu]; split; [lia|]; intros j Hj; rewrite lookup_insert_ne by lia; apply Hu; lia.
Qed.

Lemma next_fds_fresh : alloc_fresh next_fds.
Proof.
  intros s t r w; unfold next_fds; intros [= <- <-]; destruct (above_spec t) as [H0 Ht].
  split_and?; [done|lia|lia|apply Ht; lia|apply Ht; lia].
Qed.

Definition tty_fds : fds := <[0 := Other 0]> (<[1 := Other 0]> (<[2 := Other 0]> ∅)).

Lemma start_hands_over_witness :
  let r := nativeStart next_fds (emuroot_create true) (Some [lit "sh"]) 77 true tty_fds in
  js_result r = Some [77; 4; 5; 7] /\
  match js_result r with
  | Some handed => true = true /\ exists i o e, new_ends i o e tty_fds /\ 0 <= 77 /\ handed = [77; i.2; o.1; e.1] /\
      js_fds r = with_outer_ends i o e tty_fds
  | None =>
      js_fds r = tty_fds /\ (js_spawned r = None \/ (emuroot_spawn (emuroot_create true) (Some [lit "sh"]) 77).1 < 0) \/
      true = false /\ is_Some (js_spawned r) /\ (emuroot_spawn (emuroot_create true) (Some [lit "sh"]) 77).1 = 77 /\ 0 <= 77 /\
        exists i o e, new_ends i o e tty_fds /\ js_fds r = with_outer_ends i o e tty_fds
  end.
Proof.
  split; [vm_compute; reflexivity|].
  exact (proj1 (start_hands_over next_fds (emuroot_create true) (Some [lit "sh"]) 77 true tty_fds next_fds_fresh)).
Defined.

(** Without memory for the array, the three outer ends stay open and nobody has
    them; the guest runs on. *)
Lemma array_failure_leaks :
  let r := nativeStart next_fds (emuroot_create true) (Some [lit "sh"]) 77 false tty_fds in
  js_result r = None /\ js_fds r = <[4 := End_ STDIN true]> (<[5 := End_ STDOUT false]> (<[7 := End_ STDERR false]> tty_fds)).
Proof. split; vm_compute; reflexivity. Qed.

(** A string that strdup has no memory for ends the argument array there. *)
Lemma strv_cut :
  to_strv true (fun i => (i <? 2)%nat) (Some [Some (lit "rm"); Some (lit "-r"); Some (lit "/tmp/x")]) = Some [lit "rm"; lit "-r"].
Proof. reflexivity. Qed.
