(* ===== verification/Findings.v ===== *)
(** Where the code does something else than its comments and documentation
    say: closed executions and small lemmas that pin each behaviour down. *)

From Stdlib Require Import ZArith Lia Ascii String.
From stdpp Require Import base list numbers.
From S2P Require Import Prelude Config Path PathFacts Arch Syscalls World Guest ToyKernel GuestFacts Tracee PathArg Identity Rewrite.
From S2P Require Import Owners Exec Fake Safety Ptrace Cli.
Local Open Scope Z_scope.
Local Open Scope emu_scope.

(** ** Paths that leave the root *)

(** "/proc" bound to itself, as the documentation recommends. *)
Definition proc_bound : emuroot_ctx := (emuroot_bind empty_ctx (Some (lit "/proc")) (Some (lit "/proc"))).1.

(** What follows a /proc entry is appended unwalked: the ".." climb out of the
    root, in a path that is not even reported as changed. *)
Lemma proc_rest_escapes :
  emuroot_translate_path_ex (fun _ => None) proc_bound (lit "/r") (lit "/proc/self/../../etc/shadow") true PATH_LEN PATH_LEN =
  Some (Translation (lit "/proc/self/../../etc/shadow") (lit "/proc/self") false).
Proof. vm_compute. reflexivity. Qed.

(** 41 links in the root, each to the next, and the last to "/etc/shadow". *)
Definition chain_link (n : nat) : cstr := lit "/r/" ++ repeat "l"%char n.
Definition chain_fs (p : cstr) : option cstr :=
  match list_find (fun n => chain_link n = p) (seq 1 41) with
  | Some (_, 41%nat) => Some (lit "/etc/shadow")
  | Some (_, n) => Some (repeat "l"%char (S n))
  | None => None
  end.

(** The walk gives up at the 41st link and passes that link to the kernel,
    which follows it on the host. *)
Lemma link_chain_escapes :
  tr_host <$> emuroot_translate_path_ex chain_fs empty_ctx (lit "/r") (lit "/l") true PATH_LEN PATH_LEN = Some (chain_link 41) /\
  chain_fs (chain_link 41) = Some (lit "/etc/shadow").
Proof. split; vm_compute; reflexivity. Qed.

(** A name of more than 255 bytes is cut, not refused: it names another file. *)
Lemma long_name_cut :
  let named n := lit "/" ++ repeat "a"%char n in
  tr_host <$> emuroot_translate_path_ex (fun _ => None) empty_ctx (lit "/r") (named 300%nat) true PATH_LEN PATH_LEN =
  tr_host <$> emuroot_translate_path_ex (fun _ => None) empty_ctx (lit "/r") (named 255%nat) true PATH_LEN PATH_LEN.
Proof. vm_compute. reflexivity. Qed.

(** A binding to a guest path that ends in a slash is not found below it. *)
Lemma slash_binding_unused :
  let ctx := (emuroot_bind empty_ctx (Some (lit "/home/u")) (Some (lit "/data/"))).1 in
  map_to_host ctx (lit "/r") (lit "/data/x") PATH_LEN = lit "/r/data/x".
Proof. vm_compute. reflexivity. Qed.

(** ** Calls that reach the kernel *)

(** setgroups is emulated, but unlike the other credential changes the real call
    is not made harmless. *)
Lemma setgroups_not_neutralised {abi : ABI} `{HostFS W, GuestMem W} (s : engine W) :
  neutralize_id_change (Some A_SETGROUPS) s = Done ((), s).
Proof. reflexivity. Qed.

(** The address of the socket "/s" at 4096: family AF_UNIX, then the path. *)
Definition toy_sun : toy :=
  Toy (toy_page ("001"%char :: NUL :: lit "/s")) (Z.eqb 1) (zero_regs X86_64) true [] [] [] 1000.

(** With a root of 120 characters the host path of a socket does not fit
    [sun_path], and connect goes to the kernel with the guest's own path. *)
Lemma long_socket_path_unredirected :
  let root := lit "/" ++ repeat "r"%char 120 in
  let s := toy_engine toy_sun root 42 [3; 4096; 110] in
  match emuroot_on_entry (abi := x86_64_abi) (fun _ _ => true) s with
  | Done (_, s') => e_regs s' = e_regs s
  | _ => False
  end.
Proof. vm_compute. reflexivity. Qed.

(** ... while with a short root the call is redirected. *)
Lemma short_socket_path_redirected :
  let s := toy_engine toy_sun (lit "/r") 42 [3; 4096; 110] in
  match emuroot_on_entry (abi := x86_64_abi) (fun _ _ => true) s with
  | Done (_, s') => reg_arg X86_64 2 (e_regs s') = 7568
  | _ => False
  end.
Proof. vm_compute. reflexivity. Qed.

(** mount is a path call at slot 1 and its target is slot 2: what the target's
    directory argument would be is the source pointer. *)
Lemma mount_target_dirfd {abi : ABI} sysno :
  is_nr NR_symlink sysno = false -> is_nr NR_inotify_add_watch sysno = false -> dirfd_slot sysno 2 = 1.
Proof. by unfold dirfd_slot; intros -> ->. Qed.

(** ** Signals *)

(** A SIGTRAP sent to the guest is not delivered: it is taken for an event. *)
Lemma sigtrap_swallowed {abi : ABI} `{HostFS W, GuestMem W, EventMsg W} calloc realloc sz kstat mode i t (s : tracer_t (W := W)) :
  v (ts_tab s) !! i = Some t ->
  handle_stop calloc realloc sz kstat mode i (Z.lor (Z.shiftl SIGTRAP 8) 0x7f) s = Done (s, 0).
Proof.
  intros Ht; unfold handle_stop; rewrite Ht; cbn [defined_result mbind result_bind].
  change (WSTOPSIG _) with SIGTRAP; change (Z.shiftr _ 16) with 0; cbv iota.
  by change (SIGTRAP =? SYSCALL_STOP) with false.
Qed.

(** ** Guest memory *)

(** Text that runs into unmapped memory is taken for a complete string. *)
Definition toy_edge : toy :=
  Toy (fun _ => "a"%char) (Z.eqb 1) (zero_regs X86_64) true [] [] [] 1000.

Lemma unterminated_text_accepted :
  (guest_read_str X86_64 (H := toy_guest) (toy_tracer toy_edge) 7 8180 PATH_LEN).2 = Some (repeat "a"%char 12).
Proof. vm_compute. reflexivity. Qed.

(** getcwd(buf, 3) in "/a", bound at "/longdir": the kernel has filled the three
    bytes; the guest path is written over them and the six bytes after the
    buffer. *)
Definition toy_bound_cwd : engine (tracer toy) :=
  let s := toy_engine (Toy (toy_page (lit "/a")) (Z.eqb 1) (zero_regs X86_64) true [] [] [] 1000) (lit "/r") 79 [4096; 3] in
  s <| e_ctx := (emuroot_bind (e_ctx s) (Some (lit "/a")) (Some (lit "/longdir"))).1 |>
    <| e_regs := put X86_64 RET 3 (e_regs s) |> <| e_t := e_t s <| t_sysno := 79 |> |>.
Lemma getcwd_overruns :
  (fun r => prefix_at (kernel (e_world r.2)) 4096 9) <$> emuroot_on_exit (abi := x86_64_abi) calloc_64 x86_64_stat toy_bound_cwd =
  Done (lit "/longdir" ++ [NUL]).
Proof. vm_compute. reflexivity. Qed.

(** ** The command line *)

(** A root that is too long is dropped without a message: the command runs on
    the host's own file system. *)
Lemma long_root_ignored :
  match emuroot_create true with
  | Some ctx => parse_args None ctx [lit "-r"; repeat "r"%char 4096; lit "rm"] = Some (COMMAND ctx [lit "rm"])
  | None => False
  end.
Proof. vm_compute. reflexivity. Qed.

(** A "-n" without a release erases the release and machine of uname. *)
Lemma short_uname_erases :
  scan_uname (lit "Linux") = (lit "Linux", [], []).
Proof. reflexivity. Qed.

(** ** Programs named by a relative path *)

(** A guest in "/home" runs "../../bin/sh": what is opened and inspected is the
    host's /bin/sh, while inside the root the path is /bin/sh under the root. *)
Definition toy_in_home : engine (tracer toy) :=
  toy_engine (Toy (toy_page []) (Z.eqb 1) (zero_regs X86_64) true [(cwd_link 7, lit "/r/home")] [] [] 1000) (lit "/r") 59 [].
Lemma relative_exec_unresolved :
  fst <$> host_path_of (lit "../../bin/sh") PATH_LEN toy_in_home = Done (lit "/r/home/../../bin/sh") /\
  tr_host <$> emuroot_translate_path_ex (fs_readlink (e_world toy_in_home)) (e_ctx toy_in_home) (lit "/r")
    (lit "/home/../../bin/sh") true PATH_LEN 1 = Some (lit "/r/bin/sh").
Proof. split; vm_compute; reflexivity. Qed.
